(** * A shallow embedding of the ghcr-cleanup action core

    The development follows [src/main.ts]: the [CleanupAction] class becomes a
    record of its fields, every method becomes a state-passing function in a
    small error monad, and the two collaborators the class talks to (the
    registry client and the package-metadata client, whose sources are not
    part of this development) are an interface with a reference instance. *)

From Stdlib Require Import Ascii.
From stdpp Require Import gmap strings list sorting.

Open Scope string_scope.
Open Scope list_scope.

#[local] Set Warnings "-clear-no-such-hyp".

(** ** JavaScript helpers *)

(** [s.replace(pat, rep)] with a string pattern: only the first occurrence
    of [pat] is replaced. *)
Fixpoint replace (pat rep s : string) : string :=
  if String.prefix pat s then rep +:+ String.substring (String.length pat) (String.length s - String.length pat) s
  else match s with
       | EmptyString => EmptyString
       | String c s' => String c (replace pat rep s')
       end.

Definition startsWith (pre s : string) : bool := String.prefix pre s.

(** Truthiness of an optional string: [undefined] and [''] are falsy. *)
Definition truthy (o : option string) : bool :=
  match o with
  | Some s => negb (bool_decide (s = ""))
  | None => false
  end.

(** A JavaScript [Set<string>] iterates in insertion order and holds no
    duplicates: a list, with [add] appending only a new element. *)
Definition set_has (x : string) (l : list string) : bool := bool_decide (x ∈ l).
Definition set_add (x : string) (l : list string) : list string :=
  if set_has x l then l else l ++ [x].
Definition set_delete (x : string) (l : list string) : list string :=
  filter (λ y, y ≠ x) l.

(** [new Date(t)] for a number of milliseconds: the time value, or [None]
    for an Invalid Date, which a number further than 8.64e15 ms from the
    epoch gives. *)
Definition newDate (t : Z) : option Z :=
  if bool_decide (-8640000000000000 ≤ t ≤ 8640000000000000)%Z then Some t else None.

(** [a >= b] on two dates compares the time values; with an Invalid Date
    on either side it is false. *)
Definition dateGe (a b : option Z) : bool :=
  match a, b with
  | Some ta, Some tb => bool_decide (tb ≤ ta)%Z
  | _, _ => false
  end.

(** ** Outcome of an asynchronous method *)

(** [Throw] is a rejected promise (the run is aborted by the [catch] of
    [run]); [OutOfFuel] only arises from the recursion bound of
    [deleteImage] below. *)
Inductive result (A : Type) : Type :=
| Ok (a : A)
| Throw
| OutOfFuel.
Arguments Ok {A} a.
Arguments Throw {A}.
Arguments OutOfFuel {A}.

#[global] Instance result_ret : MRet result := λ A a, Ok a.
#[global] Instance result_bind : MBind result := λ A B f m,
  match m with
  | Ok a => f a
  | Throw => Throw
  | OutOfFuel => OutOfFuel
  end.

(** A collaborator call that fails, or a property read on [undefined]. *)
Definition req {A} (o : option A) : result A :=
  match o with
  | Some a => Ok a
  | None => Throw
  end.

(** [for (const x of l) { body }] over a snapshot of the iterated
    collection. The loops of [main.ts] that change the set they iterate only
    delete the element being visited, which a JavaScript [Set] iterator
    tolerates, so iterating the snapshot visits the same elements. *)
Fixpoint forEach {A S : Type} (l : list A) (body : A → S → result S) (s : S) : result S :=
  match l with
  | [] => Ok s
  | x :: l' => s' ← body x s; forEach l' body s'
  end.

(** ** Data model *)

Module Platform.
Record t := {
  architecture : option string;
  variant : option string
}.
End Platform.

Module Descriptor.
(** An entry of [manifest.manifests]. *)
Record t := {
  digest : string;
  platform : option Platform.t;
  artifactType : option string
}.
End Descriptor.

Module Layer.
Record t := { mediaType : string }.
End Layer.

Module Manifest.
(** A manifest as [main.ts] looks at it: the optional [manifests] array (an
    index), the optional [layers] array (a leaf) and the remaining members,
    which the code only carries along. *)
Record t := {
  manifests : option (list Descriptor.t);
  layers : option (list Layer.t);
  other : string
}.
End Manifest.

Module Package.
(** A package version: [id], [name] (the digest), [metadata.container.tags]
    and [updated_at] (milliseconds, [None] when missing or unparseable). *)
Record t := {
  id : positive;
  name : string;
  tags : list string;
  updated_at : option Z
}.
End Package.

Module Config.
(** The fields of [Config] (src/config.ts) that [main.ts] reads.
    [keepNuntagged] and [keepNtagged] are rejected by [getConfig] when
    negative. *)
Record t := {
  deleteTags : option string;
  excludeTags : option string;
  olderThan : option Z;
  deleteUntagged : bool;
  deleteGhostImages : bool;
  deletePartialImages : bool;
  keepNuntagged : option nat;
  keepNtagged : option nat;
  validate : bool
}.
End Config.

Inductive Warning :=
| ChildNotFound (child : string) (parentTags : list string) (parent : string)
| OrphanedReferrer (tag : string).

(** What a run does to the outside world: the mutating collaborator calls,
    in order, and the warnings of the validator. [core.info] lines are not
    recorded. *)
Inductive Event :=
| EDeletePackageVersion (id : positive) (d : string) (tgs : list string) (label : option string)
| EPutManifest (tag : string) (m : Manifest.t) (isIndex : bool)
| EDeleteTag (tag : string)
| ELoadPackages (resetPageCache : bool)
| EWarning (w : Warning).

(** [Date.now()] is read anew for every digest the older-than loop of
    [reload] visits. What the clock shows depends on the moment of the
    call: here on the calls made so far, which tell one reload from the
    next, and on the digest the loop is at. *)
Definition Clock : Type := list Event → string → Z.

(** ** The collaborators *)

(** Modelled from the spec: [registry.ts] and [github-package.ts] are not
    part of the sources at hand, so the registry client and the
    package-metadata client are the operations of the interface section of
    the specification, over a state [R] that stands for both clients and
    the remote store behind them. A read that returns [None] is a rejected
    call, except [getDigestByTag], [getPackageByDigest] and [getIdByDigest],
    where it is [undefined]. Package ids are positive numbers, hence truthy
    whenever present. *)
Class Collaborators (R : Type) := {
  getManifestByDigest : R → string → option Manifest.t;
  getManifestByTag : R → string → option Manifest.t;
  getTagDigest : R → string → option string;
  putManifest : R → string → Manifest.t → bool → option R;
  deleteTag : R → string → R;
  loadPackages : R → bool → option R;
  getDigests : R → list string;
  getTags : R → list string;
  getDigestByTag : R → string → option string;
  getPackageByDigest : R → string → option Package.t;
  getIdByDigest : R → string → option positive;
  deletePackageVersion : R → positive → string → list string → option string → option R
}.

(** What the deletion cascade relies on: a package found under a digest
    carries that digest as its name and is one of the known digests, and
    the loaded package listing is a snapshot that only [loadPackages]
    replaces. *)
Class PackageSnapshot (R : Type) `{Collaborators R} := {
  getPackageByDigest_name r d p :
    getPackageByDigest r d = Some p → Package.name p = d;
  getPackageByDigest_known r d p :
    getPackageByDigest r d = Some p → d ∈ getDigests r;
  deletePackageVersion_getPackageByDigest r i d tgs l r' :
    deletePackageVersion r i d tgs l = Some r' →
    getPackageByDigest r' = getPackageByDigest r;
  deletePackageVersion_getDigests r i d tgs l r' :
    deletePackageVersion r i d tgs l = Some r' →
    getDigests r' = getDigests r
}.

(** ** The action *)

(** The fields of [CleanupAction]; [registry] and [githubPackageRepo] are
    the one collaborator state [collab], and [events] is the trace of the
    run. The counters are natural numbers. *)
Record CleanupAction (R : Type) := {
  collab : R;
  excludeTags : list string;
  filterSet : list string;
  deleteSet : list string;
  tagsInUse : list string;
  digestUsedBy : gmap string (gset string);
  deleted : gset string;
  numberMultiImagesDeleted : nat;
  numberImagesDeleted : nat;
  events : list Event
}.
Arguments collab {R} _.
Arguments excludeTags {R} _.
Arguments filterSet {R} _.
Arguments deleteSet {R} _.
Arguments tagsInUse {R} _.
Arguments digestUsedBy {R} _.
Arguments deleted {R} _.
Arguments numberMultiImagesDeleted {R} _.
Arguments numberImagesDeleted {R} _.
Arguments events {R} _.

Section Fields.
Context {R : Type}.
Implicit Types s : CleanupAction R.

Definition with_collab (r : R) s : CleanupAction R :=
    {| collab := r; excludeTags := excludeTags s; filterSet := filterSet s;
       deleteSet := deleteSet s; tagsInUse := tagsInUse s;
       digestUsedBy := digestUsedBy s; deleted := deleted s;
       numberMultiImagesDeleted := numberMultiImagesDeleted s;
       numberImagesDeleted := numberImagesDeleted s; events := events s |}.

Definition with_excludeTags (x : list string) s : CleanupAction R :=
    {| collab := collab s; excludeTags := x; filterSet := filterSet s;
       deleteSet := deleteSet s; tagsInUse := tagsInUse s;
       digestUsedBy := digestUsedBy s; deleted := deleted s;
       numberMultiImagesDeleted := numberMultiImagesDeleted s;
       numberImagesDeleted := numberImagesDeleted s; events := events s |}.

Definition with_filterSet (x : list string) s : CleanupAction R :=
    {| collab := collab s; excludeTags := excludeTags s; filterSet := x;
       deleteSet := deleteSet s; tagsInUse := tagsInUse s;
       digestUsedBy := digestUsedBy s; deleted := deleted s;
       numberMultiImagesDeleted := numberMultiImagesDeleted s;
       numberImagesDeleted := numberImagesDeleted s; events := events s |}.

Definition with_deleteSet (x : list string) s : CleanupAction R :=
    {| collab := collab s; excludeTags := excludeTags s; filterSet := filterSet s;
       deleteSet := x; tagsInUse := tagsInUse s;
       digestUsedBy := digestUsedBy s; deleted := deleted s;
       numberMultiImagesDeleted := numberMultiImagesDeleted s;
       numberImagesDeleted := numberImagesDeleted s; events := events s |}.

Definition with_tagsInUse (x : list string) s : CleanupAction R :=
    {| collab := collab s; excludeTags := excludeTags s; filterSet := filterSet s;
       deleteSet := deleteSet s; tagsInUse := x;
       digestUsedBy := digestUsedBy s; deleted := deleted s;
       numberMultiImagesDeleted := numberMultiImagesDeleted s;
       numberImagesDeleted := numberImagesDeleted s; events := events s |}.

Definition with_digestUsedBy (x : gmap string (gset string)) s : CleanupAction R :=
    {| collab := collab s; excludeTags := excludeTags s; filterSet := filterSet s;
       deleteSet := deleteSet s; tagsInUse := tagsInUse s;
       digestUsedBy := x; deleted := deleted s;
       numberMultiImagesDeleted := numberMultiImagesDeleted s;
       numberImagesDeleted := numberImagesDeleted s; events := events s |}.

Definition with_deleted (x : gset string) s : CleanupAction R :=
    {| collab := collab s; excludeTags := excludeTags s; filterSet := filterSet s;
       deleteSet := deleteSet s; tagsInUse := tagsInUse s;
       digestUsedBy := digestUsedBy s; deleted := x;
       numberMultiImagesDeleted := numberMultiImagesDeleted s;
       numberImagesDeleted := numberImagesDeleted s; events := events s |}.

Definition with_numberMultiImagesDeleted (x : nat) s : CleanupAction R :=
    {| collab := collab s; excludeTags := excludeTags s; filterSet := filterSet s;
       deleteSet := deleteSet s; tagsInUse := tagsInUse s;
       digestUsedBy := digestUsedBy s; deleted := deleted s;
       numberMultiImagesDeleted := x;
       numberImagesDeleted := numberImagesDeleted s; events := events s |}.

Definition with_numberImagesDeleted (x : nat) s : CleanupAction R :=
    {| collab := collab s; excludeTags := excludeTags s; filterSet := filterSet s;
       deleteSet := deleteSet s; tagsInUse := tagsInUse s;
       digestUsedBy := digestUsedBy s; deleted := deleted s;
       numberMultiImagesDeleted := numberMultiImagesDeleted s;
       numberImagesDeleted := x; events := events s |}.

Definition with_events (x : list Event) s : CleanupAction R :=
    {| collab := collab s; excludeTags := excludeTags s; filterSet := filterSet s;
       deleteSet := deleteSet s; tagsInUse := tagsInUse s;
       digestUsedBy := digestUsedBy s; deleted := deleted s;
       numberMultiImagesDeleted := numberMultiImagesDeleted s;
       numberImagesDeleted := numberImagesDeleted s; events := x |}.

Definition emit (e : Event) s : CleanupAction R :=
    {| collab := collab s; excludeTags := excludeTags s; filterSet := filterSet s;
       deleteSet := deleteSet s; tagsInUse := tagsInUse s;
       digestUsedBy := digestUsedBy s; deleted := deleted s;
       numberMultiImagesDeleted := numberMultiImagesDeleted s;
       numberImagesDeleted := numberImagesDeleted s; events := events s ++ [e] |}.

(** [this.filterSet.delete(d)] and [this.deleteSet.add(d)], the move every
      classifier makes (some in the other order; nothing is awaited between
      the two statements). *)
Definition moveToDeleteSet (d : string) s : CleanupAction R :=
    with_deleteSet (set_add d (deleteSet s)) (with_filterSet (set_delete d (filterSet s)) s).
End Fields.

(** [Array.prototype.sort(compareFn)]. A comparator result that is [NaN]
    (here [None]) counts as [+0]. The comparator is consistent on the
    elements of [l] when "compares equal" is an equivalence on them and
    "compares below" and "compares above" are transitive. *)
Definition consistentComparator {A : Type} (cmp : A → A → option Z) (l : list A) : Prop :=
  let v a b := default 0%Z (cmp a b) in
  ∀ a b c, a ∈ l → b ∈ l → c ∈ l →
    v a a = 0%Z
    ∧ (v a b = 0 → v b a = 0)%Z
    ∧ (v a b = 0 → v b c = 0 → v a c = 0)%Z
    ∧ (v a b < 0 → v b c < 0 → v a c < 0)%Z
    ∧ (0 < v a b → 0 < v b c → 0 < v a c)%Z.

(** What the engine's sort is known to do: the result holds the elements
    of the array, and with a consistent comparator no element of the
    result compares below an element before it. With a comparator that is
    not consistent, as [byDateDescending] with a date missing, the order
    is the engine's own. *)
Class ArraySort := {
  sortBy : ∀ {A : Type}, (A → A → option Z) → list A → list A;
  sortBy_Permutation : ∀ {A : Type} (cmp : A → A → option Z) (l : list A),
    sortBy cmp l ≡ₚ l;
  sortBy_consistent : ∀ {A : Type} (cmp : A → A → option Z) (l : list A),
    consistentComparator cmp l →
    StronglySorted (λ a b, 0 ≤ default 0 (cmp b a))%Z (sortBy cmp l)
}.

(** A sort to run the examples with: stable insertion from the right with a
    strict test. *)
Fixpoint insertBy {A : Type} (cmp : A → A → option Z) (x : A) (l : list A) : list A :=
  match l with
  | [] => [x]
  | y :: l' =>
      if bool_decide (0 < default 0 (cmp x y))%Z then y :: insertBy cmp x l'
      else x :: l
  end.

Definition insertionSortBy {A : Type} (cmp : A → A → option Z) (l : list A) : list A :=
  foldr (insertBy cmp) [] l.

(** The loops that only read the collaborators and collect values. *)
Fixpoint mapM {A B : Type} (f : A → result B) (l : list A) : result (list B) :=
  match l with
  | [] => Ok []
  | x :: l' => y ← f x; ys ← mapM f l'; Ok (y :: ys)
  end.

Section Action.
Context {R : Type} `{Collaborators R} {engine : ArraySort}.

(** [wcmatch p t] is [wcmatch(p.split(','))(t)] of the wildcard-match
    package. *)
Variable wcmatch : string → string → bool.

(** [this.config], set once by the constructor. *)
Variable config : Config.t.

(** [Date.now()], in milliseconds. *)
Variable now : Clock.

Implicit Types s : CleanupAction R.

Definition call_deletePackageVersion (id : positive) (d : string)
    (tgs : list string) (label : option string) s : result (CleanupAction R) :=
  r ← req (deletePackageVersion (collab s) id d tgs label);
  Ok (emit (EDeletePackageVersion id d tgs label) (with_collab r s)).

Definition call_putManifest (tag : string) (m : Manifest.t) (isIndex : bool) s
    : result (CleanupAction R) :=
  r ← req (putManifest (collab s) tag m isIndex);
  Ok (emit (EPutManifest tag m isIndex) (with_collab r s)).

Definition call_deleteTag (tag : string) s : CleanupAction R :=
  emit (EDeleteTag tag) (with_collab (deleteTag (collab s) tag) s).

Definition call_loadPackages (resetPageCache : bool) s : result (CleanupAction R) :=
  r ← req (loadPackages (collab s) resetPageCache);
  Ok (emit (ELoadPackages resetPageCache) (with_collab r s)).

(** *** loadDigestUsedByMap (main.ts 128-163) *)

Definition loadDigestUsedByMap_add (digests : list string) (digest : string)
    (m : gmap string (gset string)) (imageManifest : Descriptor.t)
    : gmap string (gset string) :=
  if set_has (Descriptor.digest imageManifest) digests then
    let parents := default ∅ (m !! Descriptor.digest imageManifest) in
    <[Descriptor.digest imageManifest := parents ∪ {[digest]}]> m
  else m.

Definition loadDigestUsedByMap_body (digests : list string) (digest : string) s
    : result (CleanupAction R) :=
  manifest ← req (getManifestByDigest (collab s) digest);
  match Manifest.manifests manifest with
  | Some ms =>
      Ok (with_digestUsedBy
            (foldl (loadDigestUsedByMap_add digests digest) (digestUsedBy s) ms) s)
  | None => Ok s
  end.

Definition loadDigestUsedByMap s : result (CleanupAction R) :=
  let digests := getDigests (collab s) in
  forEach digests (loadDigestUsedByMap_body digests) (with_digestUsedBy ∅ s).

(** *** trimChildren (main.ts 169-196) *)

Definition deleteEach (ms : list Descriptor.t) (fs : list string) : list string :=
  foldl (λ fs imageManifest, set_delete (Descriptor.digest imageManifest) fs) fs ms.

Definition trimChildren_body (digest : string) s : result (CleanupAction R) :=
  manifest ← req (getManifestByDigest (collab s) digest);
  let s := match Manifest.manifests manifest with
           | Some ms => with_filterSet (deleteEach ms (filterSet s)) s
           | None => s
           end in
  let referrerTag := replace "sha256:" "sha256-" digest in
  if set_has referrerTag (tagsInUse s) && negb (set_has referrerTag (excludeTags s)) then
    referrerDigest ← req (getTagDigest (collab s) referrerTag);
    let s := with_filterSet (set_delete referrerDigest (filterSet s)) s in
    referrerManifest ← req (getManifestByTag (collab s) referrerTag);
    match Manifest.manifests referrerManifest with
    | Some ms => Ok (with_filterSet (deleteEach ms (filterSet s)) s)
    | None => Ok s
    end
  else Ok s.

Definition trimChildren s : result (CleanupAction R) :=
  forEach (getDigests (collab s)) trimChildren_body s.

(** *** reload (main.ts 62-122) *)

(** The exclude-tags block, lines 78-92. *)
Definition reload_excludeTags_step s (tag : string) : CleanupAction R :=
  if wcmatch (default "" (Config.excludeTags config)) tag then
    let s := match getDigestByTag (collab s) tag with
             | Some digest =>
                 if truthy (Some digest)
                 then with_filterSet (set_delete digest (filterSet s)) s
                 else s
             | None => s
             end in
    with_excludeTags (excludeTags s ++ [tag]) s
  else s.

Definition reload_excludeTags s : CleanupAction R :=
  let s := with_excludeTags [] s in
  if truthy (Config.excludeTags config)
  then foldl reload_excludeTags_step s (tagsInUse s)
  else s.

(** The older-than block, lines 94-121. A number is truthy unless it is 0
    (or NaN, which [None] covers). An [updated_at] that does not parse
    gives an Invalid Date, and the digest stays as it does without one. *)
Definition reload_olderThan_body (olderThan : Z) (digest : string) s
    : result (CleanupAction R) :=
  ghPackage ← req (getPackageByDigest (collab s) digest);
  match Package.updated_at ghPackage with
  | Some updated_at =>
      let cutOff := newDate (now (events s) digest - olderThan) in
      let packageDate := newDate updated_at in
      if dateGe packageDate cutOff
      then Ok (with_filterSet (set_delete digest (filterSet s)) s)
      else Ok s
  | None => Ok s
  end.

Definition reload_olderThan s : result (CleanupAction R) :=
  match Config.olderThan config with
  | Some olderThan =>
      if bool_decide (olderThan ≠ 0%Z)
      then forEach (filterSet s) (reload_olderThan_body olderThan) s
      else Ok s
  | None => Ok s
  end.

Definition reload s : result (CleanupAction R) :=
  let s := with_deleted ∅ (with_deleteSet [] s) in
  s ← call_loadPackages true s;
  let s := with_filterSet (getDigests (collab s)) s in
  let s := with_tagsInUse (getTags (collab s)) s in
  s ← loadDigestUsedByMap s;
  s ← trimChildren s;
  let s := reload_excludeTags s in
  reload_olderThan s.

(** *** validate (main.ts 199-246) *)

Definition validate_child (digest : string) (tags : list string)
    (acc : CleanupAction R * list string) (childImage : Descriptor.t)
    : CleanupAction R * list string :=
  let '(s, processedManifests) := acc in
  let processedManifests := set_add (Descriptor.digest childImage) processedManifests in
  match getIdByDigest (collab s) (Descriptor.digest childImage) with
  | Some _ => (s, processedManifests)
  | None =>
      (emit (EWarning (ChildNotFound (Descriptor.digest childImage) tags digest)) s,
       processedManifests)
  end.

Definition validate_body (digest : string) (acc : CleanupAction R * list string)
    : result (CleanupAction R * list string) :=
  let '(s, processedManifests) := acc in
  if set_has digest processedManifests then Ok acc
  else
    manifest ← req (getManifestByDigest (collab s) digest);
    ghPackage ← req (getPackageByDigest (collab s) digest);
    let tags := Package.tags ghPackage in
    match Manifest.manifests manifest with
    | Some ms => Ok (foldl (validate_child digest tags) acc ms)
    | None => Ok acc
    end.

Definition validate_referrer s (tag : string) : CleanupAction R :=
  if startsWith "sha256-" tag then
    let digest := replace "sha256-" "sha256:" tag in
    match getIdByDigest (collab s) digest with
    | Some _ => s
    | None => emit (EWarning (OrphanedReferrer tag)) s
    end
  else s.

Definition validate s : result (CleanupAction R) :=
  '(s, _) ← forEach (getDigests (collab s)) validate_body (s, []);
  Ok (foldl validate_referrer s (tagsInUse s)).

(** *** buildLabel (main.ts 248-285) *)

Definition buildLabel (r : R) (imageManifest : Descriptor.t) : result string :=
  match Descriptor.platform imageManifest with
  | Some platform =>
      let label := if truthy (Platform.architecture platform)
                   then default "" (Platform.architecture platform) else "" in
      if bool_decide (label ≠ "unknown") then
        let label := if truthy (Platform.variant platform)
                     then label +:+ "/" +:+ default "" (Platform.variant platform)
                     else label in
        Ok ("architecture: " +:+ label)
      else
        manifest ← req (getManifestByDigest r (Descriptor.digest imageManifest));
        match Manifest.layers manifest with
        | Some ls =>
            layer0 ← req (head ls);
            if bool_decide (Layer.mediaType layer0 = "application/vnd.in-toto+json")
            then Ok "application/vnd.in-toto+json"
            else Ok label
        | None => Ok label
        end
  | None =>
      if truthy (Descriptor.artifactType imageManifest) then
        let artifactType := default "" (Descriptor.artifactType imageManifest) in
        if startsWith "application/vnd.dev.sigstore.bundle" artifactType
        then Ok "sigstore attestation"
        else Ok artifactType
      else Ok ""
  end.

(** *** deleteImage (main.ts 287-359) *)

(** One turn of the loop over [manifest.manifests], lines 304-342. *)
Definition deleteImage_child (ghPackage : Package.t) (imageManifest : Descriptor.t) s
    : result (CleanupAction R) :=
  match getPackageByDigest (collab s) (Descriptor.digest imageManifest) with
  | Some manifestPackage =>
      if bool_decide (Package.name manifestPackage ∈ deleted s) then Ok s
      else
        match digestUsedBy s !! Package.name manifestPackage with
        | Some parents =>
            if bool_decide (size parents = 1)
               && bool_decide (Package.name ghPackage ∈ parents)
            then
              label ← buildLabel (collab s) imageManifest;
              s ← call_deletePackageVersion (Package.id manifestPackage)
                     (Package.name manifestPackage) [] (Some label) s;
              let s := with_deleted ({[Package.name manifestPackage]} ∪ deleted s) s in
              let s := with_numberImagesDeleted (S (numberImagesDeleted s)) s in
              Ok (with_digestUsedBy
                    (delete (Package.name manifestPackage) (digestUsedBy s)) s)
            else
              Ok (with_digestUsedBy
                    (<[Package.name manifestPackage := parents ∖ {[Package.name ghPackage]}]>
                       (digestUsedBy s)) s)
        | None => Ok s
        end
  | None => Ok s
  end.

(** [deleteImage] calls itself on the referrer of the package; [fuel]
    bounds the depth of that recursion. *)
Fixpoint deleteImage (fuel : nat) (ghPackage : Package.t) s : result (CleanupAction R) :=
  match fuel with
  | 0 => OutOfFuel
  | S fuel =>
      if bool_decide (Package.name ghPackage ∈ deleted s) then Ok s
      else
        manifest ← req (getManifestByDigest (collab s) (Package.name ghPackage));
        s ← call_deletePackageVersion (Package.id ghPackage) (Package.name ghPackage)
               (Package.tags ghPackage) None s;
        let s := with_deleted ({[Package.name ghPackage]} ∪ deleted s) s in
        let s := with_numberImagesDeleted (S (numberImagesDeleted s)) s in
        s ← match Manifest.manifests manifest with
            | Some ms =>
                forEach ms (deleteImage_child ghPackage)
                  (with_numberMultiImagesDeleted (S (numberMultiImagesDeleted s)) s)
            | None => Ok s
            end;
        let attestationTag := replace "sha256:" "sha256-" (Package.name ghPackage) in
        if set_has attestationTag (tagsInUse s)
           && negb (set_has attestationTag (excludeTags s))
        then
          manifestDigest ← req (getTagDigest (collab s) attestationTag);
          attestationPackage ← req (getPackageByDigest (collab s) manifestDigest);
          deleteImage fuel attestationPackage s
        else Ok s
  end.

(** *** deleteGhostImages (main.ts 361-397) *)

(** The counting loop, lines 369-374. *)
Definition countMissing (r : R) (ms : list Descriptor.t) : nat :=
  foldl (λ missing imageManfiest,
           match getIdByDigest r (Descriptor.digest imageManfiest) with
           | Some _ => missing
           | None => missing + 1
           end) 0 ms.

Definition isGhostImage (r : R) (manfiest : Manifest.t) : bool :=
  match Manifest.manifests manfiest with
  | Some ms => bool_decide (countMissing r ms = length ms)
  | None => false
  end.

Definition deleteGhostImages_body (digest : string) s : result (CleanupAction R) :=
  manfiest ← req (getManifestByDigest (collab s) digest);
  if isGhostImage (collab s) manfiest then
    let s := moveToDeleteSet digest s in
    ghPackage ← req (getPackageByDigest (collab s) digest);
    Ok s
  else Ok s.

Definition deleteGhostImages s : result (CleanupAction R) :=
  forEach (filterSet s) deleteGhostImages_body s.

(** *** deletePartialImages (main.ts 399-432) *)

(** The loop with [break], lines 407-413: true as soon as one child has no
    package id. *)
Definition isPartialImage (r : R) (manfiest : Manifest.t) : bool :=
  match Manifest.manifests manfiest with
  | Some ms =>
      existsb (λ imageManfiest,
                 match getIdByDigest r (Descriptor.digest imageManfiest) with
                 | Some _ => false
                 | None => true
                 end) ms
  | None => false
  end.

Definition deletePartialImages_body (digest : string) s : result (CleanupAction R) :=
  manfiest ← req (getManifestByDigest (collab s) digest);
  if isPartialImage (collab s) manfiest then
    let s := moveToDeleteSet digest s in
    ghPackage ← req (getPackageByDigest (collab s) digest);
    Ok s
  else Ok s.

Definition deletePartialImages s : result (CleanupAction R) :=
  forEach (filterSet s) deletePartialImages_body s.

(** *** deleteByTag (main.ts 434-554) *)

(** Lines 438-447: the matching tags of the packages in [filterSet]. *)
Definition deleteByTag_matchTags s : result (list string) :=
  pkgs ← mapM (λ digest, req (getPackageByDigest (collab s) digest)) (filterSet s);
  Ok (mjoin ((λ ghPackage : Package.t,
                filter (λ tag, wcmatch (default "" (Config.deleteTags config)) tag = true)
                       (Package.tags ghPackage)) <$> pkgs)).

(** Lines 454-466: the pre-scan that splits the tags into untagging events
    and standard deletions. *)
Definition deleteByTag_prescan_body s (tag : string) (acc : list string * list string)
    : result (list string * list string) :=
  let '(untaggingTags, standardTags) := acc in
  if negb (set_has tag (excludeTags s)) then
    manifestDigest ← req (getTagDigest (collab s) tag);
    ghPackage ← req (getPackageByDigest (collab s) manifestDigest);
    if bool_decide (1 < length (Package.tags ghPackage))
    then Ok (set_add tag untaggingTags, standardTags)
    else if bool_decide (length (Package.tags ghPackage) = 1)
    then Ok (untaggingTags, set_add tag standardTags)
    else Ok acc
  else Ok acc.

Definition deleteByTag_prescan s (matchTags : list string)
    : result (list string * list string) :=
  forEach matchTags (deleteByTag_prescan_body s) ([], []).

(** [JSON.parse(JSON.stringify(manifest))] followed by the assignment of
    the empty array, lines 489-499. *)
Definition emptyManifest (manifest : Manifest.t) : Manifest.t * bool :=
  let newManifest := manifest in
  match Manifest.manifests newManifest with
  | Some _ =>
      ({| Manifest.manifests := Some [];
          Manifest.layers := Manifest.layers newManifest;
          Manifest.other := Manifest.other newManifest |}, true)
  | None =>
      ({| Manifest.manifests := Manifest.manifests newManifest;
          Manifest.layers := Some [];
          Manifest.other := Manifest.other newManifest |}, false)
  end.

(** One turn of the untagging loop, lines 470-523. *)
Definition deleteByTag_untag (tag : string) (acc : CleanupAction R * list string)
    : result (CleanupAction R * list string) :=
  let '(s, standardTags) := acc in
  manifestDigest ← req (getTagDigest (collab s) tag);
  ghPackage ← req (getPackageByDigest (collab s) manifestDigest);
  if bool_decide (length (Package.tags ghPackage) = 1)
  then Ok (s, set_add tag standardTags)
  else
    manifest ← req (getManifestByTag (collab s) tag);
    let '(newManifest, isIndex) := emptyManifest manifest in
    s ← call_putManifest tag newManifest isIndex s;
    let s := call_deleteTag tag s in
    s ← call_loadPackages false s;
    untaggedDigest ← req (getTagDigest (collab s) tag);
    match getIdByDigest (collab s) untaggedDigest with
    | Some id =>
        s ← call_deletePackageVersion id untaggedDigest [tag] None s;
        Ok (with_numberImagesDeleted (S (numberImagesDeleted s)) s, standardTags)
    | None => Ok (s, standardTags)
    end.

(** One turn of the standard loop, lines 537-543. *)
Definition deleteByTag_standard (tag : string) s : result (CleanupAction R) :=
  manifestDigest ← req (getTagDigest (collab s) tag);
  Ok (moveToDeleteSet manifestDigest s).

Definition deleteByTag s : result (CleanupAction R) :=
  if truthy (Config.deleteTags config) then
    matchTags ← deleteByTag_matchTags s;
    if bool_decide (0 < length matchTags) then
      '(untaggingTags, standardTags) ← deleteByTag_prescan s matchTags;
      '(s, standardTags) ←
        (if bool_decide (0 < length untaggingTags)
         then forEach untaggingTags deleteByTag_untag (s, standardTags)
         else Ok (s, standardTags));
      s ← (if bool_decide (0 < length untaggingTags) then reload s else Ok s);
      if bool_decide (0 < length standardTags)
      then forEach standardTags deleteByTag_standard s
      else Ok s
    else Ok s
  else Ok s.

(** *** keepNuntagged, keepNtagged, deleteUntagged (main.ts 556-656) *)

(** [(a, b) => Date.parse(b.updated_at) - Date.parse(a.updated_at)] *)
Definition byDateDescending (a b : Package.t) : option Z :=
  match Package.updated_at b, Package.updated_at a with
  | Some tb, Some ta => Some (tb - ta)%Z
  | _, _ => None
  end.

Definition keepN_delete (deletePackage : Package.t) s : result (CleanupAction R) :=
  Ok (moveToDeleteSet (Package.name deletePackage) s).

Definition keepNuntagged s : result (CleanupAction R) :=
  match Config.keepNuntagged config with
  | Some keep =>
      pkgs ← mapM (λ digest, req (getPackageByDigest (collab s) digest)) (filterSet s);
      let unTaggedPackages :=
        filter (λ ghPackage, length (Package.tags ghPackage) = 0) pkgs in
      if bool_decide (0 < length unTaggedPackages) then
        let unTaggedPackages := sortBy byDateDescending unTaggedPackages in
        if bool_decide (keep < length unTaggedPackages)
        then forEach (drop keep unTaggedPackages) keepN_delete s
        else Ok s
      else Ok s
  | None => Ok s
  end.

Definition keepNtagged_delete (deletePackage : Package.t) s : result (CleanupAction R) :=
  let s := moveToDeleteSet (Package.name deletePackage) s in
  ghPackage ← req (getPackageByDigest (collab s) (Package.name deletePackage));
  Ok s.

Definition keepNtagged s : result (CleanupAction R) :=
  match Config.keepNtagged config with
  | Some keep =>
      pkgs ← mapM (λ digest, req (getPackageByDigest (collab s) digest)) (filterSet s);
      let taggedPackages :=
        filter (λ ghPackage, 0 < length (Package.tags ghPackage)) pkgs in
      let taggedPackages := sortBy byDateDescending taggedPackages in
      if bool_decide (keep < length taggedPackages)
      then forEach (drop keep taggedPackages) keepNtagged_delete s
      else Ok s
  | None => Ok s
  end.

Definition deleteUntagged_body (digest : string) s : result (CleanupAction R) :=
  ghPackage ← req (getPackageByDigest (collab s) digest);
  if bool_decide (length (Package.tags ghPackage) = 0)
  then Ok (moveToDeleteSet digest s)
  else Ok s.

Definition deleteUntagged s : result (CleanupAction R) :=
  forEach (filterSet s) deleteUntagged_body s.

(** *** doDelete and run (main.ts 661-722) *)

Definition doDelete_body (fuel : nat) (deleteDigest : string) s : result (CleanupAction R) :=
  ghPackage ← req (getPackageByDigest (collab s) deleteDigest);
  deleteImage fuel ghPackage s.

Definition doDelete (fuel : nat) s : result (CleanupAction R) :=
  if bool_decide (0 < length (deleteSet s))
  then forEach (deleteSet s) (doDelete_body fuel) s
  else Ok s.

(** Lines 682-686: partial detection has priority over ghost detection. *)
Definition run_partialOrGhost s : result (CleanupAction R) :=
  if Config.deletePartialImages config then deletePartialImages s
  else if Config.deleteGhostImages config then deleteGhostImages s
  else Ok s.

(** Lines 693-699. *)
Definition run_untagged s : result (CleanupAction R) :=
  match Config.keepNuntagged config with
  | Some _ => keepNuntagged s
  | None => if Config.deleteUntagged config then deleteUntagged s else Ok s
  end.

Definition run (fuel : nat) s : result (CleanupAction R) :=
  s ← (if truthy (Config.deleteTags config) then deleteByTag s else Ok s);
  s ← run_partialOrGhost s;
  s ← (match Config.keepNtagged config with
       | Some _ => keepNtagged s
       | None => Ok s
       end);
  s ← run_untagged s;
  s ← doDelete fuel s;
  if Config.validate config then s ← reload s; validate s else Ok s.

End Action.

(** The three trims of [reload], in the order of the code: the call of
    [trimChildren], the exclude-tags block and the older-than block. *)
Inductive Trim :=
| ChildTrim
| ExcludeTrim
| AgeTrim.

Definition applyTrim {R : Type} `{Collaborators R} (wcmatch : string → string → bool)
    (config : Config.t) (now : Clock) (tr : Trim) (s : CleanupAction R)
    : result (CleanupAction R) :=
  match tr with
  | ChildTrim => trimChildren s
  | ExcludeTrim => Ok (reload_excludeTags wcmatch config s)
  | AgeTrim => reload_olderThan config now s
  end.

Definition applyTrims {R : Type} `{Collaborators R} (wcmatch : string → string → bool)
    (config : Config.t) (now : Clock) (order : list Trim) (s : CleanupAction R)
    : result (CleanupAction R) :=
  forEach order (applyTrim wcmatch config now) s.

(** The methods of a run, one constructor each, and what performing one
    means. *)
Inductive Phase :=
| Reload
| DeleteByTag
| DeletePartialImages
| DeleteGhostImages
| KeepNtagged
| KeepNuntagged
| DeleteUntagged
| DoDelete (fuel : nat)
| Validate.

Definition perform {R : Type} `{Collaborators R} {engine : ArraySort} (wcmatch : string → string → bool)
    (config : Config.t) (now : Clock) (p : Phase) (s : CleanupAction R)
    : result (CleanupAction R) :=
  match p with
  | Reload => reload wcmatch config now s
  | DeleteByTag => deleteByTag wcmatch config now s
  | DeletePartialImages => deletePartialImages s
  | DeleteGhostImages => deleteGhostImages s
  | KeepNtagged => keepNtagged config s
  | KeepNuntagged => keepNuntagged config s
  | DeleteUntagged => deleteUntagged s
  | DoDelete fuel => doDelete fuel s
  | Validate => validate s
  end.

(** ** A reference collaborator *)

Module Remote.

(** Modelled from the spec: a synchronous registry and package service
    behind the interface. [versions] are the package versions the service
    holds, [store] the manifests the registry serves, [listing] what
    [loadPackages] loaded last. The package client answers from [listing];
    the registry client resolves tags and digests against the remote. *)
Record t := {
  versions : list Package.t;
  store : gmap string Manifest.t;
  listing : list Package.t
}.

(** Modelled from the spec: the content address of a manifest. Any function
    of the content serves; this one spells the content out. *)
Definition digestOf (m : Manifest.t) : string :=
  "sha256:" +:+ Manifest.other m
  +:+ match Manifest.manifests m with
      | Some ms => "/index" +:+ String.concat "," (Descriptor.digest <$> ms)
      | None => ""
      end
  +:+ match Manifest.layers m with
      | Some ls => "/layers" +:+ String.concat "," (Layer.mediaType <$> ls)
      | None => ""
      end.

Definition findByName (d : string) (l : list Package.t) : option Package.t :=
  List.find (λ p, bool_decide (Package.name p = d)) l.

Definition findByTag (tag : string) (l : list Package.t) : option Package.t :=
  List.find (λ p, bool_decide (tag ∈ Package.tags p)) l.

Definition freshId (l : list Package.t) : positive :=
  Pos.succ (foldr Pos.max 1%positive (Package.id <$> l)).

Definition dropTag (tag : string) (p : Package.t) : Package.t :=
  {| Package.id := Package.id p; Package.name := Package.name p;
     Package.tags := filter (λ t, t ≠ tag) (Package.tags p);
     Package.updated_at := Package.updated_at p |}.

Definition addTag (tag d : string) (p : Package.t) : Package.t :=
  if bool_decide (Package.name p = d)
  then {| Package.id := Package.id p; Package.name := Package.name p;
          Package.tags := Package.tags p ++ [tag];
          Package.updated_at := Package.updated_at p |}
  else p.

(** Modelled from the spec: pushing a manifest under a tag stores it under
    its content address and repoints the tag, creating a package version
    for a digest the service does not hold yet. *)
Definition put (r : t) (tag : string) (m : Manifest.t) : t :=
  let d := digestOf m in
  let others := dropTag tag <$> versions r in
  {| versions :=
       match findByName d others with
       | Some _ => addTag tag d <$> others
       | None =>
           others ++ [{| Package.id := freshId (versions r); Package.name := d;
                         Package.tags := [tag]; Package.updated_at := None |}]
       end;
     store := <[d := m]> (store r);
     listing := listing r |}.

(** Modelled from the spec: deleting a package version removes it from the
    service and its manifest from the registry; the loaded listing stays as
    it is until the next [loadPackages]. *)
Definition remove (r : t) (id : positive) (d : string) : t :=
  {| versions := filter (λ p, Package.id p ≠ id) (versions r);
     store := delete d (store r);
     listing := listing r |}.

Definition load (r : t) : t :=
  {| versions := versions r; store := store r; listing := versions r |}.

Definition tagDigest (r : t) (tag : string) : option string :=
  Package.name <$> findByTag tag (versions r).

#[global] Instance collaborators : Collaborators t := {
  getManifestByDigest r d := store r !! d;
  getManifestByTag r tag := tagDigest r tag ≫= λ d, store r !! d;
  getTagDigest := tagDigest;
  putManifest r tag m _ := Some (put r tag m);
  deleteTag r _ := r;
  loadPackages r _ := Some (load r);
  getDigests r := Package.name <$> listing r;
  getTags r := mjoin (Package.tags <$> listing r);
  getDigestByTag r tag := Package.name <$> findByTag tag (listing r);
  getPackageByDigest r d := findByName d (listing r);
  getIdByDigest r d := Package.id <$> findByName d (listing r);
  deletePackageVersion r id d _ _ := Some (remove r id d)
}.

(** A remote whose listing is freshly loaded. *)
Definition make (vs : list (Package.t * Manifest.t)) : t :=
  {| versions := fst <$> vs;
     store := list_to_map ((λ pm, (Package.name (fst pm), snd pm)) <$> vs);
     listing := fst <$> vs |}.

End Remote.

Module DryRun.

(** Modelled from the spec: the collaborators under [dry-run], where the
    delete call of the package client only logs; the other calls are those
    of the remote. *)
Record t := { remote : Remote.t }.

#[global] Instance collaborators : Collaborators t := {
  getManifestByDigest r := getManifestByDigest (remote r);
  getManifestByTag r := getManifestByTag (remote r);
  getTagDigest r := getTagDigest (remote r);
  putManifest r tag m isIndex :=
    (λ r', {| remote := r' |}) <$> putManifest (remote r) tag m isIndex;
  deleteTag r tag := {| remote := deleteTag (remote r) tag |};
  loadPackages r resetPageCache :=
    (λ r', {| remote := r' |}) <$> loadPackages (remote r) resetPageCache;
  getDigests r := getDigests (remote r);
  getTags r := getTags (remote r);
  getDigestByTag r := getDigestByTag (remote r);
  getPackageByDigest r := getPackageByDigest (remote r);
  getIdByDigest r := getIdByDigest (remote r);
  deletePackageVersion r _ _ _ _ := Some r
}.

End DryRun.

(** The action on a collaborator, as the constructor leaves it. *)
Definition newAction {R : Type} (r : R) : CleanupAction R :=
  {| collab := r; excludeTags := []; filterSet := []; deleteSet := [];
     tagsInUse := []; digestUsedBy := ∅; deleted := ∅;
     numberMultiImagesDeleted := 0; numberImagesDeleted := 0; events := [] |}.

(** ** Example data *)

Module Ex.

Definition leaf : Manifest.t :=
  {| Manifest.manifests := None;
     Manifest.layers := Some [{| Layer.mediaType := "application/vnd.oci.image.layer.v1.tar+gzip" |}];
     Manifest.other := "leaf" |}.

Definition child (d : string) : Descriptor.t :=
  {| Descriptor.digest := d;
     Descriptor.platform :=
       Some {| Platform.architecture := Some "amd64"; Platform.variant := None |};
     Descriptor.artifactType := None |}.

Definition index (o : string) (ds : list string) : Manifest.t :=
  {| Manifest.manifests := Some (child <$> ds); Manifest.layers := None;
     Manifest.other := o |}.

Definition pkg (i : positive) (d : string) (tgs : list string) (t : Z) : Package.t :=
  {| Package.id := i; Package.name := d; Package.tags := tgs;
     Package.updated_at := Some t |}.

Definition config0 : Config.t :=
  {| Config.deleteTags := None; Config.excludeTags := None; Config.olderThan := None;
     Config.deleteUntagged := false; Config.deleteGhostImages := false;
     Config.deletePartialImages := false; Config.keepNuntagged := None;
     Config.keepNtagged := None; Config.validate := false |}.

(** A matcher for the examples: the pattern matches the tag equal to it. *)
Definition exact (p t : string) : bool := bool_decide (p = t).

(** A clock for the examples: it shows [t] throughout. *)
Definition clock (t : Z) : Clock := λ _ _, t.

(** Three indexes and a leaf: [ghost] lists two digests without a package,
    [partial] lists the leaf and one digest without a package, [hollow]
    lists nothing. *)
Definition broken : Remote.t :=
  Remote.make
    [ (pkg 1 "sha256:ghost" ["g"] 10, index "g" ["sha256:a"; "sha256:b"]);
      (pkg 2 "sha256:partial" ["p"] 20, index "p" ["sha256:leaf"; "sha256:b"]);
      (pkg 3 "sha256:leaf" [] 20, leaf);
      (pkg 4 "sha256:hollow" [] 30, index "h" []) ].

Definition brokenAction : CleanupAction Remote.t :=
  with_filterSet ["sha256:ghost"; "sha256:partial"; "sha256:hollow"] (newAction broken).


(** Two tagged indexes that share the child [sha256:m], which has no
    package. *)
Definition shared : Remote.t :=
  Remote.make
    [ (pkg 1 "sha256:p1" ["one"] 10, index "1" ["sha256:m"]);
      (pkg 2 "sha256:p2" ["two"] 20, index "2" ["sha256:m"]) ].

Definition sharedAction : CleanupAction Remote.t :=
  with_tagsInUse ["one"; "two"] (newAction shared).


(** A digest with the tags [v1] and [keep], and another one with [v3];
    [v1] is to be deleted and [keep] is excluded. *)
Definition excluded : Remote.t :=
  Remote.make
    [ (pkg 1 "sha256:d" ["v1"; "keep"] 10, leaf);
      (pkg 2 "sha256:e" ["v3"] 20, leaf) ].

Definition excludedConfig : Config.t :=
  {| Config.deleteTags := Some "v1"; Config.excludeTags := Some "keep";
     Config.olderThan := None; Config.deleteUntagged := false;
     Config.deleteGhostImages := false; Config.deletePartialImages := false;
     Config.keepNuntagged := None; Config.keepNtagged := None;
     Config.validate := false |}.

(** The state [reload] produces on it: the exclude-tag trim has taken
    [sha256:d] out of [filterSet]. *)
Definition excludedAction : CleanupAction Remote.t :=
  with_events [ELoadPackages true]
    (with_excludeTags ["keep"]
       (with_tagsInUse ["v1"; "keep"; "v3"]
          (with_filterSet ["sha256:e"] (newAction excluded)))).


(** The same packages with nothing excluded: both digests are in
    [filterSet]. *)
Definition taggedConfig : Config.t :=
  {| Config.deleteTags := Some "v1"; Config.excludeTags := None;
     Config.olderThan := None; Config.deleteUntagged := false;
     Config.deleteGhostImages := false; Config.deletePartialImages := false;
     Config.keepNuntagged := None; Config.keepNtagged := None;
     Config.validate := false |}.

Definition taggedAction : CleanupAction Remote.t :=
  with_events [ELoadPackages true]
    (with_tagsInUse ["v1"; "keep"; "v3"]
       (with_filterSet ["sha256:d"; "sha256:e"] (newAction excluded))).


(** Two tagged indexes [p1] and [p2] that share the child [c]; [p1] has a
    second child [x1] of its own and a referrer [r1], reached through the
    tag [sha256-p1]. *)
Definition multi : Remote.t :=
  Remote.make
    [ (pkg 1 "sha256:p1" ["a"] 10, index "1" ["sha256:c"; "sha256:x1"]);
      (pkg 2 "sha256:p2" ["b"] 20, index "2" ["sha256:c"]);
      (pkg 3 "sha256:c" [] 10, leaf);
      (pkg 4 "sha256:x1" [] 10, leaf);
      (pkg 5 "sha256:r1" ["sha256-p1"] 10, leaf) ].

(** The state [reload] produces on it. *)
Definition multiAction : CleanupAction Remote.t :=
  with_events [ELoadPackages true]
    (with_digestUsedBy
       {[ "sha256:c" := {[ "sha256:p1"; "sha256:p2" ]};
          "sha256:x1" := {[ "sha256:p1" ]} ]}
       (with_tagsInUse ["a"; "b"; "sha256-p1"]
          (with_filterSet ["sha256:p1"; "sha256:p2"] (newAction multi)))).

(** Both indexes are to be deleted. *)
Definition multiDelete : CleanupAction Remote.t :=
  with_deleteSet ["sha256:p1"; "sha256:p2"] (with_filterSet [] multiAction).


(** Two tagged indexes that share the child [c], where [c] also carries
    the referrer tag of [p1]. *)
Definition referred : Remote.t :=
  Remote.make
    [ (pkg 1 "sha256:p1" ["a"] 10, index "1" ["sha256:c"]);
      (pkg 2 "sha256:p2" ["b"] 20, index "2" ["sha256:c"]);
      (pkg 3 "sha256:c" ["sha256-p1"] 10, leaf) ].

(** The state [reload] produces on it. *)
Definition referredAction : CleanupAction Remote.t :=
  with_events [ELoadPackages true]
    (with_digestUsedBy {[ "sha256:c" := {[ "sha256:p1"; "sha256:p2" ]} ]}
       (with_tagsInUse ["a"; "b"; "sha256-p1"]
          (with_filterSet ["sha256:p1"; "sha256:p2"] (newAction referred)))).


(** The example of the two indexes with the referrer tag of [p1] excluded
    and a cut-off that [p2] is too recent for. *)
Definition trimConfig : Config.t :=
  {| Config.deleteTags := None; Config.excludeTags := Some "sha256-p1";
     Config.olderThan := Some 5%Z; Config.deleteUntagged := false;
     Config.deleteGhostImages := false; Config.deletePartialImages := false;
     Config.keepNuntagged := None; Config.keepNtagged := None;
     Config.validate := false |}.

(** The state of [reload] before the trims: every known digest is a
    candidate. *)
Definition untrimmed : CleanupAction Remote.t :=
  with_filterSet ["sha256:p1"; "sha256:p2"; "sha256:c"; "sha256:x1"; "sha256:r1"] multiAction.


(** An index without children, stored under its content address and
    carrying the tags [v1] and [keep]. *)
Definition emptyTagged : Remote.t :=
  Remote.make [ (pkg 1 "sha256:h/index" ["v1"; "keep"] 10, index "h" []) ].

Definition emptyTaggedAction : CleanupAction Remote.t :=
  with_events [ELoadPackages true]
    (with_tagsInUse ["v1"; "keep"]
       (with_filterSet ["sha256:h/index"] (newAction emptyTagged))).


(** Three tagged and two untagged images of different dates. *)
Definition dated : Remote.t :=
  Remote.make
    [ (pkg 1 "sha256:a" ["v1"] 10, leaf);
      (pkg 2 "sha256:b" ["v2"] 30, leaf);
      (pkg 3 "sha256:c" [] 20, leaf);
      (pkg 4 "sha256:e" ["v3"] 20, leaf);
      (pkg 5 "sha256:u" [] 5, leaf) ].

Definition datedAction : CleanupAction Remote.t :=
  with_events [ELoadPackages true]
    (with_tagsInUse ["v1"; "v2"; "v3"]
       (with_filterSet ["sha256:a"; "sha256:b"; "sha256:c"; "sha256:e"; "sha256:u"]
          (newAction dated))).

(** Keep the two newest tagged images and the newest untagged one. *)
Definition keepConfig : Config.t :=
  {| Config.deleteTags := None; Config.excludeTags := None; Config.olderThan := None;
     Config.deleteUntagged := false; Config.deleteGhostImages := false;
     Config.deletePartialImages := false; Config.keepNuntagged := Some 1;
     Config.keepNtagged := Some 2; Config.validate := false |}.


(** Keep no untagged image. *)
Definition keepZeroConfig : Config.t :=
  {| Config.deleteTags := None; Config.excludeTags := None; Config.olderThan := None;
     Config.deleteUntagged := false; Config.deleteGhostImages := false;
     Config.deletePartialImages := false; Config.keepNuntagged := Some 0;
     Config.keepNtagged := None; Config.validate := false |}.


(** An image with its referrer, and a referrer whose parent is gone. *)
Definition orphaned : Remote.t :=
  Remote.make
    [ (pkg 1 "sha256:p" ["v1"] 10, leaf);
      (pkg 2 "sha256:r" ["sha256-p"] 10, leaf);
      (pkg 3 "sha256:o" ["sha256-gone"] 10, leaf) ].

Definition orphanedAction : CleanupAction Remote.t :=
  with_tagsInUse ["v1"; "sha256-p"; "sha256-gone"] (newAction orphaned).


(** Inputs of the action: the token and [keep-n-tagged], in the
    repository [acme/app]. *)
Definition inputs (name : string) : string :=
  if bool_decide (name = "token") then "secret"
  else if bool_decide (name = "keep-n-tagged") then "2"
  else "".

(** Inputs with [keep-n-untagged] at 0 and [delete-untagged] at false. *)
Definition zeroInputs (name : string) : string :=
  if bool_decide (name = "token") then "secret"
  else if bool_decide (name = "keep-n-untagged") then "0"
  else if bool_decide (name = "delete-untagged") then "false"
  else "".


Definition booleans (name : string) : option bool :=
  if bool_decide (name = "delete-untagged") then Some false else None.

Definition numbers (s : string) : option Z :=
  if bool_decide (s = "2") then Some 2%Z
  else if bool_decide (s = "0") then Some 0%Z
  else None.

Definition intervals (s : string) : option Z := None.

Definition lower (s : string) : string := s.


(** A package listing that is behind the registry: the listing has the
    referrer tag of [q] on [x], the registry has it on [rd]. *)
Definition behind : Remote.t :=
  {| Remote.versions :=
       [ pkg 1 "sha256:q" ["v1"] 10; pkg 2 "sha256:rd" ["sha256-q"] 10;
         pkg 3 "sha256:x" [] 10 ];
     Remote.store :=
       list_to_map [ ("sha256:q", leaf); ("sha256:rd", leaf); ("sha256:x", leaf) ];
     Remote.listing :=
       [ pkg 1 "sha256:q" ["v1"] 10; pkg 2 "sha256:rd" [] 10;
         pkg 3 "sha256:x" ["sha256-q"] 10 ] |}.

(** The referrer tag of [q] is excluded. *)
Definition behindConfig : Config.t :=
  {| Config.deleteTags := None; Config.excludeTags := Some "sha256-q";
     Config.olderThan := None; Config.deleteUntagged := false;
     Config.deleteGhostImages := false; Config.deletePartialImages := false;
     Config.keepNuntagged := None; Config.keepNtagged := None;
     Config.validate := false |}.

(** The state of [reload] before the trims, on that listing. *)
Definition behindAction : CleanupAction Remote.t :=
  with_events [ELoadPackages true]
    (with_tagsInUse ["v1"; "sha256-q"]
       (with_filterSet ["sha256:q"; "sha256:rd"; "sha256:x"] (newAction behind))).


(** Delete the untagged images and validate afterwards. *)
Definition untaggedConfig : Config.t :=
  {| Config.deleteTags := None; Config.excludeTags := None; Config.olderThan := None;
     Config.deleteUntagged := true; Config.deleteGhostImages := false;
     Config.deletePartialImages := false; Config.keepNuntagged := None;
     Config.keepNtagged := None; Config.validate := true |}.

(** The dated images behind a package client that runs dry. *)
Definition dry : DryRun.t := {| DryRun.remote := dated |}.


(** An index [top] that lists the index [inner], which lists a digest
    without a package; and the same two with [inner] listed first. *)
Definition nested : Remote.t :=
  Remote.make
    [ (pkg 1 "sha256:top" ["v1"] 10, index "t" ["sha256:inner"]);
      (pkg 2 "sha256:inner" [] 10, index "i" ["sha256:gone"]) ].

Definition nestedAction : CleanupAction Remote.t :=
  with_tagsInUse ["v1"] (newAction nested).

Definition innerFirst : Remote.t :=
  Remote.make
    [ (pkg 2 "sha256:inner" [] 10, index "i" ["sha256:gone"]);
      (pkg 1 "sha256:top" ["v1"] 10, index "t" ["sha256:inner"]) ].

Definition innerFirstAction : CleanupAction Remote.t :=
  with_tagsInUse ["v1"] (newAction innerFirst).


(** A cut-off of 300000 years, and a clock that shows a day of 2024. *)
Definition ancientConfig : Config.t :=
  {| Config.deleteTags := None; Config.excludeTags := None;
     Config.olderThan := Some 9467280000000000000%Z; Config.deleteUntagged := false;
     Config.deleteGhostImages := false; Config.deletePartialImages := false;
     Config.keepNuntagged := None; Config.keepNtagged := None;
     Config.validate := false |}.

Definition today : Clock := clock 1717200000000.

End Ex.

(** ** Notions used by the statements *)

Section Notions.
Context {R : Type} `{Collaborators R} {engine : ArraySort}.
Implicit Types s t : CleanupAction R.

(** The shape shared by [deleteGhostImages_body] and
    [deletePartialImages_body]. *)
Definition classify_body (test : R → Manifest.t → bool) (digest : string) s
    : result (CleanupAction R) :=
  manfiest ← req (getManifestByDigest (collab s) digest);
  if test (collab s) manfiest then
    let s := moveToDeleteSet digest s in
    ghPackage ← req (getPackageByDigest (collab s) digest);
    Ok s
  else Ok s.

(** The digest has a manifest that passes the test. *)
Definition selects (test : R → Manifest.t → bool) (r : R) (digest : string) : bool :=
  match getManifestByDigest r digest with
  | Some manfiest => test r manfiest
  | None => false
  end.

(** Only [filterSet] and [deleteSet] differ between the two states. *)
Definition only_sets_differ s s' : Prop :=
  with_deleteSet (deleteSet s') (with_filterSet (filterSet s') s) = s'.

(** Every digest of [filterSet] has a manifest and a package, so that the
    classifier loops do not throw. *)
Definition readable s : Prop :=
  ∀ d, d ∈ filterSet s →
    is_Some (getManifestByDigest (collab s) d) ∧ is_Some (getPackageByDigest (collab s) d).

(** The digest has left [filterSet] for [deleteSet]. *)
Definition moved (d : string) s' : Prop := (d ∉ filterSet s') ∧ d ∈ deleteSet s'.

(** The digest is where it was. *)
Definition kept (d : string) s s' : Prop :=
  d ∈ filterSet s' ∧ (d ∈ deleteSet s' ↔ d ∈ deleteSet s).


(** Only [events] differs between the two states. *)
Definition only_events_differ s s' : Prop := with_events (events s') s = s'.

(** The events a step has added. *)
Definition newEvents s s' : list Event := drop (length (events s)) (events s').

(** The digest is listed in the index manifest of a known digest. *)
Definition isChildOfKnown (r : R) (d : string) : Prop :=
  ∃ q m ms, q ∈ getDigests r ∧ getManifestByDigest r q = Some m
            ∧ Manifest.manifests m = Some ms ∧ d ∈ Descriptor.digest <$> ms.

(** What a warning of the validator reports. *)
Definition warningSound (r : R) (inUse : list string) (w : Warning) : Prop :=
  match w with
  | ChildNotFound c tgs p =>
      p ∈ getDigests r
      ∧ ∃ m ms pkg, getManifestByDigest r p = Some m ∧ Manifest.manifests m = Some ms
                    ∧ c ∈ Descriptor.digest <$> ms ∧ getIdByDigest r c = None
                    ∧ getPackageByDigest r p = Some pkg ∧ tgs = Package.tags pkg
  | OrphanedReferrer tag =>
      tag ∈ inUse ∧ startsWith "sha256-" tag = true
      ∧ getIdByDigest r (replace "sha256-" "sha256:" tag) = None
  end.

(** The child digests the warnings of a trace name, in order. *)
Definition warnedChildren (evs : list Event) : list string :=
  omap (λ e, match e with
             | EWarning (ChildNotFound c _ _) => Some c
             | _ => None
             end) evs.

(** The reading of "each missing child is warned about at most once". *)
Definition warnsOncePerChild s : Prop :=
  ∀ s', validate s = Ok s' → NoDup (warnedChildren (newEvents s s')).

(** The invariant of the walk over the known digests. *)
Definition validate_walk_inv s (acc : CleanupAction R * list string) : Prop :=
  only_events_differ s acc.1
  ∧ (∃ ws, events acc.1 = events s ++ (EWarning <$> ws)
           ∧ Forall (warningSound (collab s) (tagsInUse s)) ws)
  ∧ (∀ x, x ∈ acc.2 → isChildOfKnown (collab s) x).


(** Every known digest has a manifest and a package. *)
Definition knownReadable (r : R) : Prop :=
  ∀ d, d ∈ getDigests r →
    is_Some (getManifestByDigest r d) ∧ is_Some (getPackageByDigest r d).


(** No digest is in [deleteSet] and in [filterSet] at once. *)
Definition disjointSets s : Prop := ∀ d, d ∈ deleteSet s → d ∉ filterSet s.

(** From [s] to [t] digests only leave [filterSet] and only join
    [deleteSet], and a digest that has joined [deleteSet] is not in
    [filterSet]. *)
Definition movesOnly s t : Prop :=
  (∀ d, d ∈ filterSet t → d ∈ filterSet s)
  ∧ (∀ d, d ∈ deleteSet s → d ∈ deleteSet t)
  ∧ (∀ d, d ∈ deleteSet t → d ∈ deleteSet s ∨ d ∉ filterSet t).


(** The two working sets of a state. *)
Definition workingSets s : list string * list string := (filterSet s, deleteSet s).

(** The states a run passes through, from a state that [reload] has
    produced, by any sequence of methods. *)
Inductive reachable (wcmatch : string → string → bool) (config : Config.t) (now : Clock)
    : CleanupAction R → Prop :=
| reachable_reload s s' :
    reload wcmatch config now s = Ok s' → reachable wcmatch config now s'
| reachable_perform p s s' :
    reachable wcmatch config now s → perform wcmatch config now p s = Ok s' →
    reachable wcmatch config now s'.


(** The reading of "no operation of a run puts a member of [deleteSet]
    back into [filterSet]". *)
Definition neverReadded (wcmatch : string → string → bool) (config : Config.t)
    (now : Clock) : Prop :=
  ∀ p s s',
    reachable wcmatch config now s → perform wcmatch config now p s = Ok s' →
    ∀ d, d ∈ deleteSet s → d ∉ filterSet s'.


(** The tag has been untagged: a manifest has been pushed under it. *)
Definition untaggedTag (evs : list Event) (tag : string) : Prop :=
  ∃ m isIndex, EPutManifest tag m isIndex ∈ evs.

(** The tag has been deleted the standard way: the digest the registry has
    for it is in [deleteSet]. *)
Definition standardDeleted t (tag : string) : Prop :=
  ∃ d, getTagDigest (collab t) tag = Some d ∧ d ∈ deleteSet t.

(** [deleteByTag], which has led from [s] to [t], has processed the tag,
    as an untagging or as a standard deletion. *)
Definition processedByTag s t (tag : string) : Prop :=
  untaggedTag (newEvents s t) tag ∨ standardDeleted t tag.

(** The reading of "every in-use, non-excluded tag that matches is
    processed by [deleteByTag], whether or not its digest is in
    [filterSet]". *)
Definition processesEveryMatchingTag (wcmatch : string → string → bool)
    (config : Config.t) (now : Clock) s : Prop :=
  ∀ t, deleteByTag wcmatch config now s = Ok t →
  ∀ tag, tag ∈ tagsInUse s → tag ∉ excludeTags s →
    wcmatch (default "" (Config.deleteTags config)) tag = true →
    processedByTag s t tag.

(** The package the registry resolves the tag to. *)
Definition resolvesTo (r : R) (tag : string) (pkg : Package.t) : Prop :=
  ∃ d, getTagDigest r tag = Some d ∧ getPackageByDigest r d = Some pkg.


(** The tag is one of [l], is not excluded, and the package it resolves to
    carries a number of tags that satisfies [P]. *)
Definition scanned s (l : list string) (tag : string) (P : nat → Prop) : Prop :=
  tag ∈ l ∧ (tag ∉ excludeTags s)
  ∧ ∃ pkg, resolvesTo (collab s) tag pkg ∧ P (length (Package.tags pkg)).


(** The digests the trace has asked the package service to delete. *)
Definition deletedDigests (evs : list Event) : list string :=
  omap (λ e, match e with
             | EDeletePackageVersion _ d _ _ => Some d
             | _ => None
             end) evs.

Definition isDeletion (e : Event) : Prop :=
  ∃ i d tgs l, e = EDeletePackageVersion i d tgs l.

(** The package view and the tag lists are the same in both states. *)
Definition sameView s t : Prop :=
  getPackageByDigest (collab t) = getPackageByDigest (collab s)
  ∧ getDigests (collab t) = getDigests (collab s)
  ∧ tagsInUse t = tagsInUse s
  ∧ excludeTags t = excludeTags s.

(** From [s] to [t] the trace has grown by deletions only, of pairwise
    distinct digests none of which was in [deleted] before; [deleted] has
    grown by exactly these digests and [numberImagesDeleted] by their
    number. *)
Definition cascade s t : Prop :=
  ∃ new, events t = events s ++ new
         ∧ Forall isDeletion new
         ∧ NoDup (deletedDigests new)
         ∧ (∀ d, d ∈ deletedDigests new → d ∉ deleted s)
         ∧ deleted t = deleted s ∪ list_to_set (deletedDigests new)
         ∧ numberImagesDeleted t = numberImagesDeleted s + length new.

(** The known digests that are not in [deleted]: each call of
    [deleteImage] that does anything takes one away. *)
Definition undeleted s : list string :=
  filter (λ d, d ∉ deleted s) (getDigests (collab s)).

(** No parent set of [digestUsedBy] has appeared or grown. *)
Definition parentsShrink s t : Prop :=
  ∀ k ps', digestUsedBy t !! k = Some ps' →
    ∃ ps, digestUsedBy s !! k = Some ps ∧ ps' ⊆ ps.

(** The four properties every step of the cascade has. *)
Definition cascadeStep s t : Prop :=
  cascade s t ∧ sameView s t ∧ parentsShrink s t.


(** [deleteImage] itself was invoked on the digest and deleted it: the
    deletion of a package by [deleteImage] carries no label, the deletion
    of a child by its parent carries one. *)
Definition topLevelDeleted (d : string) (evs : list Event) : Prop :=
  ∃ i tgs, EDeletePackageVersion i d tgs None ∈ evs.

(** The child [c] is not deleted and [p] is one of its recorded parents. *)
Definition sharedChild (c p : string) s : Prop :=
  (c ∉ deleted s) ∧ ∃ ps, digestUsedBy s !! c = Some ps ∧ p ∈ ps.

(** The child [c] has been deleted as a child and its entry dropped. *)
Definition childDeleted (c : string) s : Prop :=
  c ∈ deleted s ∧ digestUsedBy s !! c = None
  ∧ ∃ i lb, EDeletePackageVersion i c [] (Some lb) ∈ events s.

(** The reading of "with the two parents [p1] and [p2] recorded for [c],
    [deleteImage] on [p1] does not delete [c] and leaves [{p2}]". *)
Definition keepsSharedChild s (c p1 p2 : string) : Prop :=
  digestUsedBy s !! c = Some {[p1; p2]} →
  ∀ fuel pkg1 s1,
    getPackageByDigest (collab s) p1 = Some pkg1 →
    deleteImage fuel pkg1 s = Ok s1 →
    (c ∉ deleted s1) ∧ digestUsedBy s1 !! c = Some {[p2]}.


(** The list without the digests of [xs]. *)
Definition without (xs : list string) (fs : list string) : list string :=
  filter (λ d, d ∉ xs) fs.

Definition childDigests (manifest : Manifest.t) : list string :=
  match Manifest.manifests manifest with
  | Some ms => Descriptor.digest <$> ms
  | None => []
  end.

(** What [trimChildren] removes on account of one known digest: the
    children its manifest lists and, when its referrer tag is in use and
    not in [excl], the digest of that tag and the children the manifest of
    that tag lists. *)
Definition childTargets_of (r : R) (inUse excl : list string) (digest : string)
    : result (list string) :=
  manifest ← req (getManifestByDigest r digest);
  let referrerTag := replace "sha256:" "sha256-" digest in
  if set_has referrerTag inUse && negb (set_has referrerTag excl) then
    referrerDigest ← req (getTagDigest r referrerTag);
    referrerManifest ← req (getManifestByTag r referrerTag);
    Ok (childDigests manifest ++ referrerDigest :: childDigests referrerManifest)
  else Ok (childDigests manifest).

Definition childTargets (r : R) (inUse excl : list string) : result (list string) :=
  mapM (childTargets_of r inUse excl) (getDigests r)
  ≫= λ tss : list (list string), Ok (mjoin tss).

(** The tags the exclude-tags block records, and the digests it removes. *)
Definition excludedTagsOf (wcmatch : string → string → bool) (config : Config.t)
    (inUse : list string) : list string :=
  if truthy (Config.excludeTags config)
  then filter (λ tag, wcmatch (default "" (Config.excludeTags config)) tag = true) inUse
  else [].

(** The digest the package listing has for the tag, when it is truthy. *)
Definition taggedDigest (r : R) (tag : string) : option string :=
  match getDigestByTag r tag with
  | Some digest => if truthy (Some digest) then Some digest else None
  | None => None
  end.

Definition excludedDigests (wcmatch : string → string → bool) (config : Config.t)
    (r : R) (inUse : list string) : list string :=
  omap (taggedDigest r) (excludedTagsOf wcmatch config inUse).

(** The digest has a package dated at or after the cut-off, [now d] being
    what the clock shows when the digest is looked at; date and cut-off
    are dates that exist. *)
Definition tooRecent (olderThan : Z) (now : string → Z) (r : R) (d : string) : bool :=
  match getPackageByDigest r d with
  | Some pkg =>
      match Package.updated_at pkg with
      | Some updated_at => dateGe (newDate updated_at) (newDate (now d - olderThan))
      | None => false
      end
  | None => false
  end.

(** What the older-than block leaves of a list of digests. *)
Definition oldEnough (config : Config.t) (now : string → Z) (r : R) (fs : list string)
    : list string :=
  match Config.olderThan config with
  | Some olderThan =>
      if bool_decide (olderThan ≠ 0%Z)
      then filter (λ d, tooRecent olderThan now r d = false) fs
      else fs
  | None => fs
  end.

(** The registry and the package listing agree on the tags in use: a tag
    resolves to the same, known digest on both sides, and its manifest is
    the manifest of that digest. *)
Definition consistentTags (r : R) (inUse : list string) : Prop :=
  ∀ tag, tag ∈ inUse →
    ∃ d, getTagDigest r tag = Some d ∧ getDigestByTag r tag = Some d ∧ d ≠ ""
         ∧ d ∈ getDigests r ∧ getManifestByTag r tag = getManifestByDigest r d.

(** The tags left in [excludeTags] by an earlier reload that are still in
    use are tags the exclude pattern matches. *)
Definition staleExcludes (wcmatch : string → string → bool) (config : Config.t) s : Prop :=
  ∀ tag, tag ∈ excludeTags s → tag ∈ tagsInUse s →
    tag ∈ excludedTagsOf wcmatch config (tagsInUse s).

(** Every digest of [filterSet] has a package. *)
Definition packagesKnown s : Prop :=
  ∀ d, d ∈ filterSet s → is_Some (getPackageByDigest (collab s) d).

(** The digest is removed by the referrer part of the child trim: it is
    the digest of the referrer tag of a known digest, or a child listed in
    the manifest of that tag, and the tag is in use and not excluded. *)
Definition referrerTargetOf (r : R) (inUse excl : list string) (d : string) : Prop :=
  ∃ q tag, q ∈ getDigests r ∧ tag = replace "sha256:" "sha256-" q
    ∧ tag ∈ inUse ∧ (tag ∉ excl)
    ∧ (getTagDigest r tag = Some d
       ∨ ∃ m, getManifestByTag r tag = Some m ∧ d ∈ childDigests m).

Definition referrerTarget s (d : string) : Prop :=
  referrerTargetOf (collab s) (tagsInUse s) (excludeTags s) d.

(** Every known digest has a manifest. *)
Definition manifestsKnown (r : R) : Prop :=
  ∀ q, q ∈ getDigests r → is_Some (getManifestByDigest r q).


(** The state with the given exclusions and candidates. *)
Definition trimState (excl : list string) (fs : list string) s : CleanupAction R :=
  with_excludeTags excl (with_filterSet fs s).

(** The reading of "whatever the package state, the three trims applied
    in any order give the same [filterSet] and [excludeTags]". *)
Definition trimsOrderInsensitive (wcmatch : string → string → bool) (config : Config.t)
    (now : Clock) s : Prop :=
  ∀ order t t',
    order ≡ₚ [ChildTrim; ExcludeTrim; AgeTrim] →
    applyTrims wcmatch config now order s = Ok t →
    applyTrims wcmatch config now [ChildTrim; ExcludeTrim; AgeTrim] s = Ok t' →
    filterSet t = filterSet t' ∧ excludeTags t = excludeTags t'.




(** The digests the tags resolve to in the registry. *)
Definition resolvedDigests (r : R) (tags : list string) (d : string) : Prop :=
  ∃ tag, tag ∈ tags ∧ getTagDigest r tag = Some d.



(** ** Notions of the further properties *)

(** The digest has a package that satisfies [sel]. *)
Definition selected (sel : Package.t → Prop) `{!∀ p, Decision (sel p)} (r : R) (d : string)
    : bool :=
  match getPackageByDigest r d with
  | Some pkg => bool_decide (sel pkg)
  | None => false
  end.

(** The digest has a package that carries a tag; that carries none. *)
Definition isTagged (r : R) (d : string) : bool :=
  selected (λ pkg, 0 < length (Package.tags pkg)) r d.

Definition isUntagged (r : R) (d : string) : bool :=
  selected (λ pkg, length (Package.tags pkg) = 0) r d.

(** The date of the package of the digest. *)
Definition dateOf (r : R) (d : string) : option Z :=
  getPackageByDigest r d ≫= Package.updated_at.

(** Both packages are dated and [a] is not older than [b]. *)
Definition newerOrEqual (a b : Package.t) : Prop :=
  ∃ ta tb, Package.updated_at a = Some ta ∧ Package.updated_at b = Some tb ∧ (tb ≤ ta)%Z.

(** The digest [d] is dated and not older than [d']. *)
Definition notOlder (r : R) (d d' : string) : Prop :=
  ∃ td td', dateOf r d = Some td ∧ dateOf r d' = Some td' ∧ (td' ≤ td)%Z.

(** The moves of a list of digests, one after the other. *)
Definition moveAll (ds : list string) s : CleanupAction R :=
  foldl (λ s d, moveToDeleteSet d s) s ds.


(** [p] is in the set of parents the map has for [c]. *)
Definition parentsIn (m : gmap string (gset string)) (c p : string) : Prop :=
  ∃ ps, m !! c = Some ps ∧ p ∈ ps.

(** [p] is one of the parents recorded for [c] in [digestUsedBy]. *)
Definition recordedParent s (c p : string) : Prop := parentsIn (digestUsedBy s) c p.

(** The manifest of [p] is an index that lists [c]. *)
Definition listsChild (r : R) (p c : string) : Prop :=
  ∃ m ms, getManifestByDigest r p = Some m ∧ Manifest.manifests m = Some ms
          ∧ c ∈ Descriptor.digest <$> ms.

(** The older-than block is active and the digest is too recent for it. *)
Definition isRecent (config : Config.t) (now : string → Z) (r : R) (d : string) : bool :=
  match Config.olderThan config with
  | Some olderThan => bool_decide (olderThan ≠ 0%Z) && tooRecent olderThan now r d
  | None => false
  end.


(** From [s] to [t] the trace has only grown; [numberImagesDeleted] has
    grown by the number of deletions the trace has gained, and
    [numberMultiImagesDeleted] by at most as much. *)
Definition counted s t : Prop :=
  ∃ new, events t = events s ++ new
         ∧ numberImagesDeleted t = numberImagesDeleted s + length (deletedDigests new)
         ∧ (numberMultiImagesDeleted s ≤ numberMultiImagesDeleted t)%nat
         ∧ (numberMultiImagesDeleted t
            ≤ numberMultiImagesDeleted s + length (deletedDigests new))%nat.

(** The trace and the two counters. *)
Definition stats s : list Event * nat * nat :=
  (events s, numberImagesDeleted s, numberMultiImagesDeleted s).


(** The delete call is for a package of the listing: it passes the id the
    listing has for the digest; a call without a label passes the tags of
    that package, a call with a label passes none. *)
Definition listedDeletion (r : R) (e : Event) : Prop :=
  match e with
  | EDeletePackageVersion i d tgs lb =>
      ∃ pkg, getPackageByDigest r d = Some pkg ∧ Package.id pkg = i
             ∧ tgs = match lb with None => Package.tags pkg | Some _ => [] end
  | _ => False
  end.

(** A step of the cascade that only makes delete calls for packages of
    the listing. *)
Definition listedStep s t : Prop :=
  cascadeStep s t ∧ Forall (listedDeletion (collab s)) (newEvents s t).


(** An event of the untagging: a push under a tag that satisfies [P], the
    drop of its cache entry, a delete call that passes such a tag and no
    other, or a load of the listing. *)
Definition untagEvent (P : string → Prop) (e : Event) : Prop :=
  match e with
  | EPutManifest tag _ _ => P tag
  | EDeleteTag tag => P tag
  | EDeletePackageVersion _ _ tgs lb => lb = None ∧ ∃ tag, tgs = [tag] ∧ P tag
  | ELoadPackages _ => True
  | EWarning _ => False
  end.

(** The tag matches the delete pattern, is not excluded and is carried by
    the package of a candidate. *)
Definition deletableTag (wcmatch : string → string → bool) (config : Config.t) s
    (tag : string) : Prop :=
  wcmatch (default "" (Config.deleteTags config)) tag = true
  ∧ (tag ∉ excludeTags s)
  ∧ ∃ d pkg, d ∈ filterSet s ∧ getPackageByDigest (collab s) d = Some pkg
             ∧ tag ∈ Package.tags pkg.


(** The referrer tags the warnings of a trace report as orphaned, in
    order. *)
Definition orphanTags (evs : list Event) : list string :=
  omap (λ e, match e with
             | EWarning (OrphanedReferrer tag) => Some tag
             | _ => None
             end) evs.

(** The tag is a referrer tag whose parent digest has no package id. *)
Definition isOrphanTag (r : R) (tag : string) : bool :=
  startsWith "sha256-" tag
  && bool_decide (getIdByDigest r (replace "sha256-" "sha256:" tag) = None).


(** A deletable tag resolves to the digest, and the package of the digest
    carries that tag alone. *)
Definition selectedByTag (wcmatch : string → string → bool) (config : Config.t) s
    (d : string) : Prop :=
  ∃ tag pkg, deletableTag wcmatch config s tag
             ∧ getTagDigest (collab s) tag = Some d
             ∧ getPackageByDigest (collab s) d = Some pkg
             ∧ length (Package.tags pkg) = 1.


(** From [s] to [t] candidates have been selected and nothing else has
    happened to the two working sets: [filterSet] has only lost digests,
    and [deleteSet] has gained exactly the digests that [filterSet] has
    lost. *)
Definition selectsCandidates s t : Prop :=
  (∀ d, d ∈ filterSet t → d ∈ filterSet s)
  ∧ (∀ d, d ∈ deleteSet t ↔ d ∈ deleteSet s ∨ (d ∈ filterSet s ∧ d ∉ filterSet t)).


(** The warnings the walk of one digest gives: one for each entry of its
    manifest that has no package id, in the order of the entries, each
    with the tags of the digest. *)
Definition entryWarnings (r : R) (p : string) : list Warning :=
  match getManifestByDigest r p, getPackageByDigest r p with
  | Some m, Some pkg =>
      omap (λ im : Descriptor.t,
              match getIdByDigest r (Descriptor.digest im) with
              | Some _ => None
              | None => Some (ChildNotFound (Descriptor.digest im) (Package.tags pkg) p)
              end) (default [] (Manifest.manifests m))
  | _, _ => []
  end.

(** The digests the manifest of the digest lists. *)
Definition childrenOf (r : R) (p : string) : list string :=
  match getManifestByDigest r p with
  | Some m => childDigests m
  | None => []
  end.

(** The digests of [l] that the validator walks when the digests of
    [marked] are marked: a marked digest is passed over, and a digest that
    is walked marks the digests its manifest lists. *)
Fixpoint walkedDigests (r : R) (marked l : list string) : list string :=
  match l with
  | [] => []
  | d :: l =>
      if bool_decide (d ∈ marked) then walkedDigests r marked l
      else d :: walkedDigests r (marked ++ childrenOf r d) l
  end.

End Notions.

(** ** The configuration (src/config.ts) *)

(** [enum LogLevel] *)
Inductive LogLevel :=
| ERROR
| WARN
| INFO
| DEBUG.

Module Settings.
(** The [Config] object that [getConfig] returns: [action] holds the
    fields [main.ts] reads, the others are kept beside it; the Octokit
    client is left out. *)
Record t := {
  action : Config.t;
  isPrivateRepo : bool;
  owner : string;
  repository : string;
  package : string;
  defaultPackageUsed : bool;
  olderThanReadable : option string;
  dryRun : bool;
  logLevel : LogLevel;
  token : string
}.
End Settings.

(** [s.split(sep)] with a separator of one character. *)
Fixpoint split (sep : Ascii.ascii) (s : string) : list string :=
  match s with
  | EmptyString => [EmptyString]
  | String c s' =>
      if bool_decide (c = sep) then EmptyString :: split sep s'
      else match split sep s' with
           | part :: parts => String c part :: parts
           | [] => [String c EmptyString]
           end
  end.

(** The character occurs in the string. *)
Fixpoint hasChar (c : Ascii.ascii) (s : string) : bool :=
  match s with
  | EmptyString => false
  | String c' s' => bool_decide (c' = c) || hasChar c s'
  end.

(** Truthiness of an optional number: [undefined], [NaN] (both [None]) and
    [0] are falsy. *)
Definition truthyNumber (o : option nat) : bool :=
  match o with
  | Some n => negb (bool_decide (n = 0))
  | None => false
  end.

Section GetConfig.

(** What [getConfig] reads: [core.getInput(name)], which is [''] for an
    input that is not given; [core.getBooleanInput(name)], [None] where it
    throws; [process.env['GITHUB_REPOSITORY']]; and the functions
    [parseInt] ([None] is [NaN]), [humanInterval] ([None] is [undefined] or
    [NaN]) and [String.prototype.toLowerCase]. *)
Variable getInput : string → string.
Variable getBooleanInput : string → option bool.
Variable GITHUB_REPOSITORY : option string.
Variable parseInt : string → option Z.
Variable humanInterval : string → option Z.
Variable toLowerCase : string → string.

(** [core.getInput(name)] as a condition. *)
Definition given (name : string) : bool := truthy (Some (getInput name)).

(** Lines 126-153: owner, repository, package and [defaultPackageUsed],
    populated from [GITHUB_REPOSITORY]. *)
Definition getConfig_repository : result (string * string * string * bool) :=
  if truthy GITHUB_REPOSITORY then
    let parts := split "/"%char (default "" GITHUB_REPOSITORY) in
    if bool_decide (length parts = 2) then
      Ok (if given "owner" then getInput "owner" else default "" (parts !! 0),
          if given "repository" then getInput "repository" else default "" (parts !! 1),
          if given "package" then getInput "package" else default "" (parts !! 1),
          negb (given "package"))
    else Throw
  else Throw.

(** Lines 173-182 and 184-193: a keep-n input. *)
Definition getConfig_keep (name : string) : result (option nat) :=
  if given name then
    match parseInt (getInput name) with
    | None => Throw
    | Some n => if bool_decide (n < 0)%Z then Throw else Ok (Some (Z.to_nat n))
    end
  else Ok None.

(** Lines 219-223, 224-228, 230-237 and 239-243: a boolean input that
    defaults to
    [false]. *)
Definition getConfig_boolean (name : string) : result bool :=
  if given name then req (getBooleanInput name) else Ok false.

(** Lines 195-211: [delete-untagged] is the default when no option is
    set. *)
Definition getConfig_deleteUntagged : result bool :=
  if given "delete-untagged" then req (getBooleanInput "delete-untagged")
  else
    Ok (negb (given "tags") && negb (given "delete-tags")
        && negb (given "delete-ghost-images") && negb (given "delete-partial-images")
        && negb (given "keep-n-untagged") && negb (given "keep-n-tagged")).

(** Lines 245-256: the log level; a level that is not one of the four
    leaves [INFO], the level the constructor sets. *)
Definition getConfig_logLevel : LogLevel :=
  if given "log-level" then
    let level := toLowerCase (getInput "log-level") in
    if bool_decide (level = "error") then ERROR
    else if bool_decide (level = "warn") then WARN
    else if bool_decide (level = "info") then INFO
    else if bool_decide (level = "debug") then DEBUG
    else INFO
  else INFO.

(** [getConfig], lines 124-310; the print of the options is not
    modelled. An input marked [required] makes [core.getInput] throw when
    it is not given. *)
Definition getConfig : result Settings.t :=
  if negb (given "token") then Throw else
  '(owner, repository, package, defaultPackageUsed) ← getConfig_repository;
  if given "tags" && given "delete-tags" then Throw else
  let deleteTags :=
    if given "tags" then Some (getInput "tags")
    else if given "delete-tags" then Some (getInput "delete-tags")
    else None in
  let excludeTags := Some (getInput "exclude-tags") in
  let olderThan :=
    if given "older-than" then humanInterval (getInput "older-than") else None in
  let olderThanReadable :=
    if given "older-than" then Some (getInput "older-than") else None in
  keepNtagged ← getConfig_keep "keep-n-tagged";
  keepNuntagged ← getConfig_keep "keep-n-untagged";
  deleteUntagged ← getConfig_deleteUntagged;
  if truthyNumber keepNuntagged && given "delete-untagged" then Throw else
  deleteGhostImages ← getConfig_boolean "delete-ghost-images";
  deletePartialImages ← getConfig_boolean "delete-partial-images";
  dryRun ← getConfig_boolean "dry-run";
  validate ← getConfig_boolean "validate";
  let logLevel := getConfig_logLevel in
  if negb (truthy (Some owner)) then Throw else
  if negb (truthy (Some package)) then Throw else
  if negb (truthy (Some repository)) then Throw else
  Ok {| Settings.action :=
          {| Config.deleteTags := deleteTags;
             Config.excludeTags := excludeTags;
             Config.olderThan := olderThan;
             Config.deleteUntagged := deleteUntagged;
             Config.deleteGhostImages := deleteGhostImages;
             Config.deletePartialImages := deletePartialImages;
             Config.keepNuntagged := keepNuntagged;
             Config.keepNtagged := keepNtagged;
             Config.validate := validate |};
        Settings.isPrivateRepo := false;
        Settings.owner := owner;
        Settings.repository := repository;
        Settings.package := package;
        Settings.defaultPackageUsed := defaultPackageUsed;
        Settings.olderThanReadable := olderThanReadable;
        Settings.dryRun := dryRun;
        Settings.logLevel := logLevel;
        Settings.token := getInput "token" |}.

(** The keep-n input is not given, or holds a number that is not
    negative. *)
Definition keepInputValid (name : string) : Prop :=
  given name = true →
  ∃ n, parseInt (getInput name) = Some n ∧ (0 ≤ n)%Z.

(** The boolean input is not given, or [getBooleanInput] reads it. *)
Definition booleanInputValid (name : string) : Prop :=
  given name = true → is_Some (getBooleanInput name).

(** The value of an input with a default taken from one part of
    [GITHUB_REPOSITORY]. *)
Definition inputOr (name : string) (part : string) : string :=
  if given name then getInput name else part.

(** What makes [getConfig] return. *)
Definition validInputs : Prop :=
  given "token" = true
  ∧ (∃ o p, GITHUB_REPOSITORY = Some (o +:+ String "/"%char p)
            ∧ hasChar "/"%char o = false ∧ hasChar "/"%char p = false
            ∧ inputOr "owner" o ≠ "" ∧ inputOr "package" p ≠ ""
            ∧ inputOr "repository" p ≠ "")
  ∧ ¬ (given "tags" = true ∧ given "delete-tags" = true)
  ∧ keepInputValid "keep-n-tagged" ∧ keepInputValid "keep-n-untagged"
  ∧ ¬ (given "delete-untagged" = true ∧ given "keep-n-untagged" = true
       ∧ parseInt (getInput "keep-n-untagged") ≠ Some 0%Z)
  ∧ booleanInputValid "delete-untagged" ∧ booleanInputValid "delete-ghost-images"
  ∧ booleanInputValid "delete-partial-images" ∧ booleanInputValid "dry-run"
  ∧ booleanInputValid "validate".

End GetConfig.

(** * Properties *)

(** ** The error monad and the loops *)

Lemma bind_Ok {A B : Type} (m : result A) (f : A → result B) (b : B) :
  m ≫= f = Ok b ↔ ∃ a, m = Ok a ∧ f a = Ok b.
Proof.
  destruct m as [a| |]; simpl; split.
  - intros Hf. by exists a.
  - intros (a' & Ha & Hf). by simplify_eq.
  - done.
  - by intros (? & ? & ?).
  - done.
  - by intros (? & ? & ?).
Qed.

Lemma req_Ok {A : Type} (o : option A) (a : A) : req o = Ok a ↔ o = Some a.
Proof. destruct o; simpl; split; intros; by simplify_eq. Qed.

Lemma req_not_OutOfFuel {A : Type} (o : option A) : req o ≠ OutOfFuel.
Proof. by destruct o. Qed.

(** Decompose a successful sequence of monadic steps. *)
Ltac inv_ok :=
  repeat match goal with
  | H : _ ≫= _ = Ok _ |- _ =>
      apply bind_Ok in H; destruct H as (? & ? & H)
  | H : req _ = Ok _ |- _ => apply req_Ok in H
  | H : Ok _ = Ok _ |- _ => injection H as H
  | H : Throw = Ok _ |- _ => discriminate H
  | H : OutOfFuel = Ok _ |- _ => discriminate H
  end.

(** An invariant of the loop body is an invariant of the loop. *)
Lemma forEach_invariant {A S : Type} (P : S → Prop) (body : A → S → result S)
    (l : list A) (s s' : S) :
  (∀ x t t', x ∈ l → P t → body x t = Ok t' → P t') →
  P s → forEach l body s = Ok s' → P s'.
Proof.
  revert s. induction l as [|x l IH]; intros s Hbody HP Hrun; simpl in Hrun.
  - by simplify_eq.
  - inv_ok. eapply IH; [| |done].
    + intros y t t' Hy. apply Hbody. by right.
    + eapply Hbody; [by left|done|done].
Qed.

Lemma forEach_app {A S : Type} (body : A → S → result S) (l1 l2 : list A) (s : S) :
  forEach (l1 ++ l2) body s = forEach l1 body s ≫= forEach l2 body.
Proof.
  revert s. induction l1 as [|x l1 IH]; intros s; simpl; [done|].
  destruct (body x s); simpl; [apply IH|done|done].
Qed.

Lemma elem_of_set_add (x y : string) (l : list string) :
  x ∈ set_add y l ↔ x ∈ l ∨ x = y.
Proof.
  unfold set_add, set_has. case_bool_decide.
  - split; [by left|]. intros [?| ->]; done.
  - rewrite elem_of_app, list_elem_of_singleton. done.
Qed.

Lemma elem_of_set_delete (x y : string) (l : list string) :
  x ∈ set_delete y l ↔ x ∈ l ∧ x ≠ y.
Proof. unfold set_delete. rewrite list_elem_of_filter. tauto. Qed.

Lemma set_add_NoDup (y : string) (l : list string) : NoDup l → NoDup (set_add y l).
Proof.
  intros Hl. unfold set_add, set_has. case_bool_decide; [done|].
  apply NoDup_app. split_and!; [done| |apply NoDup_singleton].
  intros x Hx ->%list_elem_of_singleton. done.
Qed.

(** ** Sorting *)

Lemma insertBy_Permutation {A : Type} (cmp : A → A → option Z) (x : A) (l : list A) :
  insertBy cmp x l ≡ₚ x :: l.
Proof.
  induction l as [|y l IH]; [done|]. simpl. case_bool_decide; [|done].
  rewrite IH. apply Permutation_swap.
Qed.

Lemma insertionSortBy_Permutation {A : Type} (cmp : A → A → option Z) (l : list A) :
  insertionSortBy cmp l ≡ₚ l.
Proof.
  induction l as [|x l IH]; [done|]. unfold insertionSortBy in *. simpl.
  rewrite insertBy_Permutation. by f_equiv.
Qed.

Lemma consistentComparator_weaken {A : Type} (cmp : A → A → option Z) (l k : list A) :
  (∀ a, a ∈ k → a ∈ l) → consistentComparator cmp l → consistentComparator cmp k.
Proof. intros Hkl Hc a b c Ha Hb Hc'. apply Hc; by apply Hkl. Qed.

Lemma insertBy_sorted {A : Type} (cmp : A → A → option Z) (x : A) (l : list A) :
  consistentComparator cmp (x :: l) →
  StronglySorted (λ a b, 0 ≤ default 0 (cmp b a))%Z l →
  StronglySorted (λ a b, 0 ≤ default 0 (cmp b a))%Z (insertBy cmp x l).
Proof.
  intros Hc Hs. induction Hs as [|y l Hs IH Hy]; simpl.
  - repeat constructor.
  - assert (x ∈ x :: y :: l) as Hx by left.
    assert (y ∈ x :: y :: l) as Hy' by (right; left).
    case_bool_decide as Hlt.
    + constructor.
      * apply IH. eapply consistentComparator_weaken; [|exact Hc].
        intros a [->|Ha]%elem_of_cons; [left|by do 2 right].
      * rewrite insertBy_Permutation. constructor; [lia|done].
    + constructor; [by constructor|]. constructor.
      * destruct (Hc x y x Hx Hy' Hx) as (Hr & Hsym & _ & _ & _).
        destruct (Hc y x y Hy' Hx Hy') as (_ & _ & _ & Hlt' & _).
        destruct (Hc y y y Hy' Hy' Hy') as (Hry & _). lia.
      * apply Forall_forall. intros z Hz.
        assert (z ∈ x :: y :: l) as Hz' by (by do 2 right).
        rewrite Forall_forall in Hy. specialize (Hy z Hz). simpl in Hy.
        destruct (Hc x y z Hx Hy' Hz') as (_ & _ & _ & _ & _).
        destruct (Hc z x y Hz' Hx Hy') as (_ & _ & Heq1 & Hlt1 & _).
        destruct (Hc x y x Hx Hy' Hx) as (_ & Hsym1 & _ & _ & _).
        destruct (Hc y x z Hy' Hx Hz') as (_ & Hsym2 & _ & _ & _).
        destruct (Hc z y x Hz' Hy' Hx) as (_ & Hsym3 & Heq2 & _ & _).
        destruct (Hc y z x Hy' Hz' Hx) as (_ & _ & _ & Hlt2 & _).
        destruct (Hc z y z Hz' Hy' Hz') as (Hrz & _ & _ & _ & Hgt1).
        destruct (Hc y z y Hy' Hz' Hy') as (_ & Hsym4 & _ & Hlt3 & _).
        lia.
Qed.

Lemma insertionSortBy_sorted {A : Type} (cmp : A → A → option Z) (l : list A) :
  consistentComparator cmp l →
  StronglySorted (λ a b, 0 ≤ default 0 (cmp b a))%Z (insertionSortBy cmp l).
Proof.
  induction l as [|x l IH]; intros Hc; [constructor|]. unfold insertionSortBy in *. simpl.
  apply insertBy_sorted.
  - eapply consistentComparator_weaken; [|exact Hc]. intros a.
    change (foldr (insertBy cmp) [] l) with (insertionSortBy cmp l).
    by rewrite insertionSortBy_Permutation.
  - apply IH. eapply consistentComparator_weaken; [|exact Hc]. intros a Ha. by right.
Qed.

(** The insertion sort is a sort. *)
#[global] Instance insertionSort : ArraySort :=
  {| sortBy := @insertionSortBy;
     sortBy_Permutation := @insertionSortBy_Permutation;
     sortBy_consistent := @insertionSortBy_sorted |}.

(** ** Ghost and partial images *)

Section Classifiers.
Context {R : Type} `{Collaborators R} {engine : ArraySort}.
Implicit Types s : CleanupAction R.

Lemma only_sets_differ_refl s : only_sets_differ s s.
Proof. by destruct s. Qed.

Lemma only_sets_differ_collab s s' : only_sets_differ s s' → collab s' = collab s.
Proof. intros <-. done. Qed.

Lemma only_sets_differ_events s s' : only_sets_differ s s' → events s' = events s.
Proof. intros <-. done. Qed.

Lemma only_sets_differ_trans s1 s2 s3 :
  only_sets_differ s1 s2 → only_sets_differ s2 s3 → only_sets_differ s1 s3.
Proof. intros <- <-. done. Qed.

Lemma only_sets_differ_move d s : only_sets_differ s (moveToDeleteSet d s).
Proof. done. Qed.

Lemma classify_forEach test (l : list string) s s' :
  forEach l (classify_body test) s = Ok s' →
  only_sets_differ s s' ∧
  (∀ d, d ∈ filterSet s' ↔ d ∈ filterSet s ∧ ¬ (d ∈ l ∧ selects test (collab s) d = true)) ∧
  (∀ d, d ∈ deleteSet s' ↔ d ∈ deleteSet s ∨ (d ∈ l ∧ selects test (collab s) d = true)).
Proof.
  revert s. induction l as [|x l IH]; intros s Hrun; simpl in Hrun.
  - simplify_eq. split; [apply only_sets_differ_refl|].
    split; intros d; rewrite elem_of_nil; tauto.
  - apply bind_Ok in Hrun as (t & Hx & Hrun).
    apply IH in Hrun as (Hd & Hf & Hdel).
    unfold classify_body in Hx. apply bind_Ok in Hx as (m & Hm%req_Ok & Hx).
    assert (Hsel : selects test (collab s) x = test (collab s) m)
      by (unfold selects; by rewrite Hm).
    destruct (test (collab s) m) eqn:Ht.
    + apply bind_Ok in Hx as (p & _ & Hx). simplify_eq. simpl in *.
      split; [by eapply only_sets_differ_trans; [apply (only_sets_differ_move x)|]|].
      split; intros d; [rewrite Hf|rewrite Hdel]; simpl;
        rewrite ?elem_of_set_delete, ?elem_of_set_add, elem_of_cons.
      * split.
        -- intros ((Hd1 & Hne) & Hn). split; [done|]. intros [[->|Hl] Hs]; [done|]. tauto.
        -- intros (Hd1 & Hn). split; [split; [done|]|].
           ++ intros ->. apply Hn. split; [by left|done].
           ++ intros (Hl & Hs). apply Hn. split; [by right|done].
      * split.
        -- intros [[?| ->]|(Hl & Hs)]; [by left|right|right]; (split; [|done]); tauto.
        -- intros [?|([->|Hl] & Hs)]; [by left;left|by left; right|by right].
    + simplify_eq.
      split; [done|].
      split; intros d; [rewrite Hf|rewrite Hdel]; rewrite elem_of_cons.
      * split.
        -- intros (Hd1 & Hn). split; [done|]. intros [[->|Hl] Hs]; [congruence|tauto].
        -- intros (Hd1 & Hn). split; [done|]. intros (Hl & Hs). apply Hn. tauto.
      * split.
        -- intros [?|(Hl & Hs)]; [by left|right; tauto].
        -- intros [?|([->|Hl] & Hs)]; [by left|congruence|by right].
Qed.

Lemma classify_forEach_total test (l : list string) s :
  (∀ d, d ∈ l → is_Some (getManifestByDigest (collab s) d)
                ∧ is_Some (getPackageByDigest (collab s) d)) →
  ∃ s', forEach l (classify_body test) s = Ok s'.
Proof.
  revert s. induction l as [|x l IH]; intros s Hl; simpl; [by eexists|].
  destruct (Hl x) as ([m Hm] & [p Hp]); [by left|].
  assert (∃ t, classify_body test x s = Ok t ∧ collab t = collab s) as (t & Ht & Hc).
  { unfold classify_body. rewrite Hm. simpl.
    destruct (test (collab s) m); simpl; [|by eexists].
    rewrite Hp. simpl. by eexists. }
  rewrite Ht. simpl. apply IH. intros d Hd. rewrite Hc. apply Hl. by right.
Qed.

Lemma countMissing_spec (r : R) (ms : list Descriptor.t) :
  countMissing r ms
  = length (filter (λ im, getIdByDigest r (Descriptor.digest im) = None) ms).
Proof.
  unfold countMissing.
  enough (∀ n, foldl (λ missing im,
                  match getIdByDigest r (Descriptor.digest im) with
                  | Some _ => missing
                  | None => missing + 1
                  end) n ms
               = n + length (filter (λ im, getIdByDigest r (Descriptor.digest im) = None) ms))
    as Hgen by apply (Hgen 0).
  induction ms as [|im ms IH]; intros n; simpl; [lia|].
  rewrite IH, filter_cons.
  destruct (getIdByDigest r (Descriptor.digest im)) eqn:Hid.
  - rewrite decide_False by done. done.
  - rewrite decide_True by done. simpl. lia.
Qed.

(** An index is a ghost image exactly when every child is without a
    package id. *)
Lemma isGhostImage_spec (r : R) (m : Manifest.t) :
  isGhostImage r m = true ↔
  ∃ ms, Manifest.manifests m = Some ms
        ∧ ∀ im, im ∈ ms → getIdByDigest r (Descriptor.digest im) = None.
Proof.
  unfold isGhostImage. destruct (Manifest.manifests m) as [ms|].
  - rewrite bool_decide_eq_true, countMissing_spec. split.
    + intros Hlen. exists ms. split; [done|].
      intros im Him.
      assert (Hall : filter (λ im, getIdByDigest r (Descriptor.digest im) = None) ms = ms).
      { clear im Him. induction ms as [|im ms IH]; [done|].
        rewrite filter_cons in Hlen |- *.
        pose proof (length_filter (λ im, getIdByDigest r (Descriptor.digest im) = None) ms).
        destruct (decide _); simpl in Hlen; [f_equal; apply IH; lia|lia]. }
      rewrite <- Hall in Him. by apply list_elem_of_filter in Him as [? _].
    + intros (ms' & [= <-] & Hall). f_equal.
      induction ms as [|im ms IH]; [done|].
      rewrite filter_cons, decide_True by (apply Hall; by left).
      f_equal. apply IH. intros im' ?. apply Hall. by right.
  - split; [done|]. by intros (? & ? & _).
Qed.

(** An index is a partial image as soon as one child is without a package
    id. *)
Lemma isPartialImage_spec (r : R) (m : Manifest.t) :
  isPartialImage r m = true ↔
  ∃ ms im, Manifest.manifests m = Some ms ∧ im ∈ ms
           ∧ getIdByDigest r (Descriptor.digest im) = None.
Proof.
  unfold isPartialImage. destruct (Manifest.manifests m) as [ms|].
  - rewrite existsb_exists. split.
    + intros (im & Him%list_elem_of_In & Hid). exists ms, im. split_and!; [done..|].
      by destruct (getIdByDigest r (Descriptor.digest im)).
    + intros (ms' & im & [= <-] & Him & Hid). exists im.
      split; [by apply list_elem_of_In|]. by rewrite Hid.
  - split; [done|]. by intros (? & ? & ? & _).
Qed.

End Classifiers.

Section ClassifierClaims.
Context {R : Type} `{Collaborators R} {engine : ArraySort}.
Implicit Types s : CleanupAction R.

Lemma deleteGhostImages_spec s s' :
  deleteGhostImages s = Ok s' →
  only_sets_differ s s' ∧
  (∀ d, d ∈ filterSet s' ↔ d ∈ filterSet s ∧ selects isGhostImage (collab s) d = false) ∧
  (∀ d, d ∈ deleteSet s' ↔
        d ∈ deleteSet s ∨ (d ∈ filterSet s ∧ selects isGhostImage (collab s) d = true)).
Proof.
  intros Hrun. apply (classify_forEach isGhostImage) in Hrun as (Hd & Hf & Hdel).
  split; [done|]. split; [|done].
  intros d. rewrite Hf. destruct (selects isGhostImage (collab s) d); intuition congruence.
Qed.

Lemma deletePartialImages_spec s s' :
  deletePartialImages s = Ok s' →
  only_sets_differ s s' ∧
  (∀ d, d ∈ filterSet s' ↔ d ∈ filterSet s ∧ selects isPartialImage (collab s) d = false) ∧
  (∀ d, d ∈ deleteSet s' ↔
        d ∈ deleteSet s ∨ (d ∈ filterSet s ∧ selects isPartialImage (collab s) d = true)).
Proof.
  intros Hrun. apply (classify_forEach isPartialImage) in Hrun as (Hd & Hf & Hdel).
  split; [done|]. split; [|done].
  intros d. rewrite Hf. destruct (selects isPartialImage (collab s) d); intuition congruence.
Qed.

Lemma deleteGhostImages_total s : readable s → ∃ s', deleteGhostImages s = Ok s'.
Proof. apply (classify_forEach_total isGhostImage). Qed.

Lemma deletePartialImages_total s : readable s → ∃ s', deletePartialImages s = Ok s'.
Proof. apply (classify_forEach_total isPartialImage). Qed.

Lemma ghost_moved s s' d :
  d ∈ filterSet s → selects isGhostImage (collab s) d = true →
  deleteGhostImages s = Ok s' → moved d s'.
Proof.
  intros Hd Hsel (_ & Hf & Hdel)%deleteGhostImages_spec. split.
  - rewrite Hf. intros [_ ?]. congruence.
  - rewrite Hdel. by right.
Qed.

Lemma ghost_kept s s' d :
  d ∈ filterSet s → selects isGhostImage (collab s) d = false →
  deleteGhostImages s = Ok s' → kept d s s'.
Proof.
  intros Hd Hsel (_ & Hf & Hdel)%deleteGhostImages_spec. split.
  - by rewrite Hf.
  - rewrite Hdel. split; [|by left]. intros [?|[_ ?]]; [done|congruence].
Qed.

Lemma partial_moved s s' d :
  d ∈ filterSet s → selects isPartialImage (collab s) d = true →
  deletePartialImages s = Ok s' → moved d s'.
Proof.
  intros Hd Hsel (_ & Hf & Hdel)%deletePartialImages_spec. split.
  - rewrite Hf. intros [_ ?]. congruence.
  - rewrite Hdel. by right.
Qed.

Lemma partial_kept s s' d :
  d ∈ filterSet s → selects isPartialImage (collab s) d = false →
  deletePartialImages s = Ok s' → kept d s s'.
Proof.
  intros Hd Hsel (_ & Hf & Hdel)%deletePartialImages_spec. split.
  - by rewrite Hf.
  - rewrite Hdel. split; [|by left]. intros [?|[_ ?]]; [done|congruence].
Qed.

End ClassifierClaims.

Section ClassifierTheorems.
Context {R : Type} `{Collaborators R} {engine : ArraySort}.
Variable config : Config.t.
Implicit Types s : CleanupAction R.

Lemma selects_ghost_two (r : R) d m a b :
  getManifestByDigest r d = Some m → Manifest.manifests m = Some [a; b] →
  selects isGhostImage r d
  = bool_decide (getIdByDigest r (Descriptor.digest a) = None
                 ∧ getIdByDigest r (Descriptor.digest b) = None).
Proof.
  intros Hm Hms. unfold selects. rewrite Hm.
  apply eq_true_iff_eq. rewrite isGhostImage_spec, bool_decide_eq_true. split.
  - intros (ms & Hms' & Hall). rewrite Hms in Hms'. simplify_eq.
    split; apply Hall; set_solver.
  - intros [Ha Hb]. exists [a; b]. split; [done|].
    intros im [->|[->|[]%elem_of_nil]%elem_of_cons]%elem_of_cons; done.
Qed.

Lemma selects_partial_two (r : R) d m a b :
  getManifestByDigest r d = Some m → Manifest.manifests m = Some [a; b] →
  selects isPartialImage r d
  = bool_decide (getIdByDigest r (Descriptor.digest a) = None
                 ∨ getIdByDigest r (Descriptor.digest b) = None).
Proof.
  intros Hm Hms. unfold selects. rewrite Hm.
  apply eq_true_iff_eq. rewrite isPartialImage_spec, bool_decide_eq_true. split.
  - intros (ms & im & Hms' & Him & Hid). rewrite Hms in Hms'. simplify_eq.
    apply elem_of_cons in Him as [->|[->|[]%elem_of_nil]%elem_of_cons]; tauto.
  - intros [Ha|Hb].
    + exists [a; b], a. split_and!; [done|set_solver|done].
    + exists [a; b], b. split_and!; [done|set_solver|done].
Qed.

(** C2. An index digest of [filterSet] whose child list is [[a; b]]: when
    neither child has a package, ghost detection and partial detection each
    move the digest from [filterSet] to [deleteSet], and so does the
    classification step of [run] when either option is enabled; when exactly
    one child has a package, partial detection moves the digest and ghost
    detection leaves it where it is. With every digest of [filterSet]
    readable both classifiers return. *)
Theorem ghost_and_partial_classification s d m a b :
  d ∈ filterSet s →
  getManifestByDigest (collab s) d = Some m →
  Manifest.manifests m = Some [a; b] →
  let idA := getIdByDigest (collab s) (Descriptor.digest a) in
  let idB := getIdByDigest (collab s) (Descriptor.digest b) in
  (idA = None ∧ idB = None →
     (∀ s', deleteGhostImages s = Ok s' → moved d s')
     ∧ (∀ s', deletePartialImages s = Ok s' → moved d s')
     ∧ (∀ s', Config.deletePartialImages config || Config.deleteGhostImages config = true →
              run_partialOrGhost config s = Ok s' → moved d s'))
  ∧ ((is_Some idA ∧ idB = None) ∨ (idA = None ∧ is_Some idB) →
     (∀ s', deletePartialImages s = Ok s' → moved d s')
     ∧ (∀ s', deleteGhostImages s = Ok s' → kept d s s'))
  ∧ (readable s →
     (∃ s', deleteGhostImages s = Ok s') ∧ (∃ s', deletePartialImages s = Ok s')).
Proof.
  intros Hd Hm Hms idA idB.
  pose proof (selects_ghost_two (collab s) d m a b Hm Hms) as Hg.
  pose proof (selects_partial_two (collab s) d m a b Hm Hms) as Hp.
  fold idA idB in Hg, Hp. split_and!.
  - intros [Ha Hb].
    rewrite bool_decide_eq_true_2 in Hg by done.
    rewrite bool_decide_eq_true_2 in Hp by (by left).
    split_and!.
    + intros s'. by apply ghost_moved.
    + intros s'. by apply partial_moved.
    + intros s' Hflag Hrun. unfold run_partialOrGhost in Hrun.
      destruct (Config.deletePartialImages config); [by eapply partial_moved|].
      destruct (Config.deleteGhostImages config); [by eapply ghost_moved|done].
  - intros Hone.
    rewrite bool_decide_eq_false_2 in Hg
      by (intros [Ha Hb]; destruct Hone as [[[? Hs] _]|[_ [? Hs]]]; congruence).
    rewrite bool_decide_eq_true_2 in Hp by (destruct Hone as [[_ ?]|[? _]]; tauto).
    split.
    + intros s'. by apply partial_moved.
    + intros s'. by apply ghost_kept.
  - intros Hr. split; [by apply deleteGhostImages_total|by apply deletePartialImages_total].
Qed.

(** C10. An index digest of [filterSet] with an empty child list is moved
    to [deleteSet] by ghost detection, the count of missing children being
    equal to the length of the list, and is left in [filterSet] by partial
    detection. With every digest of [filterSet] readable both classifiers
    return. *)
Theorem empty_index_is_ghost_not_partial s d m :
  d ∈ filterSet s →
  getManifestByDigest (collab s) d = Some m →
  Manifest.manifests m = Some [] →
  (∀ s', deleteGhostImages s = Ok s' → moved d s')
  ∧ (∀ s', deletePartialImages s = Ok s' → kept d s s')
  ∧ (readable s →
     (∃ s', deleteGhostImages s = Ok s') ∧ (∃ s', deletePartialImages s = Ok s')).
Proof.
  intros Hd Hm Hms.
  assert (Hg : selects isGhostImage (collab s) d = true).
  { unfold selects, isGhostImage. by rewrite Hm, Hms. }
  assert (Hp : selects isPartialImage (collab s) d = false).
  { unfold selects, isPartialImage. by rewrite Hm, Hms. }
  split_and!.
  - intros s'. by apply ghost_moved.
  - intros s'. by apply partial_kept.
  - intros Hr. split; [by apply deleteGhostImages_total|by apply deletePartialImages_total].
Qed.

(** What partial detection selects: the index manifests with at least one
    child without a package, the ones with no child left included. *)
Lemma deletePartialImages_selects s s' d :
  deletePartialImages s = Ok s' → d ∈ filterSet s →
  (moved d s' ↔
   ∃ m ms im, getManifestByDigest (collab s) d = Some m
              ∧ Manifest.manifests m = Some ms ∧ im ∈ ms
              ∧ getIdByDigest (collab s) (Descriptor.digest im) = None).
Proof.
  intros Hrun Hd.
  destruct (selects isPartialImage (collab s) d) eqn:Hsel.
  - split; [intros _|intros _; by eapply partial_moved].
    unfold selects in Hsel. destruct (getManifestByDigest (collab s) d) as [m|]; [|done].
    apply isPartialImage_spec in Hsel as (ms & im & ? & ? & ?). by exists m, ms, im.
  - split.
    + intros [Hout _]. by destruct (partial_kept s s' d Hd Hsel Hrun) as [? _].
    + intros (m & ms & im & Hm & Hms & Him & Hid).
      unfold selects in Hsel. rewrite Hm in Hsel.
      assert (isPartialImage (collab s) m = true) as Ht
        by (apply isPartialImage_spec; by exists ms, im).
      congruence.
Qed.

End ClassifierTheorems.

(** The two classifiers on the example: ghost detection takes the ghost
    and the hollow index, partial detection the ghost and the partial
    one. *)
Lemma ghost_and_partial_classification_witness :
  (∀ s', deleteGhostImages Ex.brokenAction = Ok s' →
         moved "sha256:ghost" s' ∧ kept "sha256:partial" Ex.brokenAction s')
  ∧ (∀ s', deletePartialImages Ex.brokenAction = Ok s' →
           moved "sha256:ghost" s' ∧ moved "sha256:partial" s')
  ∧ (∃ s', deleteGhostImages Ex.brokenAction = Ok s')
  ∧ (∃ s', deletePartialImages Ex.brokenAction = Ok s').
Proof.
  assert (Hr : readable Ex.brokenAction).
  { intros d Hd. repeat (apply elem_of_cons in Hd as [->|Hd]); [..|by apply elem_of_nil in Hd];
      split; vm_compute; eauto. }
  pose proof (ghost_and_partial_classification Ex.config0 Ex.brokenAction "sha256:ghost"
                (Ex.index "g" ["sha256:a"; "sha256:b"])
                (Ex.child "sha256:a") (Ex.child "sha256:b")
                ltac:(repeat constructor) eq_refl eq_refl) as (Hnone & _ & Htot).
  pose proof (ghost_and_partial_classification Ex.config0 Ex.brokenAction "sha256:partial"
                (Ex.index "p" ["sha256:leaf"; "sha256:b"])
                (Ex.child "sha256:leaf") (Ex.child "sha256:b")
                ltac:(repeat constructor) eq_refl eq_refl) as (_ & Hone & _).
  destruct Hnone as (Hg & Hp & _); [by split|].
  destruct Hone as (Hp1 & Hg1); [left; split; [by eexists|done]|].
  destruct (Htot Hr) as [Hgt Hpt].
  split_and!; [|..|done|done].
  - intros s' Hs'. split; [by apply Hg|by apply Hg1].
  - intros s' Hs'. split; [by apply Hp|by apply Hp1].
Defined.

Lemma empty_index_is_ghost_not_partial_witness :
  (∀ s', deleteGhostImages Ex.brokenAction = Ok s' → moved "sha256:hollow" s')
  ∧ (∀ s', deletePartialImages Ex.brokenAction = Ok s' →
           kept "sha256:hollow" Ex.brokenAction s')
  ∧ (∃ s', deleteGhostImages Ex.brokenAction = Ok s')
  ∧ (∃ s', deletePartialImages Ex.brokenAction = Ok s').
Proof.
  assert (Hr : readable Ex.brokenAction).
  { intros d Hd. repeat (apply elem_of_cons in Hd as [->|Hd]); [..|by apply elem_of_nil in Hd];
      split; vm_compute; eauto. }
  destruct (empty_index_is_ghost_not_partial Ex.brokenAction "sha256:hollow"
              (Ex.index "h" []) ltac:(repeat constructor) eq_refl eq_refl)
    as (Hg & Hp & Htot).
  destruct (Htot Hr) as [Hgt Hpt]. done.
Defined.

(** C3. Partial detection on the example: the index whose two children are
    both without a package is moved to [deleteSet] along with the one that
    misses a single child. *)
Lemma deletePartialImages_takes_all_missing :
  getManifestByDigest Ex.broken "sha256:ghost"
  = Some (Ex.index "g" ["sha256:a"; "sha256:b"])
  ∧ getIdByDigest Ex.broken "sha256:a" = None
  ∧ getIdByDigest Ex.broken "sha256:b" = None
  ∧ ∃ s', deletePartialImages Ex.brokenAction = Ok s'
          ∧ filterSet s' = ["sha256:hollow"]
          ∧ deleteSet s' = ["sha256:ghost"; "sha256:partial"].
Proof. split_and!; [done..|]. eexists. split_and!; [vm_compute; reflexivity|done..]. Qed.

(** ** The validator *)

Lemma validate_reports_shared_child_twice :
  validate Ex.sharedAction
  = Ok (with_events
          [EWarning (ChildNotFound "sha256:m" ["one"] "sha256:p1");
           EWarning (ChildNotFound "sha256:m" ["two"] "sha256:p2")] Ex.sharedAction).
Proof. vm_compute. reflexivity. Qed.

(** C9, refuted as stated: on two indexes that share a child without a
    package, the validator names that child in two warnings. *)
Lemma validate_warns_twice : ¬ warnsOncePerChild Ex.sharedAction.
Proof.
  intros Honce. specialize (Honce _ validate_reports_shared_child_twice).
  vm_compute in Honce. apply NoDup_cons in Honce as [Hin _].
  apply Hin. by left.
Qed.

Section Validator.
Context {R : Type} `{Collaborators R} {engine : ArraySort}.
Implicit Types s : CleanupAction R.

Lemma only_events_differ_refl s : only_events_differ s s.
Proof. by destruct s. Qed.

Lemma only_events_differ_trans s1 s2 s3 :
  only_events_differ s1 s2 → only_events_differ s2 s3 → only_events_differ s1 s3.
Proof. intros <- <-. done. Qed.

Lemma only_events_differ_emit e s : only_events_differ s (emit e s).
Proof. done. Qed.

Lemma only_events_differ_collab s s' : only_events_differ s s' → collab s' = collab s.
Proof. by intros <-. Qed.

Lemma only_events_differ_tagsInUse s s' : only_events_differ s s' → tagsInUse s' = tagsInUse s.
Proof. by intros <-. Qed.

(** What the walk of one manifest list adds: a warning for every entry
    without a package id, and a mark on every entry. *)
Lemma validate_child_foldl (digest : string) (tgs : list string)
    (ms : list Descriptor.t) s (pm : list string) :
  ∃ s' pm' ws,
    foldl (validate_child digest tgs) (s, pm) ms = (s', pm')
    ∧ only_events_differ s s'
    ∧ events s' = events s ++ (EWarning <$> ws)
    ∧ ws = omap (λ im, match getIdByDigest (collab s) (Descriptor.digest im) with
                       | Some _ => None
                       | None => Some (ChildNotFound (Descriptor.digest im) tgs digest)
                       end) ms
    ∧ (∀ x, x ∈ pm' ↔ x ∈ pm ∨ x ∈ Descriptor.digest <$> ms).
Proof.
  revert s pm. induction ms as [|im ms IH]; intros s pm; simpl.
  - exists s, pm, []. split_and!; [done|apply only_events_differ_refl| |done|].
    + simpl. by rewrite app_nil_r.
    + intros x. rewrite elem_of_nil. tauto.
  - destruct (getIdByDigest (collab s) (Descriptor.digest im)) as [i|] eqn:Hid.
    + destruct (IH s (set_add (Descriptor.digest im) pm)) as (s' & pm' & ws & Hf & Hd & He & Hws & Hpm).
      exists s', pm', ws. split_and!; [done..|].
      intros x. rewrite Hpm, elem_of_set_add, elem_of_cons. tauto.
    + destruct (IH (emit (EWarning (ChildNotFound (Descriptor.digest im) tgs digest)) s)
                   (set_add (Descriptor.digest im) pm))
        as (s' & pm' & ws & Hf & Hd & He & Hws & Hpm).
      exists s', pm', (ChildNotFound (Descriptor.digest im) tgs digest :: ws).
      split_and!; [done| | | |].
      * eapply only_events_differ_trans; [apply only_events_differ_emit|done].
      * rewrite He. simpl. by rewrite <- app_assoc.
      * by rewrite Hws.
      * intros x. rewrite Hpm, elem_of_set_add, elem_of_cons. tauto.
Qed.

Lemma validate_body_inv s (digest : string) acc acc' :
  digest ∈ getDigests (collab s) →
  validate_walk_inv s acc → validate_body digest acc = Ok acc' →
  validate_walk_inv s acc'.
Proof.
  intros Hdig (Hd & (ws & He & Hws) & Hpm) Hbody.
  destruct acc as [t pm]. simpl in *. unfold validate_body in Hbody.
  destruct (set_has digest pm);
    [simplify_eq; split_and!; [done|by exists ws|done]|].
  pose proof (only_events_differ_collab _ _ Hd) as Hc. rewrite Hc in Hbody.
  inv_ok. rename x into m, x0 into pkg, H0 into Hm, H1 into Hpkg.
  destruct (Manifest.manifests m) as [ms|] eqn:Hms;
    [|simplify_eq; split_and!; [done|by exists ws|done]].
  destruct (validate_child_foldl digest (Package.tags pkg) ms t pm)
    as (t' & pm' & ws' & Hf & Hd' & He' & Hws' & Hpm').
  rewrite Hf in Hbody. simplify_eq. simpl. split_and!.
  - by eapply only_events_differ_trans.
  - eexists (ws ++ _). split.
    + simpl. rewrite He', He, fmap_app, <- app_assoc. done.
    + apply Forall_app. split; [done|]. rewrite Hc.
      apply Forall_forall. intros w (im & Him & Hw)%list_elem_of_omap.
      destruct (getIdByDigest (collab s) (Descriptor.digest im)) eqn:Hid; [done|].
      simplify_eq. simpl. split; [done|].
      exists m, ms, pkg. split_and!; [done..| |done|done|done].
      apply list_elem_of_fmap. by exists im.
  - intros x [Hx|Hx]%Hpm'; [by apply Hpm|].
    by exists digest, m, ms.
Qed.

Lemma validate_referrer_foldl (tgs : list string) s :
  ∃ ws, foldl validate_referrer s tgs = with_events (events s ++ (EWarning <$> ws)) s
        ∧ Forall (λ w, ∃ tag, tag ∈ tgs ∧ w = OrphanedReferrer tag
                              ∧ startsWith "sha256-" tag = true
                              ∧ getIdByDigest (collab s) (replace "sha256-" "sha256:" tag) = None) ws.
Proof.
  revert s. induction tgs as [|tag tgs IH]; intros s; simpl.
  - exists []. split; [|done]. simpl. rewrite app_nil_r. by destruct s.
  - unfold validate_referrer at 2.
    destruct (startsWith "sha256-" tag) eqn:Hst.
    + destruct (getIdByDigest (collab s) (replace "sha256-" "sha256:" tag)) eqn:Hid.
      * destruct (IH s) as (ws & -> & Hws). exists ws. split; [done|].
        eapply Forall_impl; [done|]. intros w (t & ? & ?). exists t. by split; [right|].
      * destruct (IH (emit (EWarning (OrphanedReferrer tag)) s)) as (ws & -> & Hws).
        exists (OrphanedReferrer tag :: ws). split.
        -- simpl. by rewrite <- app_assoc.
        -- constructor; [exists tag; split_and!; [by left|done..]|].
           eapply Forall_impl; [done|]. intros w (t & ? & ?). exists t. by split; [right|].
    + destruct (IH s) as (ws & -> & Hws). exists ws. split; [done|].
      eapply Forall_impl; [done|]. intros w (t & ? & ?). exists t. by split; [right|].
Qed.

Lemma validate_body_events (digest : string) acc acc' :
  validate_body digest acc = Ok acc' →
  ∃ evs, events acc'.1 = events acc.1 ++ evs.
Proof.
  destruct acc as [t pm]. unfold validate_body.
  destruct (set_has digest pm); [intros; simplify_eq; exists []; by rewrite app_nil_r|].
  intros Hbody. inv_ok.
  destruct (Manifest.manifests x) as [ms|]; [|simplify_eq; exists []; by rewrite app_nil_r].
  destruct (validate_child_foldl digest (Package.tags x0) ms t pm)
    as (t' & pm' & ws' & Hf & _ & He' & _).
  rewrite Hf in Hbody. simplify_eq. by eexists.
Qed.

Lemma validate_walk_events (l : list string) acc acc' :
  forEach l validate_body acc = Ok acc' →
  ∃ evs, events acc'.1 = events acc.1 ++ evs.
Proof.
  revert acc. induction l as [|d l IH]; intros acc Hrun; simpl in Hrun.
  - simplify_eq. exists []. by rewrite app_nil_r.
  - inv_ok. apply validate_body_events in H0 as (e1 & He1).
    apply IH in Hrun as (e2 & He2). exists (e1 ++ e2). by rewrite He2, He1, app_assoc.
Qed.

End Validator.

Section ValidatorTheorem.
Context {R : Type} `{Collaborators R} {engine : ArraySort}.
Implicit Types s : CleanupAction R.

Lemma newEvents_app s s' (evs : list Event) :
  events s' = events s ++ evs → newEvents s s' = evs.
Proof. intros He. unfold newEvents. by rewrite He, drop_app_length. Qed.

Lemma validate_walk_inv_forEach s (l : list string) acc acc' :
  (∀ d, d ∈ l → d ∈ getDigests (collab s)) →
  validate_walk_inv s acc → forEach l validate_body acc = Ok acc' →
  validate_walk_inv s acc'.
Proof.
  intros Hl. apply (forEach_invariant (validate_walk_inv s)).
  intros d t t' Hd. apply validate_body_inv. by apply Hl.
Qed.

Lemma validate_walk_total s (l : list string) acc :
  knownReadable (collab s) → (∀ d, d ∈ l → d ∈ getDigests (collab s)) →
  collab acc.1 = collab s →
  ∃ acc', forEach l validate_body acc = Ok acc'.
Proof.
  intros Hr. revert acc. induction l as [|d l IH]; intros [t pm] Hl Hc; simpl in Hc.
  - by eexists.
  - change (∃ acc', validate_body d (t, pm) ≫= forEach l validate_body = Ok acc').
    destruct (Hr d) as [[m Hm] [pkg Hpkg]]; [apply Hl; by left|].
    assert (∃ acc1, validate_body d (t, pm) = Ok acc1 ∧ collab acc1.1 = collab s)
      as (acc1 & Hb & Hc1).
    { unfold validate_body. destruct (set_has d pm); [by eexists|].
      rewrite Hc, Hm. simpl. rewrite Hpkg. simpl.
      destruct (Manifest.manifests m) as [ms|]; [|by eexists].
      destruct (validate_child_foldl d (Package.tags pkg) ms t pm)
        as (t' & pm' & ws' & Hf & Hd' & _).
      rewrite Hf. eexists. split; [done|]. simpl.
      by rewrite (only_events_differ_collab _ _ Hd'). }
    rewrite Hb. simpl. apply IH; [|done]. intros d' ?. apply Hl. by right.
Qed.

(** The validator changes nothing but the trace, to which it only adds
    warnings, each about a child without a package of a known index or
    about a referrer tag without a parent. Every known index that is not
    itself listed in the manifest of a known index is walked, and each of
    its entries without a package gets a warning that names the child and
    that parent. With every known digest readable the validator
    returns. *)
Lemma validate_warns_per_parent s :
  (∀ s', validate s = Ok s' →
     only_events_differ s s'
     ∧ (∃ ws, events s' = events s ++ (EWarning <$> ws)
              ∧ Forall (warningSound (collab s) (tagsInUse s)) ws)
     ∧ (∀ p pkg m ms im,
          p ∈ getDigests (collab s) → ¬ isChildOfKnown (collab s) p →
          getPackageByDigest (collab s) p = Some pkg →
          getManifestByDigest (collab s) p = Some m →
          Manifest.manifests m = Some ms → im ∈ ms →
          getIdByDigest (collab s) (Descriptor.digest im) = None →
          EWarning (ChildNotFound (Descriptor.digest im) (Package.tags pkg) p)
            ∈ newEvents s s'))
  ∧ (knownReadable (collab s) → ∃ s', validate s = Ok s').
Proof.
  split.
  - intros s' Hrun. unfold validate in Hrun.
    apply bind_Ok in Hrun as ([t pm] & Hwalk & Hrun). simplify_eq.
    assert (Hinv0 : validate_walk_inv s (s, [])).
    { split_and!; [apply only_events_differ_refl| |by intros x ?%elem_of_nil].
      exists []. split; [by rewrite app_nil_r|done]. }
    pose proof (validate_walk_inv_forEach s _ _ _ (λ d Hd, Hd) Hinv0 Hwalk)
      as (Hd & (ws & He & Hws) & _). simpl in Hd, He.
    destruct (validate_referrer_foldl (tagsInUse t) t) as (ws2 & Hfold & Hws2).
    rewrite Hfold. split_and!.
    + rewrite <- Hd. by destruct s.
    + exists (ws ++ ws2). simpl. split; [by rewrite He, fmap_app, app_assoc|].
      apply Forall_app. split; [done|].
      rewrite (only_events_differ_collab _ _ Hd), (only_events_differ_tagsInUse _ _ Hd) in Hws2.
      eapply Forall_impl; [done|]. intros w (tag & ? & -> & ? & ?). done.
    + intros p pkg m ms im Hp Htop Hpkg Hm Hms Him Hid.
      apply list_elem_of_split in Hp as (l1 & l2 & Hl).
      rewrite Hl, forEach_app in Hwalk.
      apply bind_Ok in Hwalk as ([t1 pm1] & Hw1 & Hw2). simpl in Hw2.
      apply bind_Ok in Hw2 as ([t2 pm2] & Hbody & Hw2).
      assert (Hinv1 : validate_walk_inv s (t1, pm1)).
      { eapply validate_walk_inv_forEach; [|done|done].
        intros d Hd1. rewrite Hl. apply elem_of_app. by left. }
      destruct Hinv1 as (Hd1 & (ws1 & He1 & _) & Hpm1). simpl in *.
      unfold validate_body in Hbody.
      assert (set_has p pm1 = false) as Hfresh.
      { unfold set_has. apply bool_decide_eq_false. intros Hin. by apply Htop, Hpm1. }
      rewrite Hfresh, (only_events_differ_collab _ _ Hd1), Hm in Hbody. simpl in Hbody.
      rewrite Hpkg in Hbody. simpl in Hbody.
      rewrite Hms in Hbody.
      destruct (validate_child_foldl p (Package.tags pkg) ms t1 pm1)
        as (t' & pm' & ws' & Hf & _ & He' & Hws' & _).
      rewrite Hf in Hbody. simplify_eq.
      apply validate_walk_events in Hw2 as (e2 & He2). simpl in He2.
      erewrite newEvents_app;
        [|simpl; rewrite He2, He', He1, <- !app_assoc; reflexivity].
      rewrite !elem_of_app. right. left.
      apply list_elem_of_fmap. eexists. split; [done|].
      apply list_elem_of_omap. exists im. split; [done|].
      by rewrite (only_events_differ_collab _ _ Hd1), Hid.
  - intros Hr. unfold validate.
    destruct (validate_walk_total s (getDigests (collab s)) (s, []) Hr (λ d Hd, Hd) eq_refl)
      as ([t pm] & ->).
    simpl. by eexists.
Qed.

End ValidatorTheorem.

(** ** [filterSet] and [deleteSet] stay disjoint *)

(** Take a successful monadic computation apart, case by case. *)
Ltac unfold_ok H :=
  repeat first
    [ progress inv_ok
    | match type of H with
      | context [match ?x with _ => _ end] => destruct x eqn:?
      end ];
  simplify_eq.

Section Disjoint.
Context {R : Type} `{Collaborators R} {engine : ArraySort}.
Variable wcmatch : string → string → bool.
Variable config : Config.t.
Variable now : Clock.
Implicit Types s t : CleanupAction R.

Lemma movesOnly_refl s : movesOnly s s.
Proof. split_and!; [done..|]. intros d ?. by left. Qed.

Lemma movesOnly_trans s t u : movesOnly s t → movesOnly t u → movesOnly s u.
Proof.
  intros (Hf1 & Hd1 & Hj1) (Hf2 & Hd2 & Hj2). split_and!.
  - intros d ?. by apply Hf1, Hf2.
  - intros d ?. by apply Hd2, Hd1.
  - intros d [Hd|Hd]%Hj2; [|by right].
    apply Hj1 in Hd as [Hd|Hd]; [by left|right]. intros ?. by apply Hd, Hf2.
Qed.

Lemma movesOnly_same s t :
  filterSet t = filterSet s → deleteSet t = deleteSet s → movesOnly s t.
Proof.
  intros Hf Hd. unfold movesOnly. rewrite Hf, Hd. split_and!; [done..|].
  intros d ?. by left.
Qed.

Lemma movesOnly_disjointSets s t : movesOnly s t → disjointSets s → disjointSets t.
Proof.
  intros (Hf & _ & Hj) Hdis d [Hd|Hd]%Hj; [|done].
  intros ?. by apply (Hdis d), Hf.
Qed.

(** The move itself: the digest joins [deleteSet] and leaves [filterSet] in
    one step. *)
Lemma movesOnly_move (d : string) s : movesOnly s (moveToDeleteSet d s).
Proof.
  split_and!; simpl.
  - intros x. rewrite elem_of_set_delete. tauto.
  - intros x. rewrite elem_of_set_add. tauto.
  - intros x. rewrite elem_of_set_add, elem_of_set_delete.
    intros [Hx| ->]; [by left|right]. tauto.
Qed.

Lemma moveToDeleteSet_moved (d : string) s : moved d (moveToDeleteSet d s).
Proof.
  split; simpl.
  - rewrite elem_of_set_delete. tauto.
  - rewrite elem_of_set_add. tauto.
Qed.

Lemma forEach_movesOnly {A : Type} (body : A → CleanupAction R → result (CleanupAction R))
    (l : list A) s s' :
  (∀ x t t', body x t = Ok t' → movesOnly t t') →
  forEach l body s = Ok s' → movesOnly s s'.
Proof.
  intros Hbody. apply (forEach_invariant (movesOnly s)); [|apply movesOnly_refl].
  intros x t t' _ Ht Hx. eapply movesOnly_trans; [done|by eapply Hbody].
Qed.

Lemma classify_body_movesOnly test (d : string) s s' :
  classify_body test d s = Ok s' → movesOnly s s'.
Proof.
  unfold classify_body. intros Hb. unfold_ok Hb;
    [apply movesOnly_move|apply movesOnly_refl].
Qed.

Lemma deleteGhostImages_movesOnly s s' : deleteGhostImages s = Ok s' → movesOnly s s'.
Proof. apply forEach_movesOnly. intros x t t'. apply (classify_body_movesOnly isGhostImage). Qed.

Lemma deletePartialImages_movesOnly s s' : deletePartialImages s = Ok s' → movesOnly s s'.
Proof. apply forEach_movesOnly. intros x t t'. apply (classify_body_movesOnly isPartialImage). Qed.

Lemma deleteUntagged_movesOnly s s' : deleteUntagged s = Ok s' → movesOnly s s'.
Proof.
  apply forEach_movesOnly. intros x t t' Hb. unfold deleteUntagged_body in Hb.
  unfold_ok Hb; [apply movesOnly_move|apply movesOnly_refl].
Qed.

Lemma keepNtagged_movesOnly s s' : keepNtagged config s = Ok s' → movesOnly s s'.
Proof.
  unfold keepNtagged. intros Hk. unfold_ok Hk; try apply movesOnly_refl.
  eapply forEach_movesOnly; [|done].
  intros y t t' Hb. unfold keepNtagged_delete in Hb. unfold_ok Hb. apply movesOnly_move.
Qed.

Lemma keepNuntagged_movesOnly s s' : keepNuntagged config s = Ok s' → movesOnly s s'.
Proof.
  unfold keepNuntagged. intros Hk. unfold_ok Hk; try apply movesOnly_refl.
  eapply forEach_movesOnly; [|done].
  intros y t t' Hb. unfold keepN_delete in Hb. unfold_ok Hb. apply movesOnly_move.
Qed.

Lemma deleteByTag_standard_movesOnly (l : list string) s s' :
  forEach l deleteByTag_standard s = Ok s' → movesOnly s s'.
Proof.
  apply forEach_movesOnly. intros x t t' Hb. unfold deleteByTag_standard in Hb.
  unfold_ok Hb. apply movesOnly_move.
Qed.

Lemma forEach_preserves {A S B : Type} (f : S → B) (body : A → S → result S)
    (l : list A) (a a' : S) :
  (∀ x (b b' : S), body x b = Ok b' → f b' = f b) →
  forEach l body a = Ok a' → f a' = f a.
Proof.
  intros Hbody. apply (forEach_invariant (λ b, f b = f a)); [|done].
  intros x b b' _ Hb Hx. rewrite <- Hb. by eapply Hbody.
Qed.

Lemma call_deletePackageVersion_workingSets i d tgs l s t :
  call_deletePackageVersion i d tgs l s = Ok t → workingSets t = workingSets s.
Proof. unfold call_deletePackageVersion. intros Hc. by unfold_ok Hc. Qed.

Lemma call_putManifest_workingSets tag m b s t :
  call_putManifest tag m b s = Ok t → workingSets t = workingSets s.
Proof. unfold call_putManifest. intros Hc. by unfold_ok Hc. Qed.

Lemma call_loadPackages_workingSets b s t :
  call_loadPackages b s = Ok t → workingSets t = workingSets s.
Proof. unfold call_loadPackages. intros Hc. by unfold_ok Hc. Qed.

Lemma deleteImage_child_workingSets (pkg : Package.t) (im : Descriptor.t) s t :
  deleteImage_child pkg im s = Ok t → workingSets t = workingSets s.
Proof.
  unfold deleteImage_child. intros Hc.
  destruct (getPackageByDigest _ _) as [mp|]; [|by simplify_eq].
  destruct (bool_decide _); [by simplify_eq|].
  destruct (digestUsedBy s !! _) as [parents|]; [|by simplify_eq].
  destruct (_ && _); [|by simplify_eq].
  apply bind_Ok in Hc as (? & _ & Hc).
  apply bind_Ok in Hc as (s1 & Hs1 & Hc).
  apply call_deletePackageVersion_workingSets in Hs1.
  injection Hc as <-. by rewrite <- Hs1.
Qed.

Lemma deleteImage_workingSets (fuel : nat) (pkg : Package.t) s t :
  deleteImage fuel pkg s = Ok t → workingSets t = workingSets s.
Proof.
  revert pkg s t. induction fuel as [|fuel IH]; intros pkg s t Hd; [done|].
  simpl in Hd. destruct (bool_decide (Package.name pkg ∈ deleted s)); [by simplify_eq|].
  apply bind_Ok in Hd as (m & _ & Hd).
  apply bind_Ok in Hd as (s1 & Hs1 & Hd).
  apply call_deletePackageVersion_workingSets in Hs1.
  apply bind_Ok in Hd as (s2 & Hs2 & Hd).
  assert (workingSets s2 = workingSets s) as Hs2'.
  { rewrite <- Hs1. destruct (Manifest.manifests m); [|by simplify_eq].
    apply (forEach_preserves workingSets) in Hs2; [done|].
    intros x u u'. apply deleteImage_child_workingSets. }
  clear Hs1 Hs2. destruct (_ && _); [|by injection Hd as <-].
  apply bind_Ok in Hd as (? & _ & Hd). apply bind_Ok in Hd as (? & _ & Hd).
  apply IH in Hd. by rewrite Hd.
Qed.

Lemma doDelete_workingSets (fuel : nat) s t :
  doDelete fuel s = Ok t → workingSets t = workingSets s.
Proof.
  unfold doDelete. destruct (bool_decide _); [|by intros; simplify_eq].
  apply (forEach_preserves workingSets). intros x u u' Hb.
  unfold doDelete_body in Hb. apply bind_Ok in Hb as (? & _ & Hb).
  by eapply deleteImage_workingSets.
Qed.

Lemma validate_workingSets s t : validate s = Ok t → workingSets t = workingSets s.
Proof.
  intros Hv. destruct (validate_warns_per_parent s) as [Hspec _].
  destruct (Hspec t Hv) as (<- & _). done.
Qed.

Lemma deleteByTag_untag_workingSets (tag : string) acc acc' :
  deleteByTag_untag tag acc = Ok acc' → workingSets acc'.1 = workingSets acc.1.
Proof.
  destruct acc as [s st]. unfold deleteByTag_untag. intros Hu.
  apply bind_Ok in Hu as (? & _ & Hu). apply bind_Ok in Hu as (? & _ & Hu).
  destruct (bool_decide _); [by injection Hu as <-|].
  apply bind_Ok in Hu as (m & _ & Hu). destruct (emptyManifest m) as [nm b].
  apply bind_Ok in Hu as (s1 & Hs1 & Hu).
  apply call_putManifest_workingSets in Hs1.
  apply bind_Ok in Hu as (s2 & Hs2 & Hu).
  apply call_loadPackages_workingSets in Hs2.
  apply bind_Ok in Hu as (? & _ & Hu).
  destruct (getIdByDigest _ _).
  - apply bind_Ok in Hu as (s3 & Hs3 & Hu).
    apply call_deletePackageVersion_workingSets in Hs3.
    injection Hu as <-. simpl. rewrite <- Hs1. etrans; [|exact Hs2]. exact Hs3.
  - injection Hu as <-. simpl. rewrite <- Hs1. exact Hs2.
Qed.

Lemma loadDigestUsedByMap_deleteSet s t :
  loadDigestUsedByMap s = Ok t → deleteSet t = deleteSet s.
Proof.
  unfold loadDigestUsedByMap. intros Hl.
  apply (forEach_preserves deleteSet) in Hl; [done|].
  intros x u u' Hb. unfold loadDigestUsedByMap_body in Hb. by unfold_ok Hb.
Qed.

Lemma trimChildren_deleteSet s t : trimChildren s = Ok t → deleteSet t = deleteSet s.
Proof.
  unfold trimChildren. apply (forEach_preserves deleteSet).
  intros x u u' Hb. unfold trimChildren_body in Hb. by unfold_ok Hb.
Qed.

Lemma reload_excludeTags_step_deleteSet (l : list string) s :
  deleteSet (foldl (reload_excludeTags_step wcmatch config) s l) = deleteSet s.
Proof.
  revert s. induction l as [|tag l IH]; intros s; simpl; [done|].
  rewrite IH. unfold reload_excludeTags_step. by repeat case_match.
Qed.

Lemma reload_excludeTags_deleteSet s :
  deleteSet (reload_excludeTags wcmatch config s) = deleteSet s.
Proof.
  unfold reload_excludeTags. destruct (truthy _); [|done].
  by rewrite reload_excludeTags_step_deleteSet.
Qed.

Lemma reload_olderThan_deleteSet s t :
  reload_olderThan config now s = Ok t → deleteSet t = deleteSet s.
Proof.
  unfold reload_olderThan. intros Ho.
  destruct (Config.olderThan config); [|by simplify_eq].
  destruct (bool_decide _); [|by simplify_eq].
  apply (forEach_preserves deleteSet) in Ho; [done|].
  intros x u u' Hb. unfold reload_olderThan_body in Hb. by unfold_ok Hb.
Qed.

(** [reload] leaves [deleteSet] empty. *)
Lemma reload_deleteSet s t : reload wcmatch config now s = Ok t → deleteSet t = [].
Proof.
  unfold reload. intros Hr.
  apply bind_Ok in Hr as (s1 & Hs1%call_loadPackages_workingSets & Hr).
  apply bind_Ok in Hr as (s2 & Hs2%loadDigestUsedByMap_deleteSet & Hr).
  apply bind_Ok in Hr as (s3 & Hs3%trimChildren_deleteSet & Hr).
  apply reload_olderThan_deleteSet in Hr.
  rewrite Hr, reload_excludeTags_deleteSet, Hs3, Hs2. simpl.
  by injection Hs1 as _ ->.
Qed.

Lemma workingSets_movesOnly s t : workingSets t = workingSets s → movesOnly s t.
Proof. intros [= Hf Hd]. by apply movesOnly_same. Qed.

(** [deleteByTag]: a digest in [deleteSet] afterwards was there before or
    is no longer in [filterSet]; after an untagging the two sets are
    disjoint whatever they were. *)
Lemma deleteByTag_deleteSet s s' :
  deleteByTag wcmatch config now s = Ok s' →
  (∀ d, d ∈ deleteSet s' → d ∈ deleteSet s ∨ d ∉ filterSet s')
  ∧ (disjointSets s → disjointSets s').
Proof.
  unfold deleteByTag. intros Hd.
  assert (Hsame : ∀ t, movesOnly t s' →
            (t = s ∨ deleteSet t = []) →
            (∀ d, d ∈ deleteSet s' → d ∈ deleteSet s ∨ d ∉ filterSet s')
            ∧ (disjointSets s → disjointSets s')).
  { intros t Hm [->|Hnil].
    - split; [apply Hm|by apply movesOnly_disjointSets].
    - destruct Hm as (_ & _ & Hj). split.
      + intros d [Hin|?]%Hj; [|by right]. rewrite Hnil in Hin. by apply elem_of_nil in Hin.
      + intros _ d [Hin|?]%Hj; [|done]. rewrite Hnil in Hin. by apply elem_of_nil in Hin. }
  destruct (truthy _); [|simplify_eq; apply (Hsame s'); [apply movesOnly_refl|by left]].
  apply bind_Ok in Hd as (matchTags & _ & Hd).
  destruct (bool_decide (0 < length matchTags));
    [|simplify_eq; apply (Hsame s'); [apply movesOnly_refl|by left]].
  apply bind_Ok in Hd as ([untaggingTags standardTags] & _ & Hd).
  apply bind_Ok in Hd as ([s1 standardTags1] & Hu & Hd).
  apply bind_Ok in Hd as (s2 & Hr & Hd).
  assert (Hstd : movesOnly s2 s').
  { destruct (bool_decide (0 < length standardTags1)).
    - by eapply deleteByTag_standard_movesOnly.
    - simplify_eq. apply movesOnly_refl. }
  destruct (bool_decide (0 < length untaggingTags)).
  - apply (Hsame s2 Hstd). right. by eapply reload_deleteSet.
  - simplify_eq. apply (Hsame s2 Hstd). by left.
Qed.

Lemma perform_deleteSet (p : Phase) s s' :
  perform wcmatch config now p s = Ok s' →
  (∀ d, d ∈ deleteSet s' → d ∈ deleteSet s ∨ d ∉ filterSet s')
  ∧ (disjointSets s → disjointSets s').
Proof.
  assert (Hm : movesOnly s s' →
            (∀ d, d ∈ deleteSet s' → d ∈ deleteSet s ∨ d ∉ filterSet s')
            ∧ (disjointSets s → disjointSets s')).
  { intros Hm. split; [apply Hm|by apply movesOnly_disjointSets]. }
  destruct p; simpl; intros Hp.
  - apply reload_deleteSet in Hp. unfold disjointSets. rewrite Hp.
    split; [intros d|intros _ d]; by intros ?%elem_of_nil.
  - by apply deleteByTag_deleteSet.
  - by apply Hm, deletePartialImages_movesOnly.
  - by apply Hm, deleteGhostImages_movesOnly.
  - by apply Hm, keepNtagged_movesOnly.
  - by apply Hm, keepNuntagged_movesOnly.
  - by apply Hm, deleteUntagged_movesOnly.
  - by eapply Hm, workingSets_movesOnly, doDelete_workingSets.
  - by apply Hm, workingSets_movesOnly, validate_workingSets.
Qed.

Lemma perform_movesOnly (p : Phase) s s' :
  p ≠ Reload → p ≠ DeleteByTag →
  perform wcmatch config now p s = Ok s' → movesOnly s s'.
Proof.
  destruct p; simpl; intros Hr Ht Hp; [done|done|..].
  - by apply deletePartialImages_movesOnly.
  - by apply deleteGhostImages_movesOnly.
  - by apply keepNtagged_movesOnly.
  - by apply keepNuntagged_movesOnly.
  - by apply deleteUntagged_movesOnly.
  - by eapply workingSets_movesOnly, doDelete_workingSets.
  - by apply workingSets_movesOnly, validate_workingSets.
Qed.

Lemma reachable_disjointSets s : reachable wcmatch config now s → disjointSets s.
Proof.
  induction 1 as [s s' Hr|p s s' _ IH Hp].
  - apply reload_deleteSet in Hr. intros d. rewrite Hr. by intros ?%elem_of_nil.
  - by eapply perform_deleteSet.
Qed.

(** [run] is a sequence of methods. *)
Lemma run_reachable (fuel : nat) s s' :
  reachable wcmatch config now s → run wcmatch config now fuel s = Ok s' →
  reachable wcmatch config now s'.
Proof.
  unfold run. intros Hs Hrun.
  apply bind_Ok in Hrun as (s1 & H1 & Hrun).
  assert (reachable wcmatch config now s1) as Hs1.
  { destruct (truthy _); [|by simplify_eq]. by apply (reachable_perform _ _ _ DeleteByTag s). }
  apply bind_Ok in Hrun as (s2 & H2 & Hrun).
  assert (reachable wcmatch config now s2) as Hs2.
  { unfold run_partialOrGhost in H2.
    destruct (Config.deletePartialImages config);
      [by apply (reachable_perform _ _ _ DeletePartialImages s1)|].
    destruct (Config.deleteGhostImages config);
      [by apply (reachable_perform _ _ _ DeleteGhostImages s1)|by simplify_eq]. }
  apply bind_Ok in Hrun as (s3 & H3 & Hrun).
  assert (reachable wcmatch config now s3) as Hs3.
  { destruct (Config.keepNtagged config) eqn:Hk; [|by simplify_eq].
    by apply (reachable_perform _ _ _ KeepNtagged s2). }
  apply bind_Ok in Hrun as (s4 & H4 & Hrun).
  assert (reachable wcmatch config now s4) as Hs4.
  { unfold run_untagged in H4.
    destruct (Config.keepNuntagged config) eqn:Hk;
      [by apply (reachable_perform _ _ _ KeepNuntagged s3)|].
    destruct (Config.deleteUntagged config);
      [by apply (reachable_perform _ _ _ DeleteUntagged s3)|by simplify_eq]. }
  apply bind_Ok in Hrun as (s5 & H5 & Hrun).
  assert (reachable wcmatch config now s5) as Hs5
    by by apply (reachable_perform _ _ _ (DoDelete fuel) s4).
  destruct (Config.validate config); [|by simplify_eq].
  apply bind_Ok in Hrun as (s6 & H6 & Hrun).
  apply (reachable_perform _ _ _ Validate s6); [|done].
  by apply (reachable_perform _ _ _ Reload s5).
Qed.

(** C8, as the code has it. [deleteSet] and [filterSet] are disjoint at
    every point of a run: they are after [reload], which empties
    [deleteSet] and makes [filterSet] anew from the listing; every method
    keeps them disjoint, and a digest it has added to [deleteSet] is not in
    [filterSet] afterwards, the move being one step that does both; every
    method but [reload] and [deleteByTag], which reloads after an
    untagging, only removes digests from [filterSet] and only adds digests
    to [deleteSet]; so the sets are disjoint in every state a sequence of
    methods reaches from a reloaded state, and [run] is such a sequence. *)
Theorem filterSet_deleteSet_disjoint :
  (∀ d s, moved d (moveToDeleteSet d s))
  ∧ (∀ s s', reload wcmatch config now s = Ok s' → deleteSet s' = [])
  ∧ (∀ p s s', perform wcmatch config now p s = Ok s' →
       (∀ d, d ∈ deleteSet s' → d ∈ deleteSet s ∨ d ∉ filterSet s')
       ∧ (disjointSets s → disjointSets s'))
  ∧ (∀ p s s', p ≠ Reload → p ≠ DeleteByTag →
       perform wcmatch config now p s = Ok s' → movesOnly s s')
  ∧ (∀ s, reachable wcmatch config now s → disjointSets s)
  ∧ (∀ fuel s s', reachable wcmatch config now s →
       run wcmatch config now fuel s = Ok s' →
       reachable wcmatch config now s' ∧ disjointSets s').
Proof.
  split_and!.
  - apply moveToDeleteSet_moved.
  - apply reload_deleteSet.
  - apply perform_deleteSet.
  - apply perform_movesOnly.
  - apply reachable_disjointSets.
  - intros fuel s s' Hs Hrun.
    pose proof (run_reachable fuel s s' Hs Hrun) as Hs'.
    split; [done|by apply reachable_disjointSets].
Qed.

End Disjoint.

(** C8, refuted as stated: [run] reloads before it validates. Under
    [dry-run] the listing still holds the two untagged images that were
    moved to [deleteSet] and passed to [doDelete], and the reload makes
    both candidates again. *)
Lemma reload_readds_deleteSet :
  ¬ neverReadded (R := DryRun.t) Ex.exact Ex.untaggedConfig (Ex.clock 0).
Proof.
  intros Hnever.
  destruct (reload Ex.exact Ex.untaggedConfig (Ex.clock 0) (newAction Ex.dry))
    as [s1| |] eqn:H1; [|vm_compute in H1; discriminate H1..].
  destruct (deleteUntagged s1) as [s2| |] eqn:H2;
    [|vm_compute in H1; injection H1 as <-; vm_compute in H2; discriminate H2..].
  destruct (doDelete 5 s2) as [s3| |] eqn:H3;
    [|vm_compute in H1; injection H1 as <-; vm_compute in H2; injection H2 as <-;
      vm_compute in H3; discriminate H3..].
  destruct (reload Ex.exact Ex.untaggedConfig (Ex.clock 0) s3) as [s4| |] eqn:H4;
    [|vm_compute in H1; injection H1 as <-; vm_compute in H2; injection H2 as <-;
      vm_compute in H3; injection H3 as <-; vm_compute in H4; discriminate H4..].
  assert (reachable Ex.exact Ex.untaggedConfig (Ex.clock 0) s3) as Hreach.
  { apply (reachable_perform _ _ _ (DoDelete 5) s2); [|exact H3].
    apply (reachable_perform _ _ _ DeleteUntagged s1); [|exact H2].
    by apply (reachable_reload _ _ _ (newAction Ex.dry)). }
  apply (Hnever Reload s3 s4 Hreach H4 "sha256:c").
  - vm_compute in H1. injection H1 as <-. vm_compute in H2. injection H2 as <-.
    vm_compute in H3. injection H3 as <-. apply (bool_decide_unpack _). vm_compute. exact I.
  - vm_compute in H1. injection H1 as <-. vm_compute in H2. injection H2 as <-.
    vm_compute in H3. injection H3 as <-. vm_compute in H4. injection H4 as <-.
    apply (bool_decide_unpack _). vm_compute. exact I.
Qed.

(** The same on [run] itself: the two images it has asked to delete are
    candidates when it ends. *)
Lemma run_dry_readds :
  ∃ s t, reload Ex.exact Ex.untaggedConfig (Ex.clock 0) (newAction Ex.dry) = Ok s
         ∧ run Ex.exact Ex.untaggedConfig (Ex.clock 0) 5 s = Ok t
         ∧ deletedDigests (newEvents s t) = ["sha256:c"; "sha256:u"]
         ∧ "sha256:c" ∈ filterSet t ∧ "sha256:u" ∈ filterSet t.
Proof.
  eexists _, _. split_and!.
  - vm_compute. reflexivity.
  - vm_compute. reflexivity.
  - vm_compute. reflexivity.
  - apply (bool_decide_unpack _). vm_compute. exact I.
  - apply (bool_decide_unpack _). vm_compute. exact I.
Qed.

(** ** Explicit tag deletion: which tags are looked at *)

Lemma reload_excluded :
  reload Ex.exact Ex.excludedConfig (Ex.clock 0) (newAction Ex.excluded) = Ok Ex.excludedAction.
Proof. vm_compute. reflexivity. Qed.

Lemma deleteByTag_excluded :
  deleteByTag Ex.exact Ex.excludedConfig (Ex.clock 0) Ex.excludedAction = Ok Ex.excludedAction.
Proof. vm_compute. reflexivity. Qed.

(** C7, refuted as stated: the tag [v1] is in use, is not excluded and
    matches, but its digest has left [filterSet], so [deleteByTag] never
    sees it: it returns the state as it was, with no manifest pushed and
    [deleteSet] empty. *)
Lemma deleteByTag_skips_tag_outside_filterSet :
  ¬ processesEveryMatchingTag Ex.exact Ex.excludedConfig (Ex.clock 0) Ex.excludedAction.
Proof.
  intros Hall. destruct (Hall _ deleteByTag_excluded "v1") as [(m & b & Hin)|(d & _ & Hin)].
  - by left.
  - vm_compute. intros [Hk|Hk]%elem_of_cons; [done|by apply elem_of_nil in Hk].
  - done.
  - vm_compute in Hin. by apply elem_of_nil in Hin.
  - vm_compute in Hin. by apply elem_of_nil in Hin.
Qed.

Lemma mapM_Ok {A B : Type} (f : A → result B) (l : list A) (ys : list B) :
  mapM f l = Ok ys → Forall2 (λ x y, f x = Ok y) l ys.
Proof.
  revert ys. induction l as [|x l IH]; intros ys Hm; simpl in Hm.
  - simplify_eq. constructor.
  - inv_ok. subst. constructor; [done|]. by apply IH.
Qed.

Lemma mapM_total {A B : Type} (f : A → result B) (l : list A) :
  (∀ x, x ∈ l → ∃ y, f x = Ok y) → ∃ ys, mapM f l = Ok ys.
Proof.
  induction l as [|x l IH]; intros Hl; simpl; [by eexists|].
  destruct (Hl x) as [y ->]; [by left|]. simpl.
  destruct IH as [ys ->]; [intros ? ?; apply Hl; by right|]. simpl. by eexists.
Qed.

Section DeleteByTagScan.
Context {R : Type} `{Collaborators R} {engine : ArraySort}.
Variable wcmatch : string → string → bool.
Variable config : Config.t.
Variable now : Clock.
Implicit Types s : CleanupAction R.

Lemma deleteByTag_matchTags_spec s (matchTags : list string) :
  deleteByTag_matchTags wcmatch config s = Ok matchTags →
  ∀ tag, tag ∈ matchTags ↔
    ∃ d pkg, d ∈ filterSet s ∧ getPackageByDigest (collab s) d = Some pkg
             ∧ tag ∈ Package.tags pkg
             ∧ wcmatch (default "" (Config.deleteTags config)) tag = true.
Proof.
  unfold deleteByTag_matchTags. intros Hm tag.
  apply bind_Ok in Hm as (pkgs & Hpkgs%mapM_Ok & Hm). simplify_eq.
  rewrite list_elem_of_join. split.
  - intros (l & Htag & (pkg & -> & Hpkg)%list_elem_of_fmap).
    apply list_elem_of_filter in Htag as [Hw Htag].
    apply list_elem_of_lookup in Hpkg as [i Hi].
    destruct (Forall2_lookup_r _ _ _ _ _ Hpkgs Hi) as (d & Hd & Hreq%req_Ok).
    exists d, pkg. split_and!; [|done..]. by eapply list_elem_of_lookup_2.
  - intros (d & pkg & Hd & Hpkg & Htag & Hw).
    apply list_elem_of_lookup in Hd as [i Hi].
    destruct (Forall2_lookup_l _ _ _ _ _ Hpkgs Hi) as (pkg' & Hpkg' & Hreq%req_Ok).
    rewrite Hpkg in Hreq. simplify_eq.
    eexists. split; [|apply list_elem_of_fmap; eexists; split;
                       [done|by eapply list_elem_of_lookup_2]].
    by apply list_elem_of_filter.
Qed.

Lemma scanned_cons s (x : string) (l : list string) (tag : string) (P : nat → Prop) :
  scanned s (x :: l) tag P ↔ scanned s [x] tag P ∨ scanned s l tag P.
Proof.
  unfold scanned. rewrite elem_of_cons, list_elem_of_singleton. tauto.
Qed.

Lemma scanned_nil s (tag : string) (P : nat → Prop) : ¬ scanned s [] tag P.
Proof. by intros [?%elem_of_nil _]. Qed.

Lemma deleteByTag_prescan_body_spec s (x : string) acc acc' :
  deleteByTag_prescan_body s x acc = Ok acc' →
  ∀ tag,
    (tag ∈ acc'.1 ↔ tag ∈ acc.1 ∨ scanned s [x] tag (λ n, 1 < n))
    ∧ (tag ∈ acc'.2 ↔ tag ∈ acc.2 ∨ scanned s [x] tag (λ n, n = 1)).
Proof.
  destruct acc as [u st]. unfold deleteByTag_prescan_body, set_has. intros Hx tag.
  case_bool_decide as Hex; simpl in Hx.
  - simplify_eq. simpl.
    split; (split; [by left|]);
      (intros [?|(->%list_elem_of_singleton & ? & _)]; done).
  - apply bind_Ok in Hx as (d & Hd%req_Ok & Hx).
    apply bind_Ok in Hx as (pkg & Hpkg%req_Ok & Hx).
    assert (Hsc : ∀ P : nat → Prop,
              scanned s [x] tag P ↔ tag = x ∧ P (length (Package.tags pkg))).
    { intros P. unfold scanned, resolvesTo. rewrite list_elem_of_singleton. split.
      - intros (-> & _ & pkg' & (d' & Hd' & Hp') & HP). split; [done|]. congruence.
      - intros (-> & HP). split_and!; [done..|]. exists pkg. split; [by exists d|done]. }
    rewrite !Hsc. clear Hsc.
    repeat case_bool_decide; simplify_eq; simpl; rewrite ?elem_of_set_add.
    + split; [tauto|]. split; [by left|]. intros [?|[_ ?]]; [done|lia].
    + split; [|tauto]. split; [by left|]. intros [?|[_ ?]]; [done|lia].
    + split; (split; [by left|]); (intros [?|[_ ?]]; [done|lia]).
Qed.

Lemma deleteByTag_prescan_forEach s (l : list string) acc acc' :
  forEach l (deleteByTag_prescan_body s) acc = Ok acc' →
  ∀ tag,
    (tag ∈ acc'.1 ↔ tag ∈ acc.1 ∨ scanned s l tag (λ n, 1 < n))
    ∧ (tag ∈ acc'.2 ↔ tag ∈ acc.2 ∨ scanned s l tag (λ n, n = 1)).
Proof.
  revert acc. induction l as [|x l IH]; intros acc Hrun tag; simpl in Hrun.
  - simplify_eq. split; (split; [by left|]);
      (intros [?|?%scanned_nil]; done).
  - apply bind_Ok in Hrun as (acc1 & Hx & Hrun).
    destruct (IH _ Hrun tag) as [IHu IHst].
    destruct (deleteByTag_prescan_body_spec s x acc acc1 Hx tag) as [Hu Hst].
    rewrite IHu, IHst, Hu, Hst, !(scanned_cons s x l). tauto.
Qed.

(** The pre-scan resolves every tag that is not excluded. *)
Lemma deleteByTag_prescan_resolves s (l : list string) acc acc' :
  forEach l (deleteByTag_prescan_body s) acc = Ok acc' →
  ∀ tag, tag ∈ l → tag ∉ excludeTags s → ∃ pkg, resolvesTo (collab s) tag pkg.
Proof.
  revert acc. induction l as [|x l IH]; intros acc Hrun tag Hin Hex;
    [by apply elem_of_nil in Hin|].
  cbn [forEach] in Hrun. apply bind_Ok in Hrun as (acc1 & Hx & Hrun).
  apply elem_of_cons in Hin as [->|Hin]; [|by eapply IH].
  destruct acc as [u st]. unfold deleteByTag_prescan_body, set_has in Hx.
  rewrite bool_decide_eq_false_2 in Hx by done. cbn [negb] in Hx.
  apply bind_Ok in Hx as (d & Hd%req_Ok & Hx).
  apply bind_Ok in Hx as (pkg & Hpkg%req_Ok & _).
  exists pkg. by exists d.
Qed.

(** The pre-scan. The tags [deleteByTag] looks at are the matching tags
    of the packages whose digest is in [filterSet]; the pre-scan files such
    a tag under the untagging events when it is not excluded and resolves
    to a package with more than one tag, under the standard deletions when
    it is not excluded and resolves to a package with exactly one tag, and
    files no other tag; without a matching tag on a digest of [filterSet]
    the method changes nothing. The tags are found whenever every digest
    of [filterSet] has a package. *)
Lemma deleteByTag_scans_filterSet_tags s :
  (∀ matchTags, deleteByTag_matchTags wcmatch config s = Ok matchTags →
     (∀ tag, tag ∈ matchTags ↔
        ∃ d pkg, d ∈ filterSet s ∧ getPackageByDigest (collab s) d = Some pkg
                 ∧ tag ∈ Package.tags pkg
                 ∧ wcmatch (default "" (Config.deleteTags config)) tag = true)
     ∧ (∀ untaggingTags standardTags,
          deleteByTag_prescan s matchTags = Ok (untaggingTags, standardTags) →
          ∀ tag, (tag ∈ untaggingTags ↔ scanned s matchTags tag (λ n, 1 < n))
                 ∧ (tag ∈ standardTags ↔ scanned s matchTags tag (λ n, n = 1)))
     ∧ (matchTags = [] → deleteByTag wcmatch config now s = Ok s))
  ∧ ((∀ d, d ∈ filterSet s → is_Some (getPackageByDigest (collab s) d)) →
     ∃ matchTags, deleteByTag_matchTags wcmatch config s = Ok matchTags).
Proof.
  split.
  - intros matchTags Hm. split_and!.
    + by apply deleteByTag_matchTags_spec.
    + intros u st Hscan tag.
      destruct (deleteByTag_prescan_forEach s matchTags _ _ Hscan tag) as [Hu Hst].
      simpl in Hu, Hst. rewrite Hu, Hst.
      split; (split; [intros [?%elem_of_nil|?]; done|by right]).
    + intros ->. unfold deleteByTag. rewrite Hm. simpl. by destruct (truthy _).
  - intros Hpk. unfold deleteByTag_matchTags.
    destruct (mapM_total (λ digest, req (getPackageByDigest (collab s) digest)) (filterSet s))
      as [pkgs ->]; [|simpl; by eexists].
    intros d [pkg ->]%Hpk. by eexists.
Qed.

End DeleteByTagScan.

Lemma reload_tagged :
  reload Ex.exact Ex.taggedConfig (Ex.clock 0) (newAction Ex.excluded) = Ok Ex.taggedAction.
Proof. vm_compute. reflexivity. Qed.

(** ** The deletion cascade *)

Lemma deletedDigests_app (l1 l2 : list Event) :
  deletedDigests (l1 ++ l2) = deletedDigests l1 ++ deletedDigests l2.
Proof. apply omap_app. Qed.

Lemma deletedDigests_length (l : list Event) :
  Forall isDeletion l → length (deletedDigests l) = length l.
Proof.
  induction 1 as [|e l (i & d & tgs & lb & ->) _ IH]; [done|]. simpl. by rewrite IH.
Qed.

Section Cascade.
Context {R : Type} `{PackageSnapshot R} {engine : ArraySort}.
Implicit Types s t u : CleanupAction R.

Lemma sameView_refl s : sameView s s.
Proof. done. Qed.

Lemma sameView_trans s t u : sameView s t → sameView t u → sameView s u.
Proof.
  intros (? & ? & ? & ?) (? & ? & ? & ?). split_and!; congruence.
Qed.

Lemma cascade_refl s : cascade s s.
Proof.
  exists []. split_and!; [by rewrite app_nil_r|done|constructor| | |simpl; lia].
  - by intros d ?%elem_of_nil.
  - simpl. set_solver.
Qed.

Lemma cascade_same s t :
  events t = events s → deleted t = deleted s →
  numberImagesDeleted t = numberImagesDeleted s → cascade s t.
Proof.
  intros He Hd Hn. exists []. rewrite He, Hd, Hn.
  split_and!; [by rewrite app_nil_r|done|constructor| | |simpl; lia].
  - by intros d ?%elem_of_nil.
  - simpl. set_solver.
Qed.

Lemma sameView_same s t :
  collab t = collab s → tagsInUse t = tagsInUse s → excludeTags t = excludeTags s →
  sameView s t.
Proof. intros Hc Ht He. unfold sameView. by rewrite Hc, Ht, He. Qed.

Lemma cascade_trans s t u : cascade s t → cascade t u → cascade s u.
Proof.
  intros (n1 & He1 & Hf1 & Hn1 & Hd1 & Hs1 & Hc1) (n2 & He2 & Hf2 & Hn2 & Hd2 & Hs2 & Hc2).
  exists (n1 ++ n2). rewrite deletedDigests_app. split_and!.
  - by rewrite He2, He1, app_assoc.
  - by apply Forall_app.
  - apply NoDup_app. split_and!; [done| |done].
    intros d Hin1 Hin2. apply (Hd2 d Hin2). rewrite Hs1. set_solver.
  - intros d [Hin|Hin]%elem_of_app; [by apply Hd1|].
    apply Hd2 in Hin. rewrite Hs1 in Hin. set_solver.
  - rewrite Hs2, Hs1, list_to_set_app_L. set_solver.
  - rewrite Hc2, Hc1, length_app. lia.
Qed.

Lemma cascade_deleted_mono s t : cascade s t → deleted s ⊆ deleted t.
Proof. intros (n & _ & _ & _ & _ & -> & _). set_solver. Qed.

Lemma cascade_events_prefix s t : cascade s t → events s `prefix_of` events t.
Proof. intros (n & -> & _). by exists n. Qed.

Lemma forEach_cascade {A : Type} (body : A → CleanupAction R → result (CleanupAction R))
    (l : list A) s s' :
  (∀ x t t', body x t = Ok t' → cascade t t' ∧ sameView t t') →
  forEach l body s = Ok s' → cascade s s' ∧ sameView s s'.
Proof.
  intros Hbody. apply (forEach_invariant (λ t, cascade s t ∧ sameView s t));
    [|split; [apply cascade_refl|apply sameView_refl]].
  intros x t t' _ [Hc Hv] [Hc' Hv']%Hbody.
  split; [by eapply cascade_trans|by eapply sameView_trans].
Qed.

(** One deletion through the package collaborator, marked in [deleted] and
    counted, as both places of [deleteImage] do it. *)
Lemma deletion_cascade i (d : string) tgs lb s s1 :
  d ∉ deleted s →
  call_deletePackageVersion i d tgs lb s = Ok s1 →
  let t := with_numberImagesDeleted (S (numberImagesDeleted s1))
             (with_deleted ({[d]} ∪ deleted s1) s1) in
  cascade s t ∧ sameView s t ∧ digestUsedBy t = digestUsedBy s
  ∧ numberMultiImagesDeleted t = numberMultiImagesDeleted s.
Proof.
  intros Hd Hc. unfold call_deletePackageVersion in Hc.
  apply bind_Ok in Hc as (r & Hr%req_Ok & Hc). simplify_eq. simpl.
  split_and!; [|split_and!|done|done]; simpl.
  - exists [EDeletePackageVersion i d tgs lb]. simpl. split_and!; [done| | | | |lia].
    + constructor; [by exists i, d, tgs, lb|done].
    + apply NoDup_singleton.
    + by intros ? ->%list_elem_of_singleton.
    + set_solver.
  - by eapply deletePackageVersion_getPackageByDigest.
  - by eapply deletePackageVersion_getDigests.
  - done.
  - done.
Qed.

Lemma parentsShrink_refl s : parentsShrink s s.
Proof. intros k ps Hk. by exists ps. Qed.

Lemma parentsShrink_trans s t u : parentsShrink s t → parentsShrink t u → parentsShrink s u.
Proof.
  intros Hst Htu k ps'' (ps' & Hk' & Hsub')%Htu.
  apply Hst in Hk' as (ps & Hk & Hsub). exists ps. split; [done|set_solver].
Qed.

Lemma parentsShrink_eq s t : digestUsedBy t = digestUsedBy s → parentsShrink s t.
Proof. intros Heq k ps Hk. rewrite Heq in Hk. by exists ps. Qed.

Lemma cascadeStep_refl s : cascadeStep s s.
Proof. split_and!; [apply cascade_refl|apply sameView_refl|apply parentsShrink_refl]. Qed.

Lemma cascadeStep_trans s t u : cascadeStep s t → cascadeStep t u → cascadeStep s u.
Proof.
  intros (? & ? & ?) (? & ? & ?).
  split_and!; [by eapply cascade_trans|by eapply sameView_trans|by eapply parentsShrink_trans].
Qed.

Lemma forEach_cascadeStep {A : Type} (body : A → CleanupAction R → result (CleanupAction R))
    (l : list A) s s' :
  (∀ x t t', body x t = Ok t' → cascadeStep t t') →
  forEach l body s = Ok s' → cascadeStep s s'.
Proof.
  intros Hbody. apply (forEach_invariant (cascadeStep s)); [|apply cascadeStep_refl].
  intros x t t' _ Ht Hx. eapply cascadeStep_trans; [done|by eapply Hbody].
Qed.

Lemma deleteImage_child_cascadeStep (pkg : Package.t) (im : Descriptor.t) s t :
  deleteImage_child pkg im s = Ok t → cascadeStep s t.
Proof.
  unfold deleteImage_child. intros Hc.
  destruct (getPackageByDigest _ _) as [mp|]; [|simplify_eq; apply cascadeStep_refl].
  case_bool_decide as Hdel; [simplify_eq; apply cascadeStep_refl|].
  destruct (digestUsedBy s !! _) as [parents|] eqn:Hps; [|simplify_eq; apply cascadeStep_refl].
  destruct (_ && _).
  - apply bind_Ok in Hc as (lb & _ & Hc). apply bind_Ok in Hc as (s1 & Hs1 & Hc).
    destruct (deletion_cascade _ _ _ _ _ _ Hdel Hs1) as (Hcas & Hview & Hmap & _).
    simplify_eq. split_and!; [done|done|].
    intros k ps'. simpl in Hmap |- *. rewrite Hmap. intros Hk.
    apply lookup_delete_Some in Hk as [_ Hk]. by exists ps'.
  - simplify_eq. split_and!; [by apply cascade_same|by apply sameView_same|].
    intros k ps'. simpl. intros Hk.
    apply lookup_insert_Some in Hk as [[<- <-]|[_ Hk]]; [|by exists ps'].
    exists parents. split; [done|set_solver].
Qed.

Lemma deleteImage_cascadeStep (fuel : nat) (pkg : Package.t) s t :
  deleteImage fuel pkg s = Ok t → cascadeStep s t.
Proof.
  revert pkg s t. induction fuel as [|fuel IH]; intros pkg s t Hd; [done|].
  simpl in Hd. case_bool_decide as Hdel; [simplify_eq; apply cascadeStep_refl|].
  apply bind_Ok in Hd as (m & _ & Hd).
  apply bind_Ok in Hd as (s1 & Hs1 & Hd).
  destruct (deletion_cascade _ _ _ _ _ _ Hdel Hs1) as (Hcas & Hview & Hmap & _).
  apply bind_Ok in Hd as (s2 & Hs2 & Hd).
  eapply cascadeStep_trans; [split_and!; [exact Hcas|exact Hview|by apply parentsShrink_eq]|].
  eapply (cascadeStep_trans _ s2).
  - destruct (Manifest.manifests m) as [ms|]; [|simplify_eq; apply cascadeStep_refl].
    eapply cascadeStep_trans; [|eapply forEach_cascadeStep; [|exact Hs2]].
    + split_and!; [by apply cascade_same|by apply sameView_same|by apply parentsShrink_eq].
    + intros x u u'. apply deleteImage_child_cascadeStep.
  - destruct (_ && _); [|simplify_eq; apply cascadeStep_refl].
    apply bind_Ok in Hd as (? & _ & Hd). apply bind_Ok in Hd as (? & _ & Hd).
    by eapply IH.
Qed.

(** After [deleteImage] the package is in [deleted]. *)
Lemma deleteImage_deleted (fuel : nat) (pkg : Package.t) s t :
  deleteImage fuel pkg s = Ok t → Package.name pkg ∈ deleted t.
Proof.
  destruct fuel as [|fuel]; [done|]. intros Hd.
  pose proof (deleteImage_cascadeStep _ _ _ _ Hd) as (Hcas & _).
  simpl in Hd. case_bool_decide as Hdel; [by simplify_eq|].
  apply bind_Ok in Hd as (m & _ & Hd).
  apply bind_Ok in Hd as (s1 & Hs1 & Hd).
  destruct (deletion_cascade _ _ _ _ _ _ Hdel Hs1) as (Hcas1 & _).
  apply bind_Ok in Hd as (s2 & Hs2 & Hd).
  assert (Package.name pkg ∈ deleted s2) as Hin.
  { destruct (Manifest.manifests m) as [ms|].
    - apply forEach_cascadeStep in Hs2 as (Hc2%cascade_deleted_mono & _);
        [|intros x u u'; apply deleteImage_child_cascadeStep].
      apply Hc2. simpl. set_solver.
    - simplify_eq. simpl. set_solver. }
  destruct (_ && _); [|by simplify_eq].
  apply bind_Ok in Hd as (? & _ & Hd). apply bind_Ok in Hd as (? & _ & Hd).
  apply deleteImage_cascadeStep in Hd as (Hc3%cascade_deleted_mono & _). by apply Hc3.
Qed.

(** A package that is in [deleted] is left alone. *)
Lemma deleteImage_already_deleted (fuel : nat) (pkg : Package.t) s :
  Package.name pkg ∈ deleted s → deleteImage (S fuel) pkg s = Ok s.
Proof. intros Hin. simpl. by rewrite bool_decide_eq_true_2. Qed.

Lemma doDelete_body_cascadeStep (fuel : nat) (d : string) s t :
  doDelete_body fuel d s = Ok t → cascadeStep s t ∧ d ∈ deleted t.
Proof.
  unfold doDelete_body. intros Hb. apply bind_Ok in Hb as (pkg & Hpkg%req_Ok & Hb).
  split; [by eapply deleteImage_cascadeStep|].
  apply getPackageByDigest_name in Hpkg as <-. by eapply deleteImage_deleted.
Qed.

Lemma doDelete_forEach (fuel : nat) (l : list string) s t :
  forEach l (doDelete_body fuel) s = Ok t →
  cascadeStep s t
  ∧ ∀ d, d ∈ l → d ∈ deleted t ∧ is_Some (getPackageByDigest (collab t) d).
Proof.
  revert s. induction l as [|x l IH]; intros s Hrun; simpl in Hrun.
  - simplify_eq. split; [apply cascadeStep_refl|]. by intros d ?%elem_of_nil.
  - apply bind_Ok in Hrun as (s1 & Hx & Hrun).
    pose proof Hx as [Hstep Hin]%doDelete_body_cascadeStep.
    destruct (IH _ Hrun) as [Hstep' Hall].
    split; [by eapply cascadeStep_trans|].
    intros d [->|Hd]%elem_of_cons; [|by apply Hall].
    destruct Hstep' as (Hmono%cascade_deleted_mono & (Hview' & _) & _).
    destruct Hstep as (_ & (Hview & _) & _).
    split; [by apply Hmono|].
    unfold doDelete_body in Hx. apply bind_Ok in Hx as (pkg & Hpkg%req_Ok & _).
    rewrite Hview', Hview, Hpkg. by eexists.
Qed.

Lemma doDelete_again_forEach (fuel : nat) (l : list string) s :
  (∀ d, d ∈ l → d ∈ deleted s ∧ is_Some (getPackageByDigest (collab s) d)) →
  forEach l (doDelete_body (S fuel)) s = Ok s.
Proof.
  induction l as [|x l IH]; intros Hall; [done|].
  destruct (Hall x) as [Hin [pkg Hpkg]]; [by left|].
  change (doDelete_body (S fuel) x s ≫= forEach l (doDelete_body (S fuel)) = Ok s).
  assert (doDelete_body (S fuel) x s = Ok s) as Hx.
  { unfold doDelete_body. rewrite Hpkg.
    change (deleteImage (S fuel) pkg s = Ok s).
    apply deleteImage_already_deleted.
    by rewrite (getPackageByDigest_name _ _ _ Hpkg). }
  rewrite Hx. apply IH. intros d ?. apply Hall. by right.
Qed.

End Cascade.

(** ** Fuel *)

Lemma forEach_not_OutOfFuel {A S : Type} (body : A → S → result S) (l : list A) (a : S) :
  (∀ x b, body x b ≠ OutOfFuel) → forEach l body a ≠ OutOfFuel.
Proof.
  intros Hbody. revert a. induction l as [|x l IH]; intros a; simpl; [done|].
  destruct (body x a) eqn:Hx; simpl; [apply IH|done|by apply Hbody in Hx].
Qed.

Lemma bind_not_OutOfFuel {A B : Type} (m : result A) (f : A → result B) :
  m ≠ OutOfFuel → (∀ a, m = Ok a → f a ≠ OutOfFuel) → m ≫= f ≠ OutOfFuel.
Proof. destruct m; simpl; [by auto|done|done]. Qed.

Lemma length_filter_lt_impl {A : Type} (P Q : A → Prop)
    `{!∀ x, Decision (P x)} `{!∀ x, Decision (Q x)} (l : list A) (x : A) :
  (∀ y, P y → Q y) → x ∈ l → Q x → ¬ P x →
  length (filter P l) < length (filter Q l).
Proof.
  intros HPQ Hx HQ HP.
  assert (Hle : ∀ l' : list A, (length (filter P l') ≤ length (filter Q l'))%nat).
  { induction l' as [|y l' IH]; [done|]. rewrite !filter_cons.
    destruct (decide (P y)) as [HPy|HPy].
    - rewrite decide_True by auto. simpl. lia.
    - destruct (decide (Q y)); simpl; lia. }
  induction l as [|y l IH]; [by apply elem_of_nil in Hx|].
  rewrite !filter_cons. apply elem_of_cons in Hx as [<-|Hx].
  - rewrite decide_False, decide_True by done. simpl. specialize (Hle l). lia.
  - specialize (IH Hx). destruct (decide (P y)) as [HPy|HPy].
    + rewrite decide_True by auto. simpl. lia.
    + destruct (decide (Q y)); simpl; lia.
Qed.

Section Fuel.
Context {R : Type} `{PackageSnapshot R} {engine : ArraySort}.
Implicit Types s t : CleanupAction R.

Lemma buildLabel_not_OutOfFuel (r : R) (im : Descriptor.t) : buildLabel r im ≠ OutOfFuel.
Proof.
  unfold buildLabel. repeat case_match; try done.
  apply bind_not_OutOfFuel; [apply req_not_OutOfFuel|].
  intros m _. repeat case_match; try done.
  apply bind_not_OutOfFuel; [apply req_not_OutOfFuel|].
  intros l0 _. by case_match.
Qed.

Lemma call_deletePackageVersion_not_OutOfFuel i d tgs lb s :
  call_deletePackageVersion i d tgs lb s ≠ OutOfFuel.
Proof.
  unfold call_deletePackageVersion.
  apply bind_not_OutOfFuel; [apply req_not_OutOfFuel|done].
Qed.

Lemma deleteImage_child_not_OutOfFuel (pkg : Package.t) (im : Descriptor.t) s :
  deleteImage_child pkg im s ≠ OutOfFuel.
Proof.
  unfold deleteImage_child. repeat case_match; try done.
  apply bind_not_OutOfFuel; [apply buildLabel_not_OutOfFuel|].
  intros lb _. apply bind_not_OutOfFuel; [apply call_deletePackageVersion_not_OutOfFuel|done].
Qed.

Lemma cascadeStep_undeleted s t :
  cascadeStep s t → (length (undeleted t) ≤ length (undeleted s))%nat.
Proof.
  intros (Hmono%cascade_deleted_mono & (_ & Hdig & _) & _). unfold undeleted. rewrite Hdig.
  clear Hdig. induction (getDigests (collab s)) as [|y l IH]; [done|]. rewrite !filter_cons.
  destruct (decide (y ∉ deleted t)) as [Hy|Hy].
  - rewrite decide_True by set_solver. simpl. lia.
  - destruct (decide (y ∉ deleted s)); simpl; lia.
Qed.

Lemma cascadeStep_undeleted_lt s t (d : string) :
  cascadeStep s t → d ∈ getDigests (collab s) → d ∉ deleted s → d ∈ deleted t →
  length (undeleted t) < length (undeleted s).
Proof.
  intros (Hmono%cascade_deleted_mono & (_ & Hdig & _) & _) Hd Hs Ht.
  unfold undeleted. rewrite Hdig.
  apply (length_filter_lt_impl _ _ _ d); [set_solver|done|done|set_solver].
Qed.

(** With more fuel than there are known digests outside [deleted], the
    recursion of [deleteImage] on a known package ends without running
    out of fuel. *)
Lemma deleteImage_fuel (fuel : nat) (pkg : Package.t) s :
  Package.name pkg ∈ getDigests (collab s) →
  length (undeleted s) < fuel →
  deleteImage fuel pkg s ≠ OutOfFuel.
Proof.
  revert pkg s. induction fuel as [|fuel IH]; intros pkg s Hknown Hfuel; [lia|].
  destruct (deleteImage (S fuel) pkg s) as [t| |] eqn:Hrun; [done|done|exfalso].
  simpl in Hrun. case_bool_decide as Hdel; [done|].
  destruct (req (getManifestByDigest (collab s) (Package.name pkg))) as [m| |] eqn:Hm;
    [|done|by apply req_not_OutOfFuel in Hm]. simpl in Hrun.
  destruct (call_deletePackageVersion _ _ _ _ s) as [s1| |] eqn:Hs1;
    [|done|by apply call_deletePackageVersion_not_OutOfFuel in Hs1]. simpl in Hrun.
  destruct (deletion_cascade _ _ _ _ _ _ Hdel Hs1) as (Hcas & Hview & Hmap & _).
  set (s1' := with_numberImagesDeleted _ _) in *.
  assert (Hstep1 : cascadeStep s s1') by (split_and!; [done|done|by apply parentsShrink_eq]).
  destruct (match Manifest.manifests m with
            | Some ms => forEach ms (deleteImage_child pkg) _
            | None => Ok s1'
            end) as [s2| |] eqn:Hs2; [|done|]; simpl in Hrun.
  - assert (Hstep2 : cascadeStep s1' s2).
    { destruct (Manifest.manifests m) as [ms|]; [|simplify_eq; apply cascadeStep_refl].
      eapply cascadeStep_trans; [|eapply forEach_cascadeStep; [|exact Hs2]].
      + split_and!; [by apply cascade_same|by apply sameView_same|by apply parentsShrink_eq].
      + intros x u u'. apply deleteImage_child_cascadeStep. }
    pose proof (cascadeStep_trans _ _ _ Hstep1 Hstep2) as Hstep.
    destruct (_ && _); [|done].
    destruct (req (getTagDigest _ _)) as [d| |] eqn:Hd;
      [|done|by apply req_not_OutOfFuel in Hd]. simpl in Hrun.
    destruct (req (getPackageByDigest _ _)) as [att| |] eqn:Hatt;
      [|done|by apply req_not_OutOfFuel in Hatt]. simpl in Hrun.
    apply req_Ok in Hatt. revert Hrun. apply IH.
    + rewrite (getPackageByDigest_name _ _ _ Hatt). by eapply getPackageByDigest_known.
    + assert (length (undeleted s2) < length (undeleted s)); [|lia].
      apply (cascadeStep_undeleted_lt _ _ (Package.name pkg) Hstep Hknown Hdel).
      destruct Hstep2 as (Hmono%cascade_deleted_mono & _). apply Hmono. simpl. set_solver.
  - destruct (Manifest.manifests m) as [ms|]; [|done].
    revert Hs2. apply forEach_not_OutOfFuel. intros x b. apply deleteImage_child_not_OutOfFuel.
Qed.

Lemma doDelete_fuel (fuel : nat) s :
  length (undeleted s) < fuel → doDelete fuel s ≠ OutOfFuel.
Proof.
  unfold doDelete. destruct (bool_decide _); [|done].
  generalize (deleteSet s). intros l. revert s.
  induction l as [|x l IH]; intros s Hfuel; simpl; [done|].
  destruct (doDelete_body fuel x s) as [t| |] eqn:Hx; simpl; [|done|].
  - apply IH. apply doDelete_body_cascadeStep in Hx as [Hstep%cascadeStep_undeleted _]. lia.
  - intros _. unfold doDelete_body in Hx.
    destruct (req (getPackageByDigest (collab s) x)) as [pkg| |] eqn:Hpkg;
      [|done|by apply req_not_OutOfFuel in Hpkg]. simpl in Hx.
    apply req_Ok in Hpkg. revert Hx. apply deleteImage_fuel; [|done].
    rewrite (getPackageByDigest_name _ _ _ Hpkg). by eapply getPackageByDigest_known.
Qed.

(** C5. A package whose digest is in [deleted] is left alone by
    [deleteImage]: no deletion, no counter, whichever way the digest is
    reached. A run of [doDelete] deletes pairwise distinct digests, none of
    which was in [deleted] before, and counts each of them once; invoked
    again on the state it has produced, [doDelete] returns that very state,
    with the same trace and the same counters. With more fuel than there
    are known digests outside [deleted] the cascade does not run out of
    fuel. *)
Theorem doDelete_twice :
  (∀ fuel pkg s, Package.name pkg ∈ deleted s → deleteImage (S fuel) pkg s = Ok s)
  ∧ (∀ fuel s s1, doDelete fuel s = Ok s1 →
       cascade s s1 ∧ ∀ fuel', doDelete (S fuel') s1 = Ok s1)
  ∧ (∀ fuel s, length (undeleted s) < fuel → doDelete fuel s ≠ OutOfFuel).
Proof.
  split_and!.
  - apply deleteImage_already_deleted.
  - intros fuel s s1 Hrun.
    pose proof (doDelete_workingSets _ _ _ Hrun) as [= _ Hds].
    unfold doDelete in Hrun |- *. rewrite Hds.
    destruct (bool_decide (0 < length (deleteSet s)));
      [|simplify_eq; split; [apply cascade_refl|done]].
    apply doDelete_forEach in Hrun as [(Hcas & _) Hall].
    split; [done|]. intros fuel'. by apply doDelete_again_forEach.
  - apply doDelete_fuel.
Qed.

End Fuel.

(** The reference collaborator answers from a listing that only
    [loadPackages] replaces. *)
#[global] Instance remote_snapshot : PackageSnapshot Remote.t.
Proof.
  split.
  - intros r d p Hp. simpl in Hp. unfold Remote.findByName in Hp.
    apply find_some in Hp as [_ Hp]. by apply bool_decide_eq_true in Hp.
  - intros r d p Hp. simpl in Hp |- *. unfold Remote.findByName in Hp.
    apply find_some in Hp as [Hin Hp]. apply bool_decide_eq_true in Hp. subst.
    apply list_elem_of_fmap. exists p. split; [done|]. by apply list_elem_of_In.
  - intros r i d tgs l r' Hr. simpl in Hr. by simplify_eq.
  - intros r i d tgs l r' Hr. simpl in Hr. by simplify_eq.
Qed.

Lemma reload_multi :
  reload Ex.exact Ex.config0 (Ex.clock 0) (newAction Ex.multi) = Ok Ex.multiAction.
Proof. vm_compute. reflexivity. Qed.

(** Both indexes of the example deleted, with the shared child, the child
    of [p1] and the referrer of [p1]: five deletions, counted once each,
    and a second [doDelete] that changes nothing. *)
Lemma doDelete_twice_witness :
  ∃ s1, doDelete 6 Ex.multiDelete = Ok s1
        ∧ numberImagesDeleted s1 = 5
        ∧ deletedDigests (events s1)
          = ["sha256:p1"; "sha256:x1"; "sha256:r1"; "sha256:p2"; "sha256:c"]
        ∧ doDelete 1 s1 = Ok s1.
Proof.
  destruct (doDelete 6 Ex.multiDelete) as [s1| |] eqn:Hrun;
    [|by vm_compute in Hrun..].
  exists s1. split; [done|].
  destruct doDelete_twice as (_ & Htwice & _).
  destruct (Htwice 6 Ex.multiDelete s1 Hrun) as [_ Hagain].
  vm_compute in Hrun. injection Hrun as <-.
  split_and!; [reflexivity|reflexivity|].
  apply (Hagain 0).
Defined.

(** ** Reference counting of shared children *)

Lemma reload_referred :
  reload Ex.exact Ex.config0 (Ex.clock 0) (newAction Ex.referred) = Ok Ex.referredAction.
Proof. vm_compute. reflexivity. Qed.

(** C1, refuted as stated: the child [c] of [p1] and [p2] carries the
    referrer tag of [p1], so [deleteImage] on [p1] goes on to delete [c]. *)
Lemma deleteImage_deletes_shared_referrer :
  ¬ keepsSharedChild Ex.referredAction "sha256:c" "sha256:p1" "sha256:p2".
Proof.
  intros Hkeep.
  destruct (Hkeep eq_refl 3 (Ex.pkg 1 "sha256:p1" ["a"] 10)
              (with_events
                 [ELoadPackages true;
                  EDeletePackageVersion 1 "sha256:p1" ["a"] None;
                  EDeletePackageVersion 3 "sha256:c" ["sha256-p1"] None]
                 (with_numberMultiImagesDeleted 1
                    (with_numberImagesDeleted 2
                       (with_deleted {[ "sha256:p1"; "sha256:c" ]}
                          (with_digestUsedBy {[ "sha256:c" := {[ "sha256:p2" ]} ]}
                             (with_collab
                                (Remote.remove (Remote.remove Ex.referred 1 "sha256:p1")
                                   3 "sha256:c")
                                Ex.referredAction))))))
              eq_refl) as [Hnot _].
  - vm_compute. reflexivity.
  - apply Hnot. vm_compute. set_solver.
Qed.

Section SharedChild.
Context {R : Type} `{PackageSnapshot R} {engine : ArraySort}.
Implicit Types s t u : CleanupAction R.

Lemma newEvents_cascade s t u :
  cascade s t → cascade t u → newEvents s u = newEvents s t ++ newEvents t u.
Proof.
  intros (n1 & He1 & _) (n2 & He2 & _).
  rewrite (newEvents_app s t n1 He1), (newEvents_app t u n2 He2).
  apply newEvents_app. by rewrite He2, He1, app_assoc.
Qed.

Lemma cascade_deletedDigests s t (d : string) :
  cascade s t → d ∉ deleted t → d ∉ deletedDigests (newEvents s t).
Proof.
  intros (n & He & _ & _ & _ & Hd & _) Hnot. rewrite (newEvents_app s t n He).
  rewrite Hd in Hnot. set_solver.
Qed.

Lemma call_deletePackageVersion_Ok i (d : string) tgs lb s s1 :
  call_deletePackageVersion i d tgs lb s = Ok s1 →
  ∃ r, deletePackageVersion (collab s) i d tgs lb = Some r
       ∧ s1 = emit (EDeletePackageVersion i d tgs lb) (with_collab r s).
Proof.
  unfold call_deletePackageVersion. intros Hc.
  apply bind_Ok in Hc as (r & Hr%req_Ok & Hc). simplify_eq. by exists r.
Qed.

Lemma size_one_elem_of (ps : gset string) (x y : string) :
  size ps = 1 → x ∈ ps → y ∈ ps → x = y.
Proof. intros [z Hz]%size_1_elem_of Hx Hy. set_solver. Qed.

(** A turn of the child loop of a parent other than [p] keeps the child
    [c]: with [p] recorded the parent set is either larger than one or not
    the parent's alone. *)
Lemma deleteImage_child_sharedChild (c p : string) (pkg : Package.t)
    (im : Descriptor.t) s t :
  Package.name pkg ≠ p → sharedChild c p s →
  deleteImage_child pkg im s = Ok t → sharedChild c p t.
Proof.
  intros Hne (Hdel & ps & Hps & Hp). unfold deleteImage_child. intros Hc.
  destruct (getPackageByDigest _ _) as [mp|]; [|simplify_eq; by split; [|exists ps]].
  case_bool_decide as Hdel'; [simplify_eq; by split; [|exists ps]|].
  destruct (digestUsedBy s !! Package.name mp) as [parents|] eqn:Hparents;
    [|simplify_eq; by split; [|exists ps]].
  destruct (decide (Package.name mp = c)) as [Heq|Hother].
  - rewrite Heq in *. rewrite Hps in Hparents. simplify_eq.
    assert (bool_decide (size parents = 1)
            && bool_decide (Package.name pkg ∈ parents) = false) as Hcond.
    { apply not_true_is_false.
      intros [Hsize%bool_decide_eq_true Hin%bool_decide_eq_true]%andb_true_iff.
      (* the single parent would be both the package and [p] *)
      by apply Hne, (size_one_elem_of parents). }
    rewrite Hcond in Hc. simplify_eq. split; [done|]. simpl.
    exists (parents ∖ {[Package.name pkg]}). rewrite lookup_insert_eq.
    split; [done|set_solver].
  - destruct (_ && _).
    + apply bind_Ok in Hc as (lb & _ & Hc). apply bind_Ok in Hc as (s1 & Hs1 & Hc).
      apply call_deletePackageVersion_Ok in Hs1 as (r & _ & ->).
      simplify_eq. split; simpl.
      * set_solver.
      * exists ps. by rewrite lookup_delete_ne.
    + simplify_eq. split; [done|]. simpl. exists ps.
      by rewrite lookup_insert_ne.
Qed.

Lemma topLevelDeleted_app (d : string) (l1 l2 : list Event) :
  topLevelDeleted d (l1 ++ l2) ↔ topLevelDeleted d l1 ∨ topLevelDeleted d l2.
Proof.
  unfold topLevelDeleted. setoid_rewrite elem_of_app. naive_solver.
Qed.

(** The cascade of [deleteImage] keeps the child [c] of [p] as long as it
    does not invoke [deleteImage] on [c] or on [p]. *)
Lemma deleteImage_sharedChild (c p : string) (fuel : nat) (pkg : Package.t) s t :
  deleteImage fuel pkg s = Ok t →
  ¬ topLevelDeleted c (newEvents s t) → ¬ topLevelDeleted p (newEvents s t) →
  sharedChild c p s → sharedChild c p t.
Proof.
  revert pkg s t. induction fuel as [|fuel IH]; intros pkg s t Hd Hc Hp Hshared; [done|].
  simpl in Hd. case_bool_decide as Hdel; [by simplify_eq|].
  apply bind_Ok in Hd as (m & _ & Hd).
  apply bind_Ok in Hd as (s1 & Hs1 & Hd).
  apply bind_Ok in Hd as (s2 & Hs2 & Hd).
  set (s1' := with_numberImagesDeleted _ _) in *.
  destruct (deletion_cascade _ _ _ _ _ _ Hdel Hs1) as (Hcas1 & Hview1 & Hmap1 & _).
  fold s1' in Hcas1, Hview1, Hmap1.
  assert (Hstep2 : cascadeStep s1' s2).
  { destruct (Manifest.manifests m) as [ms|]; [|simplify_eq; apply cascadeStep_refl].
    eapply cascadeStep_trans; [|eapply forEach_cascadeStep; [|exact Hs2]].
    + split_and!; [by apply cascade_same|by apply sameView_same|by apply parentsShrink_eq].
    + intros x u u'. apply deleteImage_child_cascadeStep. }
  assert (Hstep3 : cascadeStep s2 t).
  { destruct (_ && _); [|simplify_eq; apply cascadeStep_refl].
    apply bind_Ok in Hd as (? & _ & Hd'). apply bind_Ok in Hd' as (? & _ & Hd').
    by eapply deleteImage_cascadeStep. }
  destruct Hstep2 as (Hcas2 & _). destruct Hstep3 as (Hcas3 & _).
  pose proof (cascade_trans _ _ _ Hcas1 Hcas2) as Hcas12.
  rewrite (newEvents_cascade s s2 t Hcas12 Hcas3), topLevelDeleted_app in Hc, Hp.
  rewrite (newEvents_cascade s s1' s2 Hcas1 Hcas2), topLevelDeleted_app in Hc, Hp.
  apply call_deletePackageVersion_Ok in Hs1 as (r & _ & ->).
  assert (Htop : ∀ d, ¬ topLevelDeleted d (newEvents s s1') → Package.name pkg ≠ d).
  { intros d Hnot <-. apply Hnot. exists (Package.id pkg), (Package.tags pkg).
    erewrite newEvents_app; [by apply list_elem_of_singleton|]. done. }
  assert (Hs1' : sharedChild c p s1').
  { destruct Hshared as (Hcdel & ps & Hps & Hin). split; [|by exists ps].
    simpl. assert (Package.name pkg ≠ c) by (apply Htop; tauto). set_solver. }
  assert (Hs2' : sharedChild c p s2).
  { destruct (Manifest.manifests m) as [ms|]; [|by simplify_eq].
    revert Hs2. apply (forEach_invariant (sharedChild c p)).
    - intros im u u' _ Hu. apply deleteImage_child_sharedChild; [|done]. apply Htop. tauto.
    - destruct Hs1' as (? & ps & ? & ?). split; [done|]. by exists ps. }
  destruct (_ && _); [|by simplify_eq].
  apply bind_Ok in Hd as (? & _ & Hd). apply bind_Ok in Hd as (att & _ & Hd).
  apply (IH att s2 t Hd); tauto.
Qed.

(** The turn of the child loop of [p1] that visits [c] takes [p1] out of
    the parents of [c] when another parent is recorded. *)
Lemma deleteImage_child_removes_parent (c p : string) (pkg pkgC : Package.t)
    (im : Descriptor.t) s t :
  Package.name pkg ≠ p → sharedChild c p s →
  Descriptor.digest im = c → getPackageByDigest (collab s) c = Some pkgC →
  deleteImage_child pkg im s = Ok t →
  ∀ ps, digestUsedBy t !! c = Some ps → Package.name pkg ∉ ps.
Proof.
  intros Hne (Hdel & ps & Hps & Hp) Him HpkgC. unfold deleteImage_child. rewrite Him, HpkgC.
  rewrite (getPackageByDigest_name _ _ _ HpkgC).
  rewrite bool_decide_eq_false_2 by done. rewrite Hps.
  assert (bool_decide (size ps = 1) && bool_decide (Package.name pkg ∈ ps) = false) as ->.
  { apply not_true_is_false.
    intros [Hsize%bool_decide_eq_true Hin%bool_decide_eq_true]%andb_true_iff.
    by apply Hne, (size_one_elem_of ps). }
  intros [= <-] ps'. simpl. rewrite lookup_insert_eq. intros [= <-]. set_solver.
Qed.

Lemma deleteImage_removes_parent (c p : string) (fuel : nat) (pkg pkgC : Package.t)
    (m : Manifest.t) (ms : list Descriptor.t) (im : Descriptor.t) s t :
  Package.name pkg ≠ p → Package.name pkg ∉ deleted s →
  getManifestByDigest (collab s) (Package.name pkg) = Some m →
  Manifest.manifests m = Some ms → im ∈ ms → Descriptor.digest im = c →
  getPackageByDigest (collab s) c = Some pkgC →
  sharedChild c p s → Package.name pkg ≠ c →
  deleteImage fuel pkg s = Ok t →
  ∀ ps, digestUsedBy t !! c = Some ps → Package.name pkg ∉ ps.
Proof.
  intros Hne Hdel Hm Hms Him Hdig HpkgC Hshared Hnc Hd.
  destruct fuel as [|fuel]; [done|]. simpl in Hd.
  rewrite bool_decide_eq_false_2, Hm in Hd by done. simpl in Hd.
  apply bind_Ok in Hd as (s1 & Hs1 & Hd). rewrite Hms in Hd.
  apply bind_Ok in Hd as (s2 & Hs2 & Hd).
  set (s1' := with_numberMultiImagesDeleted _ _) in *.
  apply call_deletePackageVersion_Ok in Hs1 as (r & Hr & ->).
  assert (Hs1' : sharedChild c p s1' ∧ getPackageByDigest (collab s1') c = Some pkgC).
  { destruct Hshared as (Hcdel & ps & Hps & Hin). split; [split; [|by exists ps]|].
    - simpl. set_solver.
    - simpl. by rewrite (deletePackageVersion_getPackageByDigest _ _ _ _ _ _ Hr). }
  clearbody s1'. clear Hr Hshared HpkgC.
  assert (Hrest : cascadeStep s2 t).
  { destruct (_ && _); [|simplify_eq; apply cascadeStep_refl].
    apply bind_Ok in Hd as (? & _ & Hd'). apply bind_Ok in Hd' as (? & _ & Hd').
    by eapply deleteImage_cascadeStep. }
  apply list_elem_of_split in Him as (l1 & l2 & ->).
  rewrite forEach_app in Hs2. apply bind_Ok in Hs2 as (u1 & Hl1 & Hs2). simpl in Hs2.
  apply bind_Ok in Hs2 as (u2 & Hvisit & Hl2).
  assert (Hu1 : sharedChild c p u1 ∧ getPackageByDigest (collab u1) c = Some pkgC).
  { revert Hl1. apply (forEach_invariant
      (λ u, sharedChild c p u ∧ getPackageByDigest (collab u) c = Some pkgC)); [|done].
    intros x u u' _ [Hu Hpk] Hx. split; [by eapply deleteImage_child_sharedChild|].
    apply deleteImage_child_cascadeStep in Hx as (_ & (-> & _) & _). done. }
  destruct Hu1 as [Hu1 Hpk1].
  pose proof (deleteImage_child_removes_parent c p pkg pkgC im u1 u2 Hne Hu1 Hdig Hpk1 Hvisit)
    as Hgone.
  assert (Hshrink : parentsShrink u2 t).
  { eapply parentsShrink_trans; [|apply Hrest].
    apply forEach_cascadeStep in Hl2 as (_ & _ & ?); [done|].
    intros x u u'. apply deleteImage_child_cascadeStep. }
  intros ps (ps2 & Hps2 & Hsub)%Hshrink. apply Hgone in Hps2. set_solver.
Qed.

Lemma childDeleted_cascadeStep (c : string) s t :
  cascadeStep s t → childDeleted c s → childDeleted c t.
Proof.
  intros (Hcas & _ & Hshrink) (Hdel & Hnone & i & lb & Hev). split_and!.
  - by apply (cascade_deleted_mono s t).
  - destruct (digestUsedBy t !! c) as [ps'|] eqn:Hps'; [|done].
    apply Hshrink in Hps' as (ps & Hps & _). congruence.
  - exists i, lb. destruct (cascade_events_prefix _ _ Hcas) as [n ->].
    apply elem_of_app. by left.
Qed.

(** The turn of the child loop of [p] that visits [c] deletes [c] when [p]
    is its only recorded parent. *)
Lemma deleteImage_child_deletes (c : string) (pkg pkgC : Package.t)
    (im : Descriptor.t) s t :
  (c ∉ deleted s) → digestUsedBy s !! c = Some {[Package.name pkg]} →
  Descriptor.digest im = c → getPackageByDigest (collab s) c = Some pkgC →
  deleteImage_child pkg im s = Ok t → childDeleted c t.
Proof.
  intros Hdel Hps Him HpkgC. unfold deleteImage_child. rewrite Him, HpkgC.
  rewrite (getPackageByDigest_name _ _ _ HpkgC).
  rewrite bool_decide_eq_false_2 by done. rewrite Hps.
  rewrite size_singleton, !bool_decide_eq_true_2 by set_solver. simpl.
  intros Hc. apply bind_Ok in Hc as (lb & _ & Hc). apply bind_Ok in Hc as (s1 & Hs1 & Hc).
  apply call_deletePackageVersion_Ok in Hs1 as (r & _ & ->). simplify_eq.
  split_and!; simpl.
  - set_solver.
  - apply lookup_delete_eq.
  - exists (Package.id pkgC), lb. apply elem_of_app. right. by apply list_elem_of_singleton.
Qed.

(** A turn that visits another digest leaves [c] and its entry alone. *)
Lemma deleteImage_child_other (c : string) (ps : gset string) (pkg : Package.t)
    (im : Descriptor.t) s t :
  Descriptor.digest im ≠ c →
  (c ∉ deleted s) → digestUsedBy s !! c = Some ps →
  deleteImage_child pkg im s = Ok t →
  (c ∉ deleted t) ∧ digestUsedBy t !! c = Some ps.
Proof.
  intros Hne Hdel Hps. unfold deleteImage_child.
  destruct (getPackageByDigest _ _) as [mp|] eqn:Hmp; [|by intros; simplify_eq].
  apply getPackageByDigest_name in Hmp. rewrite Hmp.
  case_bool_decide; [by intros; simplify_eq|].
  destruct (digestUsedBy s !! Descriptor.digest im) as [parents|]; [|by intros; simplify_eq].
  destruct (_ && _); intros Hc.
  - apply bind_Ok in Hc as (lb & _ & Hc). apply bind_Ok in Hc as (s1 & Hs1 & Hc).
    apply call_deletePackageVersion_Ok in Hs1 as (r & _ & ->). simplify_eq. simpl.
    split; [set_solver|]. by rewrite lookup_delete_ne.
  - simplify_eq. simpl. split; [done|]. by rewrite lookup_insert_ne.
Qed.

Lemma deleteImage_children_delete (c : string) (pkg pkgC : Package.t)
    (ms : list Descriptor.t) s t :
  (c ∉ deleted s) → digestUsedBy s !! c = Some {[Package.name pkg]} →
  getPackageByDigest (collab s) c = Some pkgC →
  (∃ im, im ∈ ms ∧ Descriptor.digest im = c) →
  forEach ms (deleteImage_child pkg) s = Ok t → childDeleted c t.
Proof.
  revert s. induction ms as [|x ms IH]; intros s Hdel Hps HpkgC (im & Him & Hdig) Hrun.
  - by apply elem_of_nil in Him.
  - simpl in Hrun. apply bind_Ok in Hrun as (u & Hx & Hrun).
    destruct (decide (Descriptor.digest x = c)) as [Hxc|Hxc].
    + eapply childDeleted_cascadeStep.
      * eapply forEach_cascadeStep; [|exact Hrun].
        intros y v v'. apply deleteImage_child_cascadeStep.
      * by eapply deleteImage_child_deletes.
    + destruct (deleteImage_child_other c _ pkg x s u Hxc Hdel Hps Hx) as [Hdel' Hps'].
      apply (IH u); [done|done| | |done].
      * apply deleteImage_child_cascadeStep in Hx as (_ & (-> & _) & _). done.
      * exists im. split; [|done].
        apply elem_of_cons in Him as [->|Him]; [done|done].
Qed.

(** [deleteImage] on the only recorded parent of [c] deletes [c]. *)
Lemma deleteImage_deletes_last_child (c : string) (fuel : nat) (pkg pkgC : Package.t)
    (m : Manifest.t) (ms : list Descriptor.t) (im : Descriptor.t) s t :
  Package.name pkg ≠ c → Package.name pkg ∉ deleted s →
  (c ∉ deleted s) → digestUsedBy s !! c = Some {[Package.name pkg]} →
  getManifestByDigest (collab s) (Package.name pkg) = Some m →
  Manifest.manifests m = Some ms → im ∈ ms → Descriptor.digest im = c →
  getPackageByDigest (collab s) c = Some pkgC →
  deleteImage fuel pkg s = Ok t → childDeleted c t.
Proof.
  intros Hnc Hdel Hcdel Hps Hm Hms Him Hdig HpkgC Hd.
  destruct fuel as [|fuel]; [done|]. simpl in Hd.
  rewrite bool_decide_eq_false_2, Hm in Hd by done. simpl in Hd.
  apply bind_Ok in Hd as (s1 & Hs1 & Hd). rewrite Hms in Hd.
  apply bind_Ok in Hd as (s2 & Hs2 & Hd).
  apply call_deletePackageVersion_Ok in Hs1 as (r & Hr & ->).
  assert (Hrest : cascadeStep s2 t).
  { destruct (_ && _); [|simplify_eq; apply cascadeStep_refl].
    apply bind_Ok in Hd as (? & _ & Hd'). apply bind_Ok in Hd' as (? & _ & Hd').
    by eapply deleteImage_cascadeStep. }
  apply (childDeleted_cascadeStep c s2 t Hrest).
  revert Hs2. apply (deleteImage_children_delete c pkg pkgC); simpl.
  - set_solver.
  - done.
  - by rewrite (deletePackageVersion_getPackageByDigest _ _ _ _ _ _ Hr).
  - by exists im.
Qed.

(** C1, as the code has it. Let [c] be recorded in [digestUsedBy] with
    exactly the parents [p1] and [p2], listed in the manifest of [p1] and
    not yet deleted. If [deleteImage] on [p1] returns and its referrer
    cascade has invoked [deleteImage] neither on [c] nor on [p2], then [c]
    is not deleted, no deletion of [c] is in the trace, and the entry of
    [c] is exactly [{p2}]. If [deleteImage] is then called on [p2], not yet
    deleted and listing [c], and returns, [c] is deleted as its child and
    the entry of [c] is dropped. *)
Theorem deleteImage_reference_counting (c p2 : string) (fuel : nat) (pkg1 pkgC : Package.t)
    (m1 : Manifest.t) (ms1 : list Descriptor.t) (im1 : Descriptor.t) s s1 :
  Package.name pkg1 ≠ p2 → c ≠ p2 →
  digestUsedBy s !! c = Some {[Package.name pkg1; p2]} →
  (c ∉ deleted s) → Package.name pkg1 ∉ deleted s →
  getManifestByDigest (collab s) (Package.name pkg1) = Some m1 →
  Manifest.manifests m1 = Some ms1 → im1 ∈ ms1 → Descriptor.digest im1 = c →
  getPackageByDigest (collab s) c = Some pkgC →
  deleteImage fuel pkg1 s = Ok s1 →
  ¬ topLevelDeleted c (newEvents s s1) → ¬ topLevelDeleted p2 (newEvents s s1) →
  ((c ∉ deleted s1) ∧ (c ∉ deletedDigests (newEvents s s1))
   ∧ digestUsedBy s1 !! c = Some {[p2]})
  ∧ ∀ (fuel2 : nat) (pkg2 : Package.t) (m2 : Manifest.t) (ms2 : list Descriptor.t)
      (im2 : Descriptor.t) s2,
      Package.name pkg2 = p2 → p2 ∉ deleted s1 →
      getManifestByDigest (collab s1) p2 = Some m2 →
      Manifest.manifests m2 = Some ms2 → im2 ∈ ms2 → Descriptor.digest im2 = c →
      deleteImage fuel2 pkg2 s1 = Ok s2 →
      childDeleted c s2 ∧ c ∈ deletedDigests (newEvents s1 s2).
Proof.
  intros Hne Hcp Hps Hcdel Hdel Hm Hms Him Hdig HpkgC Hrun Htopc Htopp.
  assert (Hshared : sharedChild c p2 s).
  { split; [done|]. exists {[Package.name pkg1; p2]}. split; [done|set_solver]. }
  pose proof (deleteImage_sharedChild c p2 fuel pkg1 s s1 Hrun Htopc Htopp Hshared)
    as (Hcdel1 & ps1 & Hps1 & Hin1).
  pose proof (deleteImage_cascadeStep _ _ _ _ Hrun) as (Hcas & (Hview & _) & Hshrink).
  assert (Hnc : Package.name pkg1 ≠ c).
  { intros Heq. apply Htopc. destruct fuel as [|fuel']; [done|]. simpl in Hrun.
    rewrite bool_decide_eq_false_2 in Hrun by done.
    apply bind_Ok in Hrun as (? & _ & Hrun). apply bind_Ok in Hrun as (u & Hu & Hrun).
    apply call_deletePackageVersion_Ok in Hu as (r & _ & ->).
    exists (Package.id pkg1), (Package.tags pkg1).
    destruct Hcas as (n & He & _). rewrite (newEvents_app _ _ _ He).
    apply bind_Ok in Hrun as (u2 & Hu2 & Hrun).
    assert (events s ++ [EDeletePackageVersion (Package.id pkg1) c (Package.tags pkg1) None]
            `prefix_of` events s1) as [n' Hn'].
    { rewrite <- Heq. etrans; [|etrans].
      - reflexivity.
      - instantiate (1 := events u2).
        destruct (Manifest.manifests x) as [ms|]; [|by simplify_eq].
        apply forEach_cascadeStep in Hu2 as (Hc2%cascade_events_prefix & _);
          [done|intros y v v'; apply deleteImage_child_cascadeStep].
      - destruct (_ && _); [|by simplify_eq].
        apply bind_Ok in Hrun as (? & _ & Hrun). apply bind_Ok in Hrun as (? & _ & Hrun).
        by apply deleteImage_cascadeStep in Hrun as (?%cascade_events_prefix & _). }
    rewrite He, <- app_assoc in Hn'. apply app_inv_head in Hn'. subst n. set_solver. }
  pose proof (deleteImage_removes_parent c p2 fuel pkg1 pkgC m1 ms1 im1 s s1
                Hne Hdel Hm Hms Him Hdig HpkgC Hshared Hnc Hrun ps1 Hps1) as Hgone.
  assert (ps1 = {[p2]}) as ->.
  { apply Hshrink in Hps1 as (ps & Hps' & Hsub). rewrite Hps in Hps'. simplify_eq.
    apply set_eq. intros x. split; [|set_solver].
    intros Hx. specialize (Hsub x Hx). set_solver. }
  split.
  - split_and!; [done| |done]. by apply cascade_deletedDigests.
  - intros fuel2 pkg2 m2 ms2 im2 s2 Hname Hdel2 Hm2 Hms2 Him2 Hdig2 Hrun2.
    subst p2.
    assert (childDeleted c s2) as Hdone.
    { eapply (deleteImage_deletes_last_child c fuel2 pkg2 pkgC m2 ms2 im2 s1 s2); try done.
      by rewrite Hview. }
    split; [done|].
    apply deleteImage_cascadeStep in Hrun2 as ((n & He & _ & _ & _ & Hd & _) & _).
    rewrite (newEvents_app _ _ _ He). destruct Hdone as (Hin & _).
    rewrite Hd in Hin. set_solver.
Qed.

End SharedChild.


(** On the example [p1] is deleted with its own child and its referrer
    while the shared child stays with [{p2}]; deleting [p2] then deletes the
    shared child. *)
Lemma deleteImage_reference_counting_witness :
  ∃ s1 s2,
    deleteImage 3 (Ex.pkg 1 "sha256:p1" ["a"] 10) Ex.multiAction = Ok s1
    ∧ ("sha256:c" ∉ deleted s1)
    ∧ digestUsedBy s1 !! "sha256:c" = Some {[ "sha256:p2" ]}
    ∧ deleteImage 3 (Ex.pkg 2 "sha256:p2" ["b"] 20) s1 = Ok s2
    ∧ childDeleted "sha256:c" s2.
Proof.
  destruct (deleteImage 3 (Ex.pkg 1 "sha256:p1" ["a"] 10) Ex.multiAction)
    as [s1| |] eqn:Hrun; [|by vm_compute in Hrun..].
  pose proof Hrun as Hnf. vm_compute in Hnf. injection Hnf as Hnf.
  destruct (deleteImage 3 (Ex.pkg 2 "sha256:p2" ["b"] 20) s1)
    as [s2| |] eqn:Hrun2.
  2:{ exfalso. rewrite <- Hnf in Hrun2. vm_compute in Hrun2. discriminate. }
  2:{ exfalso. rewrite <- Hnf in Hrun2. vm_compute in Hrun2. discriminate. }
  exists s1, s2. split; [done|].
  assert (Package.name (Ex.pkg 1 "sha256:p1" ["a"] 10) ≠ "sha256:p2") as H1 by (simpl; discriminate).
  assert ("sha256:c" ≠ "sha256:p2") as H2 by discriminate.
  assert (digestUsedBy Ex.multiAction !! "sha256:c" = Some {[Package.name (Ex.pkg 1 "sha256:p1" ["a"] 10); "sha256:p2"]}) as H3 by (vm_compute; reflexivity).
  assert ("sha256:c" ∉ deleted Ex.multiAction) as H4 by (vm_compute; discriminate).
  assert (Package.name (Ex.pkg 1 "sha256:p1" ["a"] 10) ∉ deleted Ex.multiAction) as H5 by (vm_compute; discriminate).
  assert (¬ topLevelDeleted "sha256:c" (newEvents Ex.multiAction s1)) as H6.
  { intros (i & tgs & Hin). rewrite <- Hnf in Hin. vm_compute in Hin.
    repeat (apply elem_of_cons in Hin as [Hin|Hin]; [discriminate Hin|]).
    by apply elem_of_nil in Hin. }
  assert (¬ topLevelDeleted "sha256:p2" (newEvents Ex.multiAction s1)) as H7.
  { intros (i & tgs & Hin). rewrite <- Hnf in Hin. vm_compute in Hin.
    repeat (apply elem_of_cons in Hin as [Hin|Hin]; [discriminate Hin|]).
    by apply elem_of_nil in Hin. }
  assert (getManifestByDigest (collab Ex.multiAction)
            (Package.name (Ex.pkg 1 "sha256:p1" ["a"] 10))
          = Some (Ex.index "1" ["sha256:c"; "sha256:x1"])) as Hm1
    by (vm_compute; reflexivity).
  assert (getPackageByDigest (collab Ex.multiAction) "sha256:c"
          = Some (Ex.pkg 3 "sha256:c" [] 10)) as HpC
    by (vm_compute; reflexivity).
  destruct (deleteImage_reference_counting "sha256:c" "sha256:p2" 3
              (Ex.pkg 1 "sha256:p1" ["a"] 10) (Ex.pkg 3 "sha256:c" [] 10)
              (Ex.index "1" ["sha256:c"; "sha256:x1"])
              [Ex.child "sha256:c"; Ex.child "sha256:x1"] (Ex.child "sha256:c")
              Ex.multiAction s1 H1 H2 H3 H4 H5 Hm1 eq_refl ltac:(by left) eq_refl HpC Hrun H6 H7) as [(Hc & _ & Hps) Hsecond].
  split_and!; [exact Hc|exact Hps|exact Hrun2|].
  assert ("sha256:p2" ∉ deleted s1) as H8 by (rewrite <- Hnf; vm_compute; discriminate).
  assert (getManifestByDigest (collab s1) "sha256:p2" = Some (Ex.index "2" ["sha256:c"])) as H9 by (rewrite <- Hnf; vm_compute; reflexivity).
  destruct (Hsecond 3 (Ex.pkg 2 "sha256:p2" ["b"] 20) (Ex.index "2" ["sha256:c"])
                [Ex.child "sha256:c"] (Ex.child "sha256:c") s2 eq_refl H8 H9 eq_refl ltac:(by left) eq_refl Hrun2) as [Hdone _].
  exact Hdone.
Defined.

(** ** The trims of the candidate set *)

Lemma without_nil (fs : list string) : without [] fs = fs.
Proof.
  unfold without. induction fs as [|x fs IH]; [done|].
  rewrite filter_cons, decide_True by (by intros ?%elem_of_nil). by rewrite IH.
Qed.

Lemma without_without (xs ys fs : list string) :
  without xs (without ys fs) = without (ys ++ xs) fs.
Proof.
  unfold without. rewrite list_filter_filter. apply list_filter_iff.
  intros d. rewrite elem_of_app. tauto.
Qed.

Lemma without_equiv (xs ys fs : list string) :
  (∀ d, d ∈ fs → (d ∈ xs ↔ d ∈ ys)) → without xs fs = without ys fs.
Proof.
  unfold without. intros Heq. induction fs as [|x fs IH]; [done|].
  rewrite !filter_cons. rewrite IH by (intros d ?; apply Heq; by right).
  specialize (Heq x ltac:(by left)).
  destruct (decide (x ∉ xs)), (decide (x ∉ ys)); tauto.
Qed.

Lemma elem_of_without (xs fs : list string) (d : string) :
  d ∈ without xs fs ↔ d ∈ fs ∧ d ∉ xs.
Proof. unfold without. rewrite list_elem_of_filter. tauto. Qed.

Lemma set_delete_without (x : string) (fs : list string) : set_delete x fs = without [x] fs.
Proof.
  unfold set_delete, without. apply list_filter_iff. intros d.
  rewrite list_elem_of_singleton. done.
Qed.

Lemma filter_without (P : string → Prop) `{!∀ x, Decision (P x)} (xs fs : list string) :
  filter P (without xs fs) = without xs (filter P fs).
Proof.
  unfold without. rewrite !list_filter_filter. apply list_filter_iff. tauto.
Qed.

Lemma mapM_app_Ok {A B : Type} (f : A → result B) (l1 l2 : list A) :
  mapM f (l1 ++ l2) = ys1 ← mapM f l1; ys2 ← mapM f l2; Ok (ys1 ++ ys2).
Proof.
  induction l1 as [|x l1 IH]; simpl.
  - by destruct (mapM f l2).
  - destruct (f x); simpl; [|done..]. rewrite IH.
    destruct (mapM f l1); simpl; [|done..]. by destruct (mapM f l2).
Qed.

Section Trims.
Context {R : Type} `{Collaborators R} {engine : ArraySort}.
Variable wcmatch : string → string → bool.
Variable config : Config.t.
Variable now : Clock.
Implicit Types s t : CleanupAction R.

Lemma deleteEach_without (ms : list Descriptor.t) (fs : list string) :
  deleteEach ms fs = without (Descriptor.digest <$> ms) fs.
Proof.
  unfold deleteEach. revert fs. induction ms as [|im ms IH]; intros fs; simpl.
  - by rewrite without_nil.
  - rewrite IH, set_delete_without, without_without. done.
Qed.

Lemma trimChildren_children (m : Manifest.t) s :
  match Manifest.manifests m with
  | Some ms => with_filterSet (deleteEach ms (filterSet s)) s
  | None => s
  end = with_filterSet (without (childDigests m) (filterSet s)) s.
Proof.
  unfold childDigests. destruct (Manifest.manifests m) as [ms|].
  - by rewrite deleteEach_without.
  - rewrite without_nil. by destruct s.
Qed.

Lemma trimChildren_body_targets (digest : string) s :
  trimChildren_body digest s
  = ts ← childTargets_of (collab s) (tagsInUse s) (excludeTags s) digest;
    Ok (with_filterSet (without ts (filterSet s)) s).
Proof.
  unfold trimChildren_body, childTargets_of.
  destruct (getManifestByDigest (collab s) digest) as [m|]; simpl; [|done].
  rewrite trimChildren_children. simpl. destruct (_ && _); [|done].
  destruct (getTagDigest (collab s) _) as [rd|]; simpl; [|done].
  destruct (getManifestByTag (collab s) _) as [rm|]; simpl; [|done].
  set (t := with_filterSet (set_delete rd _) _).
  transitivity (Ok (with_filterSet (without (childDigests rm) (filterSet t)) t)).
  - rewrite <- trimChildren_children. by destruct (Manifest.manifests rm).
  - subst t. simpl. rewrite set_delete_without, !without_without.
    by rewrite <- ?app_assoc.
Qed.

Lemma trimChildren_forEach (l : list string) s :
  forEach l trimChildren_body s
  = mapM (childTargets_of (collab s) (tagsInUse s) (excludeTags s)) l
    ≫= λ tss : list (list string),
         Ok (with_filterSet (without (mjoin tss) (filterSet s)) s).
Proof.
  revert s. induction l as [|q l IH]; intros s; simpl.
  - rewrite without_nil. by destruct s.
  - rewrite trimChildren_body_targets.
    destruct (childTargets_of _ _ _ q) as [ts| |]; simpl; [|done..].
    rewrite IH. simpl.
    destruct (mapM _ l) as [tss| |]; simpl; [|done..].
    by rewrite without_without.
Qed.

(** The child trim as one removal. *)
Lemma trimChildren_targets s :
  trimChildren s
  = ts ← childTargets (collab s) (tagsInUse s) (excludeTags s);
    Ok (with_filterSet (without ts (filterSet s)) s).
Proof.
  unfold trimChildren, childTargets. rewrite trimChildren_forEach.
  by destruct (mapM _ _).
Qed.

Lemma reload_excludeTags_step_spec s (tag : string) :
  reload_excludeTags_step wcmatch config s tag
  = if wcmatch (default "" (Config.excludeTags config)) tag
    then with_excludeTags (excludeTags s ++ [tag])
           (with_filterSet
              (without (option_list (taggedDigest (collab s) tag)) (filterSet s)) s)
    else s.
Proof.
  unfold reload_excludeTags_step, taggedDigest.
  destruct (wcmatch _ tag); [|done].
  destruct (getDigestByTag (collab s) tag) as [d|].
  - destruct (truthy (Some d)).
    + by rewrite set_delete_without.
    + cbn [option_list]. rewrite without_nil. by destruct s.
  - cbn [option_list]. rewrite without_nil. by destruct s.
Qed.

Lemma omap_cons_option_list {A B : Type} (f : A → option B) (x : A) (l : list A) :
  omap f (x :: l) = option_list (f x) ++ omap f l.
Proof. cbn [omap list_omap]. by destruct (f x). Qed.

Lemma reload_excludeTags_step_foldl (l : list string) s :
  foldl (reload_excludeTags_step wcmatch config) s l
  = with_excludeTags
      (excludeTags s
       ++ filter (λ tag, wcmatch (default "" (Config.excludeTags config)) tag = true) l)
      (with_filterSet
         (without
            (omap (taggedDigest (collab s))
               (filter (λ tag, wcmatch (default "" (Config.excludeTags config)) tag = true) l))
            (filterSet s)) s).
Proof.
  revert s. induction l as [|tag l IH]; intros s.
  - cbn [foldl]. rewrite filter_nil, app_nil_r. cbn [omap list_omap].
    rewrite without_nil. by destruct s.
  - cbn [foldl]. rewrite IH, filter_cons, reload_excludeTags_step_spec.
    destruct (wcmatch _ tag) eqn:Hw.
    + rewrite decide_True by done. rewrite omap_cons_option_list.
      cbn [collab excludeTags filterSet with_excludeTags with_filterSet].
      rewrite without_without, <- app_assoc. done.
    + rewrite decide_False by congruence. done.
Qed.

(** The exclude-tag trim as one removal; the tags recorded do not depend
    on the state. *)
Lemma reload_excludeTags_spec s :
  reload_excludeTags wcmatch config s
  = with_excludeTags (excludedTagsOf wcmatch config (tagsInUse s))
      (with_filterSet
         (without (excludedDigests wcmatch config (collab s) (tagsInUse s)) (filterSet s)) s).
Proof.
  unfold reload_excludeTags, excludedDigests, excludedTagsOf.
  destruct (truthy (Config.excludeTags config)).
  - by rewrite reload_excludeTags_step_foldl.
  - simpl. rewrite without_nil. by destruct s.
Qed.

Lemma filter_iff_elem_of {A : Type} (P Q : A → Prop)
    `{!∀ x, Decision (P x), !∀ x, Decision (Q x)} (l : list A) :
  (∀ x, x ∈ l → (P x ↔ Q x)) → filter P l = filter Q l.
Proof.
  intros Hiff. induction l as [|x l IH]; [done|].
  rewrite !filter_cons, IH by (intros y ?; apply Hiff; by right).
  specialize (Hiff x ltac:(by left)).
  destruct (decide (P x)), (decide (Q x)); tauto.
Qed.

Lemma reload_olderThan_body_spec (olderThan : Z) (d : string) (pkg : Package.t) s :
  getPackageByDigest (collab s) d = Some pkg →
  reload_olderThan_body now olderThan d s
  = Ok (if tooRecent olderThan (now (events s)) (collab s) d
        then with_filterSet (set_delete d (filterSet s)) s
        else s).
Proof.
  intros Hpkg. unfold reload_olderThan_body, tooRecent. rewrite Hpkg.
  cbn [req mbind result_bind].
  destruct (Package.updated_at pkg); [|done]. by destruct (dateGe _ _).
Qed.

Lemma filter_elem_of_nil (fs : list string) (P : string → Prop)
    `{!∀ d, Decision (P d)} :
  filter (λ d, ¬ (d ∈ [] ∧ P d)) fs = fs.
Proof.
  induction fs as [|y fs IH]; [done|].
  rewrite filter_cons, decide_True by (by intros [?%elem_of_nil _]). by rewrite IH.
Qed.

Lemma reload_olderThan_forEach (olderThan : Z) (l : list string) s :
  (∀ d, d ∈ l → is_Some (getPackageByDigest (collab s) d)) →
  forEach l (reload_olderThan_body now olderThan) s
  = Ok (with_filterSet
          (filter (λ d, ¬ (d ∈ l ∧ tooRecent olderThan (now (events s)) (collab s) d = true))
             (filterSet s)) s).
Proof.
  revert s. induction l as [|x l IH]; intros s Hpk.
  - cbn [forEach]. rewrite filter_elem_of_nil. by destruct s.
  - destruct (Hpk x) as [pkg Hpkg]; [by left|].
    cbn [forEach]. rewrite (reload_olderThan_body_spec _ _ _ _ Hpkg).
    cbn [mbind result_bind].
    destruct (tooRecent olderThan (now (events s)) (collab s) x) eqn:Hx.
    + rewrite IH by (intros d ?; apply Hpk; by right).
      cbn [collab filterSet with_filterSet]. f_equal.
      transitivity (with_filterSet
        (filter (λ d, ¬ (d ∈ l ∧ tooRecent olderThan (now (events s)) (collab s) d = true))
           (set_delete x (filterSet s))) s); [done|]. f_equal.
      rewrite set_delete_without. unfold without. rewrite list_filter_filter.
      apply list_filter_iff. intros d. rewrite !elem_of_cons.
      split.
      * intros [Hn Hne] [[->|?] ?]; [apply Hne; by left|tauto].
      * intros Hn. split; [tauto|]. intros [->|[]%elem_of_nil].
        apply Hn. split; [by left|done].
    + rewrite IH by (intros d ?; apply Hpk; by right). do 2 f_equal.
      apply list_filter_iff. intros d. rewrite elem_of_cons.
      split; [|tauto]. intros Hn [[->|?] ?]; [congruence|tauto].
Qed.

(** The age trim as one filter, when every digest of [filterSet] has a
    package. *)
Lemma reload_olderThan_spec s :
  packagesKnown s →
  reload_olderThan config now s
  = Ok (with_filterSet (oldEnough config (now (events s)) (collab s) (filterSet s)) s).
Proof.
  intros Hpk. unfold reload_olderThan, oldEnough.
  destruct (Config.olderThan config) as [olderThan|]; [|by destruct s].
  case_bool_decide; [|by destruct s].
  rewrite reload_olderThan_forEach by done. f_equal. f_equal.
  apply filter_iff_elem_of. intros d Hd.
  destruct (tooRecent olderThan (now (events s)) (collab s) d); split; try done.
  - intros Hn. exfalso. by apply Hn.
  - by intros _ [_ ?].
Qed.

Lemma childTargets_of_spec (r : R) (inUse excl : list string) (q : string)
    (ts : list string) :
  childTargets_of r inUse excl q = Ok ts →
  ∀ d, d ∈ ts ↔
    (∃ m, getManifestByDigest r q = Some m ∧ d ∈ childDigests m)
    ∨ (replace "sha256:" "sha256-" q ∈ inUse
       ∧ (replace "sha256:" "sha256-" q ∉ excl)
       ∧ (getTagDigest r (replace "sha256:" "sha256-" q) = Some d
          ∨ ∃ m, getManifestByTag r (replace "sha256:" "sha256-" q) = Some m
                 ∧ d ∈ childDigests m)).
Proof.
  unfold childTargets_of, set_has. intros Hts d.
  apply bind_Ok in Hts as (m & Hm%req_Ok & Hts).
  case_bool_decide as Hin; simpl in Hts.
  - case_bool_decide as Hex; simpl in Hts.
    + simplify_eq. split; [intros ?; left; by exists m|].
      intros [(m' & ? & ?)|(_ & ? & _)]; [by simplify_eq|done].
    + apply bind_Ok in Hts as (rd & Hrd%req_Ok & Hts).
      apply bind_Ok in Hts as (rm & Hrm%req_Ok & Hts). simplify_eq.
      rewrite elem_of_app, elem_of_cons. split.
      * intros [?|[->|?]]; [left; by exists m|right..].
        -- split_and!; [done|done|by left].
        -- split_and!; [done|done|right; by exists rm].
      * intros [(m' & ? & ?)|(_ & _ & [?|(rm' & ? & ?)])]; simplify_eq; tauto.
  - simplify_eq. split; [intros ?; left; by exists m|].
    intros [(m' & ? & ?)|(? & _)]; [by simplify_eq|done].
Qed.

Lemma isChildOfKnown_childDigests (r : R) (d : string) :
  isChildOfKnown r d ↔
  ∃ q m, q ∈ getDigests r ∧ getManifestByDigest r q = Some m ∧ d ∈ childDigests m.
Proof.
  unfold isChildOfKnown, childDigests. split.
  - intros (q & m & ms & ? & ? & Hms & ?). exists q, m. by rewrite Hms.
  - intros (q & m & ? & ? & Hd). destruct (Manifest.manifests m) as [ms|] eqn:Hms.
    + by exists q, m, ms.
    + by apply elem_of_nil in Hd.
Qed.

(** What the child trim removes. *)
Lemma childTargets_spec (r : R) (inUse excl : list string) (ts : list string) :
  childTargets r inUse excl = Ok ts →
  ∀ d, d ∈ ts ↔ isChildOfKnown r d ∨ referrerTargetOf r inUse excl d.
Proof.
  unfold childTargets. intros Hts d.
  apply bind_Ok in Hts as (tss & Htss%mapM_Ok & Hts). simplify_eq.
  rewrite list_elem_of_join, isChildOfKnown_childDigests. split.
  - intros (tsq & Hd & Htsq). apply list_elem_of_lookup in Htsq as [i Hi].
    destruct (Forall2_lookup_r _ _ _ _ _ Htss Hi) as (q & Hq & Hof).
    apply list_elem_of_lookup_2 in Hq.
    apply (childTargets_of_spec _ _ _ _ _ Hof) in Hd as [(m & ? & ?)|(? & ? & ?)].
    + left. by exists q, m.
    + right. by exists q, (replace "sha256:" "sha256-" q).
  - intros Hd.
    assert (∃ q, q ∈ getDigests r ∧ ∀ tsq, childTargets_of r inUse excl q = Ok tsq → d ∈ tsq)
      as (q & Hq & Hin).
    { destruct Hd as [(q & m & ? & ? & ?)|(q & tag & ? & -> & ? & ? & ?)];
        exists q; (split; [done|]); intros tsq Hof;
        apply (childTargets_of_spec _ _ _ _ _ Hof).
      - left. by exists m.
      - right. by split_and!. }
    apply list_elem_of_lookup in Hq as [i Hi].
    destruct (Forall2_lookup_l _ _ _ _ _ Htss Hi) as (tsq & Htsq & Hof).
    exists tsq. split; [by apply Hin|]. by eapply list_elem_of_lookup_2.
Qed.

Lemma childTargets_manifestsKnown (r : R) (inUse excl : list string) (ts : list string) :
  childTargets r inUse excl = Ok ts → manifestsKnown r.
Proof.
  unfold childTargets. intros Hts q Hq.
  apply bind_Ok in Hts as (tss & Htss%mapM_Ok & _).
  apply list_elem_of_lookup in Hq as [i Hi].
  destruct (Forall2_lookup_l _ _ _ _ _ Htss Hi) as (tsq & _ & Hof).
  unfold childTargets_of in Hof. apply bind_Ok in Hof as (m & Hm%req_Ok & _). by exists m.
Qed.

Lemma childTargets_total (r : R) (inUse excl : list string) :
  consistentTags r inUse → manifestsKnown r →
  ∃ ts, childTargets r inUse excl = Ok ts.
Proof.
  intros Hcons Hman. unfold childTargets.
  destruct (mapM_total (childTargets_of r inUse excl) (getDigests r)) as [tss ->];
    [|simpl; by eexists].
  intros q Hq. destruct (Hman q Hq) as [m Hm]. unfold childTargets_of, set_has.
  rewrite Hm. simpl. case_bool_decide as Hin; simpl; [|by eexists].
  destruct (negb _); [|by eexists].
  destruct (Hcons _ Hin) as (rd & -> & _ & _ & Hrd & ->). simpl.
  destruct (Hman rd Hrd) as [rm ->]. simpl. by eexists.
Qed.

Lemma childTargets_not_OutOfFuel (r : R) (inUse excl : list string) :
  childTargets r inUse excl ≠ OutOfFuel.
Proof.
  unfold childTargets. apply bind_not_OutOfFuel; [|done].
  induction (getDigests r) as [|q l IH]; [done|]. simpl.
  apply bind_not_OutOfFuel.
  - unfold childTargets_of. apply bind_not_OutOfFuel; [apply req_not_OutOfFuel|].
    intros m _. destruct (_ && _); [|done].
    apply bind_not_OutOfFuel; [apply req_not_OutOfFuel|]. intros rd _.
    apply bind_not_OutOfFuel; [apply req_not_OutOfFuel|done].
  - intros ts _. apply bind_not_OutOfFuel; [done|done].
Qed.

(** With consistent collaborators the child trim succeeds or throws
    whatever the exclusions are. *)
Lemma childTargets_Ok_iff (r : R) (inUse excl excl' : list string) :
  consistentTags r inUse →
  (∃ ts, childTargets r inUse excl = Ok ts) → ∃ ts', childTargets r inUse excl' = Ok ts'.
Proof.
  intros Hcons [ts Hts]. apply childTargets_total; [done|].
  by eapply childTargets_manifestsKnown.
Qed.

Lemma elem_of_excludedDigests (r : R) (inUse : list string) (d : string) :
  d ∈ excludedDigests wcmatch config r inUse ↔
  ∃ tag, tag ∈ excludedTagsOf wcmatch config inUse ∧ taggedDigest r tag = Some d.
Proof. unfold excludedDigests. apply list_elem_of_omap. Qed.

Lemma excludedTagsOf_inUse (inUse : list string) (tag : string) :
  tag ∈ excludedTagsOf wcmatch config inUse → tag ∈ inUse.
Proof.
  unfold excludedTagsOf. destruct (truthy _); [|by intros ?%elem_of_nil].
  by intros [_ ?]%list_elem_of_filter.
Qed.

(** Together with the exclude-tag trim, the child trim removes the same
    digests whether it runs on the stale exclusions or on the new ones. *)
Lemma childTargets_excluded (r : R) (inUse excl : list string) (ts ts' : list string) :
  consistentTags r inUse →
  (∀ tag, tag ∈ excl → tag ∈ inUse → tag ∈ excludedTagsOf wcmatch config inUse) →
  childTargets r inUse excl = Ok ts →
  childTargets r inUse (excludedTagsOf wcmatch config inUse) = Ok ts' →
  ∀ d, d ∈ ts ∨ d ∈ excludedDigests wcmatch config r inUse
       ↔ d ∈ ts' ∨ d ∈ excludedDigests wcmatch config r inUse.
Proof.
  intros Hcons Hstale Hts Hts' d.
  rewrite (childTargets_spec _ _ _ _ Hts), (childTargets_spec _ _ _ _ Hts').
  split; (intros [[Hchild|Href]|Hx]; [by left; left| |by right]).
  - destruct Href as (q & tag & Hq & -> & Hin & Hex & Hd).
    set (tag := replace "sha256:" "sha256-" q) in *.
    destruct (decide (tag ∈ excludedTagsOf wcmatch config inUse)) as [Hnew|Hnew];
      [|left; right; by exists q, tag].
    destruct (Hcons _ Hin) as (rd & Hrd & Hby & Hne & Hknown & Hman).
    destruct Hd as [Hd|(m & Hm & Hd)].
    + right. apply elem_of_excludedDigests. exists tag. split; [done|].
      unfold taggedDigest. rewrite Hby. assert (rd = d) as -> by congruence.
      unfold truthy. by rewrite bool_decide_eq_false_2.
    + left; left. apply isChildOfKnown_childDigests. exists rd, m.
      split_and!; [done|congruence|done].
  - destruct Href as (q & tag & Hq & -> & Hin & Hex & Hd).
    left; right. exists q, (replace "sha256:" "sha256-" q).
    split_and!; [done..| |done]. intros Hold. by apply Hex, Hstale.
Qed.

Lemma trimState_id s : trimState (excludeTags s) (filterSet s) s = s.
Proof. by destruct s. Qed.

Lemma applyTrim_child (excl fs : list string) s :
  applyTrim wcmatch config now ChildTrim (trimState excl fs s)
  = ts ← childTargets (collab s) (tagsInUse s) excl;
    Ok (trimState excl (without ts fs) s).
Proof.
  cbn [applyTrim]. rewrite trimChildren_targets.
  cbn [collab tagsInUse excludeTags filterSet trimState with_excludeTags with_filterSet].
  by destruct (childTargets _ _ _).
Qed.

Lemma applyTrim_exclude (excl fs : list string) s :
  applyTrim wcmatch config now ExcludeTrim (trimState excl fs s)
  = Ok (trimState (excludedTagsOf wcmatch config (tagsInUse s))
          (without (excludedDigests wcmatch config (collab s) (tagsInUse s)) fs) s).
Proof. cbn [applyTrim]. by rewrite reload_excludeTags_spec. Qed.

Lemma applyTrim_age (excl fs : list string) s :
  packagesKnown s → (∀ d, d ∈ fs → d ∈ filterSet s) →
  applyTrim wcmatch config now AgeTrim (trimState excl fs s)
  = Ok (trimState excl (oldEnough config (now (events s)) (collab s) fs) s).
Proof.
  intros Hpk Hsub. cbn [applyTrim]. rewrite reload_olderThan_spec; [done|].
  intros d Hd. apply Hpk, Hsub, Hd.
Qed.

Lemma oldEnough_without (nw : string → Z) (r : R) (xs fs : list string) :
  oldEnough config nw r (without xs fs) = without xs (oldEnough config nw r fs).
Proof.
  unfold oldEnough. destruct (Config.olderThan config); [|done].
  case_bool_decide; [|done]. apply filter_without.
Qed.

Lemma elem_of_oldEnough (nw : string → Z) (r : R) (fs : list string) (d : string) :
  d ∈ oldEnough config nw r fs → d ∈ fs.
Proof.
  unfold oldEnough. destruct (Config.olderThan config); [|done].
  case_bool_decide; [|done]. by intros [_ ?]%list_elem_of_filter.
Qed.

Lemma oldEnough_idemp (nw : string → Z) (r : R) (fs : list string) :
  oldEnough config nw r (oldEnough config nw r fs) = oldEnough config nw r fs.
Proof.
  unfold oldEnough. destruct (Config.olderThan config); [|done].
  case_bool_decide; [|done]. by apply list_filter_filter_l.
Qed.

Lemma without_idemp (xs fs : list string) : without xs (without xs fs) = without xs fs.
Proof. unfold without. by apply list_filter_filter_l. Qed.

(** The six orders, on collaborators where the child trim succeeds. *)
Lemma applyTrims_order_Ok (order : list Trim) s (ts ts' : list string) :
  consistentTags (collab s) (tagsInUse s) → staleExcludes wcmatch config s →
  packagesKnown s →
  childTargets (collab s) (tagsInUse s) (excludeTags s) = Ok ts →
  childTargets (collab s) (tagsInUse s)
    (excludedTagsOf wcmatch config (tagsInUse s)) = Ok ts' →
  order ≡ₚ [ChildTrim; ExcludeTrim; AgeTrim] →
  applyTrims wcmatch config now order s
  = Ok (trimState (excludedTagsOf wcmatch config (tagsInUse s))
          (oldEnough config (now (events s)) (collab s)
             (without (ts' ++ excludedDigests wcmatch config (collab s) (tagsInUse s))
                (filterSet s))) s).
Proof.
  intros Hcons Hstale Hpk Hts Hts' Hperm.
  pose proof (childTargets_excluded _ _ _ _ _ Hcons Hstale Hts Hts') as Hsame.
  assert (Hsub : ∀ xs ys d, d ∈ without xs (without ys (filterSet s)) → d ∈ filterSet s).
  { intros xs ys d. rewrite !elem_of_without. tauto. }
  assert (Hsub1 : ∀ xs d, d ∈ without xs (filterSet s) → d ∈ filterSet s).
  { intros xs d. rewrite !elem_of_without. tauto. }
  symmetry in Hperm. apply permutations_Permutation in Hperm. cbn in Hperm.
  unfold applyTrims.
  repeat (apply elem_of_cons in Hperm as [->|Hperm]); [..|by apply elem_of_nil in Hperm];
    cbn [forEach]; rewrite <- (trimState_id s) at 1.
  - (* child, exclude, age *)
    rewrite applyTrim_child, Hts. cbn [mbind result_bind].
    rewrite applyTrim_exclude. cbn [mbind result_bind].
    rewrite applyTrim_age by (done || apply Hsub). cbn [mbind result_bind].
    rewrite without_without. do 3 f_equal.
    apply without_equiv. intros d _. rewrite !elem_of_app. apply Hsame.
  - (* exclude, child, age *)
    rewrite applyTrim_exclude. cbn [mbind result_bind].
    rewrite applyTrim_child, Hts'. cbn [mbind result_bind].
    rewrite applyTrim_age by (done || apply Hsub). cbn [mbind result_bind].
    rewrite without_without. do 3 f_equal.
    apply without_equiv. intros d _. rewrite !elem_of_app. tauto.
  - (* exclude, age, child *)
    rewrite applyTrim_exclude. cbn [mbind result_bind].
    rewrite applyTrim_age by (done || apply Hsub1). cbn [mbind result_bind].
    rewrite applyTrim_child, Hts'. cbn [mbind result_bind].
    rewrite <- oldEnough_without, without_without. do 3 f_equal.
    apply without_equiv. intros d _. rewrite !elem_of_app. tauto.
  - (* child, age, exclude *)
    rewrite applyTrim_child, Hts. cbn [mbind result_bind].
    rewrite applyTrim_age by (done || apply Hsub1). cbn [mbind result_bind].
    rewrite applyTrim_exclude. cbn [mbind result_bind].
    rewrite <- oldEnough_without, without_without. do 3 f_equal.
    apply without_equiv. intros d _. rewrite !elem_of_app. apply Hsame.
  - (* age, child, exclude *)
    rewrite applyTrim_age by done. cbn [mbind result_bind].
    rewrite applyTrim_child, Hts. cbn [mbind result_bind].
    rewrite applyTrim_exclude. cbn [mbind result_bind].
    rewrite <- !oldEnough_without, without_without. do 3 f_equal.
    apply without_equiv. intros d _. rewrite !elem_of_app. apply Hsame.
  - (* age, exclude, child *)
    rewrite applyTrim_age by done. cbn [mbind result_bind].
    rewrite applyTrim_exclude. cbn [mbind result_bind].
    rewrite applyTrim_child, Hts'. cbn [mbind result_bind].
    rewrite <- !oldEnough_without, without_without. do 3 f_equal.
    apply without_equiv. intros d _. rewrite !elem_of_app. tauto.
Qed.

(** The six orders, on collaborators where the child trim throws. *)
Lemma applyTrims_order_Throw (order : list Trim) s :
  packagesKnown s →
  (∀ excl, childTargets (collab s) (tagsInUse s) excl = Throw) →
  order ≡ₚ [ChildTrim; ExcludeTrim; AgeTrim] →
  applyTrims wcmatch config now order s = Throw.
Proof.
  intros Hpk Hthrow Hperm.
  assert (Hsub1 : ∀ xs d, d ∈ without xs (filterSet s) → d ∈ filterSet s).
  { intros xs d. rewrite !elem_of_without. tauto. }
  symmetry in Hperm. apply permutations_Permutation in Hperm. cbn in Hperm.
  unfold applyTrims.
  repeat (apply elem_of_cons in Hperm as [->|Hperm]); [..|by apply elem_of_nil in Hperm];
    cbn [forEach]; rewrite <- (trimState_id s) at 1;
    repeat first
      [ rewrite applyTrim_child, Hthrow
      | rewrite applyTrim_exclude
      | rewrite applyTrim_age by (done || apply Hsub1)
      | progress cbn [mbind result_bind] ];
    done.
Qed.

Lemma bind_Ok_r {A : Type} (m : result A) : m ≫= Ok = m.
Proof. by destruct m. Qed.

(** [reload] applies the three trims in the order child, exclude, age. *)
Lemma reload_applyTrims s :
  reload wcmatch config now s
  = s1 ← call_loadPackages true (with_deleted ∅ (with_deleteSet [] s));
    s2 ← loadDigestUsedByMap
            (with_tagsInUse (getTags (collab s1)) (with_filterSet (getDigests (collab s1)) s1));
    applyTrims wcmatch config now [ChildTrim; ExcludeTrim; AgeTrim] s2.
Proof.
  unfold reload, applyTrims. cbn [forEach applyTrim].
  destruct (call_loadPackages _ _) as [s1| |]; [|done..]. cbn [mbind result_bind].
  destruct (loadDigestUsedByMap _) as [s2| |]; [|done..]. cbn [mbind result_bind].
  destruct (trimChildren s2) as [s3| |]; [|done..]. cbn [mbind result_bind].
  by rewrite bind_Ok_r.
Qed.

Lemma reload_olderThan_body_collab (olderThan : Z) (d : string) s t :
  reload_olderThan_body now olderThan d s = Ok t → collab t = collab s.
Proof. unfold reload_olderThan_body. intros Hb. by unfold_ok Hb. Qed.

Lemma reload_olderThan_forEach_Ok (olderThan : Z) (l : list string) s t :
  forEach l (reload_olderThan_body now olderThan) s = Ok t →
  ∀ d, d ∈ l → is_Some (getPackageByDigest (collab s) d).
Proof.
  revert s. induction l as [|x l IH]; intros s Hrun d Hd; [by apply elem_of_nil in Hd|].
  cbn [forEach] in Hrun. apply bind_Ok in Hrun as (u & Hx & Hrun).
  apply elem_of_cons in Hd as [->|Hd].
  - unfold reload_olderThan_body in Hx. apply bind_Ok in Hx as (pkg & ->%req_Ok & _).
    by eexists.
  - rewrite <- (reload_olderThan_body_collab _ _ _ _ Hx). by eapply IH.
Qed.

(** The exclusions a reload leaves are matched by the exclude pattern, so
    they are stale in no later state; the empty list of a new action is
    the case of no tag in use. *)
Lemma staleExcludes_excludedTagsOf (inUse0 : list string) s :
  excludeTags s = excludedTagsOf wcmatch config inUse0 → staleExcludes wcmatch config s.
Proof.
  intros Hex tag. rewrite Hex. unfold excludedTagsOf.
  destruct (truthy (Config.excludeTags config)); [|by intros ?%elem_of_nil].
  rewrite !list_elem_of_filter. tauto.
Qed.

(** Each trim is idempotent. *)
Lemma applyTrim_idempotent (tr : Trim) s t :
  applyTrim wcmatch config now tr s = Ok t → applyTrim wcmatch config now tr t = Ok t.
Proof.
  destruct tr.
  - rewrite <- (trimState_id s), applyTrim_child. intros Ht.
    apply bind_Ok in Ht as (ts & Hts & Ht). simplify_eq.
    rewrite applyTrim_child, Hts. cbn [mbind result_bind]. by rewrite without_idemp.
  - rewrite <- (trimState_id s), applyTrim_exclude. intros Ht. simplify_eq.
    by rewrite applyTrim_exclude, without_idemp.
  - cbn [applyTrim]. intros Ht.
    destruct (Config.olderThan config) as [olderThan|] eqn:Ho;
      [|unfold reload_olderThan in *; rewrite Ho in *; by simplify_eq].
    destruct (bool_decide (olderThan ≠ 0%Z)) eqn:Hnz;
      [|unfold reload_olderThan in *; rewrite Ho, Hnz in *; by simplify_eq].
    assert (packagesKnown s) as Hpk.
    { unfold reload_olderThan in Ht. rewrite Ho, Hnz in Ht.
      intros d Hd. by eapply reload_olderThan_forEach_Ok. }
    rewrite reload_olderThan_spec in Ht by done. simplify_eq.
    rewrite reload_olderThan_spec.
    + cbn [collab filterSet with_filterSet]. rewrite oldEnough_idemp. done.
    + intros d Hd. cbn [collab filterSet with_filterSet] in *.
      apply elem_of_oldEnough in Hd. by apply Hpk.
Qed.

(** C6, as the code has it. On collaborators that agree on the tags in
    use, from a state whose left-over exclusions match the exclude pattern
    and whose candidates all have a package, the clock showing for each
    digest what it shows in the order of [reload]: the three trims applied
    in any order give what the order of [reload] gives, the same state or
    the same failure; each trim applied to its own result changes nothing;
    and the child trim removes a candidate exactly when it is a child
    listed in the manifest of a known digest or is reached through the
    referrer tag of a known digest, that tag being in use and not in
    [excludeTags]. With every known manifest readable the trims return. *)
Theorem trims_commute s :
  consistentTags (collab s) (tagsInUse s) → staleExcludes wcmatch config s →
  packagesKnown s →
  (∀ order, order ≡ₚ [ChildTrim; ExcludeTrim; AgeTrim] →
     applyTrims wcmatch config now order s
     = applyTrims wcmatch config now [ChildTrim; ExcludeTrim; AgeTrim] s)
  ∧ (∀ tr t t', applyTrim wcmatch config now tr t = Ok t' →
       applyTrim wcmatch config now tr t' = Ok t')
  ∧ (∀ s' d, trimChildren s = Ok s' → d ∈ filterSet s →
       (d ∉ filterSet s' ↔ isChildOfKnown (collab s) d ∨ referrerTarget s d))
  ∧ (manifestsKnown (collab s) →
     ∃ s', applyTrims wcmatch config now [ChildTrim; ExcludeTrim; AgeTrim] s = Ok s').
Proof.
  intros Hcons Hstale Hpk. split_and!.
  - intros order Hperm.
    destruct (childTargets (collab s) (tagsInUse s) (excludeTags s)) as [ts| |] eqn:Hts.
    + destruct (childTargets_Ok_iff _ _ _ (excludedTagsOf wcmatch config (tagsInUse s))
                  Hcons (ex_intro _ ts Hts)) as [ts' Hts'].
      rewrite (applyTrims_order_Ok order s ts ts') by done.
      by rewrite (applyTrims_order_Ok _ s ts ts').
    + assert (∀ excl, childTargets (collab s) (tagsInUse s) excl = Throw) as Hthrow.
      { intros excl.
        destruct (childTargets (collab s) (tagsInUse s) excl) as [ts| |] eqn:Hex; [|done|].
        - destruct (childTargets_Ok_iff _ _ _ (excludeTags s) Hcons (ex_intro _ ts Hex))
            as [ts0 Hts0]. congruence.
        - by apply childTargets_not_OutOfFuel in Hex. }
      rewrite (applyTrims_order_Throw order) by done.
      by rewrite applyTrims_order_Throw.
    + by apply childTargets_not_OutOfFuel in Hts.
  - intros tr t t'. apply applyTrim_idempotent.
  - intros s' d Htrim Hd. rewrite trimChildren_targets in Htrim.
    apply bind_Ok in Htrim as (ts & Hts & Htrim). simplify_eq.
    cbn [filterSet with_filterSet]. rewrite elem_of_without.
    rewrite <- (childTargets_spec _ _ _ _ Hts). split; [|tauto].
    intros Hn. destruct (decide (d ∈ ts)); tauto.
  - intros Hman.
    destruct (childTargets_total _ _ (excludeTags s) Hcons Hman) as [ts Hts].
    destruct (childTargets_total _ _ (excludedTagsOf wcmatch config (tagsInUse s))
                Hcons Hman) as [ts' Hts'].
    rewrite (applyTrims_order_Ok _ s ts ts') by done. by eexists.
Qed.

End Trims.

(** On the example the referrer tag of [p1] is excluded: trimming in the
    order age, exclude, child gives what the order of [reload] gives, with
    [p1] the only candidate left. *)
Lemma trims_commute_witness :
  applyTrims Ex.exact Ex.trimConfig (Ex.clock 20) [AgeTrim; ExcludeTrim; ChildTrim] Ex.untrimmed
  = applyTrims Ex.exact Ex.trimConfig (Ex.clock 20) [ChildTrim; ExcludeTrim; AgeTrim] Ex.untrimmed
  ∧ ∃ s', applyTrims Ex.exact Ex.trimConfig (Ex.clock 20) [ChildTrim; ExcludeTrim; AgeTrim] Ex.untrimmed
          = Ok s'
          ∧ filterSet s' = ["sha256:p1"] ∧ excludeTags s' = ["sha256-p1"].
Proof.
  destruct (trims_commute Ex.exact Ex.trimConfig (Ex.clock 20) Ex.untrimmed) as (Horder & _ & _ & Htot).
  - intros tag Htag.
    repeat (apply elem_of_cons in Htag as [->|Htag]); [..|by apply elem_of_nil in Htag].
    + exists "sha256:p1". split_and!; [by vm_compute..|discriminate|by left|by vm_compute].
    + exists "sha256:p2". split_and!;
        [by vm_compute..|discriminate|right; by left|by vm_compute].
    + exists "sha256:r1". split_and!;
        [by vm_compute..|discriminate|do 4 right; by left|by vm_compute].
  - by intros tag ?%elem_of_nil.
  - intros d Hd.
    repeat (apply elem_of_cons in Hd as [->|Hd]); [..|by apply elem_of_nil in Hd];
      vm_compute; eauto.
  - split.
    { apply Horder. transitivity [ChildTrim; AgeTrim; ExcludeTrim].
      - apply (Permutation_app_comm [AgeTrim; ExcludeTrim] [ChildTrim]).
      - apply perm_skip, perm_swap. }
    destruct Htot as [s' Hs'].
    { intros q Hq.
      repeat (apply elem_of_cons in Hq as [->|Hq]); [..|by apply elem_of_nil in Hq];
        vm_compute; eauto. }
    exists s'. split; [done|]. vm_compute in Hs'. injection Hs' as <-. done.
Defined.

(** C6, refuted as stated: where the package listing is behind the
    registry the order matters. The child trim, run first, removes the
    digest [rd] that the registry has for the referrer tag of [q]; run
    after the exclude-tag trim, which has recorded that tag and removed the
    digest [x] the listing has for it, the child trim leaves [rd] alone. *)
Lemma trims_order_matters :
  ¬ trimsOrderInsensitive Ex.exact Ex.behindConfig (Ex.clock 0) Ex.behindAction.
Proof.
  intros Hsame.
  destruct (applyTrims Ex.exact Ex.behindConfig (Ex.clock 0)
              [ExcludeTrim; ChildTrim; AgeTrim] Ex.behindAction) as [t| |] eqn:Ht;
    [|vm_compute in Ht; discriminate Ht..].
  destruct (applyTrims Ex.exact Ex.behindConfig (Ex.clock 0)
              [ChildTrim; ExcludeTrim; AgeTrim] Ex.behindAction) as [t'| |] eqn:Ht';
    [|vm_compute in Ht'; discriminate Ht'..].
  destruct (Hsame _ t t' (perm_swap _ _ _) Ht Ht') as [Hf _].
  vm_compute in Ht, Ht'. injection Ht as <-. injection Ht' as <-.
  vm_compute in Hf. discriminate Hf.
Qed.

(** The two results, and what the example satisfies of the hypotheses of
    the theorem: every candidate has a package, every known digest a
    manifest, and no exclusion is left over. *)
Lemma trims_order_matters_results :
  (∃ t, applyTrims Ex.exact Ex.behindConfig (Ex.clock 0)
          [ChildTrim; ExcludeTrim; AgeTrim] Ex.behindAction = Ok t
        ∧ filterSet t = ["sha256:q"])
  ∧ (∃ t, applyTrims Ex.exact Ex.behindConfig (Ex.clock 0)
            [ExcludeTrim; ChildTrim; AgeTrim] Ex.behindAction = Ok t
          ∧ filterSet t = ["sha256:q"; "sha256:rd"])
  ∧ packagesKnown Ex.behindAction
  ∧ manifestsKnown (collab Ex.behindAction)
  ∧ staleExcludes Ex.exact Ex.behindConfig Ex.behindAction.
Proof.
  split_and!.
  - eexists. split; [vm_compute; reflexivity|reflexivity].
  - eexists. split; [vm_compute; reflexivity|reflexivity].
  - intros d Hd.
    repeat (apply elem_of_cons in Hd as [->|Hd]); [..|by apply elem_of_nil in Hd];
      vm_compute; eauto.
  - intros d Hd.
    repeat (apply elem_of_cons in Hd as [->|Hd]); [..|by apply elem_of_nil in Hd];
      vm_compute; eauto.
  - by intros tag ?%elem_of_nil.
Qed.

(** ** Untagging *)

Section Untagging.
Context {R : Type} `{Collaborators R} {engine : ArraySort}.
Variable wcmatch : string → string → bool.
Variable config : Config.t.
Variable now : Clock.
Implicit Types s t : CleanupAction R.

Lemma loadDigestUsedByMap_events s t :
  loadDigestUsedByMap s = Ok t → events t = events s ∧ collab t = collab s.
Proof.
  unfold loadDigestUsedByMap. intros Hl.
  apply (forEach_preserves (λ u, (events u, collab u))) in Hl; [by injection Hl|].
  intros x u u' Hb. unfold loadDigestUsedByMap_body in Hb. by unfold_ok Hb.
Qed.

Lemma trimChildren_events s t :
  trimChildren s = Ok t → events t = events s ∧ collab t = collab s.
Proof.
  unfold trimChildren. intros Hl.
  apply (forEach_preserves (λ u, (events u, collab u))) in Hl; [by injection Hl|].
  intros x u u' Hb. unfold trimChildren_body in Hb. by unfold_ok Hb.
Qed.

Lemma reload_excludeTags_step_events (l : list string) s :
  events (foldl (reload_excludeTags_step wcmatch config) s l) = events s
  ∧ collab (foldl (reload_excludeTags_step wcmatch config) s l) = collab s.
Proof.
  revert s. induction l as [|tag l IH]; intros s; [done|]. cbn [foldl].
  destruct (IH (reload_excludeTags_step wcmatch config s tag)) as [-> ->].
  unfold reload_excludeTags_step. by repeat case_match.
Qed.

Lemma reload_excludeTags_events s :
  events (reload_excludeTags wcmatch config s) = events s
  ∧ collab (reload_excludeTags wcmatch config s) = collab s.
Proof.
  unfold reload_excludeTags. destruct (truthy _); [|done].
  by destruct (reload_excludeTags_step_events (tagsInUse (with_excludeTags [] s))
                 (with_excludeTags [] s)) as [-> ->].
Qed.

Lemma reload_olderThan_events s t :
  reload_olderThan config now s = Ok t → events t = events s ∧ collab t = collab s.
Proof.
  unfold reload_olderThan. intros Ho.
  destruct (Config.olderThan config); [|by simplify_eq].
  destruct (bool_decide _); [|by simplify_eq].
  apply (forEach_preserves (λ u, (events u, collab u))) in Ho; [by injection Ho|].
  intros x u u' Hb. unfold reload_olderThan_body in Hb. by unfold_ok Hb.
Qed.

(** [reload] makes one call that changes the collaborators, the load of
    the package listing. *)
Lemma reload_events s t :
  reload wcmatch config now s = Ok t →
  ∃ r, loadPackages (collab s) true = Some r ∧ collab t = r
       ∧ events t = events s ++ [ELoadPackages true].
Proof.
  unfold reload. intros Hr.
  apply bind_Ok in Hr as (s1 & Hs1 & Hr).
  apply bind_Ok in Hr as (s2 & [He2 Hc2]%loadDigestUsedByMap_events & Hr).
  apply bind_Ok in Hr as (s3 & [He3 Hc3]%trimChildren_events & Hr).
  apply reload_olderThan_events in Hr as [He4 Hc4].
  destruct (reload_excludeTags_events s3) as [He5 Hc5].
  unfold call_loadPackages in Hs1. apply bind_Ok in Hs1 as (r & Hr%req_Ok & Hs1).
  injection Hs1 as <-. exists r. split; [done|].
  rewrite Hc4, Hc5, Hc3, Hc2, He4, He5, He3, He2. done.
Qed.

Lemma deleteByTag_standard_spec (l : list string) s t :
  forEach l deleteByTag_standard s = Ok t →
  events t = events s ∧ collab t = collab s
  ∧ ∀ d, d ∈ deleteSet t ↔ d ∈ deleteSet s ∨ resolvedDigests (collab s) l d.
Proof.
  revert s. induction l as [|tag l IH]; intros s Hl.
  - injection Hl as <-. split_and!; [done..|].
    intros d. split; [by left|]. intros [?|(? & []%elem_of_nil & _)]. done.
  - cbn [forEach] in Hl. apply bind_Ok in Hl as (u & Hu & Hl).
    unfold deleteByTag_standard in Hu. apply bind_Ok in Hu as (md & Hmd%req_Ok & Hu).
    injection Hu as <-. destruct (IH _ Hl) as (-> & -> & Hd).
    split_and!; [done..|]. intros d. rewrite Hd.
    cbn [deleteSet collab moveToDeleteSet with_deleteSet with_filterSet].
    rewrite elem_of_set_add. unfold resolvedDigests. split.
    + intros [[?| ->]|(tg & Htg & Hres)]; [by left| |].
      * right. exists tag. split; [by left|done].
      * right. exists tg. split; [by right|done].
    + intros [?|(tg & [->|Htg]%elem_of_cons & Hres)]; [by left; left| |].
      * left. right. congruence.
      * right. by exists tg.
Qed.

(** Two states with the same fields are the same state. *)
Lemma CleanupAction_ext s t :
  collab s = collab t → excludeTags s = excludeTags t → filterSet s = filterSet t →
  deleteSet s = deleteSet t → tagsInUse s = tagsInUse t →
  digestUsedBy s = digestUsedBy t → deleted s = deleted t →
  numberMultiImagesDeleted s = numberMultiImagesDeleted t →
  numberImagesDeleted s = numberImagesDeleted t → events s = events t → s = t.
Proof. destruct s, t. simpl. by intros -> -> -> -> -> -> -> -> -> ->. Qed.



End Untagging.


(** C4, refuted as stated. Where the manifest of the tag has no children
    to begin with, the emptied clone is the manifest itself: on a
    content-addressed remote the push leaves the tag on its digest, and the
    deletion that follows is that of the digest, with the tag [keep] it
    carries. *)
Lemma reload_emptyTagged :
  reload Ex.exact Ex.taggedConfig (Ex.clock 0) (newAction Ex.emptyTagged) = Ok Ex.emptyTaggedAction.
Proof. vm_compute. reflexivity. Qed.



(** The emptied clone of a manifest that is empty already is that
    manifest. *)
Lemma emptyManifest_empty (m : Manifest.t) :
  Manifest.manifests m = Some [] ∨ (Manifest.manifests m = None ∧ Manifest.layers m = Some []) →
  (emptyManifest m).1 = m.
Proof.
  unfold emptyManifest. destruct m as [ms ls o]. simpl.
  by intros [->|[-> ->]].
Qed.

(** * Further properties *)

(** ** Sorting by date *)

Lemma newerOrEqual_trans (a b c : Package.t) :
  newerOrEqual a b → newerOrEqual b c → newerOrEqual a c.
Proof.
  intros (ta & tb & Ha & Hb & Hab) (tb' & tc & Hb' & Hc & Hbc).
  exists ta, tc. split_and!; [done..|]. simplify_eq. lia.
Qed.

(** On dated packages [byDateDescending] is a consistent comparator. *)
Lemma byDateDescending_consistent (l : list Package.t) :
  Forall (λ p, is_Some (Package.updated_at p)) l →
  consistentComparator byDateDescending l.
Proof.
  rewrite Forall_forall. intros Hl a b c Ha Hb Hc.
  destruct (Hl a Ha) as [ta Hta], (Hl b Hb) as [tb Htb], (Hl c Hc) as [tc Htc].
  unfold byDateDescending. rewrite Hta, Htb, Htc. simpl. lia.
Qed.

Lemma sortBy_sorted {engine : ArraySort} (l : list Package.t) :
  Forall (λ p, is_Some (Package.updated_at p)) l →
  StronglySorted newerOrEqual (sortBy byDateDescending l).
Proof.
  intros Hl. pose proof (sortBy_consistent _ _ (byDateDescending_consistent l Hl)) as Hs.
  assert (Forall (λ p, is_Some (Package.updated_at p)) (sortBy byDateDescending l)) as Hd
    by (by rewrite sortBy_Permutation).
  induction Hs as [|x k Hs IH Hx]; [constructor|].
  apply Forall_cons in Hd as [[tx Htx] Hd]. constructor; [by apply IH|].
  rewrite Forall_forall in Hx, Hd |- *. intros y Hy.
  destruct (Hd y Hy) as [ty Hty]. specialize (Hx y Hy). simpl in Hx.
  unfold byDateDescending in Hx. rewrite Hty, Htx in Hx. simpl in Hx.
  exists tx, ty. split_and!; [done..|lia].
Qed.

(** ** The keep-n classifiers and delete-untagged *)

Section KeepN.
Context {R : Type} `{PackageSnapshot R} {engine : ArraySort}.
Implicit Types s t : CleanupAction R.

Lemma moveAll_spec (ds : list string) s :
  only_sets_differ s (moveAll ds s)
  ∧ filterSet (moveAll ds s) = without ds (filterSet s)
  ∧ ∀ d, d ∈ deleteSet (moveAll ds s) ↔ d ∈ deleteSet s ∨ d ∈ ds.
Proof.
  revert s. induction ds as [|x ds IH]; intros s.
  - split_and!; [apply only_sets_differ_refl|by rewrite without_nil|].
    intros d. split; [by left|]. by intros [?|?%elem_of_nil].
  - destruct (IH (moveToDeleteSet x s)) as (Hd & Hf & Hs). split_and!.
    + eapply only_sets_differ_trans; [apply only_sets_differ_move|exact Hd].
    + change (moveAll (x :: ds) s) with (moveAll ds (moveToDeleteSet x s)).
      rewrite Hf. unfold moveToDeleteSet. cbn [filterSet with_deleteSet with_filterSet].
      by rewrite set_delete_without, without_without.
    + intros d. change (moveAll (x :: ds) s) with (moveAll ds (moveToDeleteSet x s)).
      rewrite Hs. unfold moveToDeleteSet. cbn [deleteSet with_deleteSet with_filterSet].
      rewrite elem_of_set_add, elem_of_cons. naive_solver.
Qed.

Lemma moveAll_fmap {A : Type} (f : A → string) (l : list A) s :
  foldl (λ s x, moveToDeleteSet (f x) s) s l = moveAll (f <$> l) s.
Proof. revert s. induction l as [|x l IH]; intros s; [done|]. simpl. by rewrite IH. Qed.

Lemma forEach_keepN_delete (l : list Package.t) s :
  forEach l keepN_delete s = Ok (moveAll (Package.name <$> l) s).
Proof. revert s. induction l as [|x l IH]; intros s; [done|]. simpl. by rewrite IH. Qed.

Lemma forEach_keepNtagged_delete (l : list Package.t) s t :
  forEach l keepNtagged_delete s = Ok t → t = moveAll (Package.name <$> l) s.
Proof.
  revert s. induction l as [|x l IH]; intros s Hl; [by injection Hl|].
  cbn [forEach] in Hl. apply bind_Ok in Hl as (u & Hu & Hl).
  unfold keepNtagged_delete in Hu. apply bind_Ok in Hu as (? & _ & Hu).
  injection Hu as <-. by apply IH in Hl.
Qed.

(** The packages of a list of digests, read one by one. *)
Lemma packages_of_digests (r : R) (fs : list string) (pkgs : list Package.t) :
  Forall2 (λ d p, req (getPackageByDigest r d) = Ok p) fs pkgs →
  Package.name <$> pkgs = fs
  ∧ (∀ p, p ∈ pkgs → getPackageByDigest r (Package.name p) = Some p)
  ∧ ∀ (sel : Package.t → Prop) `{!∀ p, Decision (sel p)},
      Package.name <$> filter sel pkgs = filter (λ d, selected sel r d = true) fs.
Proof.
  induction 1 as [|d p fs pkgs Hp%req_Ok Hl (IH1 & IH2 & IH3)].
  - split_and!; [done| |done]. by intros p ?%elem_of_nil.
  - pose proof (getPackageByDigest_name _ _ _ Hp) as Hn. split_and!.
    + by rewrite fmap_cons, IH1, Hn.
    + intros q [->|Hq]%elem_of_cons; [by rewrite Hn|by apply IH2].
    + intros sel Hdec. rewrite !filter_cons.
      assert (selected sel r d = bool_decide (sel p)) as Hsd
        by (unfold selected; by rewrite Hp).
      destruct (decide (sel p)) as [Hs|Hs].
      * rewrite decide_True by (rewrite Hsd; by apply bool_decide_eq_true_2).
        by rewrite fmap_cons, IH3, Hn.
      * rewrite decide_False
          by (rewrite Hsd, bool_decide_eq_false_2 by done; discriminate).
        apply IH3.
Qed.

Lemma without_Permutation (xs fs fs' : list string) :
  fs ≡ₚ fs' → without xs fs ≡ₚ without xs fs'.
Proof. unfold without. by intros ->. Qed.

Lemma without_disjoint (xs fs : list string) :
  (∀ d, d ∈ fs → d ∉ xs) → without xs fs = fs.
Proof.
  intros Hd. unfold without. induction fs as [|x fs IH]; [done|].
  rewrite filter_cons, decide_True by (apply Hd; by left).
  rewrite IH; [done|]. intros d ?. apply Hd. by right.
Qed.

Lemma without_self (xs : list string) : without xs xs = [].
Proof.
  assert (∀ fs, (∀ d, d ∈ fs → d ∈ xs) → without xs fs = []) as Hall.
  { unfold without. induction fs as [|x fs IH]; intros Hin; [done|].
    rewrite filter_cons, decide_False by (intros Hn; apply Hn, Hin; by left).
    apply IH. intros d ?. apply Hin. by right. }
  by apply Hall.
Qed.

(** The core of both keep-n classifiers: of the candidates selected by
    [sel], sorted by descending date, those after the first [keep] are
    moved. *)
Lemma keepN_core (sel : Package.t → Prop) `{!∀ p, Decision (sel p)} (keep : nat)
    (pkgs : list Package.t) s :
  NoDup (filterSet s) →
  Forall2 (λ d p, req (getPackageByDigest (collab s) d) = Ok p) (filterSet s) pkgs →
  let t := moveAll (Package.name <$> drop keep (sortBy byDateDescending (filter sel pkgs))) s in
  only_sets_differ s t
  ∧ (∀ d, d ∈ filterSet t → d ∈ filterSet s)
  ∧ (∀ d, d ∈ filterSet s → selected sel (collab s) d = false → d ∈ filterSet t)
  ∧ length (filter (λ d, selected sel (collab s) d = true) (filterSet t))
    = keep `min` length (filter (λ d, selected sel (collab s) d = true) (filterSet s))
  ∧ (∀ d, d ∈ deleteSet t ↔ d ∈ deleteSet s ∨ (d ∈ filterSet s ∧ d ∉ filterSet t))
  ∧ ((∀ d, d ∈ filterSet s → selected sel (collab s) d = true →
        is_Some (dateOf (collab s) d)) →
     ∀ d d', d ∈ filterSet t → selected sel (collab s) d = true →
       d' ∈ filterSet s → d' ∉ filterSet t → notOlder (collab s) d d').
Proof.
  intros Hnd Hpk t.
  destruct (packages_of_digests _ _ _ Hpk) as (Hnames & Hget & Hsel).
  specialize (Hsel sel _).
  set (sorted := sortBy byDateDescending (filter sel pkgs)) in *.
  set (T := filter (λ d, selected sel (collab s) d = true) (filterSet s)) in *.
  set (K := Package.name <$> take keep sorted).
  set (N := Package.name <$> drop keep sorted) in *.
  assert (K ++ N ≡ₚ T) as HKN.
  { unfold K, N. rewrite <- fmap_app, take_drop. unfold sorted.
    by rewrite sortBy_Permutation, Hsel. }
  assert (NoDup (K ++ N)) as HndKN by (rewrite HKN; by apply NoDup_filter).
  apply NoDup_app in HndKN as (_ & Hdisj & _).
  assert (∀ d, d ∈ N → d ∈ filterSet s ∧ selected sel (collab s) d = true) as HN.
  { intros d Hd. assert (d ∈ T) as HdT by (rewrite <- HKN; apply elem_of_app; by right).
    unfold T in HdT. apply list_elem_of_filter in HdT. tauto. }
  destruct (moveAll_spec N s) as (Hdiff & Hfs & Hds). fold t in Hdiff, Hfs, Hds.
  assert (filter (λ d, selected sel (collab s) d = true) (filterSet t) ≡ₚ K) as HK.
  { rewrite Hfs, filter_without. fold T.
    rewrite <- (without_Permutation _ _ _ HKN). unfold without at 1.
    rewrite filter_app. fold (without N K) (without N N).
    rewrite without_self, app_nil_r. by rewrite without_disjoint. }
  split_and!.
  - done.
  - intros d. rewrite Hfs, elem_of_without. tauto.
  - intros d Hd Hno. rewrite Hfs, elem_of_without. split; [done|].
    intros [_ Hyes]%HN. congruence.
  - rewrite HK. unfold K. rewrite length_fmap, length_take.
    rewrite <- Hsel, length_fmap. unfold sorted.
    by rewrite sortBy_Permutation.
  - intros d. rewrite Hds, Hfs, elem_of_without. split.
    + intros [?|Hd]; [by left|]. right. destruct (HN d Hd). split; [done|]. tauto.
    + intros [?|[Hd Hn]]; [by left|]. right. destruct (decide (d ∈ N)); tauto.
  - intros Hdated d d' Hd Hseld Hd' Hgone.
    assert (d ∈ K) as HdK.
    { rewrite <- HK. by apply list_elem_of_filter. }
    assert (d' ∈ N) as Hd'N.
    { rewrite Hfs, elem_of_without in Hgone. destruct (decide (d' ∈ N)); tauto. }
    apply list_elem_of_fmap in HdK as (a & -> & Ha).
    apply list_elem_of_fmap in Hd'N as (b & -> & Hb).
    assert (StronglySorted newerOrEqual (take keep sorted ++ drop keep sorted)) as Hsorted.
    { rewrite take_drop. apply sortBy_sorted. apply Forall_forall. intros p Hp.
      apply list_elem_of_filter in Hp as [Hselp Hp].
      pose proof (Hget p Hp) as Hgp.
      destruct (Hdated (Package.name p)) as [tp Htp].
      - rewrite <- Hnames. apply list_elem_of_fmap. by exists p.
      - unfold selected. rewrite Hgp. by apply bool_decide_eq_true_2.
      - unfold dateOf in Htp. rewrite Hgp in Htp. by exists tp. }
    assert (∀ p, p ∈ sorted → getPackageByDigest (collab s) (Package.name p) = Some p)
      as Hgs.
    { intros p Hp. apply Hget. unfold sorted in Hp. rewrite sortBy_Permutation in Hp.
      by apply list_elem_of_filter in Hp as [_ ?]. }
    destruct (StronglySorted_app_1_elem_of _ _ _ a b Hsorted Ha Hb)
      as (ta & tb & Hta & Htb & Hle).
    exists ta, tb. unfold dateOf.
    rewrite (Hgs a) by (by eapply subseteq_take).
    rewrite (Hgs b) by (by eapply subseteq_drop).
    done.
Qed.

Lemma forEach_keepNtagged_delete_total (l : list Package.t) s :
  (∀ p, p ∈ l → is_Some (getPackageByDigest (collab s) (Package.name p))) →
  forEach l keepNtagged_delete s = Ok (moveAll (Package.name <$> l) s).
Proof.
  revert s. induction l as [|x l IH]; intros s Hl; [done|].
  cbn [forEach]. destruct (Hl x) as [px Hpx]; [by left|].
  assert (keepNtagged_delete x s = Ok (moveToDeleteSet (Package.name x) s)) as ->.
  { unfold keepNtagged_delete.
    change (collab (moveToDeleteSet (Package.name x) s)) with (collab s).
    by rewrite Hpx. }
  cbn [mbind result_bind]. rewrite IH; [done|].
  intros p Hp. change (collab (moveToDeleteSet (Package.name x) s)) with (collab s).
  apply Hl. by right.
Qed.

Lemma packagesKnown_mapM s :
  packagesKnown s ↔
  ∃ pkgs, mapM (λ digest, req (getPackageByDigest (collab s) digest)) (filterSet s) = Ok pkgs.
Proof.
  split.
  - intros Hpk. apply mapM_total. intros d Hd. destruct (Hpk d Hd) as [p ->]. by exists p.
  - intros [pkgs Hm%mapM_Ok] d Hd.
    apply list_elem_of_lookup in Hd as [i Hi].
    destruct (Forall2_lookup_l _ _ _ _ _ Hm Hi) as (p & _ & Hp%req_Ok). by exists p.
Qed.

Variable config : Config.t.

(** What [keepNtagged] computes. *)
Lemma keepNtagged_moveAll (keep : nat) s :
  Config.keepNtagged config = Some keep →
  keepNtagged config s
  = pkgs ← mapM (λ digest, req (getPackageByDigest (collab s) digest)) (filterSet s);
    Ok (moveAll
          (Package.name <$>
             drop keep (sortBy byDateDescending
                          (filter (λ pkg, 0 < length (Package.tags pkg)) pkgs))) s).
Proof.
  intros Hk. unfold keepNtagged. rewrite Hk.
  destruct (mapM _ _) as [pkgs| |] eqn:Hm; [|done..]. cbn [mbind result_bind].
  pose proof (packages_of_digests _ _ _ (mapM_Ok _ _ _ Hm)) as (_ & Hget & _).
  case_bool_decide as Hlt.
  - apply forEach_keepNtagged_delete_total. intros p Hp%subseteq_drop.
    rewrite sortBy_Permutation in Hp. apply list_elem_of_filter in Hp as [_ Hp].
    rewrite (Hget p Hp). by eexists.
  - by rewrite drop_ge by lia.
Qed.

(** What [keepNuntagged] computes. *)
Lemma keepNuntagged_moveAll (keep : nat) s :
  Config.keepNuntagged config = Some keep →
  keepNuntagged config s
  = pkgs ← mapM (λ digest, req (getPackageByDigest (collab s) digest)) (filterSet s);
    Ok (moveAll
          (Package.name <$>
             drop keep (sortBy byDateDescending
                          (filter (λ pkg, length (Package.tags pkg) = 0) pkgs))) s).
Proof.
  intros Hk. unfold keepNuntagged. rewrite Hk.
  destruct (mapM _ _) as [pkgs| |] eqn:Hm; [|done..]. cbn [mbind result_bind].
  set (l := filter (λ pkg, length (Package.tags pkg) = 0) pkgs).
  case_bool_decide as Hpos.
  - case_bool_decide as Hlt; [apply forEach_keepN_delete|].
    by rewrite drop_ge by lia.
  - clearbody l. destruct l; [|simpl in Hpos; lia].
    assert (sortBy byDateDescending (@nil Package.t) = []) as ->
      by apply Permutation_nil_r, sortBy_Permutation.
    by rewrite drop_nil.
Qed.

(** X1. [keepNtagged] with [keep-n-tagged] set, on a candidate set without
    duplicates: it changes nothing but the two working sets; untagged
    candidates stay; of the tagged candidates the number that stay is
    [keep], or all of them when there are fewer; every candidate that
    leaves joins [deleteSet], which gains nothing else; and, the tagged
    candidates being dated, no tagged candidate that stays is older than a
    candidate that leaves. It returns exactly when every candidate has a
    package. *)
Theorem keepNtagged_keeps_newest (keep : nat) s :
  Config.keepNtagged config = Some keep → NoDup (filterSet s) →
  (∀ t, keepNtagged config s = Ok t →
     only_sets_differ s t
     ∧ (∀ d, d ∈ filterSet t → d ∈ filterSet s)
     ∧ (∀ d, d ∈ filterSet s → isTagged (collab s) d = false → d ∈ filterSet t)
     ∧ length (filter (λ d, isTagged (collab s) d = true) (filterSet t))
       = keep `min` length (filter (λ d, isTagged (collab s) d = true) (filterSet s))
     ∧ (∀ d, d ∈ deleteSet t ↔ d ∈ deleteSet s ∨ (d ∈ filterSet s ∧ d ∉ filterSet t))
     ∧ ((∀ d, d ∈ filterSet s → isTagged (collab s) d = true →
           is_Some (dateOf (collab s) d)) →
        ∀ d d', d ∈ filterSet t → isTagged (collab s) d = true →
          d' ∈ filterSet s → d' ∉ filterSet t → notOlder (collab s) d d'))
  ∧ ((∃ t, keepNtagged config s = Ok t) ↔ packagesKnown s).
Proof.
  intros Hk Hnd. rewrite (keepNtagged_moveAll keep s Hk). split.
  - intros t Ht. apply bind_Ok in Ht as (pkgs & Hm%mapM_Ok & Ht). injection Ht as <-.
    apply (keepN_core (λ pkg, 0 < length (Package.tags pkg)) keep pkgs s Hnd Hm).
  - rewrite packagesKnown_mapM. split.
    + intros [t Ht]. apply bind_Ok in Ht as (pkgs & Hm & _). by exists pkgs.
    + intros [pkgs ->]. by eexists.
Qed.

(** X2. [keepNuntagged] with [keep-n-untagged] set, on a candidate set
    without duplicates: it changes nothing but the two working sets; tagged
    candidates stay; of the untagged candidates the number that stay is
    [keep], or all of them when there are fewer; every candidate that
    leaves joins [deleteSet], which gains nothing else; and, the untagged
    candidates being dated, no untagged candidate that stays is older than
    a candidate that leaves. It returns exactly when every candidate has a
    package. *)
Theorem keepNuntagged_keeps_newest (keep : nat) s :
  Config.keepNuntagged config = Some keep → NoDup (filterSet s) →
  (∀ t, keepNuntagged config s = Ok t →
     only_sets_differ s t
     ∧ (∀ d, d ∈ filterSet t → d ∈ filterSet s)
     ∧ (∀ d, d ∈ filterSet s → isUntagged (collab s) d = false → d ∈ filterSet t)
     ∧ length (filter (λ d, isUntagged (collab s) d = true) (filterSet t))
       = keep `min` length (filter (λ d, isUntagged (collab s) d = true) (filterSet s))
     ∧ (∀ d, d ∈ deleteSet t ↔ d ∈ deleteSet s ∨ (d ∈ filterSet s ∧ d ∉ filterSet t))
     ∧ ((∀ d, d ∈ filterSet s → isUntagged (collab s) d = true →
           is_Some (dateOf (collab s) d)) →
        ∀ d d', d ∈ filterSet t → isUntagged (collab s) d = true →
          d' ∈ filterSet s → d' ∉ filterSet t → notOlder (collab s) d d'))
  ∧ ((∃ t, keepNuntagged config s = Ok t) ↔ packagesKnown s).
Proof.
  intros Hk Hnd. rewrite (keepNuntagged_moveAll keep s Hk). split.
  - intros t Ht. apply bind_Ok in Ht as (pkgs & Hm%mapM_Ok & Ht). injection Ht as <-.
    apply (keepN_core (λ pkg, length (Package.tags pkg) = 0) keep pkgs s Hnd Hm).
  - rewrite packagesKnown_mapM. split.
    + intros [t Ht]. apply bind_Ok in Ht as (pkgs & Hm & _). by exists pkgs.
    + intros [pkgs ->]. by eexists.
Qed.

(** What [deleteUntagged] computes: the move of the untagged candidates,
    in the order of [filterSet]. *)
Lemma deleteUntagged_forEach (l : list string) s t :
  forEach l deleteUntagged_body s = Ok t →
  t = moveAll (filter (λ d, isUntagged (collab s) d = true) l) s.
Proof.
  revert s. induction l as [|x l IH]; intros s Hl; [by injection Hl|].
  cbn [forEach] in Hl. apply bind_Ok in Hl as (u & Hu & Hl).
  unfold deleteUntagged_body in Hu. apply bind_Ok in Hu as (p & Hp%req_Ok & Hu).
  assert (isUntagged (collab s) x = bool_decide (length (Package.tags p) = 0)) as Hux
    by (unfold isUntagged, selected; by rewrite Hp).
  rewrite filter_cons. apply IH in Hl. case_bool_decide as Hlen.
  - injection Hu as <-. rewrite decide_True by done. exact Hl.
  - injection Hu as <-. rewrite decide_False by (rewrite Hux; discriminate). exact Hl.
Qed.

Lemma deleteUntagged_forEach_total (l : list string) s :
  (∀ d, d ∈ l → is_Some (getPackageByDigest (collab s) d)) →
  ∃ t, forEach l deleteUntagged_body s = Ok t.
Proof.
  revert s. induction l as [|x l IH]; intros s Hl; [by eexists|].
  cbn [forEach]. destruct (Hl x) as [p Hp]; [by left|].
  assert (∃ u, deleteUntagged_body x s = Ok u ∧ collab u = collab s) as (u & -> & Hu).
  { unfold deleteUntagged_body. rewrite Hp. cbn [req mbind result_bind].
    case_bool_decide; by eexists. }
  cbn [mbind result_bind]. apply IH. intros d ?. rewrite Hu. apply Hl. by right.
Qed.

Lemma deleteUntagged_forEach_packages (l : list string) s t :
  forEach l deleteUntagged_body s = Ok t →
  ∀ d, d ∈ l → is_Some (getPackageByDigest (collab s) d).
Proof.
  revert s. induction l as [|x l IH]; intros s Hl d Hd; [by apply elem_of_nil in Hd|].
  cbn [forEach] in Hl. apply bind_Ok in Hl as (u & Hu & Hl).
  unfold deleteUntagged_body in Hu. apply bind_Ok in Hu as (p & Hp%req_Ok & Hu).
  apply elem_of_cons in Hd as [->|Hd]; [by eexists|].
  assert (collab u = collab s) as <- by (case_bool_decide; by injection Hu as <-).
  by eapply IH.
Qed.

(** X3. [deleteUntagged] changes nothing but the two working sets: the
    candidates whose package carries no tag leave [filterSet], the others
    stay in their order, and [deleteSet] gains exactly the candidates that
    have left. It returns exactly when every candidate has a package. *)
Theorem deleteUntagged_moves_untagged s :
  (∀ t, deleteUntagged s = Ok t →
     only_sets_differ s t
     ∧ filterSet t = filter (λ d, isUntagged (collab s) d = false) (filterSet s)
     ∧ ∀ d, d ∈ deleteSet t ↔
            d ∈ deleteSet s ∨ (d ∈ filterSet s ∧ isUntagged (collab s) d = true))
  ∧ ((∃ t, deleteUntagged s = Ok t) ↔ packagesKnown s).
Proof.
  unfold deleteUntagged. split.
  - intros t ->%deleteUntagged_forEach.
    destruct (moveAll_spec (filter (λ d, isUntagged (collab s) d = true) (filterSet s)) s)
      as (Hdiff & -> & Hds).
    split_and!; [done| |].
    + unfold without. apply filter_iff_elem_of. intros d Hd.
      rewrite list_elem_of_filter. destruct (isUntagged (collab s) d); split; try done.
      * intros Hn. exfalso. by apply Hn.
      * by intros _ [? _].
    + intros d. rewrite Hds, list_elem_of_filter. tauto.
  - split.
    + intros [t Ht]. intros d. by eapply deleteUntagged_forEach_packages.
    + apply deleteUntagged_forEach_total.
Qed.

Lemma keepNuntagged_zero_sets s t t' :
  Config.keepNuntagged config = Some 0 →
  keepNuntagged config s = Ok t → deleteUntagged s = Ok t' →
  filterSet t = filterSet t' ∧ ∀ d, d ∈ deleteSet t ↔ d ∈ deleteSet t'.
Proof.
  intros Hk. rewrite (keepNuntagged_moveAll 0 s Hk). intros Ht Ht'.
  apply bind_Ok in Ht as (pkgs & Hm%mapM_Ok & Ht). injection Ht as <-.
  unfold deleteUntagged in Ht'. apply deleteUntagged_forEach in Ht' as ->.
  destruct (packages_of_digests _ _ _ Hm) as (_ & _ & Hsel).
  specialize (Hsel (λ pkg, length (Package.tags pkg) = 0) _).
  rewrite drop_0.
  set (N := Package.name <$> sortBy _ _).
  set (U := filter (λ d, isUntagged (collab s) d = true) (filterSet s)).
  assert (∀ d, d ∈ N ↔ d ∈ U) as HNU.
  { intros d. unfold N, U. rewrite sortBy_Permutation, Hsel. done. }
  destruct (moveAll_spec N s) as (_ & -> & HdN).
  destruct (moveAll_spec U s) as (_ & -> & HdU).
  split; [apply without_equiv; intros d _; apply HNU|].
  intros d. rewrite HdN, HdU, HNU. done.
Qed.

(** X4. With [keep-n-untagged] at 0 the keep classifier selects what
    [deleteUntagged] selects: the same [filterSet] is left and the same
    digests are in [deleteSet]. *)
Theorem keepNuntagged_zero_is_deleteUntagged s t t' :
  Config.keepNuntagged config = Some 0 →
  keepNuntagged config s = Ok t → deleteUntagged s = Ok t' →
  filterSet t = filterSet t' ∧ ∀ d, d ∈ deleteSet t ↔ d ∈ deleteSet t'.
Proof. apply keepNuntagged_zero_sets. Qed.

End KeepN.

(** On the example two of the three tagged images are kept: the oldest,
    [sha256:a], is the one that leaves. *)
Lemma keepNtagged_keeps_newest_witness :
  ∃ t, keepNtagged Ex.keepConfig Ex.datedAction = Ok t
       ∧ length (filter (λ d, isTagged Ex.dated d = true) (filterSet t)) = 2
       ∧ "sha256:a" ∈ deleteSet t
       ∧ notOlder Ex.dated "sha256:e" "sha256:a".
Proof.
  assert (NoDup (filterSet Ex.datedAction)) as Hnd
    by (apply (bool_decide_unpack _); vm_compute; exact I).
  destruct (keepNtagged_keeps_newest Ex.keepConfig 2 Ex.datedAction eq_refl Hnd)
    as [Hspec Htot].
  destruct (proj2 Htot) as [t Ht].
  { intros d Hd.
    repeat (apply elem_of_cons in Hd as [->|Hd]); [..|by apply elem_of_nil in Hd];
      vm_compute; eauto. }
  exists t. split; [done|].
  destruct (Hspec t Ht) as (_ & _ & _ & Hlen & Hds & Hdates).
  change (collab Ex.datedAction) with Ex.dated in Hlen, Hdates.
  pose proof Ht as Hnf. vm_compute in Hnf. injection Hnf as Hnf.
  assert ("sha256:a" ∉ filterSet t) as Hgone.
  { rewrite <- Hnf. apply (bool_decide_unpack _). vm_compute. exact I. }
  assert ("sha256:e" ∈ filterSet t) as Hstays.
  { rewrite <- Hnf. apply (bool_decide_unpack _). vm_compute. exact I. }
  split_and!.
  - rewrite Hlen. vm_compute. reflexivity.
  - apply Hds. right. split; [by left|done].
  - apply Hdates; [|done|vm_compute; reflexivity|by left|done].
    intros d Hd _.
    repeat (apply elem_of_cons in Hd as [->|Hd]); [..|by apply elem_of_nil in Hd];
      vm_compute; eauto.
Defined.

(** On the example one of the two untagged images is kept: the older,
    [sha256:u], is the one that leaves. *)
Lemma keepNuntagged_keeps_newest_witness :
  ∃ t, keepNuntagged Ex.keepConfig Ex.datedAction = Ok t
       ∧ length (filter (λ d, isUntagged Ex.dated d = true) (filterSet t)) = 1
       ∧ "sha256:u" ∈ deleteSet t
       ∧ notOlder Ex.dated "sha256:c" "sha256:u".
Proof.
  assert (NoDup (filterSet Ex.datedAction)) as Hnd
    by (apply (bool_decide_unpack _); vm_compute; exact I).
  destruct (keepNuntagged_keeps_newest Ex.keepConfig 1 Ex.datedAction eq_refl Hnd)
    as [Hspec Htot].
  destruct (proj2 Htot) as [t Ht].
  { intros d Hd.
    repeat (apply elem_of_cons in Hd as [->|Hd]); [..|by apply elem_of_nil in Hd];
      vm_compute; eauto. }
  exists t. split; [done|].
  destruct (Hspec t Ht) as (_ & _ & _ & Hlen & Hds & Hdates).
  change (collab Ex.datedAction) with Ex.dated in Hlen, Hdates.
  pose proof Ht as Hnf. vm_compute in Hnf. injection Hnf as Hnf.
  assert ("sha256:u" ∉ filterSet t) as Hgone.
  { rewrite <- Hnf. apply (bool_decide_unpack _). vm_compute. exact I. }
  assert ("sha256:c" ∈ filterSet t) as Hstays.
  { rewrite <- Hnf. apply (bool_decide_unpack _). vm_compute. exact I. }
  split_and!.
  - rewrite Hlen. vm_compute. reflexivity.
  - apply Hds. right. split; [do 4 right; by left|done].
  - apply Hdates; [|done|vm_compute; reflexivity|do 4 right; by left|done].
    intros d Hd _.
    repeat (apply elem_of_cons in Hd as [->|Hd]); [..|by apply elem_of_nil in Hd];
      vm_compute; eauto.
Defined.

(** On the example [deleteUntagged] moves the two untagged images. *)
Lemma deleteUntagged_moves_untagged_witness :
  ∃ t, deleteUntagged Ex.datedAction = Ok t
       ∧ filterSet t = ["sha256:a"; "sha256:b"; "sha256:e"]
       ∧ "sha256:c" ∈ deleteSet t ∧ "sha256:u" ∈ deleteSet t.
Proof.
  destruct (deleteUntagged_moves_untagged Ex.datedAction) as [Hspec Htot].
  destruct (proj2 Htot) as [t Ht].
  { intros d Hd.
    repeat (apply elem_of_cons in Hd as [->|Hd]); [..|by apply elem_of_nil in Hd];
      vm_compute; eauto. }
  exists t. split; [done|]. destruct (Hspec t Ht) as (_ & Hfs & Hds).
  change (collab Ex.datedAction) with Ex.dated in Hfs, Hds.
  split_and!.
  - rewrite Hfs. vm_compute. reflexivity.
  - apply Hds. right. split; [do 2 right; by left|vm_compute; reflexivity].
  - apply Hds. right. split; [do 4 right; by left|vm_compute; reflexivity].
Defined.

(** ** The reference map and the reload *)

Section ReferenceMap.
Context {R : Type} `{Collaborators R} {engine : ArraySort}.
Implicit Types s t : CleanupAction R.

Lemma parentsIn_empty (c p : string) : ¬ parentsIn ∅ c p.
Proof. intros (ps & Hps & _). by rewrite lookup_empty in Hps. Qed.

Lemma loadDigestUsedByMap_add_spec (digests : list string) (p : string)
    (m : gmap string (gset string)) (im : Descriptor.t) (c q : string) :
  parentsIn (loadDigestUsedByMap_add digests p m im) c q ↔
  parentsIn m c q ∨ (q = p ∧ c = Descriptor.digest im ∧ c ∈ digests).
Proof.
  unfold loadDigestUsedByMap_add, set_has, parentsIn. case_bool_decide as Hin.
  - destruct (decide (c = Descriptor.digest im)) as [->|Hne].
    + rewrite lookup_insert_eq. split.
      * intros (ps & [= <-] & Hq). apply elem_of_union in Hq as [Hq|Hq%elem_of_singleton].
        -- left. destruct (m !! Descriptor.digest im) as [ps|]; [by exists ps|].
           by apply elem_of_empty in Hq.
        -- by right.
      * intros [(ps & Hps & Hq)|(-> & _ & _)]; eexists; (split; [done|]).
        -- rewrite Hps. simpl. set_solver.
        -- set_solver.
    + rewrite lookup_insert_ne by done. naive_solver.
  - naive_solver.
Qed.

Lemma loadDigestUsedByMap_add_foldl (digests : list string) (p : string)
    (ms : list Descriptor.t) (m : gmap string (gset string)) (c q : string) :
  parentsIn (foldl (loadDigestUsedByMap_add digests p) m ms) c q ↔
  parentsIn m c q ∨ (q = p ∧ c ∈ Descriptor.digest <$> ms ∧ c ∈ digests).
Proof.
  revert m. induction ms as [|im ms IH]; intros m.
  - simpl. split; [by left|]. intros [?|(_ & ?%elem_of_nil & _)]; done.
  - cbn [foldl]. rewrite IH, loadDigestUsedByMap_add_spec, fmap_cons, elem_of_cons.
    naive_solver.
Qed.

Lemma loadDigestUsedByMap_body_spec (digests : list string) (p : string) s t :
  loadDigestUsedByMap_body digests p s = Ok t →
  with_digestUsedBy (digestUsedBy t) s = t
  ∧ ∀ c q, recordedParent t c q ↔
           recordedParent s c q ∨ (q = p ∧ c ∈ digests ∧ listsChild (collab s) p c).
Proof.
  unfold loadDigestUsedByMap_body. intros Hb.
  apply bind_Ok in Hb as (m & Hm%req_Ok & Hb).
  destruct (Manifest.manifests m) as [ms|] eqn:Hms; injection Hb as <-.
  - split; [by destruct s|]. intros c q. unfold recordedParent.
    cbn [digestUsedBy with_digestUsedBy]. rewrite loadDigestUsedByMap_add_foldl.
    unfold listsChild. rewrite Hm. split.
    + intros [?|(-> & ? & ?)]; [by left|]. right. split_and!; [done..|]. by exists m, ms.
    + intros [?|(-> & ? & m' & ms' & [= <-] & Hms' & ?)]; [by left|]. right.
      rewrite Hms in Hms'. by simplify_eq.
  - split; [by destruct s|]. intros c q. split; [by left|].
    intros [?|(-> & _ & m' & ms' & Hm' & Hms' & _)]; [done|].
    rewrite Hm in Hm'. injection Hm' as <-. congruence.
Qed.

Lemma loadDigestUsedByMap_forEach (digests l : list string) s t :
  forEach l (loadDigestUsedByMap_body digests) s = Ok t →
  with_digestUsedBy (digestUsedBy t) s = t
  ∧ ∀ c q, recordedParent t c q ↔
           recordedParent s c q ∨ (q ∈ l ∧ c ∈ digests ∧ listsChild (collab s) q c).
Proof.
  revert s. induction l as [|p l IH]; intros s Hl.
  - injection Hl as <-. split; [by destruct s|]. intros c q. split; [by left|].
    by intros [?|(?%elem_of_nil & _)].
  - cbn [forEach] in Hl. apply bind_Ok in Hl as (u & Hu & Hl).
    apply loadDigestUsedByMap_body_spec in Hu as (Hu & Hpu).
    apply IH in Hl as (Ht & Hpt).
    assert (collab u = collab s) as Hc by (by rewrite <- Hu).
    split; [rewrite <- Ht, <- Hu; by destruct s|].
    intros c q. rewrite Hpt, Hpu, Hc, elem_of_cons. naive_solver.
Qed.

Lemma loadDigestUsedByMap_forEach_total (digests l : list string) s :
  (∀ q, q ∈ l → is_Some (getManifestByDigest (collab s) q)) →
  ∃ t, forEach l (loadDigestUsedByMap_body digests) s = Ok t.
Proof.
  revert s. induction l as [|p l IH]; intros s Hl; [by eexists|].
  cbn [forEach]. destruct (Hl p) as [m Hm]; [by left|].
  assert (∃ u, loadDigestUsedByMap_body digests p s = Ok u ∧ collab u = collab s)
    as (u & -> & Hu).
  { unfold loadDigestUsedByMap_body. rewrite Hm. cbn [req mbind result_bind].
    destruct (Manifest.manifests m); by eexists. }
  cbn [mbind result_bind]. apply IH. intros q ?. rewrite Hu. apply Hl. by right.
Qed.

Lemma loadDigestUsedByMap_forEach_manifests (digests l : list string) s t :
  forEach l (loadDigestUsedByMap_body digests) s = Ok t →
  ∀ q, q ∈ l → is_Some (getManifestByDigest (collab s) q).
Proof.
  revert s. induction l as [|p l IH]; intros s Hl q Hq; [by apply elem_of_nil in Hq|].
  cbn [forEach] in Hl. apply bind_Ok in Hl as (u & Hu & Hl).
  pose proof (loadDigestUsedByMap_body_spec _ _ _ _ Hu) as (Hus & _).
  unfold loadDigestUsedByMap_body in Hu. apply bind_Ok in Hu as (m & Hm%req_Ok & _).
  apply elem_of_cons in Hq as [->|Hq]; [by eexists|].
  assert (collab u = collab s) as <- by (by rewrite <- Hus).
  by eapply IH.
Qed.

Lemma loadDigestUsedByMap_spec s t :
  loadDigestUsedByMap s = Ok t →
  with_digestUsedBy (digestUsedBy t) s = t
  ∧ ∀ c p, recordedParent t c p ↔
           p ∈ getDigests (collab s) ∧ c ∈ getDigests (collab s)
           ∧ listsChild (collab s) p c.
Proof.
  unfold loadDigestUsedByMap. intros Ht.
  apply loadDigestUsedByMap_forEach in Ht as (Hd & Hp).
  split; [rewrite <- Hd at 2; by destruct s|].
  intros c p. rewrite Hp. unfold recordedParent at 1.
  cbn [digestUsedBy collab with_digestUsedBy]. split; [|by right].
  intros [[]%parentsIn_empty|?]. done.
Qed.

(** X5. [loadDigestUsedByMap] changes nothing but [digestUsedBy], which it
    builds anew, whatever it held: [p] is recorded as a parent of [c]
    exactly when both are known digests and the manifest of [p] is an
    index that lists [c]; a child without a package gets no entry. It
    returns exactly when every known digest has a manifest. *)
Theorem loadDigestUsedByMap_records_known_children s :
  (∀ t, loadDigestUsedByMap s = Ok t →
     with_digestUsedBy (digestUsedBy t) s = t
     ∧ ∀ c p, recordedParent t c p ↔
              p ∈ getDigests (collab s) ∧ c ∈ getDigests (collab s)
              ∧ listsChild (collab s) p c)
  ∧ ((∃ t, loadDigestUsedByMap s = Ok t) ↔ manifestsKnown (collab s)).
Proof.
  split; [apply loadDigestUsedByMap_spec|]. unfold loadDigestUsedByMap.
  - split.
    + intros [t Ht] q Hq.
      by apply (loadDigestUsedByMap_forEach_manifests _ _ _ _ Ht).
    + intros Hm. by apply loadDigestUsedByMap_forEach_total.
Qed.

End ReferenceMap.

Section Reload.
Context {R : Type} `{Collaborators R} {engine : ArraySort}.
Variable wcmatch : string → string → bool.
Variable config : Config.t.
Variable now : Clock.
Implicit Types s t : CleanupAction R.

Lemma elem_of_oldEnough_iff (nw : string → Z) (r : R) (fs : list string) (d : string) :
  d ∈ oldEnough config nw r fs ↔ d ∈ fs ∧ isRecent config nw r d = false.
Proof.
  unfold oldEnough, isRecent. destruct (Config.olderThan config) as [o|]; [|tauto].
  case_bool_decide; [|simpl; tauto]. rewrite list_elem_of_filter. simpl. tauto.
Qed.

(** The older-than block as one filter, when it returns. *)
Lemma reload_olderThan_Ok s t :
  reload_olderThan config now s = Ok t →
  t = with_filterSet (oldEnough config (now (events s)) (collab s) (filterSet s)) s.
Proof.
  intros Ht.
  assert (reload_olderThan config now s
          = Ok (with_filterSet (oldEnough config (now (events s)) (collab s) (filterSet s)) s)) as Heq.
  { destruct (Config.olderThan config) as [o|] eqn:Ho;
      [|unfold reload_olderThan, oldEnough; rewrite Ho; by destruct s].
    destruct (bool_decide (o ≠ 0%Z)) eqn:Hnz;
      [|unfold reload_olderThan, oldEnough; rewrite Ho, Hnz; by destruct s].
    apply (reload_olderThan_spec wcmatch config now s).
    unfold reload_olderThan in Ht. rewrite Ho, Hnz in Ht.
    intros d Hd. by eapply reload_olderThan_forEach_Ok. }
  rewrite Heq in Ht. by injection Ht.
Qed.

Lemma reload_counters s t :
  reload wcmatch config now s = Ok t →
  numberImagesDeleted t = numberImagesDeleted s
  ∧ numberMultiImagesDeleted t = numberMultiImagesDeleted s ∧ deleted t = ∅.
Proof.
  unfold reload. intros Hr.
  apply bind_Ok in Hr as (s1 & Hs1 & Hr).
  apply bind_Ok in Hr as (s2 & Hs2 & Hr).
  apply bind_Ok in Hr as (s3 & Hs3 & Hr).
  unfold call_loadPackages in Hs1. apply bind_Ok in Hs1 as (r & _ & Hs1).
  injection Hs1 as <-.
  pose (f := λ u : CleanupAction R,
               (numberImagesDeleted u, numberMultiImagesDeleted u, deleted u)).
  assert (f s2 = (numberImagesDeleted s, numberMultiImagesDeleted s, ∅)) as H2.
  { unfold loadDigestUsedByMap in Hs2. apply (forEach_preserves f) in Hs2; [done|].
    intros x b b' Hb. unfold loadDigestUsedByMap_body in Hb. by unfold_ok Hb. }
  assert (f s3 = f s2) as H3.
  { unfold trimChildren in Hs3. apply (forEach_preserves f) in Hs3; [done|].
    intros x b b' Hb. unfold trimChildren_body in Hb. by unfold_ok Hb. }
  apply reload_olderThan_Ok in Hr as ->. rewrite reload_excludeTags_spec.
  cbn [numberImagesDeleted numberMultiImagesDeleted deleted with_filterSet with_excludeTags].
  rewrite H2 in H3. by injection H3 as -> -> ->.
Qed.

(** A cut-off that is no date, as an interval beyond the range of dates
    gives: the older-than block removes nothing. *)
Lemma reload_olderThan_invalid_cutOff (olderThan : Z) s :
  Config.olderThan config = Some olderThan →
  (∀ d, newDate (now (events s) d - olderThan) = None) →
  packagesKnown s →
  reload_olderThan config now s = Ok s.
Proof.
  intros Ho Hinv Hpk. rewrite (reload_olderThan_spec wcmatch config now s Hpk).
  unfold oldEnough. rewrite Ho.
  assert (∀ l : list string,
            filter (λ d, tooRecent olderThan (now (events s)) (collab s) d = false) l = l)
    as Hall.
  { induction l as [|d l IH]; [done|]. rewrite filter_cons, IH.
    rewrite decide_True; [done|]. unfold tooRecent.
    destruct (getPackageByDigest (collab s) d) as [pkg|]; [|done].
    destruct (Package.updated_at pkg); [|done]. rewrite Hinv.
    unfold dateGe. by destruct (newDate _). }
  rewrite Hall. destruct (bool_decide _); by destruct s.
Qed.

(** X6. What [reload] leaves: the package listing loaded anew, [deleteSet]
    and [deleted] empty, the two counters as they were, [tagsInUse] the
    tags of the listing, [excludeTags] the tags in use that the exclude
    pattern matches, [digestUsedBy] the parents of the known children, and
    as candidates exactly the known digests that are not a child of a known
    index, are not reached through a referrer tag in use (one that the
    exclusions of the previous reload did not hold), do not carry an
    excluded tag and are not too recent for the cut-off: with
    [older-than] set and not 0, a digest is too recent when its package is
    dated, the clock shows for it a cut-off that is a date, and the date of
    the package is that cut-off or later. *)
Theorem reload_postcondition s t :
  reload wcmatch config now s = Ok t →
  loadPackages (collab s) true = Some (collab t)
  ∧ events t = events s ++ [ELoadPackages true]
  ∧ deleteSet t = [] ∧ deleted t = ∅
  ∧ numberImagesDeleted t = numberImagesDeleted s
  ∧ numberMultiImagesDeleted t = numberMultiImagesDeleted s
  ∧ tagsInUse t = getTags (collab t)
  ∧ excludeTags t = excludedTagsOf wcmatch config (tagsInUse t)
  ∧ (∀ c p, recordedParent t c p ↔
            p ∈ getDigests (collab t) ∧ c ∈ getDigests (collab t)
            ∧ listsChild (collab t) p c)
  ∧ (∀ d, d ∈ filterSet t ↔
          d ∈ getDigests (collab t)
          ∧ ¬ isChildOfKnown (collab t) d
          ∧ ¬ referrerTargetOf (collab t) (tagsInUse t) (excludeTags s) d
          ∧ (d ∉ excludedDigests wcmatch config (collab t) (tagsInUse t))
          ∧ isRecent config (now (events t)) (collab t) d = false).
Proof.
  intros Hr.
  pose proof (reload_deleteSet wcmatch config now _ _ Hr) as Hds.
  pose proof (reload_counters _ _ Hr) as (Hn & Hm & Hdel).
  pose proof (reload_events wcmatch config now _ _ Hr) as (r & Hload & Hc & He).
  rewrite Hc. split_and!; [done..| | | |].
  all: unfold reload in Hr.
  all: apply bind_Ok in Hr as (s1 & Hs1 & Hr).
  all: apply bind_Ok in Hr as (s2 & Hs2 & Hr).
  all: apply bind_Ok in Hr as (s3 & Hs3 & Hr).
  all: unfold call_loadPackages in Hs1; apply bind_Ok in Hs1 as (r' & Hr1%req_Ok & Hs1).
  all: injection Hs1 as <-.
  all: cbn [collab with_deleted with_deleteSet] in Hr1.
  all: assert (r' = r) as -> by congruence.
  all: destruct (loadDigestUsedByMap_spec _ _ Hs2) as (Hs2d & Hpar).
  all: cbn [collab with_tagsInUse with_filterSet with_deleted with_deleteSet with_collab emit]
         in Hpar.
  all: rewrite trimChildren_targets in Hs3.
  all: apply bind_Ok in Hs3 as (ts & Hts & Hs3); injection Hs3 as <-.
  all: apply reload_olderThan_Ok in Hr; rewrite reload_excludeTags_spec in Hr.
  all: assert (collab s2 = r ∧ tagsInUse s2 = getTags r
               ∧ excludeTags s2 = excludeTags s
               ∧ filterSet s2 = getDigests r) as (Hc2 & Ht2 & He2 & Hf2)
         by (rewrite <- Hs2d; done).
  all: rewrite Hr.
  all: cbn [tagsInUse excludeTags filterSet collab digestUsedBy with_filterSet
            with_excludeTags].
  - done.
  - by rewrite Ht2.
  - intros c p. rewrite <- Hpar. done.
  - intros d. rewrite Hc2, Ht2, He2, Hf2 in *.
    rewrite elem_of_oldEnough_iff, !elem_of_without.
    pose proof (childTargets_spec wcmatch _ _ _ _ Hts d) as Hspec. tauto.
Qed.

End Reload.

(** On the example of the two indexes the shared child [c] has both
    parents recorded, and the child [x1] its one parent. *)
Lemma loadDigestUsedByMap_records_known_children_witness :
  ∃ t, loadDigestUsedByMap (newAction (Remote.load Ex.multi)) = Ok t
       ∧ recordedParent t "sha256:c" "sha256:p1"
       ∧ recordedParent t "sha256:c" "sha256:p2"
       ∧ ¬ recordedParent t "sha256:x1" "sha256:p2".
Proof.
  destruct (loadDigestUsedByMap_records_known_children (newAction (Remote.load Ex.multi)))
    as [Hspec Htot].
  destruct (proj2 Htot) as [t Ht].
  { intros q Hq.
    repeat (apply elem_of_cons in Hq as [->|Hq]); [..|by apply elem_of_nil in Hq];
      vm_compute; eauto. }
  exists t. split; [done|]. destruct (Hspec t Ht) as (_ & Hpar).
  split_and!.
  - apply Hpar. split_and!; [by left|do 2 right; by left|].
    eexists _, _. split_and!; [vm_compute; reflexivity|reflexivity|by left].
  - apply Hpar. split_and!; [right; by left|do 2 right; by left|].
    eexists _, _. split_and!; [vm_compute; reflexivity|reflexivity|by left].
  - intros (_ & _ & m & ms & Hm & Hms & Hin)%Hpar.
    vm_compute in Hm. injection Hm as <-. injection Hms as <-.
    apply list_elem_of_fmap in Hin as (im & Him & Hin).
    repeat (apply elem_of_cons in Hin as [->|Hin]); [..|by apply elem_of_nil in Hin];
      discriminate Him.
Defined.

(** ** The statistics of a run *)

Section Statistics.
Context {R : Type} `{Collaborators R} {engine : ArraySort}.
Variable wcmatch : string → string → bool.
Variable config : Config.t.
Variable now : Clock.
Implicit Types s t u : CleanupAction R.

Lemma counted_refl s : counted s s.
Proof. exists []. rewrite app_nil_r. simpl. split_and!; [done|lia..]. Qed.

Lemma counted_stats s t : stats t = stats s → counted s t.
Proof.
  intros [= He Hn Hm]. exists []. rewrite app_nil_r. simpl. split_and!; [done|lia..].
Qed.

Lemma counted_trans s t u : counted s t → counted t u → counted s u.
Proof.
  intros (n1 & He1 & Hn1 & Hm1 & Hm1') (n2 & He2 & Hn2 & Hm2 & Hm2').
  exists (n1 ++ n2). rewrite deletedDigests_app, length_app.
  split_and!; [by rewrite He2, He1, app_assoc|lia..].
Qed.

Lemma counted_event (e : Event) s t :
  deletedDigests [e] = [] → stats t = (events s ++ [e], numberImagesDeleted s,
                                      numberMultiImagesDeleted s) →
  counted s t.
Proof.
  intros Hd [= He Hn Hm]. exists [e]. rewrite Hd. simpl. split_and!; [done|lia..].
Qed.

Lemma counted_deletion (k : nat) i (d : string) tgs lb s t :
  (k ≤ 1)%nat →
  events t = events s ++ [EDeletePackageVersion i d tgs lb] →
  numberImagesDeleted t = S (numberImagesDeleted s) →
  numberMultiImagesDeleted t = k + numberMultiImagesDeleted s →
  counted s t.
Proof.
  intros Hk He Hn Hm. exists [EDeletePackageVersion i d tgs lb]. simpl.
  split_and!; [done|lia..].
Qed.

Lemma forEach_counted {A : Type} (body : A → CleanupAction R → result (CleanupAction R))
    (l : list A) s t :
  (∀ x u u', body x u = Ok u' → counted u u') →
  forEach l body s = Ok t → counted s t.
Proof.
  intros Hbody. apply (forEach_invariant (counted s)); [|apply counted_refl].
  intros x u u' _ Hu Hx. eapply counted_trans; [done|by eapply Hbody].
Qed.

Lemma forEach_stats {A : Type} (body : A → CleanupAction R → result (CleanupAction R))
    (l : list A) s t :
  (∀ x u u', body x u = Ok u' → stats u' = stats u) →
  forEach l body s = Ok t → counted s t.
Proof.
  intros Hbody Hl. apply counted_stats. by apply (forEach_preserves stats) in Hl.
Qed.

Lemma only_sets_differ_counted s t : only_sets_differ s t → counted s t.
Proof. intros <-. by apply counted_stats. Qed.

Lemma deleteImage_child_counted (pkg : Package.t) (im : Descriptor.t) s t :
  deleteImage_child pkg im s = Ok t → counted s t.
Proof.
  unfold deleteImage_child. intros Hc.
  destruct (getPackageByDigest _ _) as [mp|]; [|injection Hc as <-; apply counted_refl].
  destruct (bool_decide _); [injection Hc as <-; apply counted_refl|].
  destruct (digestUsedBy s !! _) as [parents|]; [|injection Hc as <-; apply counted_refl].
  destruct (_ && _); [|injection Hc as <-; by apply counted_stats].
  apply bind_Ok in Hc as (lb & _ & Hc).
  apply bind_Ok in Hc as (s1 & (r & _ & ->)%call_deletePackageVersion_Ok & Hc).
  injection Hc as <-.
  by apply (counted_deletion 0 (Package.id mp) (Package.name mp) [] (Some lb)); [lia|..].
Qed.

Lemma deleteImage_counted (fuel : nat) (pkg : Package.t) s t :
  deleteImage fuel pkg s = Ok t → counted s t.
Proof.
  revert pkg s t. induction fuel as [|fuel IH]; intros pkg s t Hd; [done|].
  simpl in Hd.
  destruct (bool_decide (Package.name pkg ∈ deleted s));
    [injection Hd as <-; apply counted_refl|].
  apply bind_Ok in Hd as (m & _ & Hd).
  apply bind_Ok in Hd as (s1 & (r & _ & ->)%call_deletePackageVersion_Ok & Hd).
  apply bind_Ok in Hd as (s2 & Hs2 & Hd).
  assert (counted s s2) as H2.
  { destruct (Manifest.manifests m) as [ms|].
    - eapply counted_trans;
        [|eapply forEach_counted; [|exact Hs2];
          intros x u u'; apply deleteImage_child_counted].
      by apply (counted_deletion 1 (Package.id pkg) (Package.name pkg)
                  (Package.tags pkg) None); [lia|..].
    - injection Hs2 as <-.
      by apply (counted_deletion 0 (Package.id pkg) (Package.name pkg)
                  (Package.tags pkg) None); [lia|..]. }
  destruct (_ && _); [|injection Hd as <-; exact H2].
  apply bind_Ok in Hd as (? & _ & Hd). apply bind_Ok in Hd as (? & _ & Hd).
  eapply counted_trans; [exact H2|by eapply IH].
Qed.

Lemma doDelete_counted (fuel : nat) s t : doDelete fuel s = Ok t → counted s t.
Proof.
  unfold doDelete. destruct (bool_decide _); [|intros [= <-]; apply counted_refl].
  apply forEach_counted. intros x u u' Hb. unfold doDelete_body in Hb.
  apply bind_Ok in Hb as (pkg & _ & Hb). by eapply deleteImage_counted.
Qed.

Lemma reload_counted s t : reload wcmatch config now s = Ok t → counted s t.
Proof.
  intros Hr. pose proof (reload_counters _ _ _ _ _ Hr) as (Hn & Hm & _).
  apply reload_events in Hr as (r & _ & _ & He).
  apply (counted_event (ELoadPackages true)); [done|]. unfold stats. by rewrite He, Hn, Hm.
Qed.

Lemma deleteByTag_untag_counted (tag : string) acc acc' :
  deleteByTag_untag tag acc = Ok acc' → counted acc.1 acc'.1.
Proof.
  destruct acc as [s st]. unfold deleteByTag_untag. intros Hu.
  apply bind_Ok in Hu as (? & _ & Hu). apply bind_Ok in Hu as (? & _ & Hu).
  destruct (bool_decide _); [injection Hu as <-; apply counted_refl|].
  apply bind_Ok in Hu as (m & _ & Hu). destruct (emptyManifest m) as [nm b].
  apply bind_Ok in Hu as (s1 & Hs1 & Hu).
  unfold call_putManifest in Hs1. apply bind_Ok in Hs1 as (r1 & _ & [= <-]).
  apply bind_Ok in Hu as (s2 & Hs2 & Hu).
  unfold call_loadPackages in Hs2. apply bind_Ok in Hs2 as (r2 & _ & [= <-]).
  apply bind_Ok in Hu as (ud & _ & Hu).
  set (sa := emit (EPutManifest tag nm b) (with_collab r1 s)) in *.
  set (sb := call_deleteTag tag sa) in *.
  set (sc := emit (ELoadPackages false) (with_collab r2 sb)) in *.
  assert (counted s sc) as H3.
  { eapply (counted_trans _ sa);
      [apply (counted_event (EPutManifest tag nm b)); [done|reflexivity]|].
    eapply (counted_trans _ sb);
      [apply (counted_event (EDeleteTag tag)); [done|reflexivity]|].
    apply (counted_event (ELoadPackages false)); [done|reflexivity]. }
  destruct (getIdByDigest _ _) as [i|]; [|injection Hu as <-; exact H3].
  apply bind_Ok in Hu as (s4 & (r & _ & ->)%call_deletePackageVersion_Ok & Hu).
  injection Hu as <-. eapply counted_trans; [exact H3|].
  by apply (counted_deletion 0 i ud [tag] None); [lia|..].
Qed.

Lemma deleteByTag_counted s t : deleteByTag wcmatch config now s = Ok t → counted s t.
Proof.
  unfold deleteByTag. intros Hd.
  destruct (truthy _); [|injection Hd as <-; apply counted_refl].
  apply bind_Ok in Hd as (mt & _ & Hd).
  destruct (bool_decide (0 < length mt)); [|injection Hd as <-; apply counted_refl].
  apply bind_Ok in Hd as ([ut st] & _ & Hd).
  apply bind_Ok in Hd as ([s1 st1] & H1 & Hd).
  apply bind_Ok in Hd as (s2 & H2 & Hd).
  assert (counted s s1) as Hc1.
  { destruct (bool_decide (0 < length ut)); [|injection H1 as <- _; apply counted_refl].
    change s with (s, st).1. change s1 with (s1, st1).1.
    revert H1. apply (forEach_invariant (λ acc, counted s acc.1)); [|apply counted_refl].
    intros x acc acc' _ Hacc Hx. eapply counted_trans; [exact Hacc|].
    by eapply deleteByTag_untag_counted. }
  assert (counted s1 s2) as Hc2.
  { destruct (bool_decide (0 < length ut)); [|injection H2 as <-; apply counted_refl].
    by apply reload_counted. }
  eapply counted_trans; [exact Hc1|]. eapply counted_trans; [exact Hc2|].
  destruct (bool_decide (0 < length st1)); [|injection Hd as <-; apply counted_refl].
  revert Hd. apply forEach_stats. intros x u u' Hb. unfold deleteByTag_standard in Hb.
  apply bind_Ok in Hb as (? & _ & Hb). by injection Hb as <-.
Qed.

Lemma classify_counted test s t :
  forEach (filterSet s) (classify_body test) s = Ok t → counted s t.
Proof.
  apply forEach_stats. intros x u u' Hb. unfold classify_body in Hb.
  apply bind_Ok in Hb as (m & _ & Hb). destruct (test _ _); [|by injection Hb as <-].
  apply bind_Ok in Hb as (? & _ & Hb). by injection Hb as <-.
Qed.

Lemma keepNtagged_counted s t : keepNtagged config s = Ok t → counted s t.
Proof.
  unfold keepNtagged. intros Hk.
  destruct (Config.keepNtagged config); [|injection Hk as <-; apply counted_refl].
  apply bind_Ok in Hk as (pkgs & _ & Hk).
  destruct (bool_decide _); [|injection Hk as <-; apply counted_refl].
  revert Hk. apply forEach_stats. intros x u u' Hb. unfold keepNtagged_delete in Hb.
  apply bind_Ok in Hb as (? & _ & Hb). by injection Hb as <-.
Qed.

Lemma keepNuntagged_counted s t : keepNuntagged config s = Ok t → counted s t.
Proof.
  unfold keepNuntagged. intros Hk.
  destruct (Config.keepNuntagged config); [|injection Hk as <-; apply counted_refl].
  apply bind_Ok in Hk as (pkgs & _ & Hk).
  destruct (bool_decide _); [|injection Hk as <-; apply counted_refl].
  destruct (bool_decide _); [|injection Hk as <-; apply counted_refl].
  revert Hk. apply forEach_stats. intros x u u' Hb. unfold keepN_delete in Hb.
  by injection Hb as <-.
Qed.

Lemma deleteUntagged_counted s t : deleteUntagged s = Ok t → counted s t.
Proof.
  apply forEach_stats. intros x u u' Hb. unfold deleteUntagged_body in Hb.
  apply bind_Ok in Hb as (? & _ & Hb). destruct (bool_decide _); by injection Hb as <-.
Qed.

Lemma validate_counted s t : validate s = Ok t → counted s t.
Proof.
  unfold validate. intros Hv. apply bind_Ok in Hv as ([u pm] & Hwalk & Hv).
  injection Hv as <-.
  assert (validate_walk_inv s (s, [])) as Hinv0.
  { split_and!; [apply only_events_differ_refl| |by intros x ?%elem_of_nil].
    exists []. split; [by rewrite app_nil_r|done]. }
  pose proof (validate_walk_inv_forEach s _ _ _ (λ d Hd, Hd) Hinv0 Hwalk)
    as (Hd & (ws & He & _) & _). simpl in Hd, He.
  destruct (validate_referrer_foldl (tagsInUse u) u) as (ws2 & -> & _).
  exists (EWarning <$> (ws ++ ws2)).
  assert (deletedDigests (EWarning <$> (ws ++ ws2)) = []) as ->.
  { generalize (ws ++ ws2). intros l. by induction l. }
  rewrite <- Hd. simpl. rewrite He, fmap_app, app_assoc. split_and!; [done|lia..].
Qed.

(** X7. The statistic of a run counts the delete calls: from the state a
    run starts in to the state it ends in, the trace has only grown, and
    [numberImagesDeleted] has grown by exactly the number of
    [deletePackageVersion] calls the run has made, those of the untagging,
    of the images in [deleteSet], of their children and of their referrers;
    [numberMultiImagesDeleted] has not decreased and has grown by at most
    as much. The reloads of a run leave both counters alone. *)
Theorem run_counts_deletions (fuel : nat) s t :
  run wcmatch config now fuel s = Ok t → counted s t.
Proof.
  unfold run. intros Hrun.
  apply bind_Ok in Hrun as (s1 & H1 & Hrun).
  apply bind_Ok in Hrun as (s2 & H2 & Hrun).
  apply bind_Ok in Hrun as (s3 & H3 & Hrun).
  apply bind_Ok in Hrun as (s4 & H4 & Hrun).
  apply bind_Ok in Hrun as (s5 & H5 & Hrun).
  assert (counted s s1) as C1.
  { destruct (truthy _); [by apply deleteByTag_counted|injection H1 as <-; apply counted_refl]. }
  assert (counted s1 s2) as C2.
  { unfold run_partialOrGhost in H2.
    destruct (Config.deletePartialImages config);
      [by apply (classify_counted isPartialImage)|].
    destruct (Config.deleteGhostImages config);
      [by apply (classify_counted isGhostImage)|injection H2 as <-; apply counted_refl]. }
  assert (counted s2 s3) as C3.
  { destruct (Config.keepNtagged config) eqn:Hk;
      [by apply keepNtagged_counted|injection H3 as <-; apply counted_refl]. }
  assert (counted s3 s4) as C4.
  { unfold run_untagged in H4. destruct (Config.keepNuntagged config) eqn:Hk;
      [by apply keepNuntagged_counted|].
    destruct (Config.deleteUntagged config);
      [by apply deleteUntagged_counted|injection H4 as <-; apply counted_refl]. }
  assert (counted s4 s5) as C5 by (by eapply doDelete_counted).
  assert (counted s5 t) as C6.
  { destruct (Config.validate config); [|injection Hrun as <-; apply counted_refl].
    apply bind_Ok in Hrun as (s6 & H6 & Hrun).
    eapply counted_trans; [by apply reload_counted|by apply validate_counted]. }
  repeat (eapply counted_trans; [eassumption|]). apply counted_refl.
Qed.

End Statistics.

(** On the example the run keeps two tagged images and one untagged one,
    and deletes the two others: two calls, counted as two. *)
Lemma run_counts_deletions_witness :
  ∃ t, run Ex.exact Ex.keepConfig (Ex.clock 0) 10 Ex.datedAction = Ok t
       ∧ deletedDigests (newEvents Ex.datedAction t) = ["sha256:a"; "sha256:u"]
       ∧ numberImagesDeleted t = 2
       ∧ counted Ex.datedAction t.
Proof.
  destruct (run Ex.exact Ex.keepConfig (Ex.clock 0) 10 Ex.datedAction) as [t| |] eqn:Hrun;
    [|vm_compute in Hrun; discriminate Hrun..].
  exists t. split; [done|].
  pose proof (run_counts_deletions Ex.exact Ex.keepConfig (Ex.clock 0) 10 Ex.datedAction t Hrun) as Hc.
  vm_compute in Hrun. injection Hrun as <-.
  split_and!; [vm_compute; reflexivity..|exact Hc].
Defined.

(** ** What the cascade deletes *)

Section Listed.
Context {R : Type} `{PackageSnapshot R} {engine : ArraySort}.
Implicit Types s t u : CleanupAction R.

Lemma newEvents_refl s : newEvents s s = [].
Proof. unfold newEvents. by rewrite drop_all. Qed.

Lemma listedStep_refl s : listedStep s s.
Proof. split; [apply cascadeStep_refl|]. by rewrite newEvents_refl. Qed.

Lemma listedStep_trans s t u : listedStep s t → listedStep t u → listedStep s u.
Proof.
  intros [Hst Hl1] [Htu Hl2]. split; [by eapply cascadeStep_trans|].
  destruct Hst as (Hc1 & (Hview & _) & _). destruct Htu as (Hc2 & _).
  rewrite (newEvents_cascade _ _ _ Hc1 Hc2). apply Forall_app. split; [done|].
  eapply Forall_impl; [exact Hl2|]. intros e. unfold listedDeletion.
  destruct e; try done. by rewrite Hview.
Qed.

Lemma listedStep_quiet s t :
  cascadeStep s t → events t = events s → listedStep s t.
Proof.
  intros Hstep He. split; [done|]. unfold newEvents. by rewrite He, drop_all.
Qed.

Lemma forEach_listedStep {A : Type} (body : A → CleanupAction R → result (CleanupAction R))
    (l : list A) s t :
  (∀ x u u', body x u = Ok u' → listedStep u u') →
  forEach l body s = Ok t → listedStep s t.
Proof.
  intros Hbody. apply (forEach_invariant (listedStep s)); [|apply listedStep_refl].
  intros x u u' _ Hu Hx. eapply listedStep_trans; [done|by eapply Hbody].
Qed.

Lemma deleteImage_child_listedStep (pkg : Package.t) (im : Descriptor.t) s t :
  deleteImage_child pkg im s = Ok t → listedStep s t.
Proof.
  intros Hc. pose proof (deleteImage_child_cascadeStep _ _ _ _ Hc) as Hstep.
  unfold deleteImage_child in Hc.
  destruct (getPackageByDigest _ _) as [mp|] eqn:Hmp;
    [|injection Hc as <-; apply listedStep_refl].
  destruct (bool_decide _); [injection Hc as <-; apply listedStep_refl|].
  destruct (digestUsedBy s !! _) as [parents|]; [|injection Hc as <-; apply listedStep_refl].
  destruct (_ && _); [|injection Hc as <-; by apply listedStep_quiet].
  apply bind_Ok in Hc as (lb & _ & Hc).
  apply bind_Ok in Hc as (s1 & (r & _ & ->)%call_deletePackageVersion_Ok & Hc).
  injection Hc as <-. split; [done|].
  erewrite newEvents_app; [|reflexivity].
  constructor; [|done]. exists mp. split_and!; [|done..].
  by rewrite (getPackageByDigest_name _ _ _ Hmp).
Qed.

Lemma deleteImage_listedStep (fuel : nat) (pkg : Package.t) s t :
  getPackageByDigest (collab s) (Package.name pkg) = Some pkg →
  deleteImage fuel pkg s = Ok t → listedStep s t.
Proof.
  revert pkg s t. induction fuel as [|fuel IH]; intros pkg s t Hpkg Hd; [done|].
  simpl in Hd. case_bool_decide as Hdel; [injection Hd as <-; apply listedStep_refl|].
  apply bind_Ok in Hd as (m & _ & Hd).
  apply bind_Ok in Hd as (s1 & Hs1 & Hd).
  destruct (deletion_cascade _ _ _ _ _ _ Hdel Hs1) as (Hcas & Hview & Hmap & _).
  apply call_deletePackageVersion_Ok in Hs1 as (r & _ & ->).
  apply bind_Ok in Hd as (s2 & Hs2 & Hd).
  set (sA := with_numberImagesDeleted _ (with_deleted _ _)) in *.
  assert (listedStep s sA) as HA.
  { split; [split_and!; [done|done|by apply parentsShrink_eq]|].
    erewrite newEvents_app; [|reflexivity].
    constructor; [|done]. by exists pkg. }
  assert (listedStep sA s2) as H2.
  { destruct (Manifest.manifests m) as [ms|]; [|injection Hs2 as <-; apply listedStep_refl].
    eapply listedStep_trans; [|eapply forEach_listedStep; [|exact Hs2]].
    - apply listedStep_quiet; [|done].
      split_and!; [by apply cascade_same|by apply sameView_same|by apply parentsShrink_eq].
    - intros x u u'. apply deleteImage_child_listedStep. }
  eapply listedStep_trans; [exact HA|]. eapply listedStep_trans; [exact H2|].
  destruct (_ && _); [|injection Hd as <-; apply listedStep_refl].
  apply bind_Ok in Hd as (md & _ & Hd). apply bind_Ok in Hd as (ap & Hap%req_Ok & Hd).
  eapply IH; [|exact Hd].
  by rewrite (getPackageByDigest_name _ _ _ Hap).
Qed.

Lemma doDelete_body_listedStep (fuel : nat) (d : string) s t :
  doDelete_body fuel d s = Ok t → listedStep s t.
Proof.
  unfold doDelete_body. intros Hb. apply bind_Ok in Hb as (pkg & Hpkg%req_Ok & Hb).
  eapply deleteImage_listedStep; [|exact Hb].
  by rewrite (getPackageByDigest_name _ _ _ Hpkg).
Qed.

(** X8. After [doDelete] every digest of [deleteSet] is in [deleted], by
    a delete call of this run unless it was there before; and every delete
    call of the run is for a package of the loaded listing: the digest is
    a known one and the call passes the id the listing has for it, with
    the tags of the package when [deleteImage] was invoked on the digest
    and with none when the digest is deleted as the child of an index. *)
Theorem doDelete_deletes_listed_packages (fuel : nat) s t :
  doDelete fuel s = Ok t →
  (∀ d, d ∈ deleteSet s →
     d ∈ deleted t ∧ (d ∈ deleted s ∨ d ∈ deletedDigests (newEvents s t)))
  ∧ Forall (listedDeletion (collab s)) (newEvents s t)
  ∧ (∀ d, d ∈ deletedDigests (newEvents s t) → d ∈ getDigests (collab s)).
Proof.
  intros Hrun.
  assert (listedStep s t ∧ ∀ d, d ∈ deleteSet s → d ∈ deleted t) as [[Hstep Hl] Hall].
  { unfold doDelete in Hrun. destruct (bool_decide (0 < length (deleteSet s))) eqn:Hpos.
    - split; [|intros d Hd; by apply (doDelete_forEach _ _ _ _ Hrun)].
      eapply forEach_listedStep; [|exact Hrun].
      intros x u u'. apply doDelete_body_listedStep.
    - injection Hrun as <-. split; [apply listedStep_refl|].
      apply bool_decide_eq_false in Hpos. destruct (deleteSet s); [|simpl in Hpos; lia].
      by intros d ?%elem_of_nil. }
  destruct Hstep as ((new & He & _ & _ & _ & Hdel & _) & _).
  rewrite (newEvents_app _ _ _ He) in *. split_and!.
  - intros d Hd. split; [by apply Hall|]. specialize (Hall d Hd). rewrite Hdel in Hall.
    apply elem_of_union in Hall as [?|Hin]; [by left|]. right.
    by apply elem_of_list_to_set in Hin.
  - done.
  - intros d (e & He' & Hd)%list_elem_of_omap.
    apply (proj1 (Forall_forall _ _) Hl) in He'.
    destruct e; try done. injection Hd as ->.
    destruct He' as (pkg & Hpkg & _). by eapply getPackageByDigest_known.
Qed.

End Listed.

(** On the example of the two indexes, both in [deleteSet]: the five
    images are deleted, each by a call that passes its id of the listing. *)
Lemma doDelete_deletes_listed_packages_witness :
  ∃ t, doDelete 6 Ex.multiDelete = Ok t
       ∧ "sha256:p1" ∈ deleted t ∧ "sha256:p2" ∈ deleted t
       ∧ Forall (listedDeletion Ex.multi) (newEvents Ex.multiDelete t)
       ∧ length (newEvents Ex.multiDelete t) = 5.
Proof.
  destruct (doDelete 6 Ex.multiDelete) as [t| |] eqn:Hrun;
    [|by vm_compute in Hrun..].
  exists t. split; [done|].
  destruct (doDelete_deletes_listed_packages 6 Ex.multiDelete t Hrun) as (Hall & Hl & _).
  split_and!.
  - apply Hall. by left.
  - apply Hall. right. by left.
  - exact Hl.
  - vm_compute in Hrun. injection Hrun as <-. reflexivity.
Defined.

(** ** Explicit tag deletion: which tags are touched *)

Section TagsTouched.
Context {R : Type} `{Collaborators R} {engine : ArraySort}.
Variable wcmatch : string → string → bool.
Variable config : Config.t.
Variable now : Clock.
Implicit Types s t u : CleanupAction R.

Lemma untagEvent_impl (P Q : string → Prop) (e : Event) :
  (∀ tag, P tag → Q tag) → untagEvent P e → untagEvent Q e.
Proof. intros HPQ. destruct e; simpl; naive_solver. Qed.

Lemma deleteByTag_untag_events (tag : string) u st u' st' :
  deleteByTag_untag tag (u, st) = Ok (u', st') →
  (∃ new, events u' = events u ++ new ∧ Forall (untagEvent (λ x, x = tag)) new)
  ∧ ∀ x, x ∈ st' → x ∈ st ∨ x = tag.
Proof.
  unfold deleteByTag_untag. intros Hu.
  apply bind_Ok in Hu as (? & _ & Hu). apply bind_Ok in Hu as (? & _ & Hu).
  destruct (bool_decide _).
  { injection Hu as <- <-. split; [exists []; by rewrite app_nil_r|].
    intros y. rewrite elem_of_set_add. tauto. }
  apply bind_Ok in Hu as (m & _ & Hu). destruct (emptyManifest m) as [nm b].
  apply bind_Ok in Hu as (s1 & Hs1 & Hu).
  unfold call_putManifest in Hs1. apply bind_Ok in Hs1 as (r1 & _ & [= <-]).
  apply bind_Ok in Hu as (s2 & Hs2 & Hu).
  unfold call_loadPackages in Hs2. apply bind_Ok in Hs2 as (r2 & _ & [= <-]).
  apply bind_Ok in Hu as (ud & _ & Hu).
  destruct (getIdByDigest _ _) as [i|].
  - apply bind_Ok in Hu as (s4 & (r & _ & ->)%call_deletePackageVersion_Ok & Hu).
    injection Hu as <- <-. split; [|by left].
    exists [EPutManifest tag nm b; EDeleteTag tag; ELoadPackages false;
            EDeletePackageVersion i ud [tag] None].
    split; [|repeat constructor; by exists tag].
    transitivity ((((events u ++ [EPutManifest tag nm b]) ++ [EDeleteTag tag])
                   ++ [ELoadPackages false]) ++ [EDeletePackageVersion i ud [tag] None]);
      [reflexivity|by rewrite <- !app_assoc].
  - injection Hu as <- <-. split; [|by left].
    exists [EPutManifest tag nm b; EDeleteTag tag; ELoadPackages false].
    split; [|by repeat constructor].
    transitivity (((events u ++ [EPutManifest tag nm b]) ++ [EDeleteTag tag])
                  ++ [ELoadPackages false]);
      [reflexivity|by rewrite <- !app_assoc].
Qed.

Lemma deleteByTag_untag_forEach (ut st : list string) s s1 st1 :
  forEach ut deleteByTag_untag (s, st) = Ok (s1, st1) →
  (∃ new, events s1 = events s ++ new ∧ Forall (untagEvent (λ x, x ∈ ut)) new)
  ∧ ∀ x, x ∈ st1 → x ∈ st ∨ x ∈ ut.
Proof.
  intros Hl.
  apply (forEach_invariant
           (λ acc : CleanupAction R * list string,
              (∃ new, events acc.1 = events s ++ new
                      ∧ Forall (untagEvent (λ x, x ∈ ut)) new)
              ∧ ∀ x, x ∈ acc.2 → x ∈ st ∨ x ∈ ut)) in Hl; [done| |].
  - intros tag [u stu] [u' stu'] Htag [(new & He & Hnew) Hst] Hb. simpl in *.
    apply deleteByTag_untag_events in Hb as [(new' & He' & Hnew') Hst'].
    split.
    + exists (new ++ new'). split; [by rewrite He', He, app_assoc|].
      apply Forall_app. split; [done|].
      eapply Forall_impl; [exact Hnew'|]. intros e. apply untagEvent_impl. by intros x ->.
    + intros x [Hx| ->]%Hst'; [by apply Hst|by right].
  - simpl. split; [exists []; by rewrite app_nil_r|]. by left.
Qed.

(** X9. The tags [deleteByTag] touches: every manifest it pushes, every
    cache entry it drops and every delete call it makes itself names one
    tag, and a digest that has entered [deleteSet] is what one tag resolves
    to at the end; each such tag matches the delete pattern, is not in
    [excludeTags] and is carried by the package of a candidate. So a tag
    that is excluded, or that only digests outside [filterSet] carry, is
    neither untagged nor used to select a digest. *)
Theorem deleteByTag_touches_deletable_tags s t :
  deleteByTag wcmatch config now s = Ok t →
  (∃ new, events t = events s ++ new
          ∧ Forall (untagEvent (deletableTag wcmatch config s)) new)
  ∧ ∀ d, d ∈ deleteSet t →
         d ∈ deleteSet s
         ∨ ∃ tag, deletableTag wcmatch config s tag ∧ getTagDigest (collab t) tag = Some d.
Proof.
  unfold deleteByTag. intros Hd.
  assert (∀ u : CleanupAction R, (∃ new : list Event, events u = events u ++ new
            ∧ Forall (untagEvent (deletableTag wcmatch config s)) new)) as Hnone
    by (intros u; exists []; by rewrite app_nil_r).
  destruct (truthy _); [|injection Hd as <-; split; [done|by left]].
  apply bind_Ok in Hd as (mt & Hmt & Hd).
  destruct (bool_decide (0 < length mt)); [|injection Hd as <-; split; [done|by left]].
  apply bind_Ok in Hd as ([ut st] & Hscan & Hd).
  assert (∀ tag, tag ∈ ut ∨ tag ∈ st → deletableTag wcmatch config s tag) as Hok.
  { intros tag Htag.
    destruct (deleteByTag_prescan_forEach wcmatch s mt _ _ Hscan tag) as [Hu Hst].
    simpl in Hu, Hst.
    assert (tag ∈ mt ∧ tag ∉ excludeTags s) as [Hin Hex].
    { destruct Htag as [Htag|Htag]; [apply Hu in Htag|apply Hst in Htag];
        destruct Htag as [[]%elem_of_nil|(? & ? & _)]; done. }
    apply (deleteByTag_matchTags_spec wcmatch config s mt Hmt) in Hin
      as (d & pkg & ? & ? & ? & ?).
    split_and!; [done..|]. by exists d, pkg. }
  apply bind_Ok in Hd as ([s1 st1] & H1 & Hd).
  apply bind_Ok in Hd as (s2 & H2 & Hd).
  assert ((∃ new, events s2 = events s ++ new ∧ Forall (untagEvent (λ x, x ∈ ut)) new)
          ∧ (∀ x, x ∈ st1 → x ∈ st ∨ x ∈ ut)
          ∧ (∀ d, d ∈ deleteSet s2 → d ∈ deleteSet s)) as ((new & He & Hnew) & Hst1 & Hds).
  { destruct (bool_decide (0 < length ut)).
    - apply deleteByTag_untag_forEach in H1 as [(new & He & Hnew) Hst1].
      pose proof (reload_deleteSet wcmatch config now _ _ H2) as Hempty.
      apply reload_events in H2 as (r & _ & _ & He2).
      split_and!; [|done|].
      + exists (new ++ [ELoadPackages true]). split; [by rewrite He2, He, app_assoc|].
        apply Forall_app. split; [done|]. by repeat constructor.
      + intros d. rewrite Hempty. by intros ?%elem_of_nil.
    - injection H1 as <- <-. injection H2 as <-.
      split_and!; [exists []; by rewrite app_nil_r|by left|done]. }
  assert (events t = events s2 ∧ collab t = collab s2
          ∧ ∀ d, d ∈ deleteSet t ↔ d ∈ deleteSet s2 ∨ resolvedDigests (collab s2) st1 d)
    as (Het & Hct & Hdt).
  { destruct (bool_decide (0 < length st1)) eqn:Hpos.
    - by apply deleteByTag_standard_spec in Hd.
    - injection Hd as <-. split_and!; [done..|]. intros d. split; [by left|].
      intros [?|(tag & Htag & _)]; [done|].
      apply bool_decide_eq_false in Hpos.
      destruct st1; [by apply elem_of_nil in Htag|simpl in Hpos; lia]. }
  split.
  - exists new. rewrite Het. split; [done|].
    eapply Forall_impl; [exact Hnew|]. intros e. apply untagEvent_impl.
    intros tag Htag. apply Hok. by left.
  - intros d [Hd2|(tag & Htag & Hres)]%Hdt; [left; by apply Hds|].
    right. exists tag. rewrite Hct. split; [|done].
    apply Hok. destruct (Hst1 tag Htag); [by right|by left].
Qed.

(** What the untagging loop does with its tags: each is pushed a manifest
    under, or joins the standard deletions, which lose no tag. *)
Lemma deleteByTag_untag_processed (tag : string) u st u' st' :
  deleteByTag_untag tag (u, st) = Ok (u', st') →
  (∀ x, x ∈ st → x ∈ st')
  ∧ ∃ new, events u' = events u ++ new ∧ (tag ∈ st' ∨ untaggedTag new tag).
Proof.
  intros Hu.
  destruct (deleteByTag_untag_events _ _ _ _ _ Hu) as [(new & He & _) _].
  unfold deleteByTag_untag in Hu.
  apply bind_Ok in Hu as (? & _ & Hu). apply bind_Ok in Hu as (? & _ & Hu).
  destruct (bool_decide _).
  { injection Hu as <- <-. split.
    - intros y ?. apply elem_of_set_add. by left.
    - exists []. split; [by rewrite app_nil_r|]. left. apply elem_of_set_add. by right. }
  apply bind_Ok in Hu as (m & _ & Hu). destruct (emptyManifest m) as [nm b].
  apply bind_Ok in Hu as (s1 & Hs1 & Hu).
  unfold call_putManifest in Hs1. apply bind_Ok in Hs1 as (r1 & _ & [= <-]).
  assert (st' = st ∧ ∃ rest, events u' = (events u ++ [EPutManifest tag nm b]) ++ rest)
    as [-> [rest Hrest]].
  { apply bind_Ok in Hu as (s2 & Hs2 & Hu).
    unfold call_loadPackages in Hs2. apply bind_Ok in Hs2 as (r2 & _ & [= <-]).
    apply bind_Ok in Hu as (ud & _ & Hu).
    destruct (getIdByDigest _ _) as [i|].
    - apply bind_Ok in Hu as (s4 & (r & _ & ->)%call_deletePackageVersion_Ok & Hu).
      injection Hu as <- <-. split; [done|].
      exists [EDeleteTag tag; ELoadPackages false; EDeletePackageVersion i ud [tag] None].
      transitivity ((((events u ++ [EPutManifest tag nm b]) ++ [EDeleteTag tag])
                     ++ [ELoadPackages false]) ++ [EDeletePackageVersion i ud [tag] None]);
        [reflexivity|by rewrite <- !app_assoc].
    - injection Hu as <- <-. split; [done|].
      exists [EDeleteTag tag; ELoadPackages false].
      transitivity (((events u ++ [EPutManifest tag nm b]) ++ [EDeleteTag tag])
                    ++ [ELoadPackages false]);
        [reflexivity|by rewrite <- !app_assoc]. }
  split; [done|]. exists (EPutManifest tag nm b :: rest).
  split; [by rewrite Hrest, <- app_assoc|]. right. exists nm, b. by left.
Qed.

Lemma deleteByTag_untag_forEach_processed (ut st : list string) s s1 st1 :
  forEach ut deleteByTag_untag (s, st) = Ok (s1, st1) →
  (∀ x, x ∈ st → x ∈ st1)
  ∧ ∃ new, events s1 = events s ++ new
           ∧ ∀ tag, tag ∈ ut → tag ∈ st1 ∨ untaggedTag new tag.
Proof.
  revert s st. induction ut as [|x ut IH]; intros s st Hl.
  - injection Hl as <- <-. split; [done|]. exists []. split; [by rewrite app_nil_r|].
    by intros tag ?%elem_of_nil.
  - cbn [forEach] in Hl. apply bind_Ok in Hl as ([u stu] & Hx & Hl).
    apply deleteByTag_untag_processed in Hx as (Hsub & new & He & Hx).
    apply IH in Hl as (Hsub' & new' & He' & Hall).
    split; [by auto|]. exists (new ++ new'). split; [by rewrite He', He, app_assoc|].
    intros tag [->|Htag]%elem_of_cons.
    + destruct Hx as [?|(m & b & ?)]; [left; by apply Hsub'|].
      right. exists m, b. apply elem_of_app. by left.
    + destruct (Hall tag Htag) as [?|(m & b & ?)]; [by left|].
      right. exists m, b. apply elem_of_app. by right.
Qed.

(** The standard loop resolves each of its tags and leaves the digest in
    [deleteSet]. *)
Lemma deleteByTag_standard_resolves (l : list string) s t :
  forEach l deleteByTag_standard s = Ok t →
  ∀ tag, tag ∈ l → ∃ d, getTagDigest (collab s) tag = Some d ∧ d ∈ deleteSet t.
Proof.
  revert s. induction l as [|x l IH]; intros s Hl tag Hin; [by apply elem_of_nil in Hin|].
  cbn [forEach] in Hl. apply bind_Ok in Hl as (u & Hu & Hl).
  unfold deleteByTag_standard in Hu. apply bind_Ok in Hu as (md & Hmd%req_Ok & Hu).
  injection Hu as <-. apply elem_of_cons in Hin as [->|Hin].
  - exists md. split; [done|].
    apply deleteByTag_standard_spec in Hl as (_ & _ & Hd). apply Hd. left.
    cbn [deleteSet moveToDeleteSet with_deleteSet with_filterSet].
    apply elem_of_set_add. by right.
  - by apply (IH _ Hl).
Qed.

(** C7, as the code has it. With [delete-tags] set, the tags that
    [deleteByTag] processes are the deletable ones: those that match the
    pattern, are not excluded and are carried by the package of a digest of
    [filterSet]. Such a tag is resolved by the registry; when the package
    it resolves to carries that tag alone, the digest the tag resolves to
    at the end is in [deleteSet]; when the package carries more than one
    tag, a manifest has been pushed under the tag, unless by its turn one
    tag was left and it was deleted the standard way. No manifest is
    pushed under another tag and no digest joins [deleteSet] but through a
    deletable tag: a matching tag in use whose digest has left [filterSet]
    is not processed, and without a deletable tag nothing changes. *)
Theorem deleteByTag_processes_filterSet_tags s t :
  truthy (Config.deleteTags config) = true →
  deleteByTag wcmatch config now s = Ok t →
  (∀ tag, deletableTag wcmatch config s tag →
     ∃ pkg, resolvesTo (collab s) tag pkg
            ∧ (length (Package.tags pkg) = 1 → standardDeleted t tag)
            ∧ (1 < length (Package.tags pkg) →
               untaggedTag (newEvents s t) tag ∨ standardDeleted t tag))
  ∧ (∀ tag, untaggedTag (newEvents s t) tag →
       deletableTag wcmatch config s tag
       ∧ ∃ pkg, resolvesTo (collab s) tag pkg ∧ 1 < length (Package.tags pkg))
  ∧ (∀ d, d ∈ deleteSet t →
       d ∈ deleteSet s
       ∨ ∃ tag, deletableTag wcmatch config s tag ∧ getTagDigest (collab t) tag = Some d)
  ∧ ((∀ tag, ¬ deletableTag wcmatch config s tag) → t = s).
Proof.
  intros Hon Hd. unfold deleteByTag in Hd. rewrite Hon in Hd.
  apply bind_Ok in Hd as (mt & Hmt & Hd).
  pose proof (deleteByTag_matchTags_spec wcmatch config s mt Hmt) as Hmatch.
  assert (∀ tag, deletableTag wcmatch config s tag ↔ tag ∈ mt ∧ tag ∉ excludeTags s)
    as Hdel.
  { intros tag. rewrite Hmatch. unfold deletableTag. split.
    - intros (? & ? & d & pkg & ? & ? & ?). split; [|done]. by exists d, pkg.
    - intros [(d & pkg & ? & ? & ? & ?) ?]. split_and!; [done..|]. by exists d, pkg. }
  destruct (bool_decide (0 < length mt)) eqn:Hpos; cycle 1.
  { injection Hd as <-. apply bool_decide_eq_false in Hpos.
    destruct mt; [|simpl in Hpos; lia].
    assert (∀ tag, ¬ deletableTag wcmatch config s tag) as Hnone
      by (intros tag [?%elem_of_nil _]%Hdel; done).
    split_and!; [intros tag ?; by destruct (Hnone tag)| |by left|done].
    rewrite newEvents_refl. by intros tag (? & ? & ?%elem_of_nil). }
  apply bind_Ok in Hd as ([ut st] & Hscan & Hd).
  pose proof (deleteByTag_prescan_forEach wcmatch s mt _ _ Hscan) as Hsc.
  pose proof (deleteByTag_prescan_resolves s mt _ _ Hscan) as Hres.
  assert (∀ tag, tag ∈ ut ↔ scanned s mt tag (λ n, 1 < n)) as Hut.
  { intros tag. destruct (Hsc tag) as [Hu _]. simpl in Hu. rewrite Hu.
    split; [by intros [?%elem_of_nil|?]|by right]. }
  assert (∀ tag, tag ∈ st ↔ scanned s mt tag (λ n, n = 1)) as Hst.
  { intros tag. destruct (Hsc tag) as [_ Hu]. simpl in Hu. rewrite Hu.
    split; [by intros [?%elem_of_nil|?]|by right]. }
  assert (∀ tag (P : nat → Prop), scanned s mt tag P → deletableTag wcmatch config s tag)
    as Hscdel by (intros tag P (? & ? & _); by apply Hdel).
  apply bind_Ok in Hd as ([s1 st1] & H1 & Hd).
  apply bind_Ok in Hd as (s2 & H2 & Hd).
  assert (∃ new,
            events s2 = events s ++ new
            ∧ (∀ x, x ∈ st → x ∈ st1)
            ∧ (∀ x, x ∈ st1 → x ∈ st ∨ x ∈ ut)
            ∧ (∀ tag, tag ∈ ut → tag ∈ st1 ∨ untaggedTag new tag)
            ∧ (∀ tag, untaggedTag new tag → tag ∈ ut)
            ∧ (∀ d, d ∈ deleteSet s2 → d ∈ deleteSet s)
            ∧ (ut = [] → s2 = s ∧ st1 = st))
    as (new & He & Hsub & Hsup & Hproc & Honly & Hds & Hnil).
  { destruct ut as [|x ut'].
    - injection H1 as <- <-. injection H2 as <-. exists [].
      split_and!; [by rewrite app_nil_r|done|by left|by intros tag ?%elem_of_nil| |done|done].
      by intros tag (? & ? & ?%elem_of_nil).
    - rewrite bool_decide_eq_true_2 in H1, H2 by (simpl; lia).
      pose proof (deleteByTag_untag_forEach _ _ _ _ _ H1) as [(new0 & He0 & Hnew0) Hsup].
      apply deleteByTag_untag_forEach_processed in H1 as (Hsub & new1 & He1 & Hproc).
      assert (new1 = new0) as -> by (rewrite He0 in He1; by apply app_inv_head in He1).
      pose proof (reload_deleteSet wcmatch config now _ _ H2) as Hempty.
      apply reload_events in H2 as (r & _ & _ & He2).
      exists (new0 ++ [ELoadPackages true]).
      split_and!; [by rewrite He2, He0, app_assoc|done|done| | | |done].
      + intros tag [?|(m & b & ?)]%Hproc; [by left|right].
        exists m, b. apply elem_of_app. by left.
      + intros tag (m & b & [Hin|Hin]%elem_of_app).
        * rewrite Forall_forall in Hnew0. exact (Hnew0 _ Hin).
        * apply list_elem_of_singleton in Hin. discriminate Hin.
      + intros d. rewrite Hempty. by intros ?%elem_of_nil. }
  assert (events t = events s2 ∧ collab t = collab s2
          ∧ (∀ d, d ∈ deleteSet t ↔ d ∈ deleteSet s2 ∨ resolvedDigests (collab s2) st1 d)
          ∧ (∀ tag, tag ∈ st1 → standardDeleted t tag)
          ∧ (st1 = [] → t = s2))
    as (Het & Hct & Hdt & Hstd & Hnil1).
  { destruct (bool_decide (0 < length st1)) eqn:Hpos1.
    - pose proof (deleteByTag_standard_spec _ _ _ Hd) as (Hev & Hc & Hdd).
      split_and!; [done..| |].
      + intros tag Htag. unfold standardDeleted. rewrite Hc.
        by eapply deleteByTag_standard_resolves.
      + intros ->. by injection Hd as <-.
    - injection Hd as <-. apply bool_decide_eq_false in Hpos1.
      destruct st1; [|simpl in Hpos1; lia].
      split_and!; [done..| |by intros tag ?%elem_of_nil|done].
      intros d. split; [by left|].
      by intros [?|(tag & ?%elem_of_nil & _)]. }
  assert (newEvents s t = new) as Hnew by (apply newEvents_app; by rewrite Het).
  split_and!.
  - intros tag Htag. pose proof Htag as [Hin Hex]%Hdel.
    destruct (Hres tag Hin Hex) as [pkg Hpkg]. exists pkg. split; [done|].
    split; intros Hlen.
    + apply Hstd, Hsub, Hst. split_and!; [done..|]. by exists pkg.
    + rewrite Hnew.
      destruct (Hproc tag) as [?|?]; [|right; by apply Hstd|by left].
      apply Hut. split_and!; [done..|]. by exists pkg.
  - rewrite Hnew. intros tag Htag%Honly. pose proof Htag as Hs%Hut.
    split; [by eapply Hscdel|]. by destruct Hs as (_ & _ & ?).
  - intros d [?|(tag & Htag & Hr)]%Hdt; [left; by apply Hds|right].
    exists tag. rewrite Hct. split; [|done].
    destruct (Hsup tag Htag) as [?%Hst|?%Hut]; by eapply Hscdel.
  - intros Hnone.
    assert (ut = []) as Hu.
    { destruct ut as [|x ?]; [done|]. destruct (Hnone x). eapply Hscdel, Hut. by left. }
    destruct (Hnil Hu) as [-> ->].
    apply Hnil1. destruct st as [|x ?]; [done|].
    destruct (Hnone x). eapply Hscdel, Hst. by left.
Qed.

End TagsTouched.

(** With [sha256:d] in [filterSet] its tag [v1] is deletable; the digest
    carries a second tag, and a manifest is pushed under [v1]. *)
Lemma deleteByTag_processes_filterSet_tags_witness :
  ∃ t, deleteByTag Ex.exact Ex.taggedConfig (Ex.clock 0) Ex.taggedAction = Ok t
       ∧ untaggedTag (newEvents Ex.taggedAction t) "v1"
       ∧ ¬ untaggedTag (newEvents Ex.taggedAction t) "keep".
Proof.
  destruct (deleteByTag Ex.exact Ex.taggedConfig (Ex.clock 0) Ex.taggedAction) as [t| |] eqn:Hrun;
    [|vm_compute in Hrun; discriminate Hrun..].
  destruct (deleteByTag_processes_filterSet_tags Ex.exact Ex.taggedConfig (Ex.clock 0)
              Ex.taggedAction t eq_refl Hrun) as (Hall & Honly & _).
  exists t. split_and!; [done| |].
  - destruct (Hall "v1") as (pkg & (d & Hd & Hpkg) & _ & Hun).
    { split_and!; [done|by intros ?%elem_of_nil|].
      exists "sha256:d", (Ex.pkg 1 "sha256:d" ["v1"; "keep"] 10).
      split_and!; [by left|done|by left]. }
    vm_compute in Hd. injection Hd as <-. vm_compute in Hpkg. injection Hpkg as <-.
    destruct Hun as [?|(d & _ & Hin)]; [simpl; lia|done|].
    vm_compute in Hrun. injection Hrun as <-. vm_compute in Hin.
    by apply elem_of_nil in Hin.
  - intros [[Hw _] _]%Honly. vm_compute in Hw. discriminate Hw.
Defined.

(** On the example [v1] is untagged: the three calls and the reload all
    concern the one tag, which matches, is not excluded and is carried by
    the candidate [sha256:d]. *)
Lemma deleteByTag_touches_deletable_tags_witness :
  ∃ t new, deleteByTag Ex.exact Ex.taggedConfig (Ex.clock 0) Ex.taggedAction = Ok t
           ∧ events t = events Ex.taggedAction ++ new
           ∧ Forall (untagEvent (deletableTag Ex.exact Ex.taggedConfig Ex.taggedAction)) new
           ∧ length new = 5.
Proof.
  destruct (deleteByTag Ex.exact Ex.taggedConfig (Ex.clock 0) Ex.taggedAction) as [t| |] eqn:Hrun;
    [|vm_compute in Hrun; discriminate Hrun..].
  destruct (deleteByTag_touches_deletable_tags Ex.exact Ex.taggedConfig (Ex.clock 0)
              Ex.taggedAction t Hrun) as [(new & He & Hnew) _].
  exists t, new. split_and!; [done..|].
  assert (length (events t) = 6) as Hlen
    by (vm_compute in Hrun; injection Hrun as <-; reflexivity).
  rewrite He, length_app in Hlen.
  change (length (events Ex.taggedAction)) with 1 in Hlen. lia.
Defined.

(** ** The validator: orphaned referrer tags *)

(** The referrer tag of a digest leads back to the digest. *)
Lemma substring_all (s : string) : String.substring 0 (String.length s) s = s.
Proof. induction s as [|c s IH]; [done|]. simpl. by rewrite IH. Qed.

Lemma prefix_app (pat s : string) : String.prefix pat (pat +:+ s) = true.
Proof.
  induction pat as [|c pat IH]; simpl; [by destruct s|].
  destruct (Ascii.ascii_dec c c); [done|congruence].
Qed.

Lemma substring_app (pat s : string) :
  String.substring (String.length pat)
    (String.length (pat +:+ s) - String.length pat) (pat +:+ s) = s.
Proof.
  induction pat as [|c pat IH]; simpl; [|exact IH].
  rewrite Nat.sub_0_r. apply substring_all.
Qed.

Lemma replace_prefix (pat rep s : string) :
  replace pat rep (pat +:+ s) = rep +:+ s.
Proof.
  pose proof (prefix_app pat s) as Hp. pose proof (substring_app pat s) as Hs.
  destruct (pat +:+ s) eqn:Heq; cbn [replace]; rewrite Hp; by rewrite Hs.
Qed.

Lemma prefix_split (pat s : string) :
  String.prefix pat s = true → ∃ rest, s = pat +:+ rest.
Proof.
  revert s. induction pat as [|c pat IH]; intros s Hp; [by exists s|].
  destruct s as [|c' s]; [done|]. simpl in Hp.
  destruct (Ascii.ascii_dec c c') as [->|]; [|done].
  destruct (IH s Hp) as [rest ->]. by exists rest.
Qed.

Lemma referrerTag_roundtrip (d : string) :
  startsWith "sha256:" d = true →
  startsWith "sha256-" (replace "sha256:" "sha256-" d) = true
  ∧ replace "sha256-" "sha256:" (replace "sha256:" "sha256-" d) = d.
Proof.
  intros [rest ->]%prefix_split. rewrite replace_prefix. split.
  - apply prefix_app.
  - apply replace_prefix.
Qed.

Section Orphans.
Context {R : Type} `{Collaborators R} {engine : ArraySort}.
Implicit Types s t : CleanupAction R.

Lemma orphanTags_app (l1 l2 : list Event) :
  orphanTags (l1 ++ l2) = orphanTags l1 ++ orphanTags l2.
Proof. apply omap_app. Qed.

Lemma validate_body_orphanTags (digest : string) (acc acc' : CleanupAction R * list string) :
  validate_body digest acc = Ok acc' →
  only_events_differ acc.1 acc'.1 ∧ orphanTags (events acc'.1) = orphanTags (events acc.1).
Proof.
  destruct acc as [s pm]. unfold validate_body. intros Hb.
  destruct (set_has digest pm);
    [injection Hb as <-; split; [apply only_events_differ_refl|done]|].
  apply bind_Ok in Hb as (m & _ & Hb). apply bind_Ok in Hb as (pkg & _ & Hb).
  destruct (Manifest.manifests m) as [ms|];
    [|injection Hb as <-; split; [apply only_events_differ_refl|done]].
  destruct (validate_child_foldl digest (Package.tags pkg) ms s pm)
    as (s' & pm' & ws & Hf & Hd & He & Hws & _).
  rewrite Hf in Hb. injection Hb as <-. simpl. split; [done|].
  rewrite He, orphanTags_app.
  assert (orphanTags (EWarning <$> ws) = []) as ->; [|by rewrite app_nil_r].
  rewrite Hws. clear. induction ms as [|im ms IH]; [done|]. simpl.
  by destruct (getIdByDigest _ _).
Qed.

Lemma validate_referrer_foldl_exact (tgs : list string) s :
  foldl validate_referrer s tgs
  = with_events
      (events s
       ++ (EWarning ∘ OrphanedReferrer <$> filter (λ tag, isOrphanTag (collab s) tag = true) tgs))
      s.
Proof.
  revert s. induction tgs as [|tag tgs IH]; intros s.
  - simpl. rewrite app_nil_r. by destruct s.
  - cbn [foldl]. rewrite IH, filter_cons.
    destruct (isOrphanTag (collab s) tag) eqn:Ho.
    + assert (validate_referrer s tag = emit (EWarning (OrphanedReferrer tag)) s) as ->.
      { unfold validate_referrer. unfold isOrphanTag in Ho.
        apply andb_true_iff in Ho as [-> Hid%bool_decide_eq_true]. by rewrite Hid. }
      rewrite decide_True by done. apply CleanupAction_ext; try reflexivity.
      cbn [events emit with_events collab]. rewrite fmap_cons, <- app_assoc. done.
    + assert (validate_referrer s tag = s) as ->.
      { unfold validate_referrer. unfold isOrphanTag in Ho.
        destruct (startsWith "sha256-" tag); [|done]. simpl in Ho.
        apply bool_decide_eq_false in Ho.
        by destruct (getIdByDigest (collab s) _). }
      by rewrite decide_False by done.
Qed.

(** X10. The second loop of the validator: the referrer tags it reports
    as orphaned are, in the order of [tagsInUse], exactly the tags in use
    that start with [sha256-] and whose parent digest, the tag with
    [sha256:] for [sha256-], has no package id; the walk over the indexes
    reports none. The referrer tag of a digest that has a package id, as
    [trimChildren] and [deleteImage] build it, is never reported. *)
Theorem validate_reports_orphaned_referrers s :
  (∀ t, validate s = Ok t →
     orphanTags (newEvents s t)
     = filter (λ tag, isOrphanTag (collab s) tag = true) (tagsInUse s))
  ∧ (∀ d, startsWith "sha256:" d = true → is_Some (getIdByDigest (collab s) d) →
       isOrphanTag (collab s) (replace "sha256:" "sha256-" d) = false).
Proof.
  split.
  - intros t Hv. unfold validate in Hv. apply bind_Ok in Hv as ([u pm] & Hwalk & Hv).
    injection Hv as <-.
    assert (only_events_differ s u ∧ orphanTags (events u) = orphanTags (events s))
      as [Hd Ho].
    { change u with (u, pm).1. revert Hwalk.
      apply (forEach_invariant
               (λ acc : CleanupAction R * list string,
                  only_events_differ s acc.1
                  ∧ orphanTags (events acc.1) = orphanTags (events s)));
        [|split; [apply only_events_differ_refl|done]].
      intros x acc acc' _ [Hd Ho] [Hd' Ho']%validate_body_orphanTags.
      split; [by eapply only_events_differ_trans|congruence]. }
    rewrite validate_referrer_foldl_exact.
    rewrite (only_events_differ_collab _ _ Hd), (only_events_differ_tagsInUse _ _ Hd).
    set (l := filter _ _).
    assert (∃ new, events u = events s ++ new ∧ orphanTags new = []) as (new & He & Hnew).
    { exists (drop (length (events s)) (events u)).
      assert (events s `prefix_of` events u) as [k Hk].
      { clear Ho. revert Hwalk. change (events u) with (events (u, pm).1).
        apply (forEach_invariant
                 (λ acc : CleanupAction R * list string, events s `prefix_of` events acc.1));
          [|done].
        intros x acc acc' _ Hpre Hb. apply validate_body_events in Hb as [e ->].
        by apply prefix_app_r. }
      rewrite Hk, drop_app_length. split; [done|].
      rewrite Hk, orphanTags_app in Ho.
      apply (f_equal length) in Ho. rewrite length_app in Ho.
      destruct (orphanTags k); [done|simpl in Ho; lia]. }
    erewrite newEvents_app;
      [|cbn [events with_events]; rewrite He, <- app_assoc; reflexivity].
    rewrite orphanTags_app, Hnew. simpl. generalize l. clear. intros l.
    induction l as [|tag l IH]; [done|]. simpl. f_equal. exact IH.
  - intros d Hd [i Hi]. destruct (referrerTag_roundtrip d Hd) as [Hst Hback].
    unfold isOrphanTag. rewrite Hst, Hback. simpl.
    apply bool_decide_eq_false_2. congruence.
Qed.

End Orphans.

(** On the example the referrer tag [sha256-gone] is reported, the
    referrer tag of the known digest [sha256:p] is not. *)
Lemma validate_reports_orphaned_referrers_witness :
  ∃ t, validate Ex.orphanedAction = Ok t
       ∧ orphanTags (newEvents Ex.orphanedAction t) = ["sha256-gone"]
       ∧ isOrphanTag Ex.orphaned (replace "sha256:" "sha256-" "sha256:p") = false.
Proof.
  destruct (validate_reports_orphaned_referrers Ex.orphanedAction) as [Hspec Hknown].
  destruct (validate Ex.orphanedAction) as [t| |] eqn:Hrun;
    [|vm_compute in Hrun; discriminate Hrun..].
  exists t. split_and!; [done| |].
  - rewrite (Hspec t eq_refl). vm_compute. reflexivity.
  - apply Hknown; [reflexivity|]. vm_compute. eauto.
Defined.

(** ** The validator: the walk *)

Section ValidatorWalk.
Context {R : Type} `{Collaborators R} {engine : ArraySort}.
Implicit Types s t u : CleanupAction R.

Lemma walkedDigests_ext (r : R) (m1 m2 l : list string) :
  (∀ x, x ∈ m1 ↔ x ∈ m2) → walkedDigests r m1 l = walkedDigests r m2 l.
Proof.
  revert m1 m2. induction l as [|d l IH]; intros m1 m2 Hm; [done|]. cbn [walkedDigests].
  rewrite (bool_decide_ext (d ∈ m1) (d ∈ m2)) by apply Hm.
  case_bool_decide; [by apply IH|]. f_equal. apply IH.
  intros x. rewrite !elem_of_app, Hm. done.
Qed.

(** A walked digest is one of the list and is not marked. *)
Lemma elem_of_walkedDigests (r : R) (marked l : list string) (d : string) :
  d ∈ walkedDigests r marked l → d ∈ l ∧ d ∉ marked.
Proof.
  revert marked. induction l as [|x l IH]; intros marked; cbn [walkedDigests];
    [by intros ?%elem_of_nil|].
  case_bool_decide as Hx.
  - intros [? ?]%IH. split; [by right|done].
  - intros [->|[? Hn]%IH]%elem_of_cons; [split; [by left|done]|].
    split; [by right|]. intros ?. apply Hn, elem_of_app. by left.
Qed.

(** The walk of a list in two parts: the second part starts with the
    marks of the first. *)
Lemma walkedDigests_app (r : R) (marked l1 l2 : list string) :
  walkedDigests r marked (l1 ++ l2)
  = walkedDigests r marked l1
    ++ walkedDigests r (marked ++ mjoin (childrenOf r <$> walkedDigests r marked l1)) l2.
Proof.
  revert marked. induction l1 as [|d l1 IH]; intros marked.
  - cbn [walkedDigests app fmap list_fmap mjoin list_join]. by rewrite app_nil_r.
  - cbn [app walkedDigests]. case_bool_decide; [apply IH|].
    rewrite IH. cbn [app fmap list_fmap mjoin list_join]. f_equal.
    by rewrite <- app_assoc.
Qed.

Lemma elem_of_childrenOf (r : R) (q d : string) :
  d ∈ childrenOf r q ↔ listsChild r q d.
Proof.
  unfold childrenOf, listsChild, childDigests. split.
  - destruct (getManifestByDigest r q) as [m|]; [|by intros ?%elem_of_nil].
    destruct (Manifest.manifests m) as [ms|] eqn:Hms; [|by intros ?%elem_of_nil].
    intros ?. by exists m, ms.
  - intros (m & ms & -> & -> & ?). done.
Qed.

(** Where the digest comes in the list for the first time, it is walked
    exactly when no digest walked before it lists it. *)
Lemma walkedDigests_first (r : R) (l1 l2 : list string) (d : string) :
  d ∉ l1 →
  (d ∈ walkedDigests r [] (l1 ++ d :: l2)
   ↔ ¬ ∃ q, q ∈ walkedDigests r [] l1 ∧ listsChild r q d).
Proof.
  intros Hfresh. rewrite walkedDigests_app. cbn [app].
  set (M := mjoin (childrenOf r <$> walkedDigests r [] l1)).
  assert (d ∈ M ↔ ∃ q, q ∈ walkedDigests r [] l1 ∧ listsChild r q d) as HM.
  { unfold M. rewrite list_elem_of_join. split.
    - intros (c & Hd & (q & -> & Hq)%list_elem_of_fmap). exists q.
      split; [done|]. by apply elem_of_childrenOf.
    - intros (q & Hq & Hl). exists (childrenOf r q).
      split; [by apply elem_of_childrenOf|]. apply list_elem_of_fmap. by exists q. }
  rewrite <- HM, elem_of_app. cbn [walkedDigests]. split.
  - intros [[? _]%elem_of_walkedDigests|Hin]; [done|].
    case_bool_decide as Hd; [|done].
    by apply elem_of_walkedDigests in Hin as [_ ?].
  - intros Hn. right. rewrite bool_decide_eq_false_2 by done. by left.
Qed.

(** The walk of the code is the walk of [walkedDigests]. *)
Lemma validate_walk_exact (r : R) (l : list string) u pm u' pm' :
  collab u = r →
  forEach l validate_body (u, pm) = Ok (u', pm') →
  u' = with_events
         (events u ++ (EWarning <$> mjoin (entryWarnings r <$> walkedDigests r pm l))) u.
Proof.
  intros Hr. revert u pm Hr. induction l as [|d l IH]; intros u pm Hr Hl.
  - injection Hl as <- <-. cbn. rewrite app_nil_r. by destruct u.
  - cbn [forEach] in Hl. apply bind_Ok in Hl as ([u1 pm1] & Hb & Hl).
    cbn [walkedDigests]. unfold validate_body, set_has in Hb.
    case_bool_decide as Hd.
    { injection Hb as <- <-. by apply IH. }
    apply bind_Ok in Hb as (m & Hm%req_Ok & Hb).
    apply bind_Ok in Hb as (pkg & Hpkg%req_Ok & Hb).
    rewrite Hr in Hm, Hpkg.
    assert (u1 = with_events (events u ++ (EWarning <$> entryWarnings r d)) u
            ∧ ∀ x, x ∈ pm1 ↔ x ∈ pm ++ childrenOf r d) as [-> Hpm1].
    { unfold entryWarnings, childrenOf, childDigests. rewrite Hm, Hpkg.
      destruct (Manifest.manifests m) as [ms|].
      - destruct (validate_child_foldl d (Package.tags pkg) ms u pm)
          as (t' & pm'' & ws & Hf & Hd' & He & Hws & Hpm).
        rewrite Hf in Hb. injection Hb as <- <-. split.
        + rewrite <- Hd', He, Hws, Hr. reflexivity.
        + intros x. rewrite Hpm, elem_of_app. done.
      - injection Hb as <- <-. split.
        + cbn. rewrite app_nil_r. by destruct u.
        + intros x. by rewrite app_nil_r. }
    apply IH in Hl; [|done]. rewrite Hl.
    rewrite (walkedDigests_ext r pm1 (pm ++ childrenOf r d)) by done.
    apply CleanupAction_ext; try reflexivity.
    cbn [events with_events fmap list_fmap mjoin list_join].
    by rewrite fmap_app, app_assoc.
Qed.

(** The walk returns exactly when every digest it walks has a manifest
    and a package. *)
Lemma validate_walk_returns (r : R) (l : list string) u pm :
  collab u = r →
  (∃ acc', forEach l validate_body (u, pm) = Ok acc')
  ↔ ∀ d, d ∈ walkedDigests r pm l →
         is_Some (getManifestByDigest r d) ∧ is_Some (getPackageByDigest r d).
Proof.
  intros Hr. revert u pm Hr. induction l as [|d l IH]; intros u pm Hr.
  - split; [by intros _ d ?%elem_of_nil|by eexists].
  - cbn [forEach walkedDigests].
    assert (validate_body d (u, pm)
            = if bool_decide (d ∈ pm) then Ok (u, pm)
              else
                manifest ← req (getManifestByDigest r d);
                ghPackage ← req (getPackageByDigest r d);
                match Manifest.manifests manifest with
                | Some ms => Ok (foldl (validate_child d (Package.tags ghPackage)) (u, pm) ms)
                | None => Ok (u, pm)
                end) as ->
      by (unfold validate_body, set_has; by rewrite Hr).
    case_bool_decide as Hd; [cbn [mbind result_bind]; by apply IH|].
    destruct (getManifestByDigest r d) as [m|] eqn:Hm; cycle 1.
    { split; [by intros [? ?]|]. intros Hall.
      destruct (Hall d) as [[? ?] _]; [by left|congruence]. }
    destruct (getPackageByDigest r d) as [pkg|] eqn:Hpkg; cycle 1.
    { split; [by intros [? ?]|]. intros Hall.
      destruct (Hall d) as [_ [? ?]]; [by left|congruence]. }
    cbn [req mbind result_bind].
    assert (∃ u1 pm1,
              match Manifest.manifests m with
              | Some ms => Ok (foldl (validate_child d (Package.tags pkg)) (u, pm) ms)
              | None => Ok (u, pm)
              end = Ok (u1, pm1)
              ∧ collab u1 = r ∧ ∀ x, x ∈ pm1 ↔ x ∈ pm ++ childrenOf r d)
      as (u1 & pm1 & -> & Hr1 & Hpm1).
    { unfold childrenOf, childDigests. rewrite Hm.
      destruct (Manifest.manifests m) as [ms|].
      - destruct (validate_child_foldl d (Package.tags pkg) ms u pm)
          as (t' & pm'' & ws & Hf & Hd' & _ & _ & Hpm).
        exists t', pm''. rewrite Hf. split_and!; [done| |].
        + by rewrite (only_events_differ_collab _ _ Hd').
        + intros x. rewrite Hpm, elem_of_app. done.
      - exists u, pm. split_and!; [done..|]. intros x. by rewrite app_nil_r. }
    cbn [mbind result_bind]. rewrite (IH u1 pm1 Hr1).
    rewrite (walkedDigests_ext r pm1 (pm ++ childrenOf r d)) by done.
    split.
    + intros Hall x [->|?]%elem_of_cons; [split; by eexists|by apply Hall].
    + intros Hall x ?. apply Hall. by right.
Qed.

(** C9, as the code has it. The validator changes nothing but the trace,
    to which it adds warnings only: first, for each digest it walks and in
    the order of the listing, one warning for each entry of the manifest
    of the digest that has no package, naming the child and that parent,
    so that a child without a package that two walked indexes list is
    reported twice; then the warnings about the referrer tags without a
    parent. The marks decide which digests are walked: where a known
    digest comes in the listing for the first time it is walked exactly
    when no digest walked before it lists it, so that every known digest
    that no known index lists is walked, and a digest that an index walked
    before it lists is passed over, whatever its own manifest lists. The
    validator returns exactly when every digest it walks has a manifest
    and a package. *)
Theorem validate_warns_per_entry s :
  (∀ s', validate s = Ok s' →
     only_events_differ s s'
     ∧ newEvents s s'
       = (EWarning <$> mjoin (entryWarnings (collab s)
                                <$> walkedDigests (collab s) [] (getDigests (collab s))))
         ++ (EWarning ∘ OrphanedReferrer
               <$> filter (λ tag, isOrphanTag (collab s) tag = true) (tagsInUse s)))
  ∧ (∀ l1 d l2, getDigests (collab s) = l1 ++ d :: l2 → d ∉ l1 →
       (d ∈ walkedDigests (collab s) [] (getDigests (collab s))
        ↔ ¬ ∃ q, q ∈ walkedDigests (collab s) [] l1 ∧ listsChild (collab s) q d))
  ∧ (∀ p, p ∈ getDigests (collab s) → ¬ isChildOfKnown (collab s) p →
       p ∈ walkedDigests (collab s) [] (getDigests (collab s)))
  ∧ ((∃ s', validate s = Ok s')
     ↔ ∀ d, d ∈ walkedDigests (collab s) [] (getDigests (collab s)) →
            is_Some (getManifestByDigest (collab s) d)
            ∧ is_Some (getPackageByDigest (collab s) d)).
Proof.
  split_and!.
  - intros s' Hv. unfold validate in Hv. apply bind_Ok in Hv as ([u pm] & Hwalk & Hv).
    injection Hv as <-.
    apply (validate_walk_exact (collab s)) in Hwalk as ->; [|done].
    rewrite validate_referrer_foldl_exact.
    cbn [collab tagsInUse events with_events]. split.
    + unfold only_events_differ. by destruct s.
    + apply newEvents_app. cbn [events with_events]. by rewrite <- app_assoc.
  - intros l1 d l2 -> Hfresh. by apply walkedDigests_first.
  - intros p Hp Htop.
    apply list_elem_of_split_l in Hp as (l1 & l2 & Hl & Hfresh).
    rewrite Hl. apply walkedDigests_first; [done|].
    intros (q & [Hq _]%elem_of_walkedDigests & (m & ms & Hm & Hms & Hin)).
    apply Htop. exists q, m, ms. split_and!; [|done..].
    rewrite Hl. apply elem_of_app. by left.
  - rewrite <- (validate_walk_returns (collab s) _ s []) by done.
    unfold validate. split.
    + intros [s' Hv]. apply bind_Ok in Hv as (acc & Hwalk & _). by exists acc.
    + intros [[u pm] ->]. by eexists.
Qed.

End ValidatorWalk.

(** On the example of the nested indexes [top] marks [inner], which is
    passed over: the digest that [inner] lists and that has no package is
    not reported. With [inner] first in the listing it is. *)
Lemma validate_warns_per_entry_witness :
  (∃ s', validate Ex.nestedAction = Ok s' ∧ newEvents Ex.nestedAction s' = [])
  ∧ (∃ s', validate Ex.innerFirstAction = Ok s'
           ∧ newEvents Ex.innerFirstAction s'
             = [EWarning (ChildNotFound "sha256:gone" [] "sha256:inner")]).
Proof.
  split.
  - destruct (validate_warns_per_entry Ex.nestedAction) as (Hspec & _ & _ & Hret).
    destruct (proj2 Hret) as [s' Hs'].
    { intros d [Hd _]%elem_of_walkedDigests.
      repeat (apply elem_of_cons in Hd as [->|Hd]); [..|by apply elem_of_nil in Hd];
        split; vm_compute; eauto. }
    exists s'. split; [done|]. destruct (Hspec s' Hs') as [_ ->]. vm_compute. reflexivity.
  - destruct (validate_warns_per_entry Ex.innerFirstAction) as (Hspec & _ & _ & Hret).
    destruct (proj2 Hret) as [s' Hs'].
    { intros d [Hd _]%elem_of_walkedDigests.
      repeat (apply elem_of_cons in Hd as [->|Hd]); [..|by apply elem_of_nil in Hd];
        split; vm_compute; eauto. }
    exists s'. split; [done|]. destruct (Hspec s' Hs') as [_ ->]. vm_compute. reflexivity.
Defined.

(** ** The labels of the children *)

Section Labels.
Context {R : Type} `{Collaborators R} {engine : ArraySort}.

(** X11. [buildLabel] fails exactly for a descriptor whose platform has
    the architecture [unknown] and whose manifest cannot be read or has an
    empty list of layers, the first of which it looks at. For a platform of
    another architecture the label is [architecture: ] followed by the
    architecture and, after a slash, the variant when there is one,
    whatever the registry holds; for the architecture [unknown] it is the
    media type of in-toto statements when the first layer of the manifest
    has it, and [unknown] otherwise; without a platform it is
    [sigstore attestation] for an artifact type that starts as the type of
    sigstore bundles, the artifact type otherwise, and empty without
    one. *)
Theorem buildLabel_fails_only_on_unknown (r : R) (im : Descriptor.t) :
  (buildLabel r im = Throw ↔
     ∃ p, Descriptor.platform im = Some p ∧ Platform.architecture p = Some "unknown"
          ∧ (getManifestByDigest r (Descriptor.digest im) = None
             ∨ ∃ m, getManifestByDigest r (Descriptor.digest im) = Some m
                    ∧ Manifest.layers m = Some []))
  ∧ (∀ p, Descriptor.platform im = Some p → Platform.architecture p ≠ Some "unknown" →
       buildLabel r im
       = Ok ("architecture: " +:+ default "" (Platform.architecture p)
             +:+ match Platform.variant p with
                 | Some v => if bool_decide (v = "") then "" else "/" +:+ v
                 | None => ""
                 end))
  ∧ (∀ p m, Descriptor.platform im = Some p → Platform.architecture p = Some "unknown" →
       getManifestByDigest r (Descriptor.digest im) = Some m →
       (∀ l ls, Manifest.layers m = Some (l :: ls) →
          buildLabel r im
          = Ok (if bool_decide (Layer.mediaType l = "application/vnd.in-toto+json")
                then "application/vnd.in-toto+json" else "unknown"))
       ∧ (Manifest.layers m = None → buildLabel r im = Ok "unknown"))
  ∧ (Descriptor.platform im = None →
       buildLabel r im
       = Ok match Descriptor.artifactType im with
            | Some a => if startsWith "application/vnd.dev.sigstore.bundle" a
                        then "sigstore attestation" else a
            | None => ""
            end).
Proof.
  assert (∀ p, (if truthy (Platform.architecture p)
                then default "" (Platform.architecture p) else "") = "unknown"
               ↔ Platform.architecture p = Some "unknown") as Harch.
  { intros p. destruct (Platform.architecture p) as [a|]; simpl; [|done].
    case_bool_decide; simpl; [subst; split; [done|by intros [= <-]]|].
    split; [by intros ->|by intros [= ->]]. }
  assert (∀ x : string, x +:+ "" = x) as Hnil.
  { induction x as [|c x IH]; [done|].
    change (String c (x +:+ "") = String c x). by rewrite IH. }
  split_and!.
  - unfold buildLabel. destruct (Descriptor.platform im) as [p|].
    + specialize (Harch p). case_bool_decide as Hu.
      * split; [done|]. intros (p' & [= <-] & Ha & _). exfalso. by apply Hu, Harch.
      * apply Harch in Hu.
        destruct (getManifestByDigest r (Descriptor.digest im)) as [m|] eqn:Hm; simpl.
        -- destruct (Manifest.layers m) as [[|l ls]|] eqn:Hl; simpl.
           ++ split; [|done]. intros _. exists p. split_and!; [done..|]. right. by exists m.
           ++ split; [by case_bool_decide|].
              intros (_ & _ & _ & [?|(m' & [= <-] & ?)]); congruence.
           ++ split; [done|]. intros (_ & _ & _ & [?|(m' & [= <-] & ?)]); congruence.
        -- split; [|done]. intros _. exists p. split_and!; [done..|]. by left.
    + split; [by repeat case_match|]. by intros (p & ? & _).
  - intros p Hp Ha. unfold buildLabel. rewrite Hp.
    rewrite bool_decide_eq_true_2 by (by rewrite Harch).
    assert ((if truthy (Platform.architecture p)
             then default "" (Platform.architecture p) else "")
            = default "" (Platform.architecture p)) as ->.
    { destruct (Platform.architecture p) as [a|]; [|done]. cbn [truthy default].
      by case_bool_decide; subst. }
    destruct (Platform.variant p) as [v|]; cbn [truthy default].
    + case_bool_decide; subst; cbn [negb]; [by rewrite Hnil|done].
    + by rewrite Hnil.
  - intros p m Hp Ha Hm. unfold buildLabel. rewrite Hp.
    assert ((if truthy (Platform.architecture p)
             then default "" (Platform.architecture p) else "") = "unknown") as ->
      by (by apply Harch).
    rewrite bool_decide_eq_false_2 by (intros Hne; by apply Hne).
    rewrite Hm. cbn [req mbind result_bind]. split.
    + intros l ls ->. cbn [head req mbind result_bind]. by case_bool_decide.
    + by intros ->.
  - intros Hp. unfold buildLabel. rewrite Hp.
    destruct (Descriptor.artifactType im) as [a|]; cbn [truthy default]; [|done].
    unfold id. case_bool_decide as Ha; cbn [negb].
    + by subst.
    + by destruct (startsWith _ a).
Qed.

End Labels.

(** The children of the examples are labelled by their architecture. *)
Lemma buildLabel_fails_only_on_unknown_witness :
  buildLabel Ex.multi (Ex.child "sha256:c") = Ok "architecture: amd64".
Proof.
  destruct (buildLabel_fails_only_on_unknown Ex.multi (Ex.child "sha256:c"))
    as (_ & Harch & _).
  rewrite (Harch _ eq_refl); [reflexivity|discriminate].
Defined.

(** ** The configuration *)

Lemma truthy_Some (x : string) : truthy (Some x) = true ↔ x ≠ "".
Proof. simpl. case_bool_decide; simpl; split; congruence. Qed.

Lemma split_nonempty (sep : Ascii.ascii) (s : string) : split sep s ≠ [].
Proof.
  destruct s as [|c s]; simpl; [done|]. case_bool_decide; [done|].
  by destruct (split sep s).
Qed.

Lemma split_one (sep : Ascii.ascii) (s p : string) :
  split sep s = [p] ↔ s = p ∧ hasChar sep s = false.
Proof.
  revert p. induction s as [|c s IH]; intros p; simpl.
  - split; [by intros [= <-]|by intros [<- _]].
  - case_bool_decide as Hc; simpl.
    + split; [|by intros [_ ?]]. intros [= <- Hs]. by apply split_nonempty in Hs.
    + destruct (split sep s) as [|part parts] eqn:Hs; [by apply split_nonempty in Hs|].
      split.
      * intros [= <- ->]. destruct (proj1 (IH part) eq_refl) as [-> ?]. done.
      * intros [<- Hno]. pose proof (proj2 (IH s) (conj eq_refl Hno)) as Hs'.
        by injection Hs' as -> ->.
Qed.

Lemma split_two (sep : Ascii.ascii) (s o p : string) :
  split sep s = [o; p] ↔
  s = o +:+ String sep p ∧ hasChar sep o = false ∧ hasChar sep p = false.
Proof.
  revert o. induction s as [|c s IH]; intros o; simpl.
  - split; [done|]. intros [Hs _]. by destruct o.
  - case_bool_decide as Hc; simpl.
    + subst c. split.
      * intros [= <- Hs]. apply split_one in Hs as [-> Hno]. done.
      * intros (Hs & Ho & Hp). destruct o as [|c' o]; simpl in *.
        -- injection Hs as ->. f_equal. by apply split_one.
        -- injection Hs as <- _. by rewrite bool_decide_eq_true_2 in Ho.
    + destruct (split sep s) as [|part parts] eqn:Hs; [by apply split_nonempty in Hs|].
      split.
      * intros [= <- ->]. destruct (proj1 (IH part) eq_refl) as (-> & Ho & Hp).
        simpl. by rewrite bool_decide_eq_false_2.
      * intros (Hso & Ho & Hp). destruct o as [|c' o]; simpl in *;
          [injection Hso as -> _; done|].
        injection Hso as <- ->. rewrite bool_decide_eq_false_2 in Ho by done.
        simpl in Ho. pose proof (proj2 (IH o) (conj eq_refl (conj Ho Hp))) as Hs'.
        by injection Hs' as -> ->.
Qed.

Section GetConfigProperties.
Variable getInput : string → string.
Variable getBooleanInput : string → option bool.
Variable GITHUB_REPOSITORY : option string.
Variable parseInt : string → option Z.
Variable humanInterval : string → option Z.
Variable toLowerCase : string → string.

#[local] Abbreviation isGiven := (given getInput).
#[local] Abbreviation orPart := (inputOr getInput).
#[local] Abbreviation theConfig :=
  (getConfig getInput getBooleanInput GITHUB_REPOSITORY parseInt humanInterval toLowerCase).

Lemma getConfig_repository_Ok (ow re pa : string) (d : bool) :
  getConfig_repository getInput GITHUB_REPOSITORY = Ok (ow, re, pa, d) ↔
  ∃ o p, GITHUB_REPOSITORY = Some (o +:+ String "/"%char p)
         ∧ hasChar "/"%char o = false ∧ hasChar "/"%char p = false
         ∧ ow = orPart "owner" o ∧ re = orPart "repository" p
         ∧ pa = orPart "package" p ∧ d = negb (isGiven "package").
Proof.
  unfold getConfig_repository, inputOr.
  destruct GITHUB_REPOSITORY as [repo|]; simpl; [|split; [done|by intros (? & ? & ? & _)]].
  case_bool_decide as Hne; simpl.
  { subst repo. split; [done|]. intros (o & p & [= Ho] & _). by destruct o. }
  case_bool_decide as Hlen.
  - destruct (split "/" repo) as [|o [|p [|]]] eqn:Hs; try done. simpl.
    apply split_two in Hs as (-> & Ho & Hp). split.
    + intros [= <- <- <- <-]. by exists o, p.
    + intros (o' & p' & [= Heq] & Ho' & Hp' & -> & -> & -> & ->).
      assert (split "/" (o +:+ String "/" p) = [o'; p']) as Hs'
        by (rewrite Heq; by apply split_two).
      rewrite (proj2 (split_two _ _ o p) (conj eq_refl (conj Ho Hp))) in Hs'.
      by injection Hs' as <- <-.
  - split; [done|]. intros (o & p & [= ->] & Ho & Hp & _). exfalso. apply Hlen.
    by rewrite (proj2 (split_two _ _ o p) (conj eq_refl (conj Ho Hp))).
Qed.

Lemma getConfig_keep_Ok (name : string) (k : option nat) :
  getConfig_keep getInput parseInt name = Ok k ↔
  if isGiven name
  then ∃ n, parseInt (getInput name) = Some n ∧ (0 ≤ n)%Z ∧ k = Some (Z.to_nat n)
  else k = None.
Proof.
  unfold getConfig_keep. destruct (isGiven name); [|split; [by intros [= <-]|by intros ->]].
  destruct (parseInt (getInput name)) as [n|]; [|split; [done|by intros (? & ? & _)]].
  case_bool_decide as Hn.
  - split; [done|]. intros (n' & [= <-] & ? & _). lia.
  - split; [intros [= <-]; exists n; split_and!; [done|lia|done]|].
    by intros (n' & [= <-] & _ & ->).
Qed.

Lemma getConfig_boolean_Ok (name : string) (b : bool) :
  getConfig_boolean getInput getBooleanInput name = Ok b ↔
  if isGiven name then getBooleanInput name = Some b else b = false.
Proof.
  unfold getConfig_boolean. destruct (isGiven name); [apply req_Ok|].
  split; [by intros [= <-]|by intros ->].
Qed.

Lemma getConfig_deleteUntagged_Ok (b : bool) :
  getConfig_deleteUntagged getInput getBooleanInput = Ok b ↔
  if isGiven "delete-untagged" then getBooleanInput "delete-untagged" = Some b
  else b = negb (isGiven "tags") && negb (isGiven "delete-tags")
           && negb (isGiven "delete-ghost-images") && negb (isGiven "delete-partial-images")
           && negb (isGiven "keep-n-untagged") && negb (isGiven "keep-n-tagged").
Proof.
  unfold getConfig_deleteUntagged. destruct (isGiven "delete-untagged"); [apply req_Ok|].
  split; [by intros [= <-]|by intros ->].
Qed.

(** What a successful [getConfig] has gone through. *)
Lemma getConfig_Ok (c : Settings.t) :
  theConfig = Ok c ↔
  isGiven "token" = true
  ∧ (isGiven "tags" && isGiven "delete-tags" = false)
  ∧ (truthyNumber (Config.keepNuntagged (Settings.action c)) && isGiven "delete-untagged"
     = false)
  ∧ getConfig_repository getInput GITHUB_REPOSITORY
    = Ok (Settings.owner c, Settings.repository c, Settings.package c,
          Settings.defaultPackageUsed c)
  ∧ Settings.owner c ≠ "" ∧ Settings.package c ≠ "" ∧ Settings.repository c ≠ ""
  ∧ getConfig_keep getInput parseInt "keep-n-tagged"
    = Ok (Config.keepNtagged (Settings.action c))
  ∧ getConfig_keep getInput parseInt "keep-n-untagged"
    = Ok (Config.keepNuntagged (Settings.action c))
  ∧ getConfig_deleteUntagged getInput getBooleanInput
    = Ok (Config.deleteUntagged (Settings.action c))
  ∧ getConfig_boolean getInput getBooleanInput "delete-ghost-images"
    = Ok (Config.deleteGhostImages (Settings.action c))
  ∧ getConfig_boolean getInput getBooleanInput "delete-partial-images"
    = Ok (Config.deletePartialImages (Settings.action c))
  ∧ getConfig_boolean getInput getBooleanInput "dry-run" = Ok (Settings.dryRun c)
  ∧ getConfig_boolean getInput getBooleanInput "validate"
    = Ok (Config.validate (Settings.action c))
  ∧ Config.deleteTags (Settings.action c)
    = (if isGiven "tags" then Some (getInput "tags")
       else if isGiven "delete-tags" then Some (getInput "delete-tags") else None)
  ∧ Config.excludeTags (Settings.action c) = Some (getInput "exclude-tags")
  ∧ Config.olderThan (Settings.action c)
    = (if isGiven "older-than" then humanInterval (getInput "older-than") else None)
  ∧ Settings.olderThanReadable c
    = (if isGiven "older-than" then Some (getInput "older-than") else None)
  ∧ Settings.logLevel c = getConfig_logLevel getInput toLowerCase
  ∧ Settings.isPrivateRepo c = false
  ∧ Settings.token c = getInput "token".
Proof.
  unfold getConfig. split.
  - intros Hc.
    destruct (isGiven "token"); cbn [negb] in Hc; [|done].
    apply bind_Ok in Hc as ([[[ow re] pa] d] & Hrepo & Hc).
    destruct (isGiven "tags" && isGiven "delete-tags"); [done|].
    apply bind_Ok in Hc as (kt & Hkt & Hc).
    apply bind_Ok in Hc as (ku & Hku & Hc).
    apply bind_Ok in Hc as (du & Hdu & Hc).
    destruct (truthyNumber ku && isGiven "delete-untagged") eqn:Hexcl; [done|].
    apply bind_Ok in Hc as (gh & Hgh & Hc).
    apply bind_Ok in Hc as (pt & Hpt & Hc).
    apply bind_Ok in Hc as (dr & Hdr & Hc).
    apply bind_Ok in Hc as (va & Hva & Hc).
    destruct (truthy (Some ow)) eqn:How; cbn [negb] in Hc; [|done].
    destruct (truthy (Some pa)) eqn:Hpa; cbn [negb] in Hc; [|done].
    destruct (truthy (Some re)) eqn:Hre; cbn [negb] in Hc; [|done].
    apply truthy_Some in How, Hpa, Hre.
    injection Hc as <-. simpl. split_and!; done.
  - intros (-> & -> & Hexcl & -> & How & Hpa & Hre & -> & -> & -> & -> & -> & -> & ->
            & Hdt & Hex & Hold & Hread & Hlog & Hpriv & Htok).
    cbn [negb mbind result_bind]. rewrite Hexcl.
    apply truthy_Some in How, Hpa, Hre. rewrite How, Hpa, Hre. cbn [negb].
    f_equal. destruct c as [[] ? ? ? ? ? ? ? ? ?]. simpl in *. by subst.
Qed.

(** X12. [getConfig] returns exactly for valid inputs: the token is
    isGiven; [GITHUB_REPOSITORY] is set and is an owner and a name with one
    slash between them, whatever [owner], [repository] and [package] are
    isGiven as; owner, package and repository are not empty once the
    defaults are filled in; [tags] and [delete-tags] are not both isGiven; a
    keep-n input that is isGiven holds a number that is not negative; a
    boolean input that is isGiven can be read; and [delete-untagged] is not
    isGiven together with a [keep-n-untagged] other than 0. *)
Theorem getConfig_returns_iff_valid :
  (∃ c, theConfig = Ok c)
  ↔ validInputs getInput getBooleanInput GITHUB_REPOSITORY parseInt.
Proof.
  unfold validInputs, keepInputValid, booleanInputValid. split.
  - intros [c Hc]. apply getConfig_Ok in Hc
      as (Htok & Htags & Hexcl & Hrepo & How & Hpa & Hre & Hkt & Hku & Hdu & Hgh & Hpt
          & Hdr & Hva & _).
    apply getConfig_repository_Ok in Hrepo as (o & p & Hr & Ho & Hp & Eo & Er & Ep & _).
    apply getConfig_keep_Ok in Hkt, Hku.
    apply getConfig_deleteUntagged_Ok in Hdu.
    apply getConfig_boolean_Ok in Hgh, Hpt, Hdr, Hva.
    split_and!.
    + done.
    + exists o, p. rewrite <- Eo, <- Er, <- Ep. done.
    + intros [H1 H2]. by rewrite H1, H2 in Htags.
    + intros Hg. rewrite Hg in Hkt. destruct Hkt as (n & ? & ? & _). by exists n.
    + intros Hg. rewrite Hg in Hku. destruct Hku as (n & ? & ? & _). by exists n.
    + intros (Hg1 & Hg2 & Hn0). rewrite Hg2 in Hku. destruct Hku as (n & Hn & Hpos & Hk).
      rewrite Hk, Hg1 in Hexcl. simpl in Hexcl. rewrite andb_true_r in Hexcl.
      apply negb_false_iff, bool_decide_eq_true in Hexcl.
      apply Hn0. rewrite Hn. f_equal. lia.
    + intros Hg. rewrite Hg in Hdu. by eexists.
    + intros Hg. rewrite Hg in Hgh. by eexists.
    + intros Hg. rewrite Hg in Hpt. by eexists.
    + intros Hg. rewrite Hg in Hdr. by eexists.
    + intros Hg. rewrite Hg in Hva. by eexists.
  - intros (Htok & (o & p & Hr & Ho & Hp & How & Hpa & Hre) & Htags & Hkt & Hku & Hexcl
            & Hdu & Hgh & Hpt & Hdr & Hva).
    assert (∀ name, (isGiven name = true → ∃ n, parseInt (getInput name) = Some n ∧ (0 ≤ n)%Z) →
              ∃ k, getConfig_keep getInput parseInt name = Ok k) as Hkeep.
    { intros name Hv. destruct (isGiven name) eqn:Hg.
      - destruct (Hv eq_refl) as (n & Hn & Hpos). exists (Some (Z.to_nat n)).
        apply getConfig_keep_Ok. rewrite Hg. by exists n.
      - exists None. apply getConfig_keep_Ok. by rewrite Hg. }
    assert (∀ name, (isGiven name = true → is_Some (getBooleanInput name)) →
              ∃ b, getConfig_boolean getInput getBooleanInput name = Ok b) as Hbool.
    { intros name Hv. destruct (isGiven name) eqn:Hg.
      - destruct (Hv eq_refl) as [b Hb]. exists b. apply getConfig_boolean_Ok.
        by rewrite Hg.
      - exists false. apply getConfig_boolean_Ok. by rewrite Hg. }
    destruct (Hkeep _ Hkt) as [kt Hkt']. destruct (Hkeep _ Hku) as [ku Hku'].
    destruct (Hbool _ Hgh) as [gh Hgh']. destruct (Hbool _ Hpt) as [pt Hpt'].
    destruct (Hbool _ Hdr) as [dr Hdr']. destruct (Hbool _ Hva) as [va Hva'].
    assert (∃ du, getConfig_deleteUntagged getInput getBooleanInput = Ok du) as [du Hdu'].
    { destruct (isGiven "delete-untagged") eqn:Hg.
      - destruct (Hdu eq_refl) as [b Hb]. exists b. apply getConfig_deleteUntagged_Ok.
        by rewrite Hg.
      - eexists. apply getConfig_deleteUntagged_Ok. by rewrite Hg. }
    eexists {| Settings.action := {| Config.keepNtagged := kt; Config.keepNuntagged := ku;
                                     Config.deleteUntagged := du;
                                     Config.deleteGhostImages := gh;
                                     Config.deletePartialImages := pt;
                                     Config.validate := va |};
               Settings.dryRun := dr; Settings.owner := orPart "owner" o;
               Settings.repository := orPart "repository" p;
               Settings.package := orPart "package" p;
               Settings.defaultPackageUsed := negb (isGiven "package") |}.
    apply getConfig_Ok. simpl. split_and!; try done.
    + destruct (isGiven "tags"), (isGiven "delete-tags"); try done. by destruct Htags.
    + apply getConfig_keep_Ok in Hku'.
      destruct (isGiven "delete-untagged") eqn:Hg1; [|by rewrite andb_false_r].
      rewrite andb_true_r. destruct (isGiven "keep-n-untagged") eqn:Hg2; [|by subst].
      destruct Hku' as (n & Hn & Hpos & ->). simpl.
      apply negb_false_iff, bool_decide_eq_true.
      destruct (decide (n = 0%Z)) as [->|Hne]; [done|].
      destruct Hexcl. split_and!; [done..|]. rewrite Hn. by intros [= ->].
    + apply getConfig_repository_Ok. by exists o, p.
Qed.

(** X13. The identity of the package in a configuration that [getConfig]
    returns: [GITHUB_REPOSITORY] is an owner and a name with a slash
    between them; [owner] is the input of that name or else that owner,
    [repository] and [package] are their inputs or else that name;
    [defaultPackageUsed] tells that the package input was not isGiven; none
    of the three is empty, and the token is the token input. *)
Theorem getConfig_repository_defaults (c : Settings.t) :
  theConfig = Ok c →
  ∃ o p, GITHUB_REPOSITORY = Some (o +:+ String "/"%char p)
         ∧ hasChar "/"%char o = false ∧ hasChar "/"%char p = false
         ∧ Settings.owner c = orPart "owner" o
         ∧ Settings.repository c = orPart "repository" p
         ∧ Settings.package c = orPart "package" p
         ∧ Settings.defaultPackageUsed c = negb (isGiven "package")
         ∧ Settings.owner c ≠ "" ∧ Settings.repository c ≠ "" ∧ Settings.package c ≠ ""
         ∧ Settings.token c = getInput "token" ∧ Settings.token c ≠ "".
Proof.
  intros Hc. apply getConfig_Ok in Hc
    as (Htok & _ & _ & Hrepo & How & Hpa & Hre & _ & _ & _ & _ & _ & _ & _ & _ & _ & _
        & _ & _ & _ & Htoken).
  apply getConfig_repository_Ok in Hrepo as (o & p & Hr & Ho & Hp & Eo & Er & Ep & Ed).
  exists o, p. split_and!; try done. rewrite Htoken. by apply truthy_Some.
Qed.


(** X15. [keep-n-untagged] at 0 passes the check against [delete-untagged];
    the configuration returned then keeps no untagged image, whatever
    [delete-untagged] says: the untagged step of [run] selects what
    [deleteUntagged] selects. *)
Theorem getConfig_keep_zero_untagged {R : Type} `{PackageSnapshot R} {engine : ArraySort}
    (c : Settings.t) :
  theConfig = Ok c →
  isGiven "keep-n-untagged" = true → parseInt (getInput "keep-n-untagged") = Some 0%Z →
  Config.keepNuntagged (Settings.action c) = Some 0
  ∧ ∀ (s t t' : CleanupAction R),
      run_untagged (Settings.action c) s = Ok t → deleteUntagged s = Ok t' →
      filterSet t = filterSet t' ∧ ∀ d, d ∈ deleteSet t ↔ d ∈ deleteSet t'.
Proof.
  intros Hc Hg Hn. apply getConfig_Ok in Hc as (_ & _ & _ & _ & _ & _ & _ & _ & Eku & _).
  apply getConfig_keep_Ok in Eku. rewrite Hg in Eku. destruct Eku as (n & Hn' & _ & Ek).
  rewrite Hn in Hn'. injection Hn' as <-. change (Z.to_nat 0) with 0 in Ek.
  split; [done|]. intros s t t'. unfold run_untagged. rewrite Ek.
  by apply keepNuntagged_zero_sets.
Qed.

End GetConfigProperties.

(** With the token and [keep-n-tagged] given in the repository
    [acme/app]: owner, repository and package are filled in from the
    environment. *)
Lemma getConfig_repository_defaults_witness :
  ∃ c, getConfig Ex.inputs Ex.booleans (Some "acme/app") Ex.numbers Ex.intervals Ex.lower
       = Ok c
       ∧ Settings.owner c = "acme" ∧ Settings.repository c = "app"
       ∧ Settings.package c = "app" ∧ Settings.defaultPackageUsed c = true
       ∧ Config.keepNtagged (Settings.action c) = Some 2.
Proof.
  destruct (getConfig Ex.inputs Ex.booleans (Some "acme/app") Ex.numbers Ex.intervals
              Ex.lower) as [c| |] eqn:Hc; [|vm_compute in Hc; discriminate Hc..].
  exists c. split; [done|].
  destruct (getConfig_repository_defaults _ _ _ _ _ _ c Hc)
    as (o & p & Hr & Ho & Hp & -> & -> & -> & -> & _).
  assert (o = "acme" ∧ p = "app") as [-> ->].
  { assert (split "/" "acme/app" = [o; p]) as Hs by (injection Hr as ->; by apply split_two).
    vm_compute in Hs. by injection Hs as <- <-. }
  split_and!; [reflexivity..|].
  vm_compute in Hc. by injection Hc as <-.
Defined.


(** With [keep-n-untagged] at 0 and [delete-untagged] at false the
    configuration is returned, and both untagged images are selected. *)
Lemma getConfig_keep_zero_untagged_witness :
  ∃ c t, getConfig Ex.zeroInputs Ex.booleans (Some "acme/app") Ex.numbers Ex.intervals
           Ex.lower = Ok c
         ∧ Config.deleteUntagged (Settings.action c) = false
         ∧ run_untagged (Settings.action c) Ex.datedAction = Ok t
         ∧ filterSet t = ["sha256:a"; "sha256:b"; "sha256:e"].
Proof.
  destruct (getConfig Ex.zeroInputs Ex.booleans (Some "acme/app") Ex.numbers Ex.intervals
              Ex.lower) as [c| |] eqn:Hc; [|vm_compute in Hc; discriminate Hc..].
  destruct (getConfig_keep_zero_untagged _ _ _ _ _ _ c Hc eq_refl eq_refl) as [Hk Hsel].
  destruct (run_untagged (Settings.action c) Ex.datedAction) as [t| |] eqn:Ht;
    [|vm_compute in Hc; injection Hc as <-; vm_compute in Ht; discriminate Ht..].
  destruct (deleteUntagged Ex.datedAction) as [t'| |] eqn:Ht';
    [|vm_compute in Ht'; discriminate Ht'..].
  exists c, t. destruct (Hsel Ex.datedAction t t' Ht Ht') as [Hfs _].
  split_and!; [done| |done|].
  - vm_compute in Hc. by injection Hc as <-.
  - rewrite Hfs. vm_compute in Ht'. by injection Ht' as <-.
Defined.

(** The classifier at 0 and [deleteUntagged] on the example. *)
Lemma keepNuntagged_zero_is_deleteUntagged_witness :
  ∃ t t', keepNuntagged Ex.keepZeroConfig Ex.datedAction = Ok t
          ∧ deleteUntagged Ex.datedAction = Ok t'
          ∧ filterSet t = filterSet t'
          ∧ "sha256:u" ∈ deleteSet t.
Proof.
  destruct (keepNuntagged Ex.keepZeroConfig Ex.datedAction) as [t| |] eqn:Ht;
    [|vm_compute in Ht; discriminate Ht..].
  destruct (deleteUntagged Ex.datedAction) as [t'| |] eqn:Ht';
    [|vm_compute in Ht'; discriminate Ht'..].
  exists t, t'.
  destruct (keepNuntagged_zero_is_deleteUntagged Ex.keepZeroConfig Ex.datedAction t t'
              eq_refl Ht Ht') as [Hfs Hds].
  split_and!; [done..|]. apply Hds. vm_compute in Ht'. injection Ht' as <-.
  apply (bool_decide_unpack _). vm_compute. exact I.
Defined.

(** With a cut-off of 300000 years before today, which is no date, and
    with one of five units before the instant 20, which the packages dated
    20 and 30 are too recent for. *)
Lemma reload_dated_cutOffs :
  (∃ t, reload Ex.exact Ex.ancientConfig Ex.today (newAction Ex.dated) = Ok t
        ∧ filterSet t = ["sha256:a"; "sha256:b"; "sha256:c"; "sha256:e"; "sha256:u"])
  ∧ (∃ t, reload Ex.exact Ex.trimConfig (Ex.clock 25) (newAction Ex.dated) = Ok t
          ∧ filterSet t = ["sha256:a"; "sha256:u"]).
Proof.
  split; (eexists; split; [vm_compute; reflexivity|reflexivity]).
Qed.

(** On the example of the two indexes [reload] leaves the two indexes as
    candidates and records both parents of the shared child. *)
Lemma reload_postcondition_witness :
  deleteSet Ex.multiAction = []
  ∧ recordedParent Ex.multiAction "sha256:c" "sha256:p2"
  ∧ (∀ d, d ∈ filterSet Ex.multiAction → ¬ isChildOfKnown (collab Ex.multiAction) d).
Proof.
  destruct (reload_postcondition Ex.exact Ex.config0 (Ex.clock 0) (newAction Ex.multi) Ex.multiAction
              reload_multi) as (_ & _ & Hds & _ & _ & _ & _ & _ & Hpar & Hfs).
  split_and!; [done| |].
  - apply Hpar. split_and!; [right; by left|do 2 right; by left|].
    eexists _, _. split_and!; [vm_compute; reflexivity|reflexivity|by left].
  - intros d Hd. by apply Hfs in Hd as (_ & ? & _).
Defined.

(** ** Selection *)

Section SingleTags.
Context {R : Type} `{Collaborators R} {engine : ArraySort}.
Variable wcmatch : string → string → bool.
Variable config : Config.t.
Variable now : Clock.
Implicit Types s t u : CleanupAction R.

(** What the standard loop computes: the move of the digests the tags
    resolve to, in the order of the tags. *)
Lemma deleteByTag_standard_moveAll (l : list string) s t :
  forEach l deleteByTag_standard s = Ok t →
  ∃ ds, Forall2 (λ tag d, getTagDigest (collab s) tag = Some d) l ds ∧ t = moveAll ds s.
Proof.
  revert s. induction l as [|tag l IH]; intros s Hl.
  - injection Hl as <-. exists []. split; [constructor|done].
  - cbn [forEach] in Hl. apply bind_Ok in Hl as (u & Hu & Hl).
    unfold deleteByTag_standard in Hu. apply bind_Ok in Hu as (md & Hmd%req_Ok & Hu).
    injection Hu as <-. destruct (IH _ Hl) as (ds & Hds & ->).
    exists (md :: ds). split; [by constructor|done].
Qed.

(** X16. [deleteByTag] where no deletable tag sits on an image with
    several tags: the method makes no call and changes nothing but the two
    working sets; the digests that a deletable tag resolves to, the package
    carrying that tag alone, leave [filterSet], and [deleteSet] gains
    exactly these digests. *)
Theorem deleteByTag_selects_single_tagged s t :
  truthy (Config.deleteTags config) = true →
  (∀ tag pkg, deletableTag wcmatch config s tag → resolvesTo (collab s) tag pkg →
              (length (Package.tags pkg) ≤ 1)%nat) →
  deleteByTag wcmatch config now s = Ok t →
  only_sets_differ s t
  ∧ (∀ d, d ∈ filterSet t ↔ d ∈ filterSet s ∧ ¬ selectedByTag wcmatch config s d)
  ∧ (∀ d, d ∈ deleteSet t ↔ d ∈ deleteSet s ∨ selectedByTag wcmatch config s d).
Proof.
  intros Hon Hsingle Hd. unfold deleteByTag in Hd. rewrite Hon in Hd.
  apply bind_Ok in Hd as (mt & Hmt & Hd).
  pose proof (deleteByTag_matchTags_spec wcmatch config s mt Hmt) as Hmatch.
  assert (∃ st, (∀ tag, tag ∈ st ↔ scanned s mt tag (λ n, n = 1))
                ∧ forEach st deleteByTag_standard s = Ok t) as (st & Hst & Hrun).
  { destruct (bool_decide (0 < length mt)) eqn:Hpos.
    - apply bind_Ok in Hd as ([ut st] & Hscan & Hd).
      pose proof (deleteByTag_prescan_forEach wcmatch s mt _ _ Hscan) as Hsc.
      assert (ut = []) as ->.
      { destruct ut as [|x ut]; [done|exfalso].
        destruct (Hsc x) as [Hu _]. simpl in Hu.
        destruct (proj1 Hu) as [[]%elem_of_nil|(Hin & Hex & pkg & Hres & Hlen)]; [by left|].
        apply Hmatch in Hin as (d & p & ? & ? & ? & ?).
        assert (deletableTag wcmatch config s x) as Hdel
          by (split_and!; [done..|by exists d, p]).
        pose proof (Hsingle x pkg Hdel Hres). lia. }
      apply bind_Ok in Hd as ([s1 st1] & H1 & Hd).
      apply bind_Ok in Hd as (s2 & H2 & Hd).
      rewrite bool_decide_eq_false_2 in H1, H2 by (simpl; lia).
      injection H1 as <- <-. injection H2 as <-.
      exists st. split.
      + intros tag. destruct (Hsc tag) as [_ Hs]. simpl in Hs. rewrite Hs.
        split; [by intros [[]%elem_of_nil|?]|by right].
      + destruct (bool_decide (0 < length st)) eqn:Hpos'; [done|].
        apply bool_decide_eq_false in Hpos'.
        destruct st; [done|simpl in Hpos'; lia].
    - injection Hd as <-. exists []. split; [|done].
      apply bool_decide_eq_false in Hpos.
      destruct mt; [|simpl in Hpos; lia].
      intros tag. split; [by intros ?%elem_of_nil|by intros [?%elem_of_nil _]]. }
  apply deleteByTag_standard_moveAll in Hrun as (ds & Hds & ->).
  assert (∀ d, d ∈ ds ↔ selectedByTag wcmatch config s d) as Hsel.
  { intros d. split.
    - intros [i Hi]%list_elem_of_lookup.
      destruct (Forall2_lookup_r _ _ _ _ _ Hds Hi) as (tag & Htag & Hres).
      apply list_elem_of_lookup_2, Hst in Htag as (Hin & Hex & pkg & (d' & Hd' & Hpkg) & Hlen).
      rewrite Hres in Hd'. injection Hd' as <-.
      apply Hmatch in Hin as (d0 & p & ? & ? & ? & ?).
      exists tag, pkg. split_and!; [|done..]. split_and!; [done..|by exists d0, p].
    - intros (tag & pkg & (Hw & Hex & d0 & p & ? & ? & ?) & Hres & Hpkg & Hlen).
      assert (tag ∈ st) as [i Hi]%list_elem_of_lookup.
      { apply Hst. split_and!; [|done|].
        - apply Hmatch. by exists d0, p.
        - exists pkg. split; [by exists d|done]. }
      destruct (Forall2_lookup_l _ _ _ _ _ Hds Hi) as (d' & Hd' & Hres').
      rewrite Hres in Hres'. injection Hres' as <-. by eapply list_elem_of_lookup_2. }
  destruct (moveAll_spec ds s) as (Hdiff & Hf & Hdel).
  split_and!; [done| |].
  - intros d. rewrite Hf, elem_of_without, Hsel. done.
  - intros d. rewrite Hdel, Hsel. done.
Qed.

End SingleTags.

(** On the example [v1] is the only tag of [sha256:a]: the digest moves
    to [deleteSet] and the trace stays as it was. *)
Lemma deleteByTag_selects_single_tagged_witness :
  ∃ t, deleteByTag Ex.exact Ex.taggedConfig (Ex.clock 0) Ex.datedAction = Ok t
       ∧ events t = events Ex.datedAction
       ∧ "sha256:a" ∈ deleteSet t ∧ "sha256:a" ∉ filterSet t.
Proof.
  destruct (deleteByTag Ex.exact Ex.taggedConfig (Ex.clock 0) Ex.datedAction) as [t| |] eqn:Ht;
    [|vm_compute in Ht; discriminate Ht..].
  exists t. split; [done|].
  assert (selectedByTag Ex.exact Ex.taggedConfig Ex.datedAction "sha256:a") as Hsel.
  { eexists "v1", _. split_and!; [split_and!| | |].
    - reflexivity.
    - apply (bool_decide_unpack _). vm_compute. exact I.
    - eexists "sha256:a", _. split_and!; [by left|vm_compute; reflexivity|by left].
    - vm_compute. reflexivity.
    - vm_compute. reflexivity.
    - reflexivity. }
  destruct (deleteByTag_selects_single_tagged Ex.exact Ex.taggedConfig (Ex.clock 0) Ex.datedAction t
              eq_refl) as (Hdiff & Hf & Hdel); [|done|].
  { intros tag pkg (Hw & _) (d & Hd & Hpkg).
    apply bool_decide_eq_true in Hw. simpl in Hw. subst tag.
    vm_compute in Hd. injection Hd as <-.
    vm_compute in Hpkg. injection Hpkg as <-. simpl. lia. }
  split_and!.
  - by apply only_sets_differ_events.
  - apply Hdel. by right.
  - rewrite Hf. by intros [_ ?].
Defined.

Section Candidates.
Context {R : Type} `{PackageSnapshot R} {engine : ArraySort}.
Variable wcmatch : string → string → bool.
Variable config : Config.t.
Variable now : Clock.
Implicit Types s t u : CleanupAction R.

Lemma selectsCandidates_refl s : selectsCandidates s s.
Proof. split; [done|]. intros d. split; [by left|]. by intros [?|[? ?]]. Qed.

Lemma selectsCandidates_trans s t u :
  selectsCandidates s t → selectsCandidates t u → selectsCandidates s u.
Proof.
  intros [Hf1 Hd1] [Hf2 Hd2]. split; [by auto|].
  intros d. rewrite Hd2, Hd1. split.
  - intros [[?|[? ?]]|[? ?]]; [by left|right..]; split; auto.
  - intros [?|[Hs Hu]]; [by left; left|].
    destruct (decide (d ∈ filterSet t)); [by right|left; by right].
Qed.

Lemma selectsCandidates_workingSets s t :
  workingSets t = workingSets s → selectsCandidates s t.
Proof.
  unfold workingSets. intros [= Hf Hd]. unfold selectsCandidates. rewrite Hf, Hd.
  apply selectsCandidates_refl.
Qed.

(** Moving candidates selects candidates. *)
Lemma selectsCandidates_moveAll (ds : list string) s :
  (∀ d, d ∈ ds → d ∈ filterSet s) → selectsCandidates s (moveAll ds s).
Proof.
  intros Hin. destruct (moveAll_spec ds s) as (_ & Hf & Hd). split.
  - intros d. rewrite Hf, elem_of_without. tauto.
  - intros d. rewrite Hd, Hf, elem_of_without. split.
    + intros [?|Hds]; [by left|right]. split; [by apply Hin|]. by intros [_ ?].
    + intros [?|[Hs Hn]]; [by left|right].
      destruct (decide (d ∈ ds)); [done|]. by destruct Hn.
Qed.

Lemma classify_selectsCandidates test s t :
  forEach (filterSet s) (classify_body test) s = Ok t → selectsCandidates s t.
Proof.
  intros (_ & Hf & Hd)%classify_forEach. split.
  - intros d. rewrite Hf. tauto.
  - intros d. rewrite Hd, Hf. split.
    + intros [?|[? ?]]; [by left|right]. split; [done|]. by intros [_ []].
    + intros [?|[Hs Hn]]; [by left|right]. split; [done|].
      destruct (selects test (collab s) d); [done|]. destruct Hn. split; [done|].
      by intros [_ ?].
Qed.

(** The packages of the candidates carry the candidates' digests. *)
Lemma kept_names (sel : Package.t → Prop) `{!∀ p, Decision (sel p)} (keep : nat) s
    (pkgs : list Package.t) :
  mapM (λ digest, req (getPackageByDigest (collab s) digest)) (filterSet s) = Ok pkgs →
  ∀ d, d ∈ Package.name <$> drop keep (sortBy byDateDescending (filter sel pkgs)) →
       d ∈ filterSet s.
Proof.
  intros Hm%mapM_Ok d (p & -> & Hp%subseteq_drop)%list_elem_of_fmap.
  rewrite sortBy_Permutation in Hp. apply list_elem_of_filter in Hp as [_ Hp].
  apply list_elem_of_lookup in Hp as [i Hi].
  destruct (Forall2_lookup_r _ _ _ _ _ Hm Hi) as (d & Hd & Hreq%req_Ok).
  rewrite (getPackageByDigest_name _ _ _ Hreq). by eapply list_elem_of_lookup_2.
Qed.

Lemma keepNtagged_selectsCandidates s t :
  keepNtagged config s = Ok t → selectsCandidates s t.
Proof.
  destruct (Config.keepNtagged config) as [keep|] eqn:Hk.
  - rewrite (keepNtagged_moveAll config keep s Hk).
    intros (pkgs & Hm & [= <-])%bind_Ok.
    apply selectsCandidates_moveAll. by eapply kept_names.
  - unfold keepNtagged. rewrite Hk. intros [= <-]. apply selectsCandidates_refl.
Qed.

Lemma keepNuntagged_selectsCandidates s t :
  keepNuntagged config s = Ok t → selectsCandidates s t.
Proof.
  destruct (Config.keepNuntagged config) as [keep|] eqn:Hk.
  - rewrite (keepNuntagged_moveAll config keep s Hk).
    intros (pkgs & Hm & [= <-])%bind_Ok.
    apply selectsCandidates_moveAll. by eapply kept_names.
  - unfold keepNuntagged. rewrite Hk. intros [= <-]. apply selectsCandidates_refl.
Qed.

Lemma deleteUntagged_selectsCandidates s t :
  deleteUntagged s = Ok t → selectsCandidates s t.
Proof.
  unfold deleteUntagged. intros ->%deleteUntagged_forEach.
  apply selectsCandidates_moveAll. by intros d [_ ?]%list_elem_of_filter.
Qed.

(** X17. A run without [delete-tags] and without validation selects among
    the candidates it starts with: [filterSet] only loses digests, a
    candidate that leaves it is in [deleteSet] at the end, and [deleteSet]
    gains no other digest. So a digest that the reload has kept out of
    [filterSet] is never selected by the classifiers, whichever of them
    are switched on. *)
Theorem run_selects_candidates (fuel : nat) s t :
  truthy (Config.deleteTags config) = false → Config.validate config = false →
  run wcmatch config now fuel s = Ok t →
  (∀ d, d ∈ filterSet t → d ∈ filterSet s)
  ∧ (∀ d, d ∈ filterSet s → d ∈ filterSet t ∨ d ∈ deleteSet t)
  ∧ (∀ d, d ∈ deleteSet t → d ∈ deleteSet s ∨ d ∈ filterSet s).
Proof.
  intros Htags Hval Hrun. unfold run in Hrun. rewrite Htags, Hval in Hrun.
  apply bind_Ok in Hrun as (s1 & [= <-] & Hrun).
  apply bind_Ok in Hrun as (s2 & H2 & Hrun).
  apply bind_Ok in Hrun as (s3 & H3 & Hrun).
  apply bind_Ok in Hrun as (s4 & H4 & Hrun).
  apply bind_Ok in Hrun as (s5 & H5 & [= <-]).
  assert (selectsCandidates s s2) as C2.
  { unfold run_partialOrGhost in H2.
    destruct (Config.deletePartialImages config);
      [by apply (classify_selectsCandidates isPartialImage)|].
    destruct (Config.deleteGhostImages config);
      [by apply (classify_selectsCandidates isGhostImage)|].
    injection H2 as <-. apply selectsCandidates_refl. }
  assert (selectsCandidates s2 s3) as C3.
  { destruct (Config.keepNtagged config) eqn:Hk;
      [by apply keepNtagged_selectsCandidates|].
    injection H3 as <-. apply selectsCandidates_refl. }
  assert (selectsCandidates s3 s4) as C4.
  { unfold run_untagged in H4. destruct (Config.keepNuntagged config) eqn:Hk;
      [by apply keepNuntagged_selectsCandidates|].
    destruct (Config.deleteUntagged config);
      [by apply deleteUntagged_selectsCandidates|].
    injection H4 as <-. apply selectsCandidates_refl. }
  assert (selectsCandidates s4 s5) as C5
    by (by eapply selectsCandidates_workingSets, doDelete_workingSets).
  destruct (selectsCandidates_trans _ _ _ C2
              (selectsCandidates_trans _ _ _ C3 (selectsCandidates_trans _ _ _ C4 C5)))
    as [Hf Hd].
  split_and!; [done| |].
  - intros d Hs. destruct (decide (d ∈ filterSet s5)); [by left|right].
    apply Hd. by right.
  - intros d [?|[? _]]%Hd; [by left|by right].
Qed.

End Candidates.

(** On the example the run keeps two tagged images and one untagged one:
    [sha256:a] and [sha256:u] are selected, the three others stay. *)
Lemma run_selects_candidates_witness :
  ∃ t, run Ex.exact Ex.keepConfig (Ex.clock 0) 5 Ex.datedAction = Ok t
       ∧ (∀ d, d ∈ deleteSet t → d ∈ filterSet Ex.datedAction)
       ∧ ("sha256:b" ∈ filterSet t ∨ "sha256:b" ∈ deleteSet t).
Proof.
  destruct (run Ex.exact Ex.keepConfig (Ex.clock 0) 5 Ex.datedAction) as [t| |] eqn:Ht;
    [|vm_compute in Ht; discriminate Ht..].
  exists t. split; [done|].
  destruct (run_selects_candidates Ex.exact Ex.keepConfig (Ex.clock 0) 5 Ex.datedAction t
              eq_refl eq_refl Ht) as (_ & Hs & Hd).
  split.
  - intros d [[]%elem_of_nil|?]%Hd. done.
  - apply Hs. right. by left.
Defined.
